(** * Certificate chain validation of gpgsm (sm/certchain.c)

    A shallow embedding of [sm/certchain.c] and proofs about it.

    Conventions of the embedding.
    - C strings are [string]s (their contents without the terminating NUL);
      a [char *] that may be NULL is an [option string].
    - [int] and [gpg_error_t] results are values of [gpg_error_t] below.
    - Certificate objects ([ksba_cert_t]) are handles: an object identity
      together with the immutable certificate it was parsed from.  The
      per-object user data lives in the program state.
    - The collaborators outside this file (gpg-agent, dirmngr, the signature
      primitive, the qualified list, libksba's allocator) are the fields of a
      [world]; every answer may depend on the history of calls made so far.
    - Diagnostic output ([do_list], [log_info], [log_error], the dump
      functions) has no influence on any result and is not modelled; the
      [listmode] argument is kept only where it steers control flow.
      Reference counting and [xfree] are not modelled either. *)

From Stdlib Require Import ZArith List String Ascii Bool Arith Lia.
From Stdlib Require Import OrdersEx RelationClasses.
Import ListNotations.

Local Open Scope string_scope.
Local Open Scope list_scope.

(* ================================================================== *)
(** * Error values (libgpg-error) *)

(** The error codes this file produces or tests for.  Codes are only ever
    compared for equality, so the enumeration of [gpg-error.h] is kept as
    an enumeration. *)
Inductive gpg_err_code_t : Type :=
| GPG_ERR_GENERAL
| GPG_ERR_BAD_SIGNATURE
| GPG_ERR_NO_VALUE
| GPG_ERR_NOT_FOUND
| GPG_ERR_BAD_CERT
| GPG_ERR_NO_DATA
| GPG_ERR_NOT_SUPPORTED
| GPG_ERR_BAD_CERT_CHAIN
| GPG_ERR_MISSING_CERT
| GPG_ERR_NO_POLICY_MATCH
| GPG_ERR_UNSUPPORTED_CERT
| GPG_ERR_BAD_CA_CERT
| GPG_ERR_CERT_REVOKED
| GPG_ERR_NO_CRL_KNOWN
| GPG_ERR_CRL_TOO_OLD
| GPG_ERR_LINE_TOO_LONG
| GPG_ERR_NOT_TRUSTED
| GPG_ERR_CANCELED
| GPG_ERR_CERT_EXPIRED
| GPG_ERR_CERT_TOO_YOUNG
| GPG_ERR_CONFIGURATION
| GPG_ERR_INCOMPLETE_LINE
| GPG_ERR_EOF
| GPG_ERR_ENOMEM
| GPG_ERR_BUFFER_TOO_SHORT
| GPG_ERR_ERRNO (e : Z)        (* gpg_err_code_from_errno (e) *)
| GPG_ERR_CODE (n : Z).        (* any code not named above *)

Inductive gpg_err_source_t : Type :=
| GPG_ERR_SOURCE_GPGSM         (* GPG_ERR_SOURCE_DEFAULT of this program *)
| GPG_ERR_SOURCE_GPGAGENT
| GPG_ERR_SOURCE_DIRMNGR
| GPG_ERR_SOURCE_KSBA
| GPG_ERR_SOURCE_KEYBOX
| GPG_ERR_SOURCE_OTHER (n : Z).

(** What an [int rc] or a [gpg_error_t] holds in this file: zero, the
    [-1] that the key database and [find_up] use for "not found", or an
    error made of a source and a non-zero code. *)
Inductive gpg_error_t : Type :=
| rc_0
| rc_m1
| GPG (src : gpg_err_source_t) (code : gpg_err_code_t).

Definition gpg_err_code_eq_dec (a b : gpg_err_code_t) : {a = b} + {a <> b}.
Proof. decide equality; apply Z.eq_dec. Defined.

Definition code_eqb (a b : gpg_err_code_t) : bool :=
  if gpg_err_code_eq_dec a b then true else false.

(** [gpg_error (code)]: an error of the default source. *)
Definition gpg_error (c : gpg_err_code_t) : gpg_error_t :=
  GPG GPG_ERR_SOURCE_GPGSM c.

(** The C truth value of [rc]. *)
Definition failed (rc : gpg_error_t) : bool :=
  match rc with rc_0 => false | _ => true end.

(** [gpg_err_code (rc) == c]. *)
Definition has_code (rc : gpg_error_t) (c : gpg_err_code_t) : bool :=
  match rc with
  | GPG _ c' => code_eqb c' c
  | _ => false
  end.

(** [rc == -1]. *)
Definition is_m1 (rc : gpg_error_t) : bool :=
  match rc with rc_m1 => true | _ => false end.

(* ================================================================== *)
(** * C strings and stdio *)

Definition NUL : ascii := "000"%char.
Definition LF : ascii := "010"%char.
Definition TAB : ascii := "009"%char.

(** [spacep (p)] of jnlib: a blank or a tab. *)
Definition spacep (c : ascii) : bool :=
  Ascii.eqb c " "%char || Ascii.eqb c TAB.

Fixpoint skip_spaces (s : string) : string :=
  match s with
  | String c r => if spacep c then skip_spaces r else s
  | EmptyString => s
  end.

(** The C string held by a buffer: its bytes up to the first NUL. *)
Fixpoint cstr (raw : string) : string :=
  match raw with
  | EmptyString => EmptyString
  | String c r => if Ascii.eqb c NUL then EmptyString else String c (cstr r)
  end.

(** [line[strlen(line)-1]] for a non-empty [line]. *)
Fixpoint last_char (s : string) : option ascii :=
  match s with
  | EmptyString => None
  | String c EmptyString => Some c
  | String _ r => last_char r
  end.

(** [strstr (hay, needle) != NULL]. *)
Definition strstr_found (hay needle : string) : bool :=
  match String.index 0 needle hay with Some _ => true | None => false end.

(** [strstr (hay + from, needle)] as an offset into [hay]. *)
Definition strstr_from (hay : string) (from : nat) (needle : string) : option nat :=
  String.index from needle hay.

(** The prefix of [s] before the first of the characters [" :\n"], and
    whether [strpbrk] found one. *)
Fixpoint strpbrk_token (s : string) : string * bool :=
  match s with
  | EmptyString => (EmptyString, false)
  | String c r =>
      if Ascii.eqb c " "%char || Ascii.eqb c ":"%char || Ascii.eqb c LF
      then (EmptyString, true)
      else let (t, f) := strpbrk_token r in (String c t, f)
  end.

(** An input stream opened for reading: the bytes not yet read, and the
    [errno] of a read error that strikes once they are used up (no error:
    end of file). *)
Record FILE : Type := mkFILE {
  f_data : string;
  f_errno : option Z
}.

Inductive fgets_result : Type :=
| FG_line (raw : string) (fp : FILE)   (* the buffer contents; the stream after *)
| FG_eof                               (* NULL, feof (fp) *)
| FG_error (errno : Z).                (* NULL, !feof (fp) *)

(** Take at most [n] characters of [s], stopping after a newline. *)
Fixpoint fgets_take (n : nat) (s : string) : string * string :=
  match n, s with
  | O, _ => (EmptyString, s)
  | _, EmptyString => (EmptyString, EmptyString)
  | S n', String c r =>
      if Ascii.eqb c LF then (String c EmptyString, r)
      else let (l, rest) := fgets_take n' r in (String c l, rest)
  end.

(** [fgets (buf, size, fp)]: at most [size-1] characters are stored. *)
Definition fgets (size : nat) (fp : FILE) : fgets_result :=
  let (raw, rest) := fgets_take (size - 1) (f_data fp) in
  let complete :=
    match last_char raw with
    | Some c => Ascii.eqb c LF || (String.length raw =? size - 1)%nat
    | None => false
    end in
  if complete then FG_line raw (mkFILE rest (f_errno fp))
  else
    match f_errno fp with
    | Some e => FG_error e
    | None =>
        match raw with
        | EmptyString => FG_eof
        | _ => FG_line raw (mkFILE rest None)
        end
    end.

(* ================================================================== *)
(** * Certificates (libksba accessors) *)

Definition ksba_isotime_t := string.

(** The authorityKeyIdentifier as [ksba_cert_get_auth_key_id] returns it:
    the keyIdentifier and the first issuer name with its serial number. *)
Record auth_key_id : Type := mkAKI {
  aki_keyid : option string;                 (* keyid, or NULL *)
  aki_issuer_sn : option (string * string)   (* ksba_name_enum (authid, 0), authidno *)
}.

Record ksba_cert : Type := mkCert {
  cert_image : option string;            (* ksba_cert_get_image *)
  cert_serial : string;
  cert_issuer : option string;           (* ksba_cert_get_issuer (cert, 0) *)
  cert_subject : option string;          (* ksba_cert_get_subject (cert, 0) *)
  cert_not_before : gpg_error_t * ksba_isotime_t;  (* ksba_cert_get_validity (cert, 0, ...) *)
  cert_not_after : gpg_error_t * ksba_isotime_t;   (* ksba_cert_get_validity (cert, 1, ...) *)
  cert_auth_key_id : option auth_key_id; (* None: the call returns an error *)
  cert_subj_key_id : option string;      (* None: the call returns an error *)
  cert_extensions : list (string * bool);(* (oid, crit) for idx = 0, 1, ... *)
  cert_ext_end : gpg_error_t;            (* the error that ends the enumeration *)
  cert_is_ca : gpg_error_t * bool * Z;   (* ksba_cert_is_ca: err, flag, pathlen *)
  cert_policies : gpg_error_t * string   (* ksba_cert_get_cert_policies *)
}.

(** Global options ([opt]) and the per-connection control ([ctrl]). *)
Record options : Type := mkOpt {
  no_chain_validation : bool;
  no_policy_check : bool;
  no_crl_check : bool;
  no_trusted_cert_crl_check : bool;
  ignore_expiration : bool;
  auto_issuer_key_retrieve : bool;
  policy_file : option string
}.

Record ctrl_t : Type := mkCtrl { use_ocsp : bool }.

(* ================================================================== *)
(** * check_cert_policy *)

(** Is [allowed] found in [policies] at the begin of a line and followed
    by a colon?  The loop over [strstr] of the source; [fuel] bounds the
    number of occurrences tried. *)
Fixpoint policy_listed (fuel : nat) (policies allowed : string) (from : nat) : bool :=
  match fuel with
  | O => false
  | S fuel' =>
      match strstr_from policies from allowed with
      | None => false
      | Some p =>
          let at_line_start :=
            match p with
            | O => true
            | S q => match String.get q policies with
                     | Some c => Ascii.eqb c LF
                     | None => false
                     end
            end in
          let colon_follows :=
            match String.get (p + String.length allowed) policies with
            | Some c => Ascii.eqb c ":"%char
            | None => false
            end in
          if negb at_line_start then policy_listed fuel' policies allowed (S p)
          else if negb colon_follows then policy_listed fuel' policies allowed (S p)
          else true
      end
  end.

(** The outcome at end of file, and when the file cannot be opened. *)
Definition policy_not_allowed (any_critical : bool) : gpg_error_t :=
  if negb any_critical then rc_0 else gpg_error GPG_ERR_NO_POLICY_MATCH.

Section PolicyLoop.
Variable policies : string.
Variable any_critical : bool.

(** "parse line" and the search of the token: [None] when the outer
    loop goes on to the next line.  (The line ends in a newline here, so
    [strpbrk] always finds a delimiter; the source relies on that.) *)
Definition policy_parse_line (line : string) : option gpg_error_t :=
  let allowed := skip_spaces line in
  let (token, found) := strpbrk_token allowed in
  if negb found || (String.length token =? 0)%nat
  then Some (gpg_error GPG_ERR_CONFIGURATION)
  else if policy_listed (S (String.length policies)) policies token 0
       then Some rc_0
       else None.

(** What happens to a line that passed the length check: it is skipped
    when empty or a comment, else parsed. *)
Definition policy_candidate (line : string) : option gpg_error_t :=
  match skip_spaces line with
  | EmptyString => None
  | String c _ =>
      if Ascii.eqb c LF || Ascii.eqb c "#"%char then None
      else policy_parse_line line
  end.

(** The [for (;;)] loop with its inner [do ... while]: both go back to
    [fgets].  Every round consumes input, so [fuel] above the length of
    the file is never used up. *)
Fixpoint policy_loop (fuel : nat) (fp : FILE) : option gpg_error_t :=
  match fuel with
  | O => None
  | S fuel' =>
      match fgets 255 fp with
      | FG_eof => Some (policy_not_allowed any_critical)
      | FG_error e => Some (gpg_error (GPG_ERR_ERRNO e))
      | FG_line raw fp' =>
          let line := cstr raw in
          let unterminated :=
            match last_char line with
            | Some c => negb (Ascii.eqb c LF)
            | None => true
            end in
          if unterminated
          then Some (gpg_error (match line with
                                | EmptyString => GPG_ERR_INCOMPLETE_LINE
                                | _ => GPG_ERR_LINE_TOO_LONG
                                end))
          else match policy_candidate line with
               | Some rc => Some rc
               | None => policy_loop fuel' fp'
               end
      end
  end.
End PolicyLoop.

(** [check_cert_policy (cert, listmode, fplist)].  [fopen] is the result
    of opening [opt.policy_file] ([None]: it cannot be opened). *)
Definition check_cert_policy (opt : options) (fopen : string -> option FILE)
    (cert : ksba_cert) : option gpg_error_t :=
  let (err, policies) := cert_policies cert in
  if has_code err GPG_ERR_NO_DATA || has_code err GPG_ERR_NO_VALUE then Some rc_0
  else if failed err then Some err
  else
    let any_critical := strstr_found policies ":C" in
    match policy_file opt with
    | None =>
        Some (if any_critical then gpg_error GPG_ERR_NO_POLICY_MATCH else rc_0)
    | Some name =>
        match fopen name with
        | None => Some (policy_not_allowed any_critical)
        | Some fp =>
            policy_loop policies any_critical (S (String.length (f_data fp))) fp
        end
    end.

(* ================================================================== *)
(** * Program state and collaborators *)

(** A certificate object: [ksba_cert_t].  Two objects made from the same
    certificate are different objects with their own user data. *)
Record cert_h : Type := mkH {
  h_id : nat;
  h_cert : ksba_cert
}.

Record rootca_flags_s : Type := mkRootcaFlags { relax : bool }.

Inductive keybox_flag : Type := KEYBOX_FLAG_VALIDITY.
Inductive validity_flag : Type := VALIDITY_REVOKED.

(** Calls that leave this file, in the order they were made (most recent
    first). *)
Inductive event : Type :=
| EvIsTrusted (c : ksba_cert)                  (* gpgsm_agent_istrusted *)
| EvMarkTrusted (c : ksba_cert)                (* gpgsm_agent_marktrusted *)
| EvCheckCertSig (issuer subject : ksba_cert)  (* gpgsm_check_cert_sig *)
| EvIsValid (subject issuer : ksba_cert) (ocsp : bool)  (* gpgsm_dirmngr_isvalid *)
| EvQualified (c : ksba_cert)                  (* gpgsm_is_in_qualified_list *)
| EvLookup (pattern : string)                  (* gpgsm_dirmngr_lookup *)
| EvUseCert (c : ksba_cert)                    (* gpgsm_cert_use_cert_p *)
| EvStatus (key : string) (rc : gpg_error_t)   (* gpgsm_status2 (STATUS_ERROR, ...) *)
| EvSetUserData (id : nat) (key data : string) (* ksba_cert_set_user_data *)
| EvKeydbNew.                                  (* keydb_new *)

Record state : Type := mkState {
  kdb_main : list ksba_cert;       (* the certificate store *)
  kdb_eph : list ksba_cert;        (* the ephemeral store *)
  kdb_flags : list (ksba_cert * keybox_flag * Z * validity_flag);
  next_id : nat;                   (* identity of the next certificate object *)
  user_data : list (nat * string * string);   (* (object, key, value), newest first *)
  marktrusted_info : list string;  (* fingerprints of roots already asked about *)
  no_more_questions : bool;        (* the static flag of gpgsm_validate_chain *)
  trace : list event
}.

Record world : Type := mkWorld {
  w_isotime : list event -> ksba_isotime_t;         (* gnupg_get_isotime *)
  w_fopen : string -> option FILE;                  (* fopen (opt.policy_file, "r") *)
  w_fingerprint : ksba_cert -> string;              (* gpgsm_get_fingerprint (.., SHA1, ..) *)
  w_keydb_new : list event -> bool;                 (* does keydb_new return a handle? *)
  w_istrusted : list event -> ksba_cert -> gpg_error_t * rootca_flags_s;
  w_marktrusted : list event -> ksba_cert -> gpg_error_t;
  w_check_cert_sig : list event -> ksba_cert -> ksba_cert -> gpg_error_t;
  w_isvalid : list event -> ksba_cert -> ksba_cert -> bool -> gpg_error_t;
  w_qualified : list event -> ksba_cert -> gpg_error_t * string;
  w_lookup : list event -> string -> gpg_error_t * list ksba_cert;
  w_use_cert_p : list event -> ksba_cert -> gpg_error_t;
  w_set_user_data : list event -> nat -> string -> string -> gpg_error_t
}.

Definition log (e : event) (st : state) : state :=
  mkState (kdb_main st) (kdb_eph st) (kdb_flags st) (next_id st) (user_data st)
          (marktrusted_info st) (no_more_questions st) (e :: trace st).

Definition set_kdb_eph (l : list ksba_cert) (st : state) : state :=
  mkState (kdb_main st) l (kdb_flags st) (next_id st) (user_data st)
          (marktrusted_info st) (no_more_questions st) (trace st).

Definition set_kdb_flags (l : list (ksba_cert * keybox_flag * Z * validity_flag))
    (st : state) : state :=
  mkState (kdb_main st) (kdb_eph st) l (next_id st) (user_data st)
          (marktrusted_info st) (no_more_questions st) (trace st).

Definition set_next_id (n : nat) (st : state) : state :=
  mkState (kdb_main st) (kdb_eph st) (kdb_flags st) n (user_data st)
          (marktrusted_info st) (no_more_questions st) (trace st).

Definition set_user_data (l : list (nat * string * string)) (st : state) : state :=
  mkState (kdb_main st) (kdb_eph st) (kdb_flags st) (next_id st) l
          (marktrusted_info st) (no_more_questions st) (trace st).

Definition set_marktrusted_info (l : list string) (st : state) : state :=
  mkState (kdb_main st) (kdb_eph st) (kdb_flags st) (next_id st) (user_data st)
          l (no_more_questions st) (trace st).

Definition set_no_more_questions (b : bool) (st : state) : state :=
  mkState (kdb_main st) (kdb_eph st) (kdb_flags st) (next_id st) (user_data st)
          (marktrusted_info st) b (trace st).

(* ------------------------------------------------------------------ *)
(** ** User data of certificate objects (libksba) *)

Definition user_data_lookup (st : state) (id : nat) (key : string) : option string :=
  match find (fun e => (fst (fst e) =? id)%nat && String.eqb (snd (fst e)) key)
             (user_data st) with
  | Some e => Some (snd e)
  | None => None
  end.

(** [ksba_cert_get_user_data (cert, key, buf, bufsize, &buflen)]. *)
Definition ksba_cert_get_user_data (st : state) (cert : cert_h) (key : string)
    (bufsize : nat) : gpg_error_t * string :=
  match user_data_lookup st (h_id cert) key with
  | None => (GPG GPG_ERR_SOURCE_KSBA GPG_ERR_NOT_FOUND, EmptyString)
  | Some d =>
      if (bufsize <? String.length d)%nat
      then (GPG GPG_ERR_SOURCE_KSBA GPG_ERR_BUFFER_TOO_SHORT, EmptyString)
      else (rc_0, d)
  end.

(** [ksba_cert_set_user_data (cert, key, data, datalen)]: it fails when
    the world says so (out of memory), and then stores nothing. *)
Definition ksba_cert_set_user_data (W : world) (st : state) (cert : cert_h)
    (key data : string) : gpg_error_t * state :=
  let err := w_set_user_data W (trace st) (h_id cert) key data in
  let st1 := log (EvSetUserData (h_id cert) key data) st in
  if failed err then (err, st1)
  else (rc_0, set_user_data ((h_id cert, key, data) :: user_data st1) st1).

(* ------------------------------------------------------------------ *)
(** ** The "already asked" fingerprints *)

Definition already_asked_marktrusted (W : world) (st : state) (cert : ksba_cert) : bool :=
  existsb (String.eqb (w_fingerprint W cert)) (marktrusted_info st).

(** (That [xtrycalloc] can fail, in which case nothing is recorded, is
    not modelled.) *)
Definition set_already_asked_marktrusted (W : world) (st : state) (cert : ksba_cert) : state :=
  if already_asked_marktrusted W st cert then st
  else set_marktrusted_info (w_fingerprint W cert :: marktrusted_info st) st.

(** [compare_certs (a, b)] as a truth value: it is 0 ([false]) when
    both images exist and are equal. *)
Definition compare_certs (a b : ksba_cert) : bool :=
  match cert_image a, cert_image b with
  | Some ia, Some ib => negb (String.eqb ia ib)
  | _, _ => true
  end.

(* ------------------------------------------------------------------ *)
(** ** unknown_criticals *)

Definition known_critical_oids : list string :=
  ["2.5.29.15"; "2.5.29.19"; "2.5.29.32"; "2.5.29.37"].

Definition unknown_criticals (cert : ksba_cert) : gpg_error_t :=
  let rc :=
    fold_left (fun rc (e : string * bool) =>
                 let (oid, crit) := e in
                 if negb crit then rc
                 else if existsb (String.eqb oid) known_critical_oids then rc
                 else gpg_error GPG_ERR_UNSUPPORTED_CERT)
              (cert_extensions cert) rc_0 in
  let err := cert_ext_end cert in
  if failed err && negb (has_code err GPG_ERR_EOF) && negb (has_code err GPG_ERR_NO_VALUE)
  then err else rc.

(* ================================================================== *)
(** * The key database *)

(** Modelled from the spec: the key database (keydb.c is not part of
    this file).  A handle is a cursor over the certificate store followed
    by the ephemeral store; the ephemeral store is visible only while the
    handle is in ephemeral mode.  A search starts at the cursor, stops on
    the next visible match and leaves the cursor behind it; "no more" is
    [-1]. *)
Record KEYDB_HANDLE : Type := mkKH {
  kh_pos : nat;              (* where the next search starts *)
  kh_found : option nat;     (* the certificate the last search stopped on *)
  kh_ephemeral : bool
}.

Definition keydb_entries (st : state) : list ksba_cert := kdb_main st ++ kdb_eph st.

(** Modelled from the spec: [keydb_search_reset] of keydb.c, "reset". *)
Definition keydb_search_reset (kh : KEYDB_HANDLE) : KEYDB_HANDLE :=
  mkKH 0 None (kh_ephemeral kh).

(** Modelled from the spec: [keydb_set_ephemeral] of keydb.c, which
    "toggles visibility of a second store, returns prior state". *)
Definition keydb_set_ephemeral (kh : KEYDB_HANDLE) (yes : bool) : bool * KEYDB_HANDLE :=
  (kh_ephemeral kh, mkKH (kh_pos kh) (kh_found kh) yes).

(** The first index at or after [pos] of a visible entry that satisfies
    [p]; [i] is the index of the head of [l]. *)
Fixpoint keydb_scan (p : ksba_cert -> bool) (visible : nat -> bool)
    (l : list ksba_cert) (i pos : nat) : option nat :=
  match l with
  | [] => None
  | c :: r =>
      if (pos <=? i)%nat && visible i && p c then Some i
      else keydb_scan p visible r (S i) pos
  end.

(** Modelled from the spec: the search of keydb.c, a stateful iterator
    that returns "no more" as a distinguished sentinel. *)
Definition keydb_search (st : state) (kh : KEYDB_HANDLE) (p : ksba_cert -> bool)
    : gpg_error_t * KEYDB_HANDLE :=
  let visible i := (i <? List.length (kdb_main st))%nat || kh_ephemeral kh in
  match keydb_scan p visible (keydb_entries st) 0 (kh_pos kh) with
  | Some i => (rc_0, mkKH (S i) (Some i) (kh_ephemeral kh))
  | None => (rc_m1, mkKH (List.length (keydb_entries st)) None (kh_ephemeral kh))
  end.

Definition opt_eqb (a : option string) (b : string) : bool :=
  match a with Some x => String.eqb x b | None => false end.

(** Modelled from the spec: [keydb_search_subject] of keydb.c,
    "search_subject(dn)". *)
Definition keydb_search_subject (st : state) (kh : KEYDB_HANDLE) (name : string) :=
  keydb_search st kh (fun c => opt_eqb (cert_subject c) name).

(** Modelled from the spec: [keydb_search_issuer_sn] of keydb.c,
    "search_issuer_serial(dn, serial)". *)
Definition keydb_search_issuer_sn (st : state) (kh : KEYDB_HANDLE)
    (issuer serial : string) :=
  keydb_search st kh
    (fun c => opt_eqb (cert_issuer c) issuer && String.eqb (cert_serial c) serial).

(** Modelled from the spec: [keydb_get_cert] of keydb.c, "get_cert
    (returns current)": a new object for the certificate the cursor is
    on, an error when it is on none. *)
Definition keydb_get_cert (st : state) (kh : KEYDB_HANDLE)
    : gpg_error_t * option cert_h * state :=
  match kh_found kh with
  | None => (rc_m1, None, st)
  | Some i =>
      match nth_error (keydb_entries st) i with
      | None => (rc_m1, None, st)
      | Some c => (rc_0, Some (mkH (next_id st) c), set_next_id (S (next_id st)) st)
      end
  end.

(** Modelled from the spec: [keydb_store_cert (cert, 1, NULL)] of
    keydb.c, "store_cert(cert, ephemeral)". *)
Definition keydb_store_cert_ephemeral (st : state) (cert : ksba_cert) : state :=
  set_kdb_eph (kdb_eph st ++ [cert]) st.

(** Modelled from the spec: [keydb_set_cert_flags (cert, which, idx,
    value)] of keydb.c; it fails when the certificate is not in the
    database. *)
Definition keydb_set_cert_flags (st : state) (cert : ksba_cert)
    (which : keybox_flag) (idx : Z) (value : validity_flag) : gpg_error_t * state :=
  if existsb (fun c => negb (compare_certs cert c)) (keydb_entries st)
  then (rc_0, set_kdb_flags ((cert, which, idx, value) :: kdb_flags st) st)
  else (rc_m1, st).

(** Modelled from the spec: [keydb_new (0)] of keydb.c; whether a handle
    can be had is up to the world. *)
Definition keydb_new (W : world) (st : state) : option KEYDB_HANDLE * state :=
  ((if w_keydb_new W (trace st) then Some (mkKH 0 None false) else None),
   log EvKeydbNew st).

(* ================================================================== *)
(** * find_up and its helpers *)

Section FindUp.
Variable W : world.
Variable opt : options.

(** The loop of [find_up_search_by_keyid] after its [keydb_search_reset];
    [fuel] is the number of entries still ahead of the cursor. *)
Fixpoint find_up_search_by_keyid_loop (fuel : nat) (st : state) (kh : KEYDB_HANDLE)
    (issuer keyid : string) : gpg_error_t * KEYDB_HANDLE * state :=
  match fuel with
  | O => (rc_m1, kh, st)
  | S fuel' =>
      let (rc, kh1) := keydb_search_subject st kh issuer in
      if failed rc then (rc, kh1, st)
      else
        let '(rc1, cert, st1) := keydb_get_cert st kh1 in
        match cert with
        | None => (rc_m1, kh1, st1)
        | Some cert =>
            if failed rc1 then (rc_m1, kh1, st1)
            else
              match cert_subj_key_id (h_cert cert) with
              | Some subj =>
                  if String.eqb keyid subj then (rc, kh1, st1)
                  else find_up_search_by_keyid_loop fuel' st1 kh1 issuer keyid
              | None => find_up_search_by_keyid_loop fuel' st1 kh1 issuer keyid
              end
        end
  end.

Definition find_up_search_by_keyid (st : state) (kh : KEYDB_HANDLE)
    (issuer keyid : string) : gpg_error_t * KEYDB_HANDLE * state :=
  let '(rc, kh1, st1) :=
    find_up_search_by_keyid_loop (S (List.length (keydb_entries st))) st
      (keydb_search_reset kh) issuer keyid in
  ((if failed rc then rc_m1 else rc_0), kh1, st1).

(** The name handed to dirmngr: [issuer] from its "CN=" part on when
    that part follows a comma.  (That [xtrymalloc] can fail for the
    pattern is not modelled.) *)
Definition external_pattern (issuer : string) : string :=
  let s :=
    match String.index 0 "CN=" issuer with
    | Some (S q) =>
        match String.get q issuer with
        | Some c => if Ascii.eqb c ","%char
                    then String.substring (S q) (String.length issuer - S q) issuer
                    else issuer
        | None => issuer
        end
    | _ => issuer
    end in
  ("/" ++ s)%string.

Definition find_up_external (st : state) (kh : KEYDB_HANDLE) (issuer : string)
    (keyid : option string) : gpg_error_t * KEYDB_HANDLE * state :=
  let pattern := external_pattern issuer in
  let (rc, certs) := w_lookup W (trace st) pattern in
  let st1 := log (EvLookup pattern) st in
  (* find_up_store_certs_cb, once per certificate *)
  let st2 := fold_left keydb_store_cert_ephemeral certs st1 in
  let count := List.length certs in
  if failed rc then (rc_m1, kh, st2)
  else if (count =? 0)%nat then (rc_m1, kh, st2)
  else
    let (old, kh1) := keydb_set_ephemeral kh true in
    let '(rc1, kh2, st3) :=
      match keyid with
      | Some k => find_up_search_by_keyid st2 kh1 issuer k
      | None =>
          let (r, k2) := keydb_search_subject st2 (keydb_search_reset kh1) issuer in
          (r, k2, st2)
      end in
    (rc1, snd (keydb_set_ephemeral kh2 old), st3).

(** The part of [find_up] that uses the authorityKeyIdentifier. *)
Definition find_up_by_aki (st : state) (kh : KEYDB_HANDLE) (aki : auth_key_id)
    (issuer : string) (find_next : bool) : gpg_error_t * KEYDB_HANDLE * state :=
  let '(rc, kh) :=
    match aki_issuer_sn aki with
    | Some (s, authidno) =>
        if negb (String.eqb authidno EmptyString) then
          let (rc, kh) := keydb_search_issuer_sn st kh s authidno in
          let kh := if failed rc then keydb_search_reset kh else kh in
          if is_m1 rc && negb find_next then
            let (old, kh) := keydb_set_ephemeral kh true in
            let '(rc, kh) :=
              if negb old then
                let (rc, kh) := keydb_search_issuer_sn st kh s authidno in
                (rc, if failed rc then keydb_search_reset kh else kh)
              else (rc, kh) in
            (rc, snd (keydb_set_ephemeral kh old))
          else (rc, kh)
        else (rc_m1, kh)
    | None => (rc_m1, kh)
    end in
  let '(rc, kh, st) :=
    match aki_keyid aki with
    | Some keyid =>
        if is_m1 rc && negb find_next then
          let '(rc, kh, st) := find_up_search_by_keyid st kh issuer keyid in
          let '(rc, kh, st) :=
            if failed rc then
              let (old, kh) := keydb_set_ephemeral kh true in
              let '(rc, kh, st) :=
                if negb old then find_up_search_by_keyid st kh issuer keyid
                else (rc, kh, st) in
              (rc, snd (keydb_set_ephemeral kh old), st)
            else (rc, kh, st) in
          ((if failed rc then rc_m1 else rc), kh, st)
        else (rc, kh, st)
    | None => (rc, kh, st)
    end in
  if is_m1 rc && auto_issuer_key_retrieve opt && negb find_next
  then find_up_external st kh issuer (aki_keyid aki)
  else (rc, kh, st).

Definition find_up (st : state) (kh : KEYDB_HANDLE) (cert : ksba_cert)
    (issuer : string) (find_next : bool) : gpg_error_t * KEYDB_HANDLE * state :=
  let '(rc, kh, st) :=
    match cert_auth_key_id cert with
    | Some aki => find_up_by_aki st kh aki issuer find_next
    | None => (rc_m1, kh, st)
    end in
  let '(rc, kh) :=
    if failed rc then keydb_search_subject st kh issuer else (rc, kh) in
  let '(rc, kh) :=
    if is_m1 rc && negb find_next then
      let (old, kh) := keydb_set_ephemeral kh true in
      let '(rc, kh) :=
        if negb old then keydb_search_subject st (keydb_search_reset kh) issuer
        else (rc, kh) in
      (rc, snd (keydb_set_ephemeral kh old))
    else (rc, kh) in
  if is_m1 rc && auto_issuer_key_retrieve opt && negb find_next
  then find_up_external st kh issuer None
  else (rc, kh, st).

(** [gpgsm_walk_cert_chain (start, &next)]. *)
Definition gpgsm_walk_cert_chain (st : state) (start : cert_h)
    : gpg_error_t * option cert_h * state :=
  let (kh, st) := keydb_new W st in
  match kh with
  | None => (gpg_error GPG_ERR_GENERAL, None, st)
  | Some kh =>
      match cert_issuer (h_cert start), cert_subject (h_cert start) with
      | None, _ => (gpg_error GPG_ERR_BAD_CERT, None, st)
      | _, None => (gpg_error GPG_ERR_BAD_CERT, None, st)
      | Some issuer, Some subject =>
          if String.eqb issuer subject then (rc_m1, None, st)
          else
            let '(rc, kh, st) := find_up st kh (h_cert start) issuer false in
            if failed rc then (gpg_error GPG_ERR_MISSING_CERT, None, st)
            else
              let '(rc, next, st) := keydb_get_cert st kh in
              if failed rc then (gpg_error GPG_ERR_GENERAL, None, st)
              else (rc_0, next, st)
      end
  end.

(** [gpgsm_is_root_cert (cert)]. *)
Definition gpgsm_is_root_cert (cert : ksba_cert) : bool :=
  match cert_issuer cert, cert_subject cert with
  | Some issuer, Some subject => String.eqb issuer subject
  | _, _ => false
  end.
End FindUp.

(* ================================================================== *)
(** * get_regtp_ca_info and allowed_ca *)

Definition DIM_array : nat := 4.

Definition regtp_root_mark : string := String "001"%char (String "001"%char EmptyString).
Definition regtp_ca_mark : string := String "001"%char (String NUL EmptyString).
(** The data of [ksba_cert_set_user_data (cert, "regtp_ca_chainlen", "", 1)]:
    the one byte of the empty string literal. *)
Definition regtp_none_mark : string := String NUL EmptyString.

Section Regtp.
Variable W : world.
Variable opt : options.

(** The [while] loop of [get_regtp_ca_info].  [slots] is the number of
    free slots of [array], [array] its used part, [cert] the certificate
    the walk has reached and [rc] the result of the last walk step. *)
Fixpoint regtp_walk (slots : nat) (st : state) (cert : cert_h)
    (array : list cert_h) (rc : gpg_error_t)
    : gpg_error_t * cert_h * list cert_h * state :=
  match slots with
  | O => (rc, cert, array, st)
  | S slots' =>
      let '(rc1, next, st1) := gpgsm_walk_cert_chain W opt st cert in
      match next with
      | Some next =>
          if failed rc1 then (rc1, cert, array, st1)
          else regtp_walk slots' st1 next (array ++ [next]) rc1
      | None => (rc1, cert, array, st1)
      end
  end.

(** The value of a [char] read as an [int], as in [*chainlen = buf[1]]:
    [char] is taken as signed (as with gcc on x86), so the bytes from
    0x80 on read as negative numbers. *)
Definition char_to_int (b : ascii) : Z :=
  let n := Z.of_nat (nat_of_ascii b) in
  if (n <? 128)%Z then n else (n - 256)%Z.

(** [get_regtp_ca_info (cert, chainlen)]: the result and [*chainlen]. *)
Definition get_regtp_ca_info (st : state) (cert : cert_h) : bool * Z * state :=
  let (err, buf) := ksba_cert_get_user_data st cert "regtp_ca_chainlen" 2 in
  if negb (failed err) then
    match buf with
    | String b0 (String b1 _) =>
        if Ascii.eqb b0 NUL then (false, 0%Z, st)
        else (true, char_to_int b1, st)
    | _ => (false, 0%Z, st)
    end
  else if negb (has_code err GPG_ERR_NOT_FOUND) then (false, 0%Z, st)
  else
    let '(rc, last, array, st1) :=
      regtp_walk (DIM_array - 1) st cert [cert] rc_0 in
    let depth := List.length array in
    let leave (st : state) :=
      let (_, st') :=
        ksba_cert_set_user_data W st last "regtp_ca_chainlen" regtp_none_mark in
      (false, 0%Z, st') in
    if negb (is_m1 rc) || (depth =? 0)%nat || (depth =? DIM_array)%nat
    then leave st1
    else
      let top := nth (depth - 1) array cert in
      let (qerr, country) := w_qualified W (trace st1) (h_cert top) in
      let st2 := log (EvQualified (h_cert top)) st1 in
      if negb (failed qerr) && String.eqb country "de" then
        let (err1, st3) :=
          ksba_cert_set_user_data W st2 top "regtp_ca_chainlen" regtp_root_mark in
        let st4 :=
          if negb (failed err1) && (1 <? depth)%nat
          then snd (ksba_cert_set_user_data W st3 (nth (depth - 2) array cert)
                      "regtp_ca_chainlen" regtp_ca_mark)
          else st3 in
        (true, (if (1 <? depth)%nat then 0%Z else 1%Z), st4)
      else leave st2.

(** [allowed_ca (cert, chainlen, listmode, fp)]: the result and
    [*chainlen]. *)
Definition allowed_ca (st : state) (cert : cert_h) : gpg_error_t * Z * state :=
  let '(err, flag, chainlen) := cert_is_ca (h_cert cert) in
  if failed err then (err, chainlen, st)
  else if negb flag then
    let '(regtp, chainlen', st1) := get_regtp_ca_info st cert in
    if regtp then (rc_0, chainlen', st1)
    else (gpg_error GPG_ERR_BAD_CA_CERT, chainlen', st1)
  else (rc_0, chainlen, st).
End Regtp.

(* ================================================================== *)
(** * is_cert_still_valid *)

(** The flags the revocation check reports through its pointer arguments. *)
Record revocation_flags : Type := mkRev {
  any_revoked : bool;
  any_no_crl : bool;
  any_crl_too_old : bool
}.

Definition is_cert_still_valid (W : world) (opt : options) (ctrl : ctrl_t)
    (st : state) (subject_cert issuer_cert : ksba_cert) (fl : revocation_flags)
    : gpg_error_t * revocation_flags * state :=
  if negb (no_crl_check opt) || use_ocsp ctrl then
    let err := w_isvalid W (trace st) subject_cert issuer_cert (use_ocsp ctrl) in
    let st1 := log (EvIsValid subject_cert issuer_cert (use_ocsp ctrl)) st in
    if failed err then
      if has_code err GPG_ERR_CERT_REVOKED then
        let (_, st2) :=
          keydb_set_cert_flags st1 subject_cert KEYBOX_FLAG_VALIDITY 0 VALIDITY_REVOKED in
        (rc_0, mkRev true (any_no_crl fl) (any_crl_too_old fl), st2)
      else if has_code err GPG_ERR_NO_CRL_KNOWN then
        (rc_0, mkRev (any_revoked fl) true (any_crl_too_old fl), st1)
      else if has_code err GPG_ERR_CRL_TOO_OLD then
        (rc_0, mkRev (any_revoked fl) (any_no_crl fl) true, st1)
      else (err, fl, st1)
    else (rc_0, fl, st1)
  else (rc_0, fl, st).

(* ================================================================== *)
(** * gpgsm_validate_chain *)

(** The local variables of [gpgsm_validate_chain] that live across the
    loop.  [l_visited] is a ghost variable: the certificates whose validity
    period the walk has read, most recent first. *)
Record locals : Type := mkLocals {
  l_depth : Z;
  l_exptime : ksba_isotime_t;
  l_any_expired : bool;
  l_rev : revocation_flags;
  l_any_no_policy_match : bool;
  l_is_qualified : Z;                (* -1 = unknown, 0 = no, 1 = yes *)
  l_kh : KEYDB_HANDLE;
  l_visited : list ksba_cert
}.

Definition init_locals : locals :=
  mkLocals 0 EmptyString false (mkRev false false false) false (-1)
           (mkKH 0 None false) [].

Definition set_depth (d : Z) (l : locals) : locals :=
  mkLocals d (l_exptime l) (l_any_expired l) (l_rev l) (l_any_no_policy_match l)
           (l_is_qualified l) (l_kh l) (l_visited l).
Definition set_validity (e : ksba_isotime_t) (c : ksba_cert) (l : locals) : locals :=
  mkLocals (l_depth l) e (l_any_expired l) (l_rev l) (l_any_no_policy_match l)
           (l_is_qualified l) (l_kh l) (c :: l_visited l).
Definition set_any_expired (l : locals) : locals :=
  mkLocals (l_depth l) (l_exptime l) true (l_rev l) (l_any_no_policy_match l)
           (l_is_qualified l) (l_kh l) (l_visited l).
Definition set_rev (r : revocation_flags) (l : locals) : locals :=
  mkLocals (l_depth l) (l_exptime l) (l_any_expired l) r (l_any_no_policy_match l)
           (l_is_qualified l) (l_kh l) (l_visited l).
Definition set_any_no_policy_match (l : locals) : locals :=
  mkLocals (l_depth l) (l_exptime l) (l_any_expired l) (l_rev l) true
           (l_is_qualified l) (l_kh l) (l_visited l).
Definition set_is_qualified (q : Z) (l : locals) : locals :=
  mkLocals (l_depth l) (l_exptime l) (l_any_expired l) (l_rev l)
           (l_any_no_policy_match l) q (l_kh l) (l_visited l).
Definition set_kh (k : KEYDB_HANDLE) (l : locals) : locals :=
  mkLocals (l_depth l) (l_exptime l) (l_any_expired l) (l_rev l)
           (l_any_no_policy_match l) (l_is_qualified l) k (l_visited l).

(** How a piece of the function ends: it goes on with a value, or it
    jumps to the label [leave] with [rc]. *)
Inductive flow (A : Type) : Type :=
| Go (a : A)
| Leave (rc : gpg_error_t).
Arguments Go {A} a.
Arguments Leave {A} rc.

(** Code that reads and writes the locals and the program state, may jump
    to [leave], and may fail to come back ([None]: the retry loop ran out
    of fuel). *)
Definition M (A : Type) : Type := locals -> state -> option (flow A * locals * state).

Definition ret {A} (a : A) : M A := fun l st => Some (Go a, l, st).
Definition goto_leave {A} (rc : gpg_error_t) : M A := fun l st => Some (Leave rc, l, st).
Definition bind {A B} (m : M A) (k : A -> M B) : M B :=
  fun l st =>
    match m l st with
    | None => None
    | Some (Leave rc, l', st') => Some (Leave rc, l', st')
    | Some (Go a, l', st') => k a l' st'
    end.

Notation "x <- m ;; k" := (bind m (fun x => k))
  (at level 61, m at next level, right associativity).
Notation "' pat <- m ;; k" := (bind m (fun x => match x with pat => k end))
  (at level 61, pat pattern, m at next level, right associativity).
Notation "m ;;; k" := (bind m (fun _ => k))
  (at level 61, right associativity).

Definition get_locals : M locals := fun l st => Some (Go l, l, st).
Definition modify_locals (f : locals -> locals) : M unit := fun l st => Some (Go tt, f l, st).
Definition get_state : M state := fun l st => Some (Go st, l, st).
Definition with_state {A} (f : state -> A * state) : M A :=
  fun l st => let (a, st') := f st in Some (Go a, l, st').
Definition leave_if_failed (rc : gpg_error_t) : M unit :=
  if failed rc then goto_leave rc else ret tt.

(** [strcmp (a, b) < 0] and [strcmp (a, b) > 0]. *)
Definition strcmp_lt (a b : string) : bool :=
  match String_as_OT.compare a b with Lt => true | _ => false end.
Definition strcmp_gt (a b : string) : bool :=
  match String_as_OT.compare a b with Gt => true | _ => false end.
Definition nonempty (s : string) : bool :=
  match s with EmptyString => false | _ => true end.

(** The final code for the soft errors met on the way. *)
Definition verdict (l : locals) : gpg_error_t :=
  if any_revoked (l_rev l) then gpg_error GPG_ERR_CERT_REVOKED
  else if l_any_expired l then gpg_error GPG_ERR_CERT_EXPIRED
  else if any_no_crl (l_rev l) then gpg_error GPG_ERR_NO_CRL_KNOWN
  else if any_crl_too_old (l_rev l) then gpg_error GPG_ERR_CRL_TOO_OLD
  else if l_any_no_policy_match l then gpg_error GPG_ERR_NO_POLICY_MATCH
  else rc_0.

Definition qualified_byte (q : Z) : string :=
  String (if (q =? 0)%Z then NUL else "001"%char) EmptyString.

Section ValidateChain.
Variable W : world.
Variable opt : options.
Variable ctrl : ctrl_t.
Variable cert : cert_h.            (* the certificate to validate *)
Variable listmode : bool.
Variable flags : Z.
Variable current_time : ksba_isotime_t.
Variable maxdepth : Z.

(** "Check the validity period." *)
Definition check_validity (c : ksba_cert) : M unit := fun l st =>
  let (rc1, not_before) := cert_not_before c in
  let (rc2, not_after) := cert_not_after c in
  if failed (if failed rc1 then rc1 else rc2)
  then Some (Leave (gpg_error GPG_ERR_BAD_CERT), l, st)
  else
    let exptime :=
      if nonempty not_after then
        if negb (nonempty (l_exptime l)) then not_after
        else if strcmp_lt not_after (l_exptime l) then not_after
        else l_exptime l
      else l_exptime l in
    let l1 := set_validity exptime c l in
    if nonempty not_before && strcmp_lt current_time not_before
    then Some (Leave (gpg_error GPG_ERR_CERT_TOO_YOUNG), l1, st)
    else if nonempty not_after && strcmp_gt current_time not_after
    then Some (Go tt, (if ignore_expiration opt then l1 else set_any_expired l1), st)
    else Some (Go tt, l1, st).

(** "Do a policy check."  (The source leaves [rc = 1] behind after a
    mismatch; that value is overwritten before it is read.) *)
Definition policy_check (c : ksba_cert) : M unit :=
  if negb (no_policy_check opt) then
    fun l st =>
      match check_cert_policy opt (w_fopen W) c with
      | None => None
      | Some rc =>
          if has_code rc GPG_ERR_NO_POLICY_MATCH
          then Some (Go tt, set_any_no_policy_match l, st)
          else if failed rc then Some (Leave rc, l, st)
          else Some (Go tt, l, st)
      end
  else ret tt.

Definition agent_istrusted (c : ksba_cert) : M (gpg_error_t * rootca_flags_s) :=
  with_state (fun st => (w_istrusted W (trace st) c, log (EvIsTrusted c) st)).

Definition check_cert_sig (issuer subject : ksba_cert) : M gpg_error_t :=
  with_state (fun st => (w_check_cert_sig W (trace st) issuer subject,
                         log (EvCheckCertSig issuer subject) st)).

(** The call of [is_cert_still_valid] with the walker's flags. *)
Definition revocation_check (subject issuer : ksba_cert) : M gpg_error_t :=
  fun l st =>
    let '(rc, r, st') := is_cert_still_valid W opt ctrl st subject issuer (l_rev l) in
    Some (Go rc, set_rev r l, st').

(** "Check for revocations etc.": the call and the [if (rc) goto leave]
    behind it.  (Where the source skips the call, [rc] is zero at that
    point and the jump is not taken.) *)
Definition revocation_gate (subject issuer : ksba_cert) : M unit :=
  rc <- revocation_check subject issuer ;;
  leave_if_failed rc.

(** "Set the flag for qualified signatures." *)
Definition resolve_qualified (subject_cert : cert_h) : M unit := fun l st =>
  if (l_is_qualified l =? -1)%Z then
    let (err, buf) := ksba_cert_get_user_data st cert "is_qualified" 1 in
    if negb (failed err) && nonempty buf then
      let q := match buf with
               | String b _ => if Ascii.eqb b NUL then 0%Z else 1%Z
               | EmptyString => 0%Z
               end in
      Some (Go tt, set_is_qualified q l, st)
    else
      let (qerr, _) := w_qualified W (trace st) (h_cert subject_cert) in
      let st1 := log (EvQualified (h_cert subject_cert)) st in
      let q := if negb (failed qerr) then 1%Z
               else if has_code qerr GPG_ERR_NOT_FOUND then 0%Z
               else l_is_qualified l in
      if negb (q =? -1)%Z then
        let (_, st2) :=
          ksba_cert_set_user_data W st1 subject_cert "is_qualified" (qualified_byte q) in
        Some (Go tt, set_is_qualified q l, st2)
      else Some (Go tt, set_is_qualified q l, st1)
  else Some (Go tt, l, st).

(** "Act on the check for a trusted root certificates.": the value of
    [rc] afterwards. *)
Definition act_on_trust (subject_cert : ksba_cert) (istrusted_rc : gpg_error_t)
    : M gpg_error_t := fun l st =>
  if negb (failed istrusted_rc) then Some (Go istrusted_rc, l, st)
  else if has_code istrusted_rc GPG_ERR_NOT_TRUSTED then
    if negb (l_any_expired l)
       && (negb listmode || negb (already_asked_marktrusted W st subject_cert))
    then
      let '(rc2, st1) :=
        if no_more_questions st then (gpg_error GPG_ERR_NOT_SUPPORTED, st)
        else (w_marktrusted W (trace st) subject_cert,
              log (EvMarkTrusted subject_cert) st) in
      let rc := if negb (failed rc2) then rc_0 else istrusted_rc in
      let st2 :=
        if has_code rc2 GPG_ERR_NOT_SUPPORTED then set_no_more_questions true st1
        else if has_code rc2 GPG_ERR_CANCELED then set_no_more_questions true st1
        else set_already_asked_marktrusted W st1 subject_cert in
      Some (Go rc, l, st2)
    else Some (Go istrusted_rc, l, st)
  else Some (Go istrusted_rc, l, st).

(** The body of "Is this a self-issued certificate?": it ends in
    [break] (here: [Go tt]) or jumps to [leave]. *)
Definition root_node (subject_cert : cert_h) (istrusted_rc : gpg_error_t)
    (rootca_flags : rootca_flags_s) : M unit :=
  let c := h_cert subject_cert in
  (if negb (failed istrusted_rc) then ret tt
   else
     sig <- check_cert_sig c c ;;
     if failed sig then
       l <- get_locals ;;
       goto_leave (gpg_error (if (l_depth l =? 0)%Z then GPG_ERR_BAD_CERT
                              else GPG_ERR_BAD_CERT_CHAIN))
     else ret tt) ;;;
  (if negb (relax rootca_flags) then
     r <- with_state (fun st => let '(rc, _, st') := allowed_ca W opt st subject_cert in
                                (rc, st')) ;;
     leave_if_failed r
   else ret tt) ;;;
  resolve_qualified subject_cert ;;;
  rc <- act_on_trust c istrusted_rc ;;
  leave_if_failed rc ;;;
  if Z.testbit flags 0 then ret tt
  else if no_trusted_cert_crl_check opt || relax rootca_flags then ret tt
  else revocation_gate c c.

(** From the label [try_another_cert] to the end of the signature
    check: the issuer certificate whose signature check succeeded. *)
Fixpoint try_another_cert (fuel : nat) (subject_cert : cert_h) (issuer : string)
    (issuer_cert : cert_h) : M cert_h :=
  match fuel with
  | O => fun _ _ => None
  | S fuel' =>
      rc <- check_cert_sig (h_cert issuer_cert) (h_cert subject_cert) ;;
      if failed rc then
        if has_code rc GPG_ERR_BAD_SIGNATURE then
          fun l st =>
            let '(rc, kh, st1) :=
              find_up W opt st (l_kh l) (h_cert subject_cert) issuer true in
            let l1 := set_kh kh l in
            if negb (failed rc) then
              let '(rc, tmp_cert, st2) := keydb_get_cert st1 kh in
              match tmp_cert with
              | Some tmp_cert =>
                  if failed rc || negb (compare_certs (h_cert issuer_cert) (h_cert tmp_cert))
                  then Some (Leave (gpg_error GPG_ERR_BAD_CERT_CHAIN), l1, st2)
                  else try_another_cert fuel' subject_cert issuer tmp_cert l1 st2
              | None => Some (Leave (gpg_error GPG_ERR_BAD_CERT_CHAIN), l1, st2)
              end
            else Some (Leave (gpg_error GPG_ERR_BAD_CERT_CHAIN), l1, st1)
        else goto_leave (gpg_error GPG_ERR_BAD_CERT_CHAIN)
      else ret issuer_cert
  end.

(** "Check that a CA is allowed to issue certificates.": the values of
    [is_root], [istrusted_rc] and [rootca_flags] afterwards. *)
Definition issuer_allowed_ca (issuer_cert : cert_h)
    : M (bool * gpg_error_t * rootca_flags_s) :=
  '(rc, chainlen) <- with_state (fun st =>
       let '(rc, chainlen, st') := allowed_ca W opt st issuer_cert in
       ((rc, chainlen), st')) ;;
  '(rc, chainlen, is_root, istrusted_rc, rootca_flags) <-
    (if failed rc then
       if gpgsm_is_root_cert (h_cert issuer_cert) then
         '(istrusted_rc, rootca_flags) <- agent_istrusted (h_cert issuer_cert) ;;
         if negb (failed istrusted_rc) && relax rootca_flags
         then ret (rc_0, (-1)%Z, true, istrusted_rc, rootca_flags)
         else ret (rc, chainlen, true, istrusted_rc, rootca_flags)
       else ret (rc, chainlen, false, rc_m1, mkRootcaFlags false)
     else ret (rc, chainlen, false, rc_m1, mkRootcaFlags false)) ;;
  leave_if_failed rc ;;;
  l <- get_locals ;;
  if (0 <=? chainlen)%Z && (chainlen <? l_depth l - 1)%Z
  then goto_leave (gpg_error GPG_ERR_BAD_CERT_CHAIN)
  else ret (is_root, istrusted_rc, rootca_flags).

(** The loop body for a certificate that is not self-issued, from
    "Find the next cert up the tree." on: the issuer, which becomes the
    next subject. *)
Definition issuer_checks (fuel : nat) (subject_cert : cert_h) (issuer : string)
    : M cert_h :=
    rc <- (fun l st =>
             let '(rc, kh, st') :=
               find_up W opt st (keydb_search_reset (l_kh l)) (h_cert subject_cert)
                       issuer false in
             Some (Go rc, set_kh kh l, st')) ;;
    if failed rc then goto_leave (gpg_error GPG_ERR_MISSING_CERT)
    else
      got <- (fun l st =>
                let '(rc, c, st') := keydb_get_cert st (l_kh l) in
                Some (Go (rc, c), l, st')) ;;
      match got with
      | (rc, Some issuer_cert) =>
          if failed rc then goto_leave (gpg_error GPG_ERR_GENERAL)
          else
            issuer_cert <- try_another_cert fuel subject_cert issuer issuer_cert ;;
            '(is_root, istrusted_rc, rootca_flags) <- issuer_allowed_ca issuer_cert ;;
            (if negb listmode then
               rc <- with_state (fun st =>
                       (w_use_cert_p W (trace st) (h_cert issuer_cert),
                        log (EvUseCert (h_cert issuer_cert)) st)) ;;
               if failed rc then
                 with_state (fun st =>
                   (tt, log (EvStatus "certcert.issuer.keyusage" rc) st)) ;;;
                 goto_leave rc
               else ret tt
             else ret tt) ;;;
            (if Z.testbit flags 0 then ret tt
             else if is_root && (no_trusted_cert_crl_check opt
                                 || (negb (failed istrusted_rc)
                                     && relax rootca_flags))
                  then ret tt
                  else revocation_gate (h_cert subject_cert)
                                       (h_cert issuer_cert)) ;;;
            modify_locals (fun l => set_kh (keydb_search_reset (l_kh l)) l) ;;;
            ret issuer_cert
      | (_, None) => goto_leave (gpg_error GPG_ERR_GENERAL)
      end.

(** "Take care that the chain does not get too long.", then the rest. *)
Definition issuer_node (fuel : nat) (subject_cert : cert_h) (issuer : string)
    : M cert_h :=
  modify_locals (fun l => set_depth (l_depth l + 1) l) ;;;
  l <- get_locals ;;
  if (maxdepth <? l_depth l)%Z then goto_leave (gpg_error GPG_ERR_BAD_CERT_CHAIN)
  else issuer_checks fuel subject_cert issuer.

(** The checks every certificate of the chain undergoes, from the early
    question to the agent to the policy check: the values of
    [istrusted_rc] and [rootca_flags]. *)
Definition node_checks (c : ksba_cert) (is_root : bool)
    : M (gpg_error_t * rootca_flags_s) :=
  '(istrusted_rc, rootca_flags) <-
    (if is_root then agent_istrusted c
     else ret (rc_m1, mkRootcaFlags false)) ;;
  check_validity c ;;;
  leave_if_failed (unknown_criticals c) ;;;
  policy_check c ;;;
  ret (istrusted_rc, rootca_flags).

(** One round of the [for (;;)] loop: [None] is [break], [Some c] goes
    round again with [c] as the subject. *)
Definition chain_step (fuel : nat) (subject_cert : cert_h) : M (option cert_h) :=
  let c := h_cert subject_cert in
  match cert_issuer c with
  | None => goto_leave (gpg_error GPG_ERR_BAD_CERT)
  | Some issuer =>
      let is_root := opt_eqb (cert_subject c) issuer in
      '(istrusted_rc, rootca_flags) <- node_checks c is_root ;;
      if is_root then
        root_node subject_cert istrusted_rc rootca_flags ;;;
        ret None
      else
        next <- issuer_node fuel subject_cert issuer ;;
        ret (Some next)
  end.

Fixpoint chain_loop (rounds fuel : nat) (subject_cert : cert_h) : M unit :=
  match rounds with
  | O => fun _ _ => None
  | S rounds' =>
      next <- chain_step fuel subject_cert ;;
      match next with
      | None => ret tt
      | Some next => chain_loop rounds' fuel next
      end
  end.

(** From [keydb_new] to the label [leave]: the value of [rc] there.
    (The loop is left by [break] with [rc] zero, so the soft flags decide
    the code.) *)
Definition validate_chain_walk (fuel : nat) : M gpg_error_t :=
  kh <- with_state (keydb_new W) ;;
  match kh with
  | None => goto_leave (gpg_error GPG_ERR_GENERAL)
  | Some kh =>
      modify_locals (set_kh kh) ;;;
      chain_loop fuel fuel cert ;;;
      l <- get_locals ;;
      ret (verdict l)
  end.

(** The label [leave] up to the copy of the expiration time: the
    returned code. *)
Definition validate_chain_leave (rc : gpg_error_t) (l : locals) (st : state)
    : gpg_error_t * state :=
  if negb (l_is_qualified l =? -1)%Z then
    let (err, st') :=
      ksba_cert_set_user_data W st cert "is_qualified"
                              (qualified_byte (l_is_qualified l)) in
    if failed err then ((if negb (failed rc) then err else rc), st')
    else (rc, st')
  else (rc, st).
End ValidateChain.

Definition flow_rc (f : flow gpg_error_t) : gpg_error_t :=
  match f with Go rc => rc | Leave rc => rc end.

(** [gpgsm_validate_chain (ctrl, cert, r_exptime, listmode, fp, flags)]:
    the returned code, [*r_exptime] when [r_exptime] is given, and the
    program state afterwards. *)
Definition gpgsm_validate_chain (W : world) (opt : options) (ctrl : ctrl_t)
    (fuel : nat) (st : state) (cert : cert_h) (r_exptime : bool)
    (listmode : bool) (flags : Z)
    : option (gpg_error_t * option ksba_isotime_t * state) :=
  let current_time := w_isotime W (trace st) in
  if no_chain_validation opt && negb listmode
  then Some (rc_0, (if r_exptime then Some EmptyString else None), st)
  else
    match validate_chain_walk W opt ctrl cert listmode flags current_time 50 fuel
            init_locals st with
    | None => None
    | Some (f, l, st1) =>
        let (rc, st2) := validate_chain_leave W cert (flow_rc f) l st1 in
        Some (rc, (if r_exptime then Some (l_exptime l) else None), st2)
    end.

(* ================================================================== *)
(** * gpgsm_basic_cert_check *)

Definition gpgsm_basic_cert_check (W : world) (opt : options) (st : state)
    (cert : cert_h) : gpg_error_t * state :=
  if no_chain_validation opt then (rc_0, st)
  else
    let (kh, st) := keydb_new W st in
    match kh with
    | None => (gpg_error GPG_ERR_GENERAL, st)
    | Some kh =>
        match cert_issuer (h_cert cert) with
        | None => (gpg_error GPG_ERR_BAD_CERT, st)
        | Some issuer =>
            if opt_eqb (cert_subject (h_cert cert)) issuer then
              let rc := w_check_cert_sig W (trace st) (h_cert cert) (h_cert cert) in
              let st := log (EvCheckCertSig (h_cert cert) (h_cert cert)) st in
              if failed rc then (gpg_error GPG_ERR_BAD_CERT, st) else (rc, st)
            else
              let '(rc, kh, st) :=
                find_up W opt st (keydb_search_reset kh) (h_cert cert) issuer false in
              if failed rc then (gpg_error GPG_ERR_MISSING_CERT, st)
              else
                let '(rc, issuer_cert, st) := keydb_get_cert st kh in
                match issuer_cert with
                | Some issuer_cert =>
                    if failed rc then (gpg_error GPG_ERR_GENERAL, st)
                    else
                      let rc := w_check_cert_sig W (trace st) (h_cert issuer_cert)
                                                 (h_cert cert) in
                      let st := log (EvCheckCertSig (h_cert issuer_cert) (h_cert cert)) st in
                      if failed rc then (gpg_error GPG_ERR_BAD_CERT, st) else (rc, st)
                | None => (gpg_error GPG_ERR_GENERAL, st)
                end
        end
    end.

(* ================================================================== *)
(** * Sample certificates, stores and worlds *)

Module Sample.
Fixpoint rep (n : nat) (c : ascii) : string :=
  match n with O => EmptyString | S k => String c (rep k c) end.

Definition lf : string := String LF EmptyString.

(** A certificate valid from 2000 to 2030 that is a CA without path
    length limit, has no extensions and no policies. *)
Definition simple_cert (subject issuer serial : string)
    (aki : option auth_key_id) : ksba_cert :=
  mkCert (Some (subject ++ "#" ++ serial)%string) serial (Some issuer) (Some subject)
         (rc_0, "20000101T000000") (rc_0, "20300101T000000")
         aki None [] (GPG GPG_ERR_SOURCE_KSBA GPG_ERR_EOF)
         (rc_0, true, (-1)%Z) (GPG GPG_ERR_SOURCE_KSBA GPG_ERR_NO_DATA, EmptyString).

Definition with_not_after (t : ksba_isotime_t) (c : ksba_cert) : ksba_cert :=
  mkCert (cert_image c) (cert_serial c) (cert_issuer c) (cert_subject c)
         (cert_not_before c) (rc_0, t) (cert_auth_key_id c) (cert_subj_key_id c)
         (cert_extensions c) (cert_ext_end c) (cert_is_ca c) (cert_policies c).

Definition with_is_ca (flag : bool) (c : ksba_cert) : ksba_cert :=
  mkCert (cert_image c) (cert_serial c) (cert_issuer c) (cert_subject c)
         (cert_not_before c) (cert_not_after c) (cert_auth_key_id c)
         (cert_subj_key_id c) (cert_extensions c) (cert_ext_end c)
         (rc_0, flag, (-1)%Z) (cert_policies c).

Definition with_policies (p : string) (c : ksba_cert) : ksba_cert :=
  mkCert (cert_image c) (cert_serial c) (cert_issuer c) (cert_subject c)
         (cert_not_before c) (cert_not_after c) (cert_auth_key_id c)
         (cert_subj_key_id c) (cert_extensions c) (cert_ext_end c)
         (cert_is_ca c) (rc_0, p).

Definition without_issuer (c : ksba_cert) : ksba_cert :=
  mkCert (cert_image c) (cert_serial c) None (cert_subject c)
         (cert_not_before c) (cert_not_after c) (cert_auth_key_id c)
         (cert_subj_key_id c) (cert_extensions c) (cert_ext_end c)
         (cert_is_ca c) (cert_policies c).

(** A world in which it is the year 2020, every root is trusted, every
    signature is good, nothing is revoked, no certificate is on the
    qualified list, dirmngr finds nothing and no allocation fails. *)
Definition calm : world :=
  mkWorld (fun _ => "20200101T000000")
          (fun _ => None)
          (fun c => match cert_image c with Some i => i | None => EmptyString end)
          (fun _ => true)
          (fun _ _ => (rc_0, mkRootcaFlags false))
          (fun _ _ => rc_0)
          (fun _ _ _ => rc_0)
          (fun _ _ _ _ => rc_0)
          (fun _ _ => (GPG GPG_ERR_SOURCE_GPGSM GPG_ERR_NOT_FOUND, EmptyString))
          (fun _ _ => (rc_m1, []))
          (fun _ _ => rc_0)
          (fun _ _ _ _ => rc_0).

Definition with_istrusted (f : list event -> ksba_cert -> gpg_error_t * rootca_flags_s)
    (W : world) : world :=
  mkWorld (w_isotime W) (w_fopen W) (w_fingerprint W) (w_keydb_new W) f
          (w_marktrusted W) (w_check_cert_sig W) (w_isvalid W) (w_qualified W)
          (w_lookup W) (w_use_cert_p W) (w_set_user_data W).

Definition with_check_cert_sig (f : list event -> ksba_cert -> ksba_cert -> gpg_error_t)
    (W : world) : world :=
  mkWorld (w_isotime W) (w_fopen W) (w_fingerprint W) (w_keydb_new W) (w_istrusted W)
          (w_marktrusted W) f (w_isvalid W) (w_qualified W)
          (w_lookup W) (w_use_cert_p W) (w_set_user_data W).

Definition with_isvalid (f : list event -> ksba_cert -> ksba_cert -> bool -> gpg_error_t)
    (W : world) : world :=
  mkWorld (w_isotime W) (w_fopen W) (w_fingerprint W) (w_keydb_new W) (w_istrusted W)
          (w_marktrusted W) (w_check_cert_sig W) f (w_qualified W)
          (w_lookup W) (w_use_cert_p W) (w_set_user_data W).

Definition with_set_user_data (f : list event -> nat -> string -> string -> gpg_error_t)
    (W : world) : world :=
  mkWorld (w_isotime W) (w_fopen W) (w_fingerprint W) (w_keydb_new W) (w_istrusted W)
          (w_marktrusted W) (w_check_cert_sig W) (w_isvalid W) (w_qualified W)
          (w_lookup W) (w_use_cert_p W) f.

Definition with_fopen (f : string -> option FILE) (W : world) : world :=
  mkWorld (w_isotime W) f (w_fingerprint W) (w_keydb_new W) (w_istrusted W)
          (w_marktrusted W) (w_check_cert_sig W) (w_isvalid W) (w_qualified W)
          (w_lookup W) (w_use_cert_p W) (w_set_user_data W).

(** Out of memory in [ksba_cert_set_user_data]. *)
Definition out_of_core : gpg_error_t := GPG GPG_ERR_SOURCE_KSBA GPG_ERR_ENOMEM.
Definition no_memory : world := with_set_user_data (fun _ _ _ _ => out_of_core) calm.

Definition default_opt : options := mkOpt false false false false false false None.
Definition bypass_opt : options := mkOpt true false false false false false None.
Definition crl_ctrl : ctrl_t := mkCtrl false.

(** A store holding [certs], no user data, nothing asked yet.  Object 0
    is the one handed to the function under study. *)
Definition store (certs : list ksba_cert) : state :=
  mkState certs [] [] 1 [] [] false [].

(** Certificate [i] of a chain with [n] issuer hops: certificate [i] is
    issued by certificate [i+1]; certificate [n] is the root. *)
Definition dn (i : nat) : string := ("CN=" ++ rep i "x")%string.
Definition node (n i : nat) : ksba_cert :=
  simple_cert (dn i) (dn (if (i <? n)%nat then S i else i)) (rep i "1") None.
Definition chain (n : nat) : list ksba_cert := map (node n) (seq 0 (S n)).

Definition root : ksba_cert := simple_cert "CN=Root" "CN=Root" "01" None.
Definition ca : ksba_cert := simple_cert "CN=CA" "CN=Root" "02" None.
Definition ee : ksba_cert := simple_cert "CN=EE" "CN=CA" "03" None.

(** A certificate whose authorityKeyIdentifier names its own issuer and
    serial number. *)
Definition self_aki : ksba_cert :=
  simple_cert "CN=EE" "CN=CA" "03" (Some (mkAKI None (Some ("CN=CA", "03")))).
(** A root the agent does not trust, with a bad self-signature: as the
    certificate to validate, and as the issuer of the certificate to
    validate. *)
Definition distrusting : world :=
  with_istrusted
    (fun _ _ => (GPG GPG_ERR_SOURCE_GPGAGENT GPG_ERR_NOT_TRUSTED, mkRootcaFlags false))
    (with_check_cert_sig
       (fun _ i s => if opt_eqb (cert_subject i) "CN=Root" && opt_eqb (cert_subject s) "CN=Root"
                     then gpg_error GPG_ERR_BAD_SIGNATURE else rc_0)
       calm).

End Sample.

(* ================================================================== *)
(** * Vocabulary of the properties *)

(** The character [c] occurs in [s]. *)
Fixpoint occurs (c : ascii) (s : string) : bool :=
  match s with
  | EmptyString => false
  | String d r => Ascii.eqb d c || occurs c r
  end.

(** The cursor of [kh] is on a certificate of the database that
    satisfies [P]. *)
Definition cursor_on (st : state) (kh : KEYDB_HANDLE) (P : ksba_cert -> Prop) : Prop :=
  exists i c, kh_found kh = Some i
              /\ nth_error (keydb_entries st) i = Some c
              /\ P c.

(** The certificates [find_up] can stop on: those whose subject is
    [issuer], and those that carry the issuer name and the serial number
    of the authorityKeyIdentifier. *)
Definition issuer_candidate (cert : ksba_cert) (issuer : string) (c : ksba_cert) : Prop :=
  cert_subject c = Some issuer
  \/ exists aki s sn,
       cert_auth_key_id cert = Some aki
       /\ aki_issuer_sn aki = Some (s, sn)
       /\ cert_issuer c = Some s /\ cert_serial c = sn.

(** [st'] comes from [st] by calls that are all in the class [P], and
    these calls are all that was added to the record. *)
Definition ext (P : event -> bool) (st st' : state) : Prop :=
  exists evs, trace st' = evs ++ trace st /\ forallb P evs = true.

(** The calls the issuer search makes: [keydb_new] and the lookup by
    dirmngr. *)
Definition search_event (e : event) : bool :=
  match e with
  | EvLookup _ | EvKeydbNew => true
  | _ => false
  end.

(** [st'] differs from [st] by a search for issuers only: the user data
    of the certificate objects is untouched. *)
Definition searched (st st' : state) : Prop :=
  user_data st' = user_data st /\ ext search_event st st'.

(** Every run of [m] relates the locals and the state before to those
    after by [R]. *)
Definition keeps {A : Type} (R : locals * state -> locals * state -> Prop)
    (m : M A) : Prop :=
  forall l st f l' st', m l st = Some (f, l', st') -> R (l, st) (l', st').

(** [m] always comes back. *)
Definition total {A : Type} (m : M A) : Prop := forall l st, m l st <> None.

(** The depth, the expiration time and the visited certificates are the
    same before and after. *)
Definition same_core (x y : locals * state) : Prop :=
  l_depth (fst y) = l_depth (fst x)
  /\ l_exptime (fst y) = l_exptime (fst x)
  /\ l_visited (fst y) = l_visited (fst x).

(** Every call but the signature check. *)
Definition not_sig (e : event) : bool :=
  match e with
  | EvCheckCertSig _ _ => false
  | _ => true
  end.

(** No signature was checked between before and after. *)
Definition no_sig (x y : locals * state) : Prop := ext not_sig (snd x) (snd y).

(** The not-after times that count: those of the visited certificates
    that are not empty. *)
Definition not_afters (visited : list ksba_cert) : list ksba_isotime_t :=
  filter nonempty (map (fun c => snd (cert_not_after c)) visited).

(** [e] is the earliest of the times [ts] in the order of [strcmp]; it
    is empty when there is none. *)
Definition is_earliest (e : ksba_isotime_t) (ts : list ksba_isotime_t) : Prop :=
  match ts with
  | [] => e = EmptyString
  | _ => In e ts /\ forall t, In t ts -> strcmp_gt e t = false
  end.

(** The invariant of the walk: the accumulator is the earliest not-after
    time of the certificates visited so far. *)
Definition exptime_ok (l : locals) : Prop :=
  is_earliest (l_exptime l) (not_afters (l_visited l)).

(** The invariant holds after when it held before. *)
Definition keeps_exptime (x y : locals * state) : Prop :=
  exptime_ok (fst x) -> exptime_ok (fst y).

(* ------------------------------------------------------------------ *)
(** ** Vocabulary of the further properties *)

Definition policy_line_of (policies allowed : string) : Prop :=
  exists pre post,
    policies = (pre ++ allowed ++ String ":" post)%string
    /\ (pre = EmptyString \/ exists pre', pre = (pre' ++ String LF EmptyString)%string).

(** [allowed] is the first word of a line of the policy file [data]: it
    follows blanks at the begin of a line and ends at a blank, a colon or
    the end of the line. *)
Definition policy_file_names (data allowed : string) : Prop :=
  exists before blanks d after,
    data = (before ++ blanks ++ allowed ++ String d after)%string
    /\ (before = EmptyString
        \/ exists b, before = (b ++ String LF EmptyString)%string)
    /\ skip_spaces blanks = EmptyString
    /\ (d = " "%char \/ d = ":"%char \/ d = LF)
    /\ allowed <> EmptyString.

(** The state after a search for issuers: [more] was added to the
    ephemeral store, the calls [evs] were made, and [n] is the identity of
    the next certificate object; nothing else is different. *)
Definition after_search (n : nat) (more : list ksba_cert) (evs : list event)
    (st : state) : state :=
  mkState (kdb_main st) (kdb_eph st ++ more) (kdb_flags st) n (user_data st)
          (marktrusted_info st) (no_more_questions st) (evs ++ trace st).

(** What a search for the issuer [issuer] does to the state when it asks
    dirmngr [k] times. *)
Definition search_effect (k : nat) (issuer : string) (st st' : state) : Prop :=
  exists n more,
    st' = after_search n more (repeat (EvLookup (external_pattern issuer)) k) st
    /\ next_id st <= n
    /\ (k = 0 -> more = []).

(** [st'] comes from [st] by calls in the class [P]: the relation on the
    walker's locals and state. *)
Definition calls (P : event -> bool) (x y : locals * state) : Prop :=
  ext P (snd x) (snd y).

(** Every call but a revocation check by dirmngr. *)
Definition not_isvalid (e : event) : bool :=
  match e with
  | EvIsValid _ _ _ => false
  | _ => true
  end.

(** Every call but the test of the issuer's key usage and the status
    line that reports its failure. *)
Definition not_key_usage (e : event) : bool :=
  match e with
  | EvUseCert _ | EvStatus _ _ => false
  | _ => true
  end.

(** The calls the chain walker can make: the agent is asked about
    self-issued certificates only, dirmngr checks with the method of the
    session, the status line is the one for the key usage and carries an
    error, and the user data written is one of the two items of this
    file. *)
Definition walker_call (ctrl : ctrl_t) (e : event) : bool :=
  match e with
  | EvIsTrusted c | EvMarkTrusted c => gpgsm_is_root_cert c
  | EvIsValid _ _ ocsp => Bool.eqb ocsp (use_ocsp ctrl)
  | EvStatus key rc => String.eqb key "certcert.issuer.keyusage" && failed rc
  | EvSetUserData _ key _ =>
      String.eqb key "is_qualified" || String.eqb key "regtp_ca_chainlen"
  | _ => true
  end.

(** The call [e] is on the record [tr]; [before] is the record at the
    time it was made. *)
Definition called (tr : list event) (e : event) (before : list event) : Prop :=
  exists after, tr = after ++ e :: before.

(** The record [tr] holds a check of the signature of [subject] with
    the key of [issuer], and the check succeeded. *)
Definition verified (W : world) (tr : list event) (issuer subject : ksba_cert) : Prop :=
  exists before,
    called tr (EvCheckCertSig issuer subject) before
    /\ w_check_cert_sig W before issuer subject = rc_0.

(** [c] is a self-issued certificate that the agent listed as trusted,
    or whose self-signature was verified and which the agent then marked
    as trusted on request. *)
Definition trusted_root (W : world) (tr : list event) (c : ksba_cert) : Prop :=
  gpgsm_is_root_cert c = true
  /\ ((exists before,
         called tr (EvIsTrusted c) before /\ fst (w_istrusted W before c) = rc_0)
      \/ (verified W tr c c
          /\ exists before,
               called tr (EvMarkTrusted c) before /\ w_marktrusted W before c = rc_0)).

(** [i] was taken as the issuer of [s]: [s] is not self-issued, the
    search for its issuer stopped on [i], and the signature of [s] was
    verified with the key of [i]. *)
Definition link (W : world) (tr : list event) (i s : ksba_cert) : Prop :=
  gpgsm_is_root_cert s = false
  /\ (exists issuer, cert_issuer s = Some issuer /\ issuer_candidate s issuer i)
  /\ verified W tr i s.

(** Every certificate of [chain] (the last visited first) is linked to the
    one visited before it. *)
Fixpoint linked (W : world) (tr : list event) (chain : list ksba_cert) : Prop :=
  match chain with
  | [] => True
  | i :: rest =>
      match rest with
      | [] => True
      | s :: _ => link W tr i s
      end /\ linked W tr rest
  end.

(** Every call is in this class. *)
Definition any_call (e : event) : bool := true.

(** The walker jumps to [leave] with an error code only. *)
Definition leaves_failed {A : Type} (m : M A) : Prop :=
  forall l st rc l' st', m l st = Some (Leave rc, l', st') -> failed rc = true.

(** [c] is expired at [now], and not yet valid at [now]. *)
Definition expired (now : ksba_isotime_t) (c : ksba_cert) : bool :=
  nonempty (snd (cert_not_after c)) && strcmp_gt now (snd (cert_not_after c)).
Definition too_young (now : ksba_isotime_t) (c : ksba_cert) : bool :=
  nonempty (snd (cert_not_before c)) && strcmp_lt now (snd (cert_not_before c)).

(** What the checks made on every certificate of the chain have found
    when they let [c] pass, with the flags [l] taking note of the soft
    errors: the validity period can be read and has begun, an expiry is
    ignored on request or noted, every critical extension is known, and a
    policy mismatch is noted. *)
Definition node_checked (W : world) (opt : options) (now : ksba_isotime_t)
    (l : locals) (c : ksba_cert) : Prop :=
  failed (fst (cert_not_before c)) = false
  /\ failed (fst (cert_not_after c)) = false
  /\ too_young now c = false
  /\ (expired now c = true -> ignore_expiration opt = false -> l_any_expired l = true)
  /\ unknown_criticals c = rc_0
  /\ (no_policy_check opt = false ->
      exists rc, check_cert_policy opt (w_fopen W) c = Some rc
                 /\ (rc = rc_0
                     \/ (has_code rc GPG_ERR_NO_POLICY_MATCH = true
                         /\ l_any_no_policy_match l = true))).

(** [c] passes the checks made on every certificate of the chain. *)
Definition node_ok (W : world) (opt : options) (now : ksba_isotime_t)
    (c : ksba_cert) : Prop :=
  failed (fst (cert_not_before c)) = false
  /\ failed (fst (cert_not_after c)) = false
  /\ too_young now c = false
  /\ (ignore_expiration opt = false -> expired now c = false)
  /\ unknown_criticals c = rc_0
  /\ (no_policy_check opt = false -> check_cert_policy opt (w_fopen W) c = Some rc_0).

(** The flags for an expired certificate and for a policy mismatch are
    set after when they were set before. *)
Definition soft_kept (x y : locals * state) : Prop :=
  (l_any_expired (fst x) = true -> l_any_expired (fst y) = true)
  /\ (l_any_no_policy_match (fst x) = true -> l_any_no_policy_match (fst y) = true).

(** The calls [gpgsm_basic_cert_check] can make. *)
Definition basic_check_call (e : event) : bool :=
  match e with
  | EvKeydbNew | EvLookup _ | EvCheckCertSig _ _ => true
  | _ => false
  end.

(** The rounds of the loop of [gpgsm_validate_chain] from a round with
    the subject [s] on: the subject certificate, the locals and the state
    each round begins with, the first round first.  A round is followed
    by another one when it ends with an issuer, which becomes the next
    subject. *)
Fixpoint walk_rounds (W : world) (opt : options) (ctrl : ctrl_t) (cert : cert_h)
    (listmode : bool) (flags : Z) (current_time : ksba_isotime_t)
    (rounds fuel : nat) (s : cert_h) (l : locals) (st : state)
    : list (cert_h * locals * state) :=
  match rounds with
  | O => []
  | S rounds' =>
      (s, l, st)
      :: match chain_step W opt ctrl cert listmode flags current_time 50 fuel s l st with
         | Some (Go (Some next), l', st') =>
             walk_rounds W opt ctrl cert listmode flags current_time rounds' fuel
                         next l' st'
         | _ => []
         end
  end.

(** The rounds of a call of [gpgsm_validate_chain]: none when the
    validation is bypassed or no key database handle can be had, else
    those from the certificate to validate on. *)
Definition rounds_of (W : world) (opt : options) (ctrl : ctrl_t) (fuel : nat)
    (st : state) (cert : cert_h) (listmode : bool) (flags : Z)
    : list (cert_h * locals * state) :=
  if no_chain_validation opt && negb listmode then []
  else if w_keydb_new W (trace st) then
    walk_rounds W opt ctrl cert listmode flags (w_isotime W (trace st)) fuel fuel
                cert (set_kh (mkKH 0 None false) init_locals) (log EvKeydbNew st)
  else [].

(** The certificates a call of [gpgsm_validate_chain] visits: the
    subject certificate of every round. *)
Definition visited_nodes (W : world) (opt : options) (ctrl : ctrl_t) (fuel : nat)
    (st : state) (cert : cert_h) (listmode : bool) (flags : Z) : list ksba_cert :=
  map (fun r => h_cert (fst (fst r))) (rounds_of W opt ctrl fuel st cert listmode flags).

(** The walk gets as far as reading the validity period of [c]: [c]
    names an issuer, and both of its times can be read. *)
Definition validity_read (c : ksba_cert) : bool :=
  match cert_issuer c with
  | None => false
  | Some _ =>
      negb (failed (fst (cert_not_before c))) && negb (failed (fst (cert_not_after c)))
  end.


(** [c] is a self-issued certificate for which the agent, asked on the
    record [tr], answered that it is trusted and carries the relax flag. *)
Definition relaxed_root (W : world) (tr : list event) (c : ksba_cert) : Prop :=
  gpgsm_is_root_cert c = true
  /\ exists before,
       called tr (EvIsTrusted c) before
       /\ fst (w_istrusted W before c) = rc_0
       /\ relax (snd (w_istrusted W before c)) = true.

(** What the CA check at depth [d] has established of the issuer [i],
    read off its basicConstraints: when they cannot be read, [i] is a
    trusted root with the relax flag; when they mark [i] as a CA, its
    path length, if there is one, is at least [d - 1].  (Of an issuer
    that they do not mark as a CA nothing is said here: such a one passes
    by the relax flag or by [get_regtp_ca_info] only.) *)
Definition ca_checked (W : world) (tr : list event) (d : Z) (i : ksba_cert) : Prop :=
  let '(err, flag, n) := cert_is_ca i in
  if failed err then relaxed_root W tr i
  else if flag then (0 <= n -> d - 1 <= n)%Z
  else True.

(** Every certificate of [chain] (the last visited first) but the first
    one visited passed as an issuer at the depth it was found at. *)
Fixpoint issuers_checked (W : world) (tr : list event) (chain : list ksba_cert)
    : Prop :=
  match chain with
  | [] => True
  | i :: rest =>
      match rest with
      | [] => True
      | _ :: _ => ca_checked W tr (Z.of_nat (List.length rest)) i
      end /\ issuers_checked W tr rest
  end.

(** One of the flags for a revoked certificate, a missing CRL and a CRL
    that is too old is set. *)
Definition dirty (l : locals) : bool :=
  any_revoked (l_rev l) || any_no_crl (l_rev l) || any_crl_too_old (l_rev l).

(** Every call but the revocation check and the test of the issuer's
    key usage. *)
Definition ungated (e : event) : bool :=
  match e with
  | EvIsValid _ _ _ | EvUseCert _ => false
  | _ => true
  end.

(** The call [e], made after the calls [before], is not a revocation
    check or a test of the key usage that answered with an error. *)
Definition answered_ok (W : world) (before : list event) (e : event) : bool :=
  match e with
  | EvIsValid s i o => negb (failed (w_isvalid W before s i o))
  | EvUseCert c => negb (failed (w_use_cert_p W before c))
  | _ => true
  end.

(** Every revocation check and every test of the key usage among the
    calls [evs] (the last call first), made after the calls [base],
    answered 0. *)
Fixpoint answers_ok (W : world) (evs base : list event) : bool :=
  match evs with
  | [] => true
  | e :: rest => answered_ok W (rest ++ base) e && answers_ok W rest base
  end.

(** The revocation flags are the same before and after. *)
Definition rev_same (x y : locals * state) : Prop := l_rev (fst y) = l_rev (fst x).

(** The revocation flags are only ever set, and when none is set
    afterwards, every revocation check and every test of the key usage
    made in between answered 0. *)
Definition rev_clean (W : world) (x y : locals * state) : Prop :=
  (dirty (fst x) = true -> dirty (fst y) = true)
  /\ exists evs,
       trace (snd y) = evs ++ trace (snd x)
       /\ (dirty (fst y) = false -> answers_ok W evs (trace (snd x)) = true).

(** Every run of [m] that does not jump to [leave] relates the locals
    and the state before to those after by [R]. *)
Definition keeps_go {A : Type} (R : locals * state -> locals * state -> Prop)
    (m : M A) : Prop :=
  forall l st a l' st', m l st = Some (Go a, l', st') -> R (l, st) (l', st').

(** The value the byte [b] stored as is_qualified user data stands for. *)
Definition stored_flag (b : ascii) : Z := if Ascii.eqb b NUL then 0%Z else 1%Z.

(** Every call but a store of is_qualified user data. *)
Definition no_qualified_write (e : event) : bool :=
  match e with
  | EvSetUserData _ key _ => negb (String.eqb key "is_qualified")
  | _ => true
  end.

(** Every call but a store of is_qualified user data other than that of
    [data] on the object [id]. *)
Definition qualified_write (id : nat) (data : string) (e : event) : bool :=
  match e with
  | EvSetUserData id' key data' =>
      if String.eqb key "is_qualified"
      then (id' =? id)%nat && String.eqb data' data
      else true
  | _ => true
  end.

(** The is_qualified user data of every object is the same in both
    states. *)
Definition qflag_same (st st' : state) : Prop :=
  forall id, user_data_lookup st' id "is_qualified"
             = user_data_lookup st id "is_qualified".

(** The walker's flag and the is_qualified user data are the same before
    and after. *)
Definition qual_same (x y : locals * state) : Prop :=
  l_is_qualified (fst y) = l_is_qualified (fst x) /\ qflag_same (snd x) (snd y).

(** The object [cert] carries the byte [b] as is_qualified user data, and
    the walker's flag is unknown or the value of that byte. *)
Definition flag_kept (cert : cert_h) (b : ascii) (x : locals * state) : Prop :=
  user_data_lookup (snd x) (h_id cert) "is_qualified" = Some (String b EmptyString)
  /\ (l_is_qualified (fst x) = (-1)%Z \/ l_is_qualified (fst x) = stored_flag b).

(** While the stored byte is kept, the only is_qualified user data
    stored is its value, on [cert]. *)
Definition flag_reused (cert : cert_h) (b : ascii) (x y : locals * state) : Prop :=
  flag_kept cert b x ->
  flag_kept cert b y
  /\ ext (qualified_write (h_id cert) (qualified_byte (stored_flag b))) (snd x) (snd y).

(** Every call but the request to mark a certificate as trusted. *)
Definition not_marktrusted (e : event) : bool :=
  match e with
  | EvMarkTrusted _ => false
  | _ => true
  end.

(** The session's record of the questions asked is the same in both
    states: the fingerprints asked about, and whether more questions may
    be asked. *)
Definition asking_same (st st' : state) : Prop :=
  no_more_questions st' = no_more_questions st
  /\ marktrusted_info st' = marktrusted_info st.

Definition ask_same (x y : locals * state) : Prop := asking_same (snd x) (snd y).

(** When no more questions may be asked before, none is asked, and none
    may be asked after. *)
Definition unasked (x y : locals * state) : Prop :=
  no_more_questions (snd x) = true ->
  no_more_questions (snd y) = true
  /\ marktrusted_info (snd y) = marktrusted_info (snd x)
  /\ ext not_marktrusted (snd x) (snd y).

(** [c] has the subject [issuer] and the subjectKeyIdentifier [keyid]. *)
Definition keyid_match (issuer keyid : string) (c : ksba_cert) : bool :=
  opt_eqb (cert_subject c) issuer && opt_eqb (cert_subj_key_id c) keyid.

(** Entry [i] of the key database is visible through [kh]. *)
Definition visible_at (st : state) (kh : KEYDB_HANDLE) (i : nat) : bool :=
  (i <? List.length (kdb_main st))%nat || kh_ephemeral kh.

(** No visible entry of the key database below [n] has the subject
    [issuer] and the subjectKeyIdentifier [keyid]. *)
Definition no_keyid_match_below (st : state) (kh : KEYDB_HANDLE)
    (issuer keyid : string) (n : nat) : Prop :=
  forall j c, j < n -> visible_at st kh j = true ->
              nth_error (keydb_entries st) j = Some c ->
              keyid_match issuer keyid c = false.

(** A world in which dirmngr delivers the certificate of the CA on every
    lookup, and options that enable the lookup. *)
Definition fetching : world :=
  mkWorld (w_isotime Sample.calm) (w_fopen Sample.calm) (w_fingerprint Sample.calm)
          (w_keydb_new Sample.calm) (w_istrusted Sample.calm)
          (w_marktrusted Sample.calm) (w_check_cert_sig Sample.calm)
          (w_isvalid Sample.calm) (w_qualified Sample.calm)
          (fun _ _ => (rc_0, [Sample.ca]))
          (w_use_cert_p Sample.calm) (w_set_user_data Sample.calm).
Definition retrieve_opt : options := mkOpt false false false false false true None.

(** The store with the end entity certificate, its CA and the root. *)
Definition three_certs : state := Sample.store [Sample.ee; Sample.ca; Sample.root].
(** Options that name a policy file, and the file as a function for
    [fopen]. *)
Definition policy_opt : options :=
  mkOpt false false false false false false (Some "policies.txt").
Definition policy_text (data : string) : string -> option FILE :=
  fun _ => Some (mkFILE data None).

(** A world in which every certificate is on the qualified list for
    Germany. *)
Definition german : world :=
  mkWorld (w_isotime Sample.calm) (w_fopen Sample.calm) (w_fingerprint Sample.calm)
          (w_keydb_new Sample.calm) (w_istrusted Sample.calm)
          (w_marktrusted Sample.calm) (w_check_cert_sig Sample.calm)
          (w_isvalid Sample.calm) (fun _ _ => (rc_0, "de"))
          (w_lookup Sample.calm) (w_use_cert_p Sample.calm)
          (w_set_user_data Sample.calm).

(** A world in which the agent lists no root as trusted. *)
Definition untrusting : world :=
  Sample.with_istrusted
    (fun _ _ => (GPG GPG_ERR_SOURCE_GPGAGENT GPG_ERR_NOT_TRUSTED, mkRootcaFlags false))
    Sample.calm.

(** The store of [three_certs] in a session in which no more questions
    are to be asked. *)
Definition silenced_certs : state :=
  mkState [Sample.ee; Sample.ca; Sample.root] [] [] 1 [] [] true [].

(** The certificate [c] with the subjectKeyIdentifier [k]. *)
Definition with_subj_key_id (k : string) (c : ksba_cert) : ksba_cert :=
  mkCert (cert_image c) (cert_serial c) (cert_issuer c) (cert_subject c)
         (cert_not_before c) (cert_not_after c) (cert_auth_key_id c) (Some k)
         (cert_extensions c) (cert_ext_end c) (cert_is_ca c) (cert_policies c).

(* ================================================================== *)
(** * Properties *)

(* ------------------------------------------------------------------ *)
(** ** gpgsm_basic_cert_check: the bypass *)

(** C10.  With [opt.no_chain_validation] set, [gpgsm_basic_cert_check]
    returns 0 at once for every certificate: the program state, and with
    it the record of calls to the key database and to the signature
    check, is unchanged.  The chain walker bypasses likewise only outside
    list mode; in list mode it still inspects the certificate (one without
    an issuer is rejected as [GPG_ERR_BAD_CERT]). *)
Theorem basic_cert_check_bypass (W : world) (opt : options) (st : state) (cert : cert_h) :
  no_chain_validation opt = true ->
  gpgsm_basic_cert_check W opt st cert = (rc_0, st)
  /\ (forall ctrl fuel flags,
        gpgsm_validate_chain W opt ctrl fuel st cert false false flags
        = Some (rc_0, None, st))
  /\ (forall ctrl fuel flags,
        w_keydb_new W (trace st) = true ->
        cert_issuer (h_cert cert) = None ->
        exists st',
          gpgsm_validate_chain W opt ctrl (S fuel) st cert false true flags
          = Some (gpg_error GPG_ERR_BAD_CERT, None, st')
          /\ trace st' = EvKeydbNew :: trace st).
Proof.
  intros Hopt. split; [|split].
  - unfold gpgsm_basic_cert_check. now rewrite Hopt.
  - intros. unfold gpgsm_validate_chain. now rewrite Hopt.
  - intros ctrl fuel flags Hnew Hiss.
    unfold gpgsm_validate_chain. rewrite Hopt. cbn [andb negb].
    unfold validate_chain_walk, bind, with_state, keydb_new. rewrite Hnew.
    cbn. unfold chain_step. rewrite Hiss. cbn.
    eexists. split; reflexivity.
Qed.

Lemma basic_cert_check_bypass_witness :
  gpgsm_basic_cert_check Sample.calm Sample.bypass_opt (Sample.store [Sample.ee])
    (mkH 0 Sample.ee) = (rc_0, Sample.store [Sample.ee]).
Proof.
  exact (proj1 (basic_cert_check_bypass Sample.calm Sample.bypass_opt
                  (Sample.store [Sample.ee]) (mkH 0 Sample.ee) eq_refl)).
Defined.

(* ------------------------------------------------------------------ *)
(** ** is_cert_still_valid: translation of the responder's answer *)

Lemma failed_false (rc : gpg_error_t) : failed rc = false -> rc = rc_0.
Proof. destruct rc; simpl; congruence. Qed.

Lemma has_code_failed (rc : gpg_error_t) (c : gpg_err_code_t) :
  has_code rc c = true -> failed rc = true.
Proof. destruct rc; simpl; congruence. Qed.

Lemma has_code_unique (rc : gpg_error_t) (c c' : gpg_err_code_t) :
  has_code rc c = true -> c <> c' -> has_code rc c' = false.
Proof.
  destruct rc as [| |s k]; simpl; try congruence.
  unfold code_eqb. destruct (gpg_err_code_eq_dec k c); try congruence.
  destruct (gpg_err_code_eq_dec k c'); congruence.
Qed.

(** C4.  Where the revocation check runs (CRL checks are not disabled, or
    OCSP is in use), the answer [err] of the responder is translated:
    [CERT_REVOKED] sets [any_revoked], records [VALIDITY_REVOKED] for the
    subject in the key database without looking at the result of that
    call, and yields 0; [NO_CRL_KNOWN] sets [any_no_crl] and yields 0;
    [CRL_TOO_OLD] sets [any_crl_too_old] and yields 0; any other error is
    returned as it is, the walker jumps to [leave] with it, and [leave]
    returns it.  With CRL checks disabled and OCSP not in use the check
    returns 0 and touches neither the flags nor the state. *)
Theorem is_cert_still_valid_translation (W : world) (opt : options) (ctrl : ctrl_t)
    (st : state) (subject_cert issuer_cert : ksba_cert) (fl : revocation_flags) :
  let err := w_isvalid W (trace st) subject_cert issuer_cert (use_ocsp ctrl) in
  let st1 := log (EvIsValid subject_cert issuer_cert (use_ocsp ctrl)) st in
  let run := is_cert_still_valid W opt ctrl st subject_cert issuer_cert fl in
  (no_crl_check opt = true -> use_ocsp ctrl = false -> run = (rc_0, fl, st))
  /\ (no_crl_check opt = false \/ use_ocsp ctrl = true ->
      (has_code err GPG_ERR_CERT_REVOKED = true ->
         run = (rc_0, mkRev true (any_no_crl fl) (any_crl_too_old fl),
                snd (keydb_set_cert_flags st1 subject_cert KEYBOX_FLAG_VALIDITY 0
                                          VALIDITY_REVOKED)))
      /\ (has_code err GPG_ERR_NO_CRL_KNOWN = true ->
            run = (rc_0, mkRev (any_revoked fl) true (any_crl_too_old fl), st1))
      /\ (has_code err GPG_ERR_CRL_TOO_OLD = true ->
            run = (rc_0, mkRev (any_revoked fl) (any_no_crl fl) true, st1))
      /\ (failed err = true ->
          has_code err GPG_ERR_CERT_REVOKED = false ->
          has_code err GPG_ERR_NO_CRL_KNOWN = false ->
          has_code err GPG_ERR_CRL_TOO_OLD = false ->
          run = (err, fl, st1)
          /\ (forall l,
                revocation_gate W opt ctrl subject_cert issuer_cert
                                (set_rev fl l) st
                = Some (Leave err, set_rev fl l, st1))
          /\ (forall cert l st',
                fst (validate_chain_leave W cert err l st') = err))
      /\ (failed err = false -> run = (rc_0, fl, st1))).
Proof.
  intros err st1 run. subst run. unfold is_cert_still_valid. fold err. fold st1.
  split.
  - intros -> ->. reflexivity.
  - intros Hrun.
    assert (Hg : negb (no_crl_check opt) || use_ocsp ctrl = true)
      by (destruct Hrun as [-> | ->]; [reflexivity | apply orb_true_r]).
    rewrite Hg.
    split; [|split; [|split; [|split]]].
    + intros H. rewrite (has_code_failed _ _ H), H.
      now destruct (keydb_set_cert_flags _ _ _ _ _).
    + intros H. rewrite (has_code_failed _ _ H), H.
      now rewrite (has_code_unique _ _ GPG_ERR_CERT_REVOKED H) by discriminate.
    + intros H. rewrite (has_code_failed _ _ H), H.
      rewrite (has_code_unique _ _ GPG_ERR_CERT_REVOKED H) by discriminate.
      now rewrite (has_code_unique _ _ GPG_ERR_NO_CRL_KNOWN H) by discriminate.
    + intros Hf H1 H2 H3. split; [|split].
      * now rewrite Hf, H1, H2, H3.
      * intros l.
        unfold revocation_gate, bind, revocation_check, is_cert_still_valid.
        fold err. fold st1. cbn [l_rev set_rev].
        rewrite Hg, Hf, H1, H2, H3.
        unfold leave_if_failed. rewrite Hf. unfold goto_leave.
        now destruct l.
      * intros cert l st'.
        unfold validate_chain_leave.
        destruct (negb (l_is_qualified l =? -1)%Z); [|reflexivity].
        destruct (ksba_cert_set_user_data _ _ _ _ _) as [e s'].
        destruct (failed e); [|reflexivity]. now rewrite Hf.
    + intros Hf. now rewrite Hf.
Qed.

Lemma is_cert_still_valid_translation_witness :
  let W := Sample.with_isvalid
             (fun _ _ _ _ => GPG GPG_ERR_SOURCE_DIRMNGR GPG_ERR_CERT_REVOKED)
             Sample.calm in
  let st := Sample.store [Sample.ee; Sample.ca; Sample.root] in
  fst (is_cert_still_valid W Sample.default_opt Sample.crl_ctrl st Sample.ee Sample.ca
         (mkRev false false false))
  = (rc_0, mkRev true false false).
Proof.
  intros W st.
  rewrite (proj1 (proj2 (is_cert_still_valid_translation W Sample.default_opt
                           Sample.crl_ctrl st Sample.ee Sample.ca
                           (mkRev false false false))
                        (or_introl eq_refl))
                 eq_refl).
  reflexivity.
Defined.

(* ------------------------------------------------------------------ *)
(** ** gpgsm_validate_chain: the code returned *)

(** The function outside its bypass: the walk, then the label [leave]. *)
Lemma gpgsm_validate_chain_unfold (W : world) (opt : options) (ctrl : ctrl_t)
    (fuel : nat) (st : state) (cert : cert_h) (r : bool) (lm : bool) (flags : Z)
    (f : flow gpg_error_t) (l : locals) (st1 : state) :
  no_chain_validation opt && negb lm = false ->
  validate_chain_walk W opt ctrl cert lm flags (w_isotime W (trace st)) 50 fuel
                      init_locals st = Some (f, l, st1) ->
  gpgsm_validate_chain W opt ctrl fuel st cert r lm flags
  = Some (fst (validate_chain_leave W cert (flow_rc f) l st1),
          (if r then Some (l_exptime l) else None),
          snd (validate_chain_leave W cert (flow_rc f) l st1)).
Proof.
  intros Hb Hw. unfold gpgsm_validate_chain. rewrite Hb, Hw.
  now destruct (validate_chain_leave W cert (flow_rc f) l st1).
Qed.

(** What the label [leave] returns. *)
Lemma validate_chain_leave_rc (W : world) (cert : cert_h) (rc : gpg_error_t)
    (l : locals) (st : state) :
  let err := w_set_user_data W (trace st) (h_id cert) "is_qualified"
                             (qualified_byte (l_is_qualified l)) in
  fst (validate_chain_leave W cert rc l st)
  = if negb (l_is_qualified l =? -1)%Z && failed err && negb (failed rc)
    then err else rc.
Proof.
  cbv zeta. unfold validate_chain_leave, ksba_cert_set_user_data.
  destruct (negb (l_is_qualified l =? -1)%Z); [|reflexivity].
  destruct (failed (w_set_user_data _ _ _ _ _)) eqn:E;
    cbv beta iota zeta; rewrite ?E; cbn;
    destruct (failed rc); reflexivity.
Qed.

(** C9.  Once the qualified-signature status is known ([is_qualified] is
    not -1) and the closing write of the [is_qualified] byte to the
    certificate under validation fails with [err], the function returns
    [err] if the validation had produced success and the validation's own
    error otherwise. *)
Theorem qualified_write_error (W : world) (opt : options) (ctrl : ctrl_t)
    (fuel : nat) (st : state) (cert : cert_h) (r : bool) (lm : bool) (flags : Z)
    (f : flow gpg_error_t) (l : locals) (st1 : state) :
  no_chain_validation opt && negb lm = false ->
  validate_chain_walk W opt ctrl cert lm flags (w_isotime W (trace st)) 50 fuel
                      init_locals st = Some (f, l, st1) ->
  l_is_qualified l <> (-1)%Z ->
  let err := w_set_user_data W (trace st1) (h_id cert) "is_qualified"
                             (qualified_byte (l_is_qualified l)) in
  failed err = true ->
  exists st2,
    gpgsm_validate_chain W opt ctrl fuel st cert r lm flags
    = Some ((if failed (flow_rc f) then flow_rc f else err),
            (if r then Some (l_exptime l) else None), st2)
    /\ user_data st2 = user_data st1.
Proof.
  intros Hb Hw Hq err Herr.
  rewrite (gpgsm_validate_chain_unfold _ _ _ _ _ _ _ _ _ _ _ _ Hb Hw).
  rewrite validate_chain_leave_rc. fold err. rewrite Herr.
  assert (Hq' : negb (l_is_qualified l =? -1)%Z = true)
    by (apply negb_true_iff, Z.eqb_neq, Hq).
  rewrite Hq'. cbn [andb].
  eexists. split.
  - destruct (failed (flow_rc f)); reflexivity.
  - unfold validate_chain_leave, ksba_cert_set_user_data. fold err.
    rewrite Hq', Herr. cbv beta iota zeta. rewrite Herr. reflexivity.
Qed.

Lemma qualified_write_error_witness :
  exists st2,
    gpgsm_validate_chain Sample.no_memory Sample.default_opt Sample.crl_ctrl 1
      (Sample.store [Sample.root]) (mkH 0 Sample.root) true false 0
    = Some (Sample.out_of_core, Some "20300101T000000", st2)
    /\ user_data st2 = [].
Proof.
  eassert (Hw : validate_chain_walk Sample.no_memory Sample.default_opt Sample.crl_ctrl
                  (mkH 0 Sample.root) false 0
                  (w_isotime Sample.no_memory (trace (Sample.store [Sample.root])))
                  50 1 init_locals (Sample.store [Sample.root])
                = Some (_, _, _))
    by (vm_compute; reflexivity).
  destruct (qualified_write_error Sample.no_memory Sample.default_opt Sample.crl_ctrl 1
              (Sample.store [Sample.root]) (mkH 0 Sample.root) true false 0
              _ _ _ eq_refl Hw) as [st2 [H1 H2]].
  - vm_compute. discriminate.
  - vm_compute. reflexivity.
  - exists st2. split.
    + rewrite H1. vm_compute. reflexivity.
    + rewrite H2. vm_compute. reflexivity.
Defined.

(** C1 as stated fails: a trusted root is validated with no soft error
    flag set, the walk ends without a jump to [leave], and yet the function
    does not return 0, because the closing write of [is_qualified] fails. *)
Lemma verdict_overridden_by_write_error :
  exists l st1 st2,
    validate_chain_walk Sample.no_memory Sample.default_opt Sample.crl_ctrl
      (mkH 0 Sample.root) false 0 "20200101T000000" 50 1 init_locals
      (Sample.store [Sample.root]) = Some (Go rc_0, l, st1)
    /\ (any_revoked (l_rev l) = false /\ l_any_expired l = false
        /\ any_no_crl (l_rev l) = false /\ any_crl_too_old (l_rev l) = false
        /\ l_any_no_policy_match l = false)
    /\ gpgsm_validate_chain Sample.no_memory Sample.default_opt Sample.crl_ctrl 1
         (Sample.store [Sample.root]) (mkH 0 Sample.root) false false 0
       = Some (GPG GPG_ERR_SOURCE_KSBA GPG_ERR_ENOMEM, None, st2).
Proof.
  do 3 eexists. split; [|split].
  - vm_compute. reflexivity.
  - repeat split.
  - vm_compute. reflexivity.
Qed.

(** The walk ends without a jump to [leave] exactly with the code of the
    soft flags. *)
Lemma validate_chain_walk_Go (W : world) (opt : options) (ctrl : ctrl_t)
    (cert : cert_h) (lm : bool) (flags : Z) (now : ksba_isotime_t) (md : Z)
    (fuel : nat) (l0 : locals) (st : state) (v : gpg_error_t) (l : locals)
    (st1 : state) :
  validate_chain_walk W opt ctrl cert lm flags now md fuel l0 st = Some (Go v, l, st1) ->
  v = verdict l.
Proof.
  unfold validate_chain_walk, bind, with_state, keydb_new, modify_locals,
    get_locals, ret, goto_leave.
  destruct (w_keydb_new W (trace st)); [|discriminate].
  destruct (chain_loop _ _ _ _ _ _ _ _ _ _ _ _ _) as [[[[[]|rc] l'] st']|];
    intros H; inversion H; subst; reflexivity.
Qed.

(** C1, amended.  When the walk ends without a fatal error, the code is
    chosen from the soft flags in the order revoked, expired, no CRL, CRL
    too old, no policy match, else success; that code is returned, except
    that success is replaced by the error of a failed closing write of
    [is_qualified]. *)
Theorem verdict_priority (W : world) (opt : options) (ctrl : ctrl_t)
    (fuel : nat) (st : state) (cert : cert_h) (r : bool) (lm : bool) (flags : Z)
    (v : gpg_error_t) (l : locals) (st1 : state) :
  no_chain_validation opt && negb lm = false ->
  validate_chain_walk W opt ctrl cert lm flags (w_isotime W (trace st)) 50 fuel
                      init_locals st = Some (Go v, l, st1) ->
  let err := w_set_user_data W (trace st1) (h_id cert) "is_qualified"
                             (qualified_byte (l_is_qualified l)) in
  (v = if any_revoked (l_rev l) then gpg_error GPG_ERR_CERT_REVOKED
       else if l_any_expired l then gpg_error GPG_ERR_CERT_EXPIRED
       else if any_no_crl (l_rev l) then gpg_error GPG_ERR_NO_CRL_KNOWN
       else if any_crl_too_old (l_rev l) then gpg_error GPG_ERR_CRL_TOO_OLD
       else if l_any_no_policy_match l then gpg_error GPG_ERR_NO_POLICY_MATCH
       else rc_0)
  /\ exists st2,
       gpgsm_validate_chain W opt ctrl fuel st cert r lm flags
       = Some ((if failed v then v
                else if negb (l_is_qualified l =? -1)%Z && failed err then err
                else rc_0),
               (if r then Some (l_exptime l) else None), st2).
Proof.
  intros Hb Hw err. split.
  - apply (validate_chain_walk_Go _ _ _ _ _ _ _ _ _ _ _ _ _ _ Hw).
  - rewrite (gpgsm_validate_chain_unfold _ _ _ _ _ _ _ _ _ _ _ _ Hb Hw).
    rewrite validate_chain_leave_rc. fold err. cbn [flow_rc].
    eexists. f_equal. f_equal. f_equal.
    destruct (failed v) eqn:Hv.
    + now rewrite andb_false_r.
    + rewrite andb_true_r.
      destruct (negb (l_is_qualified l =? -1)%Z && failed err); [reflexivity|].
      now apply failed_false.
Qed.

Lemma verdict_priority_witness :
  let W := Sample.with_isvalid
             (fun _ _ _ _ => GPG GPG_ERR_SOURCE_DIRMNGR GPG_ERR_CERT_REVOKED)
             Sample.calm in
  let st := Sample.store [Sample.ee; Sample.ca; Sample.root] in
  exists st2,
    gpgsm_validate_chain W Sample.default_opt Sample.crl_ctrl 3 st (mkH 0 Sample.ee)
                         false false 0
    = Some (gpg_error GPG_ERR_CERT_REVOKED, None, st2).
Proof.
  intros W st.
  eassert (Hw : validate_chain_walk W Sample.default_opt Sample.crl_ctrl
                  (mkH 0 Sample.ee) false 0 (w_isotime W (trace st))
                  50 3 init_locals st
                = Some (Go _, _, _))
    by (vm_compute; reflexivity).
  destruct (verdict_priority W Sample.default_opt Sample.crl_ctrl 3 st
              (mkH 0 Sample.ee) false false 0 _ _ _ eq_refl Hw) as [_ [st2 H]].
  exists st2. rewrite H. vm_compute. reflexivity.
Defined.

(* ------------------------------------------------------------------ *)
(** ** check_cert_policy: the length of a policy line *)

Lemma length_append (a b : string) :
  String.length (a ++ b) = String.length a + String.length b.
Proof. induction a; simpl; congruence. Qed.

Lemma fgets_take_line (content rest : string) (n : nat) :
  occurs LF content = false ->
  String.length content < n ->
  fgets_take n (content ++ String LF rest)%string
  = ((content ++ String LF EmptyString)%string, rest).
Proof.
  revert n. induction content as [|c content IH]; intros n Hlf Hn.
  - destruct n; [lia|]. reflexivity.
  - destruct n; [simpl in Hn; lia|].
    simpl in Hlf. apply orb_false_iff in Hlf. destruct Hlf as [Hc Hlf].
    simpl. rewrite Hc. rewrite IH; [reflexivity|assumption|simpl in Hn; lia].
Qed.

Lemma fgets_take_full (a b : string) :
  occurs LF a = false ->
  fgets_take (String.length a) (a ++ b)%string = (a, b).
Proof.
  induction a as [|c a IH]; intros Hlf.
  - reflexivity.
  - simpl in Hlf. apply orb_false_iff in Hlf. destruct Hlf as [Hc Hlf].
    simpl. rewrite Hc, IH by assumption. reflexivity.
Qed.

Lemma cstr_id (s : string) : occurs NUL s = false -> cstr s = s.
Proof.
  induction s as [|c s IH]; simpl; intros H; [reflexivity|].
  apply orb_false_iff in H. destruct H as [Hc H].
  rewrite Hc, IH by assumption. reflexivity.
Qed.

Lemma occurs_append (c : ascii) (a b : string) :
  occurs c (a ++ b)%string = occurs c a || occurs c b.
Proof. induction a; simpl; [reflexivity|]. now rewrite IHa, orb_assoc. Qed.

Lemma last_char_append (a : string) (c : ascii) :
  last_char (a ++ String c EmptyString)%string = Some c.
Proof.
  induction a as [|d a IH]; [reflexivity|].
  simpl. rewrite IH. now destruct a.
Qed.

Lemma last_char_None (s : string) : last_char s = None -> s = EmptyString.
Proof.
  induction s as [|d s IH]; [reflexivity|].
  simpl. destruct s; [discriminate|]. intros H. specialize (IH H). discriminate.
Qed.

Lemma last_char_occurs (s : string) (c : ascii) :
  last_char s = Some c -> occurs c s = true.
Proof.
  induction s as [|d s IH]; simpl; [discriminate|].
  destruct s.
  - intros H. inversion H. now rewrite Ascii.eqb_refl.
  - intros H. rewrite (IH H). apply orb_true_r.
Qed.

Lemma fgets_take_shorter (n : nat) (s raw rest : string) :
  fgets_take n s = (raw, rest) ->
  String.length s = String.length raw + String.length rest.
Proof.
  revert s raw rest. induction n; intros s raw rest H.
  - simpl in H. inversion H. reflexivity.
  - destruct s as [|c s]; simpl in H.
    + inversion H. reflexivity.
    + destruct (Ascii.eqb c LF).
      * inversion H. reflexivity.
      * destruct (fgets_take n s) as [l r] eqn:E. inversion H; subst.
        simpl. f_equal. now apply IHn.
Qed.

Lemma fgets_take_append (n : nat) (s raw rest : string) :
  fgets_take n s = (raw, rest) -> s = (raw ++ rest)%string.
Proof.
  revert s raw rest. induction n; intros s raw rest H.
  - simpl in H. inversion H. reflexivity.
  - destruct s as [|c s]; simpl in H.
    + inversion H. reflexivity.
    + destruct (Ascii.eqb c LF).
      * inversion H. reflexivity.
      * destruct (fgets_take n s) as [l r] eqn:E. inversion H; subst.
        simpl. f_equal. now apply IHn.
Qed.

Lemma fgets_take_nonempty (n : nat) (c : ascii) (r tail : string) :
  fgets_take (S n) (String c r) <> (EmptyString, tail).
Proof.
  simpl. destruct (Ascii.eqb c LF); [discriminate|].
  destruct (fgets_take n r). discriminate.
Qed.

(** A line delivered by [fgets] takes at least one byte off the stream. *)
Lemma fgets_consumes (size : nat) (fp fp' : FILE) (raw : string) :
  fgets size fp = FG_line raw fp' ->
  String.length (f_data fp') < String.length (f_data fp).
Proof.
  unfold fgets.
  destruct (fgets_take (size - 1) (f_data fp)) as [r rest] eqn:E.
  apply fgets_take_shorter in E.
  assert (Hne : forall x, last_char r = Some x -> 0 < String.length r)
    by (destruct r; simpl; [discriminate | lia]).
  destruct (last_char r) as [c|] eqn:Hl.
  - specialize (Hne c eq_refl).
    destruct (_ || _).
    + intros H; inversion H; subst; simpl; lia.
    + destruct (f_errno fp); [discriminate|].
      destruct r; [discriminate|]. intros H; inversion H; subst; simpl in *; lia.
  - destruct (f_errno fp); [discriminate|].
    destruct r; [discriminate|]. intros H; inversion H; subst; simpl in *; lia.
Qed.

(** The loop of [check_cert_policy] always comes to an end, and fuel
    beyond the length of the file changes nothing. *)
Lemma policy_loop_fuel (policies : string) (any_critical : bool) (f1 f2 : nat)
    (fp : FILE) :
  String.length (f_data fp) < f1 ->
  String.length (f_data fp) < f2 ->
  policy_loop policies any_critical f1 fp = policy_loop policies any_critical f2 fp
  /\ policy_loop policies any_critical f1 fp <> None.
Proof.
  revert f2 fp. induction f1 as [|f1 IH]; intros f2 fp H1 H2; [lia|].
  destruct f2 as [|f2]; [lia|].
  simpl. destruct (fgets 255 fp) as [raw fp'| |e] eqn:E;
    try (split; [reflexivity|discriminate]).
  apply fgets_consumes in E.
  destruct (match last_char (cstr raw) with
            | Some c => negb (Ascii.eqb c LF) | None => true end);
    [split; [reflexivity|discriminate]|].
  destruct (policy_candidate policies (cstr raw));
    [split; [reflexivity|discriminate]|].
  apply IH; lia.
Qed.

Lemma check_cert_policy_total (opt : options) (fopen : string -> option FILE)
    (cert : ksba_cert) :
  check_cert_policy opt fopen cert <> None.
Proof.
  unfold check_cert_policy. destruct (cert_policies cert) as [err policies].
  destruct (_ || _); [discriminate|].
  destruct (failed err); [discriminate|].
  destruct (policy_file opt) as [name|]; [|discriminate].
  destruct (fopen name) as [fp|]; [|discriminate].
  apply (policy_loop_fuel _ _ _ (S (String.length (f_data fp)))); lia.
Qed.

(** One round of the loop on a line that ends in a newline within the
    buffer. *)
Lemma policy_loop_line (policies : string) (any_critical : bool)
    (content rest : string) (errno : option Z) (fuel : nat) :
  occurs LF content = false ->
  occurs NUL content = false ->
  String.length content <= 253 ->
  policy_loop policies any_critical (S fuel)
              (mkFILE (content ++ String LF rest)%string errno)
  = match policy_candidate policies (content ++ String LF EmptyString)%string with
    | Some rc => Some rc
    | None => policy_loop policies any_critical fuel (mkFILE rest errno)
    end.
Proof.
  intros Hlf Hnul Hlen.
  cbn [policy_loop]. unfold fgets. cbn [f_data f_errno].
  rewrite (fgets_take_line content rest (255 - 1) Hlf) by (simpl; lia).
  rewrite last_char_append, Ascii.eqb_refl. cbn [orb].
  rewrite cstr_id by (rewrite occurs_append, Hnul; reflexivity).
  rewrite last_char_append, Ascii.eqb_refl. reflexivity.
Qed.

(** C3 as stated fails: a policy file whose only line has exactly 255
    characters before its newline is rejected with [LINE_TOO_LONG], although
    the line names a policy of the certificate; a line of 254 characters is
    rejected as well, one of 253 characters is accepted; a last line
    without newline is reported as [LINE_TOO_LONG], not as
    [INCOMPLETE_LINE]; and a short line that holds a NUL byte is rejected
    with [LINE_TOO_LONG] too. *)
Lemma policy_line_255_rejected :
  let oid n := Sample.rep n "1"%char in
  let cert n := Sample.with_policies (oid n ++ ":N:" ++ Sample.lf)%string Sample.ee in
  let opt := mkOpt false false false false false false (Some "policies.txt") in
  let file data := fun _ : string => Some (mkFILE data None) in
  check_cert_policy opt (file (oid 255 ++ Sample.lf)%string) (cert 255)
  = Some (gpg_error GPG_ERR_LINE_TOO_LONG)
  /\ check_cert_policy opt (file (oid 254 ++ Sample.lf)%string) (cert 254)
     = Some (gpg_error GPG_ERR_LINE_TOO_LONG)
  /\ check_cert_policy opt (file (oid 253 ++ Sample.lf)%string) (cert 253)
     = Some rc_0
  /\ check_cert_policy opt (file "1.2.3") (cert 3)
     = Some (gpg_error GPG_ERR_LINE_TOO_LONG)
  /\ check_cert_policy opt (file ("1.2" ++ String NUL ("x" ++ Sample.lf))%string) (cert 3)
     = Some (gpg_error GPG_ERR_LINE_TOO_LONG).
Proof. vm_compute. repeat split. Qed.

(** C3, amended.  In [check_cert_policy], with a policy file opened and a
    certificate that lists policies, for a line without NUL bytes: a first
    line of at most 253 characters followed by a newline is accepted, that
    is, the result is what the line yields as a candidate policy line, or
    else what the rest of the file yields; a file that starts with 254
    characters without a newline, that is, with a line of 254 or more
    characters, fails with [LINE_TOO_LONG]; and so does a file that is
    one non-empty line ending at EOF without a newline. *)
Theorem policy_line_length (opt : options) (name : string) (cert : ksba_cert)
    (policies content rest : string) (errno : option Z) :
  cert_policies cert = (rc_0, policies) ->
  policy_file opt = Some name ->
  occurs LF content = false ->
  occurs NUL content = false ->
  let file data e := fun _ : string => Some (mkFILE data e) in
  (String.length content <= 253 ->
     check_cert_policy opt (file (content ++ String LF rest)%string errno) cert
     = match policy_candidate policies (content ++ String LF EmptyString)%string with
       | Some rc => Some rc
       | None => check_cert_policy opt (file rest errno) cert
       end)
  /\ (String.length content = 254 ->
        check_cert_policy opt (file (content ++ rest)%string errno) cert
        = Some (gpg_error GPG_ERR_LINE_TOO_LONG))
  /\ (content <> EmptyString ->
        check_cert_policy opt (file content None) cert
        = Some (gpg_error GPG_ERR_LINE_TOO_LONG)).
Proof.
  intros Hpol Hfile Hlf Hnul file.
  assert (Hopen : forall data e,
            check_cert_policy opt (file data e) cert
            = policy_loop policies (strstr_found policies ":C")
                          (S (String.length data)) (mkFILE data e)).
  { intros data e. unfold check_cert_policy. rewrite Hpol, Hfile. reflexivity. }
  assert (Hline : forall raw : string,
            raw <> EmptyString -> occurs LF raw = false -> occurs NUL raw = false ->
            match last_char (cstr raw) with
            | Some c => negb (Ascii.eqb c LF)
            | None => true
            end = true
            /\ cstr raw <> EmptyString).
  { intros raw Hne Hl Hn. rewrite (cstr_id raw Hn). split; [|exact Hne].
    destruct (last_char raw) as [c|] eqn:Hc; [|reflexivity].
    destruct (Ascii.eqb_spec c LF) as [->|]; [|reflexivity].
    apply last_char_occurs in Hc. congruence. }
  split; [|split].
  3:{ intros Hne. rewrite Hopen. cbn [policy_loop]. unfold fgets. cbn [f_data f_errno].
      destruct (fgets_take (255 - 1) content) as [raw tail] eqn:Et.
      assert (Hs : content = (raw ++ tail)%string) by exact (fgets_take_append _ _ _ _ Et).
      assert (Hraw : raw <> EmptyString).
      { intros ->. destruct content as [|c r]; [congruence|].
        exact (fgets_take_nonempty 253 c r _ Et). }
      assert (Hl : occurs LF raw = false).
      { rewrite Hs, occurs_append in Hlf. now apply orb_false_iff in Hlf. }
      assert (Hn : occurs NUL raw = false).
      { rewrite Hs, occurs_append in Hnul. now apply orb_false_iff in Hnul. }
      destruct (Hline raw Hraw Hl Hn) as [Hu Hc].
      assert (Hgo : forall fp', match (FG_line raw fp') with
                         | FG_eof => Some (policy_not_allowed (strstr_found policies ":C"))
                         | FG_error e => Some (gpg_error (GPG_ERR_ERRNO e))
                         | FG_line raw0 fp0 =>
                             if match last_char (cstr raw0) with
                                | Some c => negb (Ascii.eqb c LF)
                                | None => true
                                end
                             then Some (gpg_error (match cstr raw0 with
                                                   | EmptyString => GPG_ERR_INCOMPLETE_LINE
                                                   | _ => GPG_ERR_LINE_TOO_LONG
                                                   end))
                             else match policy_candidate policies (cstr raw0) with
                                  | Some rc => Some rc
                                  | None => policy_loop policies (strstr_found policies ":C")
                                              (String.length content) fp0
                                  end
                         end = Some (gpg_error GPG_ERR_LINE_TOO_LONG)).
      { intros fp'. rewrite Hu. destruct (cstr raw); [congruence|reflexivity]. }
      destruct (match last_char raw with
                | Some c => Ascii.eqb c LF || (String.length raw =? 255 - 1)%nat
                | None => false
                end); [apply Hgo|].
      destruct raw; [congruence|apply Hgo]. }
  - intros Hlen. rewrite !Hopen.
    rewrite (policy_loop_line policies _ content rest errno _ Hlf Hnul Hlen).
    destruct (policy_candidate _ _); [reflexivity|].
    apply policy_loop_fuel; cbn [f_data]; rewrite ?length_append; simpl; lia.
  - intros Hlen. rewrite Hopen.
    cbn [policy_loop]. unfold fgets. cbn [f_data f_errno].
    replace (255 - 1) with (String.length content) by (rewrite Hlen; reflexivity).
    rewrite (fgets_take_full content rest Hlf).
    destruct (last_char content) as [c|] eqn:Hl.
    + rewrite Nat.eqb_refl, orb_true_r.
      rewrite (cstr_id content Hnul), Hl.
      assert (Hc : Ascii.eqb c LF = false).
      { destruct (Ascii.eqb_spec c LF) as [->|]; [|reflexivity].
        apply last_char_occurs in Hl. congruence. }
      rewrite Hc. cbn [negb]. destruct content; [discriminate|reflexivity].
    + apply last_char_None in Hl. subst content. discriminate.
Qed.

Lemma policy_line_length_witness :
  check_cert_policy (mkOpt false false false false false false (Some "policies.txt"))
    (fun _ => Some (mkFILE ("1.2.3" ++ String LF ("2.5.29.32.0 any" ++ Sample.lf))%string
                           None))
    (Sample.with_policies ("2.5.29.32.0:N:" ++ Sample.lf)%string Sample.ee)
  = Some rc_0.
Proof.
  rewrite (proj1 (policy_line_length
                    (mkOpt false false false false false false (Some "policies.txt"))
                    "policies.txt"
                    (Sample.with_policies ("2.5.29.32.0:N:" ++ Sample.lf)%string Sample.ee)
                    ("2.5.29.32.0:N:" ++ Sample.lf)%string "1.2.3"
                    ("2.5.29.32.0 any" ++ Sample.lf)%string None
                    eq_refl eq_refl eq_refl eq_refl))
    by (vm_compute; lia).
  vm_compute. reflexivity.
Defined.

(* ------------------------------------------------------------------ *)
(** ** find_up: the certificate under the cursor *)

Lemma cursor_on_weaken (st : state) (kh : KEYDB_HANDLE) (P Q : ksba_cert -> Prop) :
  (forall c, P c -> Q c) -> cursor_on st kh P -> cursor_on st kh Q.
Proof. intros H (i & c & ? & ? & ?). exists i, c. auto. Qed.

Lemma cursor_on_same (st st' : state) (kh kh' : KEYDB_HANDLE) (P : ksba_cert -> Prop) :
  keydb_entries st' = keydb_entries st ->
  kh_found kh' = kh_found kh ->
  cursor_on st kh P -> cursor_on st' kh' P.
Proof. intros He Hf (i & c & ? & ? & ?). exists i, c. rewrite He, Hf. auto. Qed.

Lemma keydb_scan_found (p : ksba_cert -> bool) (visible : nat -> bool)
    (l : list ksba_cert) (i pos j : nat) :
  keydb_scan p visible l i pos = Some j ->
  exists c, i <= j /\ nth_error l (j - i) = Some c /\ p c = true.
Proof.
  revert i. induction l as [|c l IH]; intros i; simpl; [discriminate|].
  destruct ((pos <=? i)%nat && visible i && p c) eqn:E.
  - intros H; inversion H; subst. exists c. rewrite Nat.sub_diag.
    apply andb_true_iff in E. destruct E as [_ E]. auto.
  - intros H. destruct (IH _ H) as (d & Hle & Hn & Hp).
    exists d. split; [lia|]. split; [|assumption].
    replace (j - i) with (S (j - S i)) by lia. exact Hn.
Qed.

Lemma keydb_search_found (st : state) (kh kh' : KEYDB_HANDLE)
    (p : ksba_cert -> bool) (rc : gpg_error_t) :
  keydb_search st kh p = (rc, kh') ->
  (rc = rc_0 /\ cursor_on st kh' (fun c => p c = true))
  \/ (rc = rc_m1 /\ kh_found kh' = None).
Proof.
  unfold keydb_search.
  destruct (keydb_scan _ _ _ _ _) as [j|] eqn:E; intros H; inversion H; subst.
  - left. split; [reflexivity|].
    destruct (keydb_scan_found _ _ _ _ _ _ E) as (c & _ & Hn & Hp).
    exists j, c. rewrite Nat.sub_0_r in Hn. auto.
  - right. auto.
Qed.

Lemma keydb_get_cert_entries (st st' : state) (kh : KEYDB_HANDLE)
    (rc : gpg_error_t) (c : option cert_h) :
  keydb_get_cert st kh = (rc, c, st') -> keydb_entries st' = keydb_entries st.
Proof.
  unfold keydb_get_cert. destruct (kh_found kh) as [i|].
  - destruct (nth_error _ i); intros H; inversion H; reflexivity.
  - intros H; inversion H; reflexivity.
Qed.

(** What [keydb_get_cert] returns when the cursor is on a certificate. *)
Lemma keydb_get_cert_cursor (st : state) (kh : KEYDB_HANDLE) (P : ksba_cert -> Prop) :
  cursor_on st kh P ->
  exists c, P c /\ In c (keydb_entries st)
            /\ keydb_get_cert st kh
               = (rc_0, Some (mkH (next_id st) c), set_next_id (S (next_id st)) st).
Proof.
  intros (i & c & Hf & Hn & Hp). exists c. split; [assumption|].
  split; [eapply nth_error_In; eassumption|].
  unfold keydb_get_cert. now rewrite Hf, Hn.
Qed.

Section FindUpFacts.
Variable W : world.
Variable opt : options.

Lemma find_up_search_by_keyid_loop_found (fuel : nat) (st st' : state)
    (kh kh' : KEYDB_HANDLE) (issuer keyid : string) (rc : gpg_error_t) :
  find_up_search_by_keyid_loop fuel st kh issuer keyid = (rc, kh', st') ->
  keydb_entries st' = keydb_entries st
  /\ (failed rc = false ->
      cursor_on st' kh' (fun c => opt_eqb (cert_subject c) issuer = true)).
Proof.
  revert st kh. induction fuel as [|fuel IH]; intros st kh; simpl.
  - intros H; inversion H; subst. split; [reflexivity|discriminate].
  - destruct (keydb_search_subject st kh issuer) as [r kh1] eqn:Es.
    destruct (keydb_search_found _ _ _ _ _ Es) as [[-> Hc] | [-> _]];
      cbn [failed].
    + destruct (keydb_get_cert st kh1) as [[rc1 cert] st1] eqn:Eg.
      pose proof (keydb_get_cert_entries _ _ _ _ _ Eg) as He.
      assert (Hstop : forall r0, (r0, kh1, st1) = (rc, kh', st') ->
                keydb_entries st' = keydb_entries st
                /\ (failed rc = false ->
                    cursor_on st' kh'
                      (fun c => opt_eqb (cert_subject c) issuer = true))).
      { intros r0 H; inversion H; subst. split; [assumption|].
        intros _. eapply cursor_on_same; [exact He|reflexivity|exact Hc]. }
      assert (Hgo : find_up_search_by_keyid_loop fuel st1 kh1 issuer keyid
                    = (rc, kh', st') ->
                keydb_entries st' = keydb_entries st
                /\ (failed rc = false ->
                    cursor_on st' kh'
                      (fun c => opt_eqb (cert_subject c) issuer = true))).
      { intros H. destruct (IH _ _ H) as [He' Hc']. split; [congruence|assumption]. }
      destruct cert as [cert|].
      * destruct (failed rc1).
        -- intros H; inversion H; subst. split; [assumption|discriminate].
        -- destruct (cert_subj_key_id (h_cert cert)) as [subj|]; [|exact Hgo].
           destruct (String.eqb keyid subj); [apply Hstop|exact Hgo].
      * intros H; inversion H; subst. split; [assumption|discriminate].
    + intros H; inversion H; subst. split; [reflexivity|discriminate].
Qed.

Lemma find_up_search_by_keyid_found (st st' : state) (kh kh' : KEYDB_HANDLE)
    (issuer keyid : string) (rc : gpg_error_t) :
  find_up_search_by_keyid st kh issuer keyid = (rc, kh', st') ->
  keydb_entries st' = keydb_entries st
  /\ (rc = rc_0 \/ rc = rc_m1)
  /\ (failed rc = false ->
      cursor_on st' kh' (fun c => opt_eqb (cert_subject c) issuer = true)).
Proof.
  unfold find_up_search_by_keyid.
  destruct (find_up_search_by_keyid_loop _ _ _ _ _) as [[r k] s] eqn:E.
  destruct (find_up_search_by_keyid_loop_found _ _ _ _ _ _ _ _ E) as [He Hc].
  intros H; inversion H; subst. split; [assumption|].
  destruct (failed r); cbn [failed]; split; auto; discriminate.
Qed.

Lemma keydb_set_ephemeral_found (kh : KEYDB_HANDLE) (b : bool) :
  kh_found (snd (keydb_set_ephemeral kh b)) = kh_found kh.
Proof. reflexivity. Qed.

Lemma store_ephemeral_entries (certs : list ksba_cert) (st : state) :
  keydb_entries (fold_left keydb_store_cert_ephemeral certs st)
  = keydb_entries st ++ certs.
Proof.
  revert st. induction certs as [|c certs IH]; intros st; simpl.
  - now rewrite app_nil_r.
  - rewrite IH. unfold keydb_entries, keydb_store_cert_ephemeral. simpl.
    now rewrite <- !app_assoc.
Qed.

Lemma find_up_external_found (st st' : state) (kh kh' : KEYDB_HANDLE)
    (issuer : string) (keyid : option string) (rc : gpg_error_t) :
  find_up_external W st kh issuer keyid = (rc, kh', st') ->
  failed rc = false ->
  cursor_on st' kh' (fun c => opt_eqb (cert_subject c) issuer = true).
Proof.
  unfold find_up_external.
  destruct (w_lookup W (trace st) (external_pattern issuer)) as [r certs].
  set (st2 := fold_left keydb_store_cert_ephemeral certs _).
  destruct (failed r); [intros H; inversion H; subst; discriminate|].
  destruct (_ =? _)%nat; [intros H; inversion H; subst; discriminate|].
  cbn [keydb_set_ephemeral].
  destruct keyid as [k|].
  - destruct (find_up_search_by_keyid st2 _ issuer k) as [[r1 k2] s3] eqn:E.
    destruct (find_up_search_by_keyid_found _ _ _ _ _ _ _ E) as (_ & _ & Hc).
    intros H; inversion H; subst. intros Hf.
    eapply cursor_on_same; [reflexivity|apply keydb_set_ephemeral_found|auto].
  - destruct (keydb_search_subject st2 _ issuer) as [r1 k2] eqn:E.
    destruct (keydb_search_found _ _ _ _ _ E) as [[-> Hc] | [-> _]];
      intros H; inversion H; subst; [|discriminate].
    intros _. eapply cursor_on_same; [reflexivity|apply keydb_set_ephemeral_found|auto].
Qed.

Lemma opt_eqb_eq (a : option string) (b : string) :
  opt_eqb a b = true -> a = Some b.
Proof.
  destruct a as [x|]; simpl; [|discriminate].
  intros H. apply String.eqb_eq in H. congruence.
Qed.

Lemma find_up_by_aki_found (st st' : state) (kh kh' : KEYDB_HANDLE)
    (cert : ksba_cert) (aki : auth_key_id) (issuer : string) (find_next : bool)
    (rc : gpg_error_t) :
  cert_auth_key_id cert = Some aki ->
  find_up_by_aki W opt st kh aki issuer find_next = (rc, kh', st') ->
  failed rc = false ->
  cursor_on st' kh' (issuer_candidate cert issuer).
Proof.
  intros Haki. unfold find_up_by_aki.
  (* the search by issuer and serial number *)
  set (first := match aki_issuer_sn aki with Some _ => _ | None => _ end).
  assert (Hfirst : (fst first = rc_0 /\ cursor_on st (snd first) (issuer_candidate cert issuer))
                   \/ (failed (fst first) = true)).
  { subst first. destruct (aki_issuer_sn aki) as [[s sn]|] eqn:Esn; [|right; reflexivity].
    destruct (negb (String.eqb sn EmptyString)); [|right; reflexivity].
    assert (Hsn : forall k r k',
              keydb_search_issuer_sn st k s sn = (r, k') ->
              (r = rc_0 /\ cursor_on st k' (issuer_candidate cert issuer))
              \/ (r = rc_m1)).
    { intros k r k' E. destruct (keydb_search_found _ _ _ _ _ E) as [[-> Hc] | [-> _]];
        [left; split; [reflexivity|] | right; reflexivity].
      eapply cursor_on_weaken; [|exact Hc]. intros c Hp.
      apply andb_true_iff in Hp. destruct Hp as [Hi Hs].
      right. exists aki, s, sn. repeat split; auto using opt_eqb_eq.
      now apply String.eqb_eq. }
    destruct (keydb_search_issuer_sn st kh s sn) as [r k1] eqn:E1.
    destruct (Hsn _ _ _ E1) as [[-> Hc] | ->]; cbn [failed is_m1 andb].
    - left. split; [reflexivity|exact Hc].
    - destruct (negb find_next); cbn [fst snd]; [|right; reflexivity].
      cbn [keydb_set_ephemeral]. destruct (negb (kh_ephemeral _)); [|right; reflexivity].
      clear E1.
      destruct (keydb_search_issuer_sn st _ s sn) as [r2 k2] eqn:E2.
      destruct (Hsn _ _ _ E2) as [[-> Hc] | ->]; cbn [failed fst snd].
      + left. split; [reflexivity|].
        eapply cursor_on_same; [reflexivity|apply keydb_set_ephemeral_found|exact Hc].
      + right. reflexivity. }
  destruct first as [r0 k0]. cbn [fst snd] in Hfirst.
  destruct Hfirst as [[-> Hc0] | Hf0].
  - (* found by issuer and serial number: nothing else runs *)
    cbn [is_m1 andb]. destruct (aki_keyid aki); intros H; inversion H; subst; auto.
  - (* the search by keyIdentifier, then the external lookup *)
    set (second := match aki_keyid aki with Some _ => _ | None => _ end).
    assert (Hsecond : let '(r, k, s) := second in
              (failed r = false -> cursor_on s k (issuer_candidate cert issuer))).
    { subst second. destruct (aki_keyid aki) as [keyid|]; [|congruence].
      destruct (is_m1 r0 && negb find_next); [|congruence].
      destruct (find_up_search_by_keyid st k0 issuer keyid) as [[r1 k1] s1] eqn:E1.
      destruct (find_up_search_by_keyid_found _ _ _ _ _ _ _ E1) as (_ & Hr1 & Hc1).
      destruct Hr1 as [-> | ->]; cbn [failed].
      - intros _. eapply cursor_on_weaken; [|apply Hc1; reflexivity].
        intros c Hp. left. now apply opt_eqb_eq.
      - cbn [keydb_set_ephemeral].
        destruct (negb (kh_ephemeral k1)); [|discriminate].
        clear E1.
        destruct (find_up_search_by_keyid s1 _ issuer keyid) as [[r2 k2] s2] eqn:E2.
        destruct (find_up_search_by_keyid_found _ _ _ _ _ _ _ E2) as (_ & Hr2 & Hc2).
        destruct Hr2 as [-> | ->]; cbn [failed]; [|discriminate].
        intros _. eapply cursor_on_same;
          [reflexivity|apply keydb_set_ephemeral_found|].
        eapply cursor_on_weaken; [|apply Hc2; reflexivity].
        intros c Hp. left. now apply opt_eqb_eq. }
    destruct second as [[r1 k1] s1].
    destruct (is_m1 r1 && auto_issuer_key_retrieve opt && negb find_next).
    + intros H Hf. eapply cursor_on_weaken;
        [|eapply find_up_external_found; eassumption].
      intros c Hp. left. now apply opt_eqb_eq.
    + intros H; inversion H; subst. exact Hsecond.
Qed.

Lemma find_up_found (st st' : state) (kh kh' : KEYDB_HANDLE) (cert : ksba_cert)
    (issuer : string) (find_next : bool) (rc : gpg_error_t) :
  find_up W opt st kh cert issuer find_next = (rc, kh', st') ->
  failed rc = false ->
  cursor_on st' kh' (issuer_candidate cert issuer).
Proof.
  unfold find_up.
  set (first := match cert_auth_key_id cert with Some _ => _ | None => _ end).
  assert (Hfirst : let '(r, k, s) := first in
            failed r = false -> cursor_on s k (issuer_candidate cert issuer)).
  { subst first. destruct (cert_auth_key_id cert) as [aki|] eqn:Ea; [|discriminate].
    destruct (find_up_by_aki W opt st kh aki issuer find_next) as [[r k] s] eqn:E.
    now apply (find_up_by_aki_found _ _ _ _ _ _ _ _ _ Ea E). }
  destruct first as [[r0 k0] s0].
  assert (Hsub : forall k r k',
            keydb_search_subject s0 k issuer = (r, k') ->
            (r = rc_0 /\ cursor_on s0 k' (issuer_candidate cert issuer)) \/ r = rc_m1).
  { intros k r k' E. destruct (keydb_search_found _ _ _ _ _ E) as [[-> Hc] | [-> _]];
      [left; split; [reflexivity|] | right; reflexivity].
    eapply cursor_on_weaken; [|exact Hc]. intros c Hp. left. now apply opt_eqb_eq. }
  set (second := if failed r0 then _ else _).
  assert (Hsecond : failed (fst second) = false ->
                    cursor_on s0 (snd second) (issuer_candidate cert issuer)).
  { subst second. destruct (failed r0) eqn:Ef; [|intros _; apply Hfirst; reflexivity].
    destruct (keydb_search_subject s0 k0 issuer) as [r k] eqn:E.
    destruct (Hsub _ _ _ E) as [[-> Hc] | ->]; cbn [fst snd failed];
      [auto|discriminate]. }
  destruct second as [r1 k1]. cbn [fst snd] in Hsecond.
  set (third := if is_m1 r1 && negb find_next then _ else _).
  assert (Hthird : failed (fst third) = false ->
                   cursor_on s0 (snd third) (issuer_candidate cert issuer)).
  { subst third. destruct (is_m1 r1 && negb find_next) eqn:Em; [|exact Hsecond].
    cbn [keydb_set_ephemeral]. destruct (negb (kh_ephemeral k1)).
    - destruct (keydb_search_subject s0 _ issuer) as [r k] eqn:E.
      destruct (Hsub _ _ _ E) as [[-> Hc] | ->]; cbn [fst snd failed];
        [|discriminate].
      intros _. eapply cursor_on_same;
        [reflexivity|apply keydb_set_ephemeral_found|exact Hc].
    - cbn [fst snd]. apply andb_true_iff in Em. destruct Em as [Em _].
      destruct r1; discriminate. }
  destruct third as [r2 k2]. cbn [fst snd] in Hthird.
  destruct (is_m1 r2 && auto_issuer_key_retrieve opt && negb find_next).
  - intros H Hf. eapply cursor_on_weaken;
      [|eapply find_up_external_found; eassumption].
    intros c Hp. left. now apply opt_eqb_eq.
  - intros H; inversion H; subst. exact Hthird.
Qed.
End FindUpFacts.

(** C6 as stated fails: [find_up] has no test that excludes the input.
    For a certificate that is not self-issued but whose
    authorityKeyIdentifier names its own issuer and serial number, the
    search by issuer and serial number stops on the certificate itself,
    with [find_next] clear as well as set. *)
Lemma find_up_returns_input :
  let st := Sample.store [Sample.self_aki; Sample.ca; Sample.root] in
  let kh := mkKH 0 None false in
  cert_issuer Sample.self_aki <> cert_subject Sample.self_aki
  /\ (forall find_next, exists kh',
        find_up Sample.calm Sample.default_opt st kh Sample.self_aki "CN=CA" find_next
        = (rc_0, kh', st)
        /\ keydb_get_cert st kh'
           = (rc_0, Some (mkH 1 Sample.self_aki), set_next_id 2 st))
  /\ compare_certs Sample.self_aki Sample.self_aki = false.
Proof.
  intros st kh. split; [discriminate|]. split; [|reflexivity].
  intros [|]; eexists; split; vm_compute; reflexivity.
Qed.

(** C6, amended.  When [find_up] returns 0, the cursor is on a
    certificate of the database whose subject is [issuer], or which has
    the issuer name and serial number given in the input's
    authorityKeyIdentifier; [keydb_get_cert] delivers it.  It is therefore
    not the input certificate whenever the input's subject differs from
    [issuer] and its authorityKeyIdentifier does not name the input's own
    issuer and serial number. *)
Theorem find_up_candidate (W : world) (opt : options) (st st' : state)
    (kh kh' : KEYDB_HANDLE) (cert : ksba_cert) (issuer : string) (find_next : bool) :
  find_up W opt st kh cert issuer find_next = (rc_0, kh', st') ->
  exists c,
    keydb_get_cert st' kh'
    = (rc_0, Some (mkH (next_id st') c), set_next_id (S (next_id st')) st')
    /\ In c (keydb_entries st')
    /\ issuer_candidate cert issuer c
    /\ (cert_subject cert <> Some issuer ->
        (forall aki s sn,
           cert_auth_key_id cert = Some aki ->
           aki_issuer_sn aki = Some (s, sn) ->
           ~ (cert_issuer cert = Some s /\ cert_serial cert = sn)) ->
        c <> cert).
Proof.
  intros H.
  pose proof (find_up_found W opt _ _ _ _ _ _ _ _ H eq_refl) as Hc.
  destruct (keydb_get_cert_cursor _ _ _ Hc) as (c & Hcand & Hin & Hget).
  exists c. repeat split; try assumption.
  intros Hsub Haki ->.
  destruct Hcand as [Hs | (aki & s & sn & Ha & Hsn & Hi & Hn)].
  - contradiction.
  - exact (Haki aki s sn Ha Hsn (conj Hi Hn)).
Qed.

Lemma find_up_candidate_witness :
  exists c,
    keydb_get_cert (Sample.store [Sample.ee; Sample.ca; Sample.root])
                   (mkKH 2 (Some 1) false)
    = (rc_0, Some (mkH 1 c),
       set_next_id 2 (Sample.store [Sample.ee; Sample.ca; Sample.root]))
    /\ c <> Sample.ee.
Proof.
  destruct (find_up_candidate Sample.calm Sample.default_opt
              (Sample.store [Sample.ee; Sample.ca; Sample.root])
              (Sample.store [Sample.ee; Sample.ca; Sample.root])
              (mkKH 0 None false) (mkKH 2 (Some 1) false)
              Sample.ee "CN=CA" false eq_refl)
    as (c & Hget & _ & _ & Hne).
  exists c. split; [exact Hget|].
  apply Hne; [discriminate|]. intros aki s sn Ha. discriminate Ha.
Defined.

(* ------------------------------------------------------------------ *)
(** ** What the issuer search leaves behind *)

Lemma ext_refl (P : event -> bool) (st : state) : ext P st st.
Proof. exists []. split; reflexivity. Qed.

Lemma ext_same (P : event -> bool) (st st' : state) :
  trace st' = trace st -> ext P st st'.
Proof. intros H. exists []. split; [exact H|reflexivity]. Qed.

Lemma ext_trans (P : event -> bool) (st1 st2 st3 : state) :
  ext P st1 st2 -> ext P st2 st3 -> ext P st1 st3.
Proof.
  intros (e1 & H1 & F1) (e2 & H2 & F2). exists (e2 ++ e1). split.
  - rewrite H2, H1. apply app_assoc.
  - rewrite forallb_app, F1, F2. reflexivity.
Qed.

Lemma ext_log (P : event -> bool) (st : state) (e : event) :
  P e = true -> ext P st (log e st).
Proof. intros H. exists [e]. split; [reflexivity|]. simpl. now rewrite H. Qed.

Lemma ext_weaken (P Q : event -> bool) (st st' : state) :
  (forall e, P e = true -> Q e = true) -> ext P st st' -> ext Q st st'.
Proof.
  intros H (evs & Ht & F). exists evs. split; [exact Ht|].
  rewrite forallb_forall in *. auto.
Qed.

Lemma searched_refl (st : state) : searched st st.
Proof. split; [reflexivity|apply ext_refl]. Qed.

Lemma searched_trans (st1 st2 st3 : state) :
  searched st1 st2 -> searched st2 st3 -> searched st1 st3.
Proof.
  intros [U1 E1] [U2 E2]. split; [congruence|eapply ext_trans; eassumption].
Qed.

Lemma keydb_get_cert_searched (st st' : state) (kh : KEYDB_HANDLE)
    (rc : gpg_error_t) (c : option cert_h) :
  keydb_get_cert st kh = (rc, c, st') -> searched st st'.
Proof.
  unfold keydb_get_cert. destruct (kh_found kh) as [i|].
  - destruct (nth_error _ i); intros H; inversion H; subst;
      (split; [reflexivity|apply ext_same; reflexivity]).
  - intros H; inversion H; subst. apply searched_refl.
Qed.

Lemma store_ephemeral_searched (certs : list ksba_cert) (st : state) :
  searched st (fold_left keydb_store_cert_ephemeral certs st).
Proof.
  revert st. induction certs as [|c certs IH]; intros st; simpl.
  - apply searched_refl.
  - eapply searched_trans; [|apply IH].
    split; [reflexivity|apply ext_same; reflexivity].
Qed.

Lemma last_default {A : Type} (x : A) (l : list A) (d d' : A) :
  List.last (x :: l) d = List.last (x :: l) d'.
Proof.
  revert x. induction l as [|y l IH]; intros x; [reflexivity|].
  change (List.last (y :: l) d = List.last (y :: l) d'). apply IH.
Qed.

Section SearchFacts.
Variable W : world.
Variable opt : options.

Lemma find_up_search_by_keyid_loop_searched (fuel : nat) (st st' : state)
    (kh kh' : KEYDB_HANDLE) (issuer keyid : string) (rc : gpg_error_t) :
  find_up_search_by_keyid_loop fuel st kh issuer keyid = (rc, kh', st') ->
  searched st st'.
Proof.
  revert st kh. induction fuel as [|fuel IH]; intros st kh; simpl.
  - intros H; inversion H; subst. apply searched_refl.
  - destruct (keydb_search_subject st kh issuer) as [r kh1].
    destruct (failed r); [intros H; inversion H; subst; apply searched_refl|].
    destruct (keydb_get_cert st kh1) as [[rc1 cert] st1] eqn:Eg.
    apply keydb_get_cert_searched in Eg.
    assert (Hstop : forall r0, (r0, kh1, st1) = (rc, kh', st') -> searched st st')
      by (intros r0 H; inversion H; subst; exact Eg).
    assert (Hgo : find_up_search_by_keyid_loop fuel st1 kh1 issuer keyid
                  = (rc, kh', st') -> searched st st')
      by (intros H; eapply searched_trans; [exact Eg|eapply IH; exact H]).
    destruct cert as [cert|]; [|apply Hstop].
    destruct (failed rc1); [apply Hstop|].
    destruct (cert_subj_key_id (h_cert cert)) as [subj|]; [|exact Hgo].
    destruct (String.eqb keyid subj); [apply Hstop|exact Hgo].
Qed.

Lemma find_up_search_by_keyid_searched (st st' : state) (kh kh' : KEYDB_HANDLE)
    (issuer keyid : string) (rc : gpg_error_t) :
  find_up_search_by_keyid st kh issuer keyid = (rc, kh', st') -> searched st st'.
Proof.
  unfold find_up_search_by_keyid.
  destruct (find_up_search_by_keyid_loop _ _ _ _ _) as [[r k] s] eqn:E.
  apply find_up_search_by_keyid_loop_searched in E.
  intros H; inversion H; subst. exact E.
Qed.

Lemma find_up_external_searched (st st' : state) (kh kh' : KEYDB_HANDLE)
    (issuer : string) (keyid : option string) (rc : gpg_error_t) :
  find_up_external W st kh issuer keyid = (rc, kh', st') -> searched st st'.
Proof.
  unfold find_up_external.
  destruct (w_lookup W (trace st) (external_pattern issuer)) as [r certs].
  set (st1 := log _ st).
  assert (H1 : searched st st1)
    by (split; [reflexivity|apply ext_log; reflexivity]).
  pose proof (store_ephemeral_searched certs st1) as H2.
  set (st2 := fold_left keydb_store_cert_ephemeral certs st1) in *.
  assert (H12 : searched st st2) by (eapply searched_trans; eassumption).
  destruct (failed r); [intros H; inversion H; subst; exact H12|].
  destruct (_ =? _)%nat; [intros H; inversion H; subst; exact H12|].
  cbn [keydb_set_ephemeral].
  destruct keyid as [k|].
  - destruct (find_up_search_by_keyid st2 _ issuer k) as [[r1 k2] s3] eqn:E.
    apply find_up_search_by_keyid_searched in E.
    intros H; inversion H; subst. eapply searched_trans; eassumption.
  - destruct (keydb_search_subject st2 _ issuer) as [r1 k2].
    intros H; inversion H; subst. exact H12.
Qed.

Lemma find_up_by_aki_searched (st st' : state) (kh kh' : KEYDB_HANDLE)
    (aki : auth_key_id) (issuer : string) (find_next : bool) (rc : gpg_error_t) :
  find_up_by_aki W opt st kh aki issuer find_next = (rc, kh', st') ->
  searched st st'.
Proof.
  unfold find_up_by_aki.
  destruct (match aki_issuer_sn aki with Some _ => _ | None => _ end) as [r0 k0].
  set (second := match aki_keyid aki with Some _ => _ | None => _ end).
  assert (Hsecond : searched st (snd second)).
  { subst second. destruct (aki_keyid aki) as [keyid|]; [|apply searched_refl].
    destruct (is_m1 r0 && negb find_next); [|apply searched_refl].
    destruct (find_up_search_by_keyid st k0 issuer keyid) as [[r1 k1] s1] eqn:E1.
    apply find_up_search_by_keyid_searched in E1.
    destruct (failed r1); [|exact E1].
    cbn [keydb_set_ephemeral].
    destruct (negb (kh_ephemeral k1)); [|exact E1].
    destruct (find_up_search_by_keyid s1 _ issuer keyid) as [[r2 k2] s2] eqn:E2.
    apply find_up_search_by_keyid_searched in E2.
    cbn [snd]. eapply searched_trans; eassumption. }
  destruct second as [[r1 k1] s1]. cbn [snd] in Hsecond.
  destruct (is_m1 r1 && auto_issuer_key_retrieve opt && negb find_next).
  - intros H. apply find_up_external_searched in H.
    eapply searched_trans; eassumption.
  - intros H; inversion H; subst. exact Hsecond.
Qed.

Lemma find_up_searched (st st' : state) (kh kh' : KEYDB_HANDLE) (cert : ksba_cert)
    (issuer : string) (find_next : bool) (rc : gpg_error_t) :
  find_up W opt st kh cert issuer find_next = (rc, kh', st') -> searched st st'.
Proof.
  unfold find_up.
  set (first := match cert_auth_key_id cert with Some _ => _ | None => _ end).
  assert (Hfirst : searched st (snd first)).
  { subst first. destruct (cert_auth_key_id cert) as [aki|]; [|apply searched_refl].
    destruct (find_up_by_aki W opt st kh aki issuer find_next) as [[r k] s] eqn:E.
    exact (find_up_by_aki_searched _ _ _ _ _ _ _ _ E). }
  destruct first as [[r0 k0] s0]. cbn [snd] in Hfirst.
  destruct (if failed r0 then _ else _) as [r1 k1].
  destruct (if is_m1 r1 && negb find_next then _ else _) as [r2 k2].
  destruct (is_m1 r2 && auto_issuer_key_retrieve opt && negb find_next).
  - intros H. apply find_up_external_searched in H.
    eapply searched_trans; eassumption.
  - intros H; inversion H; subst. exact Hfirst.
Qed.

Lemma gpgsm_walk_cert_chain_searched (st st' : state) (start : cert_h)
    (rc : gpg_error_t) (next : option cert_h) :
  gpgsm_walk_cert_chain W opt st start = (rc, next, st') -> searched st st'.
Proof.
  unfold gpgsm_walk_cert_chain, keydb_new.
  set (st0 := log EvKeydbNew st).
  assert (H0 : searched st st0)
    by (split; [reflexivity|apply ext_log; reflexivity]).
  destruct (w_keydb_new W (trace st)); [|intros H; inversion H; subst; exact H0].
  destruct (cert_issuer (h_cert start)) as [issuer|];
    [|intros H; inversion H; subst; exact H0].
  destruct (cert_subject (h_cert start)) as [subject|];
    [|intros H; inversion H; subst; exact H0].
  destruct (String.eqb issuer subject); [intros H; inversion H; subst; exact H0|].
  destruct (find_up W opt st0 _ (h_cert start) issuer false) as [[r k] s] eqn:E.
  apply find_up_searched in E.
  assert (H1 : searched st s) by (eapply searched_trans; eassumption).
  destruct (failed r); [intros H; inversion H; subst; exact H1|].
  destruct (keydb_get_cert s k) as [[r2 n] s2] eqn:Eg.
  apply keydb_get_cert_searched in Eg.
  assert (H2 : searched st s2) by (eapply searched_trans; eassumption).
  destruct (failed r2); intros H; inversion H; subst; exact H2.
Qed.

(** The walk of [get_regtp_ca_info]: it fills at most the free slots of
    the array, ends on the last certificate it stored, and writes no user
    data. *)
Lemma regtp_walk_facts (slots : nat) (st st1 : state) (cert last : cert_h)
    (array array' : list cert_h) (rc0 rc : gpg_error_t) :
  regtp_walk W opt slots st cert array rc0 = (rc, last, array', st1) ->
  searched st st1
  /\ exists more, array' = array ++ more
                  /\ List.length more <= slots
                  /\ last = List.last more cert.
Proof.
  revert st cert array rc0. induction slots as [|slots IH];
    intros st cert array rc0; simpl.
  - intros H; inversion H; subst. split; [apply searched_refl|].
    exists []. rewrite app_nil_r. repeat split. simpl. lia.
  - destruct (gpgsm_walk_cert_chain W opt st cert) as [[rc1 next] s1] eqn:E.
    apply gpgsm_walk_cert_chain_searched in E.
    assert (Hstop : (rc1, cert, array, s1) = (rc, last, array', st1) ->
              searched st st1
              /\ exists more, array' = array ++ more
                              /\ List.length more <= S slots
                              /\ last = List.last more cert).
    { intros H; inversion H; subst. split; [exact E|].
      exists []. rewrite app_nil_r. repeat split. simpl. lia. }
    destruct next as [next|]; [|exact Hstop].
    destruct (failed rc1); [exact Hstop|].
    intros H. destruct (IH _ _ _ _ H) as [Hs (more & Ha & Hl & Hlast)].
    split; [eapply searched_trans; eassumption|].
    exists (next :: more). split; [rewrite Ha, <- app_assoc; reflexivity|].
    split; [simpl; lia|].
    rewrite Hlast. destruct more as [|c more]; [reflexivity|].
    change (List.last (next :: c :: more) cert) with (List.last (c :: more) cert).
    apply last_default.
Qed.
End SearchFacts.

(* ------------------------------------------------------------------ *)
(** ** get_regtp_ca_info: the marker of an unclassified walk *)

Lemma user_data_lookup_head (st : state) (id : nat) (key data : string)
    (rest : list (nat * string * string)) :
  user_data st = (id, key, data) :: rest ->
  user_data_lookup st id key = Some data.
Proof.
  intros H. unfold user_data_lookup. rewrite H. simpl.
  now rewrite Nat.eqb_refl, String.eqb_refl.
Qed.

Lemma ksba_cert_set_user_data_cases (W : world) (st st' : state) (cert : cert_h)
    (key data : string) (err : gpg_error_t) :
  ksba_cert_set_user_data W st cert key data = (err, st') ->
  (failed err = true /\ user_data st' = user_data st)
  \/ (err = rc_0 /\ user_data st' = (h_id cert, key, data) :: user_data st).
Proof.
  unfold ksba_cert_set_user_data.
  destruct (failed (w_set_user_data W (trace st) (h_id cert) key data)) eqn:E;
    intros H; inversion H; subst; [left|right]; split; auto.
Qed.

(** C7 as stated fails: walking up from a certificate that is not marked
    as a CA to a root that is not on the qualified list visits both, but
    only the object of the root, the last one reached, receives the
    marker.  The certificate under test has none, and a second call for
    it walks again. *)
Lemma regtp_marker_misses_target :
  let target := Sample.with_is_ca false Sample.ca in
  let st := Sample.store [target; Sample.root] in
  exists st',
    get_regtp_ca_info Sample.calm Sample.default_opt st (mkH 0 target)
    = (false, 0%Z, st')
    /\ map h_id (snd (fst (regtp_walk Sample.calm Sample.default_opt 3 st
                                       (mkH 0 target) [mkH 0 target] rc_0)))
       = [0; 1]
    /\ user_data_lookup st' 0 "regtp_ca_chainlen" = None
    /\ user_data_lookup st' 1 "regtp_ca_chainlen" = Some regtp_none_mark
    /\ trace (snd (get_regtp_ca_info Sample.calm Sample.default_opt st' (mkH 0 target)))
       <> trace st'.
Proof.
  intros target st. eexists. split; [vm_compute; reflexivity|].
  split; [vm_compute; reflexivity|].
  split; [vm_compute; reflexivity|].
  split; [vm_compute; reflexivity|].
  vm_compute. discriminate.
Qed.

(** C7, amended.  When [get_regtp_ca_info] has to walk and does not
    classify the certificate as RegTP, it reports chain length 0; the walk
    has visited at most 4 certificates, the certificate under test first;
    at most one marker is written, the one-byte value that reads back as
    "not RegTP", on one of the visited objects, and no other user data
    changes; when the walk did not get beyond the certificate under test,
    the marked object is that certificate; a later call for the marked
    object returns at once, without walking. *)
Theorem regtp_unclassified_marker (W : world) (opt : options) (st st' : state)
    (cert : cert_h) (chainlen : Z) :
  user_data_lookup st (h_id cert) "regtp_ca_chainlen" = None ->
  get_regtp_ca_info W opt st cert = (false, chainlen, st') ->
  exists rc last array st1,
    regtp_walk W opt (DIM_array - 1) st cert [cert] rc_0 = (rc, last, array, st1)
    /\ chainlen = 0%Z
    /\ List.length array <= 4
    /\ (exists more, array = cert :: more)
    /\ In last array
    /\ (List.length array = 1 -> last = cert)
    /\ (user_data st' = user_data st
        \/ user_data st'
           = (h_id last, "regtp_ca_chainlen", regtp_none_mark) :: user_data st)
    /\ (user_data st' <> user_data st ->
        get_regtp_ca_info W opt st' last = (false, 0%Z, st')).
Proof.
  intros Hnone. unfold get_regtp_ca_info at 1.
  unfold ksba_cert_get_user_data. rewrite Hnone. cbn [failed negb has_code].
  change (code_eqb GPG_ERR_NOT_FOUND GPG_ERR_NOT_FOUND) with true. cbn [negb].
  destruct (regtp_walk W opt (DIM_array - 1) st cert [cert] rc_0)
    as [[[rc last] array] st1] eqn:Ew.
  destruct (regtp_walk_facts _ _ _ _ _ _ _ _ _ _ _ Ew)
    as [[Hud _] (more & Ha & Hl & Hlast)].
  assert (Hleave : forall s,
            user_data s = user_data st ->
            (let (_, s') := ksba_cert_set_user_data W s last "regtp_ca_chainlen"
                                                    regtp_none_mark in
             (false, 0%Z, s')) = (false, chainlen, st') ->
            exists rc0 last0 array0 st0,
              (rc, last, array, st1) = (rc0, last0, array0, st0)
              /\ chainlen = 0%Z
              /\ List.length array0 <= 4
              /\ (exists more, array0 = cert :: more)
              /\ In last0 array0
              /\ (List.length array0 = 1 -> last0 = cert)
              /\ (user_data st' = user_data st
                  \/ user_data st'
                     = (h_id last0, "regtp_ca_chainlen", regtp_none_mark)
                         :: user_data st)
              /\ (user_data st' <> user_data st ->
                  get_regtp_ca_info W opt st' last0 = (false, 0%Z, st'))).
  { intros s Hs.
    destruct (ksba_cert_set_user_data W s last "regtp_ca_chainlen" regtp_none_mark)
      as [e s'] eqn:Eset.
    intros H; inversion H; subst chainlen s'.
    exists rc, last, array, st1. split; [reflexivity|].
    split; [reflexivity|].
    split; [subst array; simpl in *; lia|].
    split; [exists more; subst array; reflexivity|].
    split.
    { subst array last. destruct more as [|m more]; [apply in_eq|].
      assert (Hne : m :: more <> []) by discriminate.
      destruct (exists_last Hne) as (l' & a & Hm).
      change ([cert] ++ m :: more) with (cert :: m :: more).
      rewrite Hm, last_last. apply in_cons, in_or_app. right. apply in_eq. }
    split.
    { intros Hlen. subst array last. destruct more; [reflexivity|].
      simpl in Hlen. lia. }
    destruct (ksba_cert_set_user_data_cases _ _ _ _ _ _ _ Eset)
      as [[_ Hu] | [_ Hu]]; rewrite Hs in Hu.
    - split; [left; exact Hu|]. intros Hne. contradiction.
    - split; [right; exact Hu|]. intros _.
      unfold get_regtp_ca_info, ksba_cert_get_user_data.
      rewrite (user_data_lookup_head _ _ _ _ _ Hu). reflexivity. }
  destruct (negb (is_m1 rc) || (List.length array =? 0)%nat
            || (List.length array =? DIM_array)%nat).
  - apply Hleave. exact Hud.
  - destruct (w_qualified W (trace st1) _) as [qerr country].
    destruct (negb (failed qerr) && String.eqb country "de").
    + destruct (ksba_cert_set_user_data W _ _ _ regtp_root_mark).
      intros H; inversion H.
    + apply Hleave. exact Hud.
Qed.

Lemma regtp_unclassified_marker_witness :
  let st := Sample.store [Sample.with_is_ca false Sample.root] in
  let cert := mkH 0 (Sample.with_is_ca false Sample.root) in
  exists st',
    get_regtp_ca_info Sample.calm Sample.default_opt st cert = (false, 0%Z, st')
    /\ get_regtp_ca_info Sample.calm Sample.default_opt st' cert = (false, 0%Z, st').
Proof.
  intros st cert.
  eassert (Hrun : get_regtp_ca_info Sample.calm Sample.default_opt st cert
                  = (false, _, _)) by (vm_compute; reflexivity).
  destruct (regtp_unclassified_marker Sample.calm Sample.default_opt st _ cert _
              eq_refl Hrun)
    as (rc & last & array & st1 & Hw & Hcl & _ & _ & _ & Hone & _ & Hlater).
  eexists. split; [exact Hrun|].
  assert (Hlast : last = cert).
  { apply Hone. vm_compute in Hw. inversion Hw. reflexivity. }
  rewrite <- Hlast. apply Hlater. vm_compute. discriminate.
Defined.

(* ------------------------------------------------------------------ *)
(** ** Frame rules for the walker *)

Section Keeps.
Variable R : locals * state -> locals * state -> Prop.
Hypothesis R_refl : forall x, R x x.
Hypothesis R_trans : forall x y z, R x y -> R y z -> R x z.

Lemma keeps_ret {A} (a : A) : keeps R (ret a).
Proof. intros l st f l' st' H. inversion H; subst. apply R_refl. Qed.

Lemma keeps_goto_leave {A} (rc : gpg_error_t) : keeps R (@goto_leave A rc).
Proof. intros l st f l' st' H. inversion H; subst. apply R_refl. Qed.

Lemma keeps_get_locals : keeps R get_locals.
Proof. intros l st f l' st' H. inversion H; subst. apply R_refl. Qed.

Lemma keeps_leave_if_failed (rc : gpg_error_t) : keeps R (leave_if_failed rc).
Proof.
  unfold leave_if_failed. destruct (failed rc);
    [apply keeps_goto_leave | apply keeps_ret].
Qed.

Lemma keeps_bind {A B} (m : M A) (k : A -> M B) :
  keeps R m -> (forall a, keeps R (k a)) -> keeps R (bind m k).
Proof.
  intros Hm Hk l st f l' st'. unfold bind.
  destruct (m l st) as [[[[a|rc] l1] st1]|] eqn:E; [| |discriminate].
  - intros H. eapply R_trans; [eapply Hm; exact E|eapply Hk; exact H].
  - intros H; inversion H; subst. eapply Hm; exact E.
Qed.

Lemma keeps_with_state {A} (f : state -> A * state) :
  (forall l st, R (l, st) (l, snd (f st))) -> keeps R (with_state f).
Proof.
  intros Hf l st x l' st'. unfold with_state.
  destruct (f st) as [a s] eqn:E. intros H; inversion H; subst.
  specialize (Hf l' st). now rewrite E in Hf.
Qed.

Lemma keeps_modify_locals (f : locals -> locals) :
  (forall l st, R (l, st) (f l, st)) -> keeps R (modify_locals f).
Proof. intros Hf l st x l' st' H. inversion H; subst. apply Hf. Qed.
End Keeps.

(** Decompose a goal [keeps R m] along the structure of [m]. *)
Ltac keeps_step Hrefl Htrans :=
  first
    [ apply (keeps_ret _ Hrefl)
    | apply (keeps_goto_leave _ Hrefl)
    | apply (keeps_get_locals _ Hrefl)
    | apply (keeps_leave_if_failed _ Hrefl)
    | apply (keeps_bind _ Htrans); [|intros ?]
    | match goal with
      | |- keeps _ (if ?b then _ else _) => destruct b
      | |- keeps _ (match ?x with _ => _ end) => destruct x
      end ].

(** *** The depth, the expiration time and the visited certificates *)

Lemma same_core_refl (x : locals * state) : same_core x x.
Proof. repeat split. Qed.

Lemma same_core_trans (x y z : locals * state) :
  same_core x y -> same_core y z -> same_core x z.
Proof. unfold same_core. intuition congruence. Qed.

Ltac core := repeat keeps_step same_core_refl same_core_trans.

(** A piece of code written out as a function of the locals and the
    state, which changes the locals by [set_kh], [set_rev],
    [set_is_qualified] or [set_any_no_policy_match] only. *)
Ltac core_by_cases :=
  let l := fresh "l" in let st := fresh "st" in
  let f := fresh "f" in let l' := fresh "l'" in let st' := fresh "st'" in
  let H := fresh "H" in
  intros l st f l' st';
  repeat match goal with
         | |- context [match ?x with _ => _ end] => destruct x
         end;
  intros H; inversion H; subst; repeat split.

Section CoreFacts.
Variable W : world.
Variable opt : options.
Variable ctrl : ctrl_t.
Variable cert : cert_h.
Variable listmode : bool.
Variable flags : Z.
Variable current_time : ksba_isotime_t.

Lemma agent_istrusted_core (c : ksba_cert) : keeps same_core (agent_istrusted W c).
Proof. apply keeps_with_state. repeat split. Qed.

Lemma check_cert_sig_core (i s : ksba_cert) : keeps same_core (check_cert_sig W i s).
Proof. apply keeps_with_state. repeat split. Qed.

Lemma policy_check_core (c : ksba_cert) : keeps same_core (policy_check W opt c).
Proof.
  unfold policy_check. destruct (negb (no_policy_check opt)); [|core].
  core_by_cases.
Qed.

Lemma revocation_check_core (s i : ksba_cert) :
  keeps same_core (revocation_check W opt ctrl s i).
Proof.
  unfold revocation_check. intros l st f l' st'.
  destruct (is_cert_still_valid _ _ _ _ _ _ _) as [[rc r] s'].
  intros H; inversion H; subst. repeat split.
Qed.

Lemma revocation_gate_core (s i : ksba_cert) :
  keeps same_core (revocation_gate W opt ctrl s i).
Proof. unfold revocation_gate. core. apply revocation_check_core. Qed.

Lemma resolve_qualified_core (s : cert_h) :
  keeps same_core (resolve_qualified W cert s).
Proof. unfold resolve_qualified. core_by_cases. Qed.

Lemma act_on_trust_core (c : ksba_cert) (rc : gpg_error_t) :
  keeps same_core (act_on_trust W listmode c rc).
Proof. unfold act_on_trust. core_by_cases. Qed.

Lemma root_node_core (s : cert_h) (rc : gpg_error_t) (rf : rootca_flags_s) :
  keeps same_core (root_node W opt ctrl cert listmode flags s rc rf).
Proof.
  unfold root_node. core;
    auto using check_cert_sig_core, resolve_qualified_core, act_on_trust_core,
               revocation_check_core;
    try (apply keeps_with_state; repeat split).
Qed.

Lemma try_another_cert_core (fuel : nat) (s : cert_h) (issuer : string) (i : cert_h) :
  keeps same_core (try_another_cert W opt fuel s issuer i).
Proof.
  revert i. induction fuel as [|fuel IH]; intros i; simpl.
  - intros l st f l' st' H. discriminate.
  - core; try apply check_cert_sig_core.
    intros l st f l' st'.
    destruct (find_up _ _ _ _ _ _ _) as [[r k] s1].
    destruct (negb (failed r)); [|intros H; inversion H; subst; repeat split].
    destruct (keydb_get_cert s1 k) as [[r2 t] s2].
    destruct t as [t|]; [|intros H; inversion H; subst; repeat split].
    destruct (_ || _); [intros H; inversion H; subst; repeat split|].
    intros H. apply IH in H. exact H.
Qed.

Lemma issuer_allowed_ca_core (i : cert_h) :
  keeps same_core (issuer_allowed_ca W opt i).
Proof.
  unfold issuer_allowed_ca. core; try apply agent_istrusted_core.
  apply keeps_with_state. repeat split.
Qed.

Lemma issuer_checks_core (fuel : nat) (s : cert_h) (issuer : string) :
  keeps same_core (issuer_checks W opt ctrl listmode flags fuel s issuer).
Proof.
  unfold issuer_checks. core;
    auto using try_another_cert_core, issuer_allowed_ca_core, revocation_check_core,
               agent_istrusted_core;
    try (apply keeps_with_state; repeat split);
    try (apply keeps_modify_locals; repeat split).
  - core_by_cases.
  - core_by_cases.
Qed.
End CoreFacts.

(** *** Calls of the signature check *)

Lemma no_sig_refl (x : locals * state) : no_sig x x.
Proof. apply ext_refl. Qed.

Lemma no_sig_trans (x y z : locals * state) : no_sig x y -> no_sig y z -> no_sig x z.
Proof. apply ext_trans. Qed.

Ltac nosig := repeat keeps_step no_sig_refl no_sig_trans.

Lemma searched_not_sig (st st' : state) : searched st st' -> ext not_sig st st'.
Proof.
  intros [_ H]. eapply ext_weaken; [|exact H]. intros []; simpl; congruence.
Qed.

Lemma ksba_cert_set_user_data_not_sig (W : world) (st : state) (cert : cert_h)
    (key data : string) :
  ext not_sig st (snd (ksba_cert_set_user_data W st cert key data)).
Proof.
  unfold ksba_cert_set_user_data.
  destruct (failed _); cbn [snd].
  - apply ext_log. reflexivity.
  - apply (ext_trans _ _ (log (EvSetUserData (h_id cert) key data) st));
      [apply ext_log; reflexivity|apply ext_same; reflexivity].
Qed.

Section SigFacts.
Variable W : world.
Variable opt : options.
Variable ctrl : ctrl_t.
Variable cert : cert_h.
Variable listmode : bool.
Variable flags : Z.

Lemma get_regtp_ca_info_not_sig (st : state) (c : cert_h) :
  ext not_sig st (snd (get_regtp_ca_info W opt st c)).
Proof.
  unfold get_regtp_ca_info.
  destruct (ksba_cert_get_user_data st c "regtp_ca_chainlen" 2) as [err buf].
  destruct (negb (failed err)).
  { destruct buf as [|b0 [|b1 buf]]; try apply ext_refl.
    destruct (Ascii.eqb b0 NUL); apply ext_refl. }
  destruct (negb (has_code err GPG_ERR_NOT_FOUND)); [apply ext_refl|].
  destruct (regtp_walk W opt (DIM_array - 1) st c [c] rc_0)
    as [[[rc last] array] st1] eqn:Ew.
  destruct (regtp_walk_facts _ _ _ _ _ _ _ _ _ _ _ Ew) as [Hs _].
  apply searched_not_sig in Hs.
  assert (Hleave : forall s, ext not_sig st s ->
            ext not_sig st
              (snd (let (_, s') := ksba_cert_set_user_data W s last "regtp_ca_chainlen"
                                                           regtp_none_mark in
                    (false, 0%Z, s')))).
  { intros s H.
    pose proof (ksba_cert_set_user_data_not_sig W s last "regtp_ca_chainlen"
                  regtp_none_mark) as H'.
    destruct (ksba_cert_set_user_data W s last _ _) as [e s']. cbn [snd] in *.
    eapply ext_trans; eassumption. }
  destruct (_ || _); [apply Hleave; exact Hs|].
  destruct (w_qualified W (trace st1) _) as [qerr country].
  set (st2 := log _ st1).
  assert (H2 : ext not_sig st st2)
    by (eapply ext_trans; [exact Hs|apply ext_log; reflexivity]).
  destruct (negb (failed qerr) && String.eqb country "de"); [|apply Hleave; exact H2].
  pose proof (ksba_cert_set_user_data_not_sig W st2
                (nth (List.length array - 1) array c) "regtp_ca_chainlen"
                regtp_root_mark) as H3.
  destruct (ksba_cert_set_user_data W st2 _ _ regtp_root_mark) as [e1 st3].
  cbn [snd] in *.
  assert (H23 : ext not_sig st st3) by (eapply ext_trans; eassumption).
  destruct (negb (failed e1) && (1 <? List.length array)%nat); [|exact H23].
  eapply ext_trans; [exact H23|apply ksba_cert_set_user_data_not_sig].
Qed.

Lemma allowed_ca_not_sig (st : state) (c : cert_h) :
  ext not_sig st (snd (allowed_ca W opt st c)).
Proof.
  unfold allowed_ca. destruct (cert_is_ca (h_cert c)) as [[err flag] chainlen].
  destruct (failed err); [apply ext_refl|].
  destruct (negb flag); [|apply ext_refl].
  pose proof (get_regtp_ca_info_not_sig st c) as H.
  destruct (get_regtp_ca_info W opt st c) as [[regtp cl] st1].
  destruct regtp; exact H.
Qed.

Lemma is_cert_still_valid_not_sig (st : state) (s i : ksba_cert)
    (fl : revocation_flags) :
  ext not_sig st (snd (is_cert_still_valid W opt ctrl st s i fl)).
Proof.
  unfold is_cert_still_valid.
  destruct (_ || _); [|apply ext_refl].
  set (st1 := log _ st).
  assert (H1 : ext not_sig st st1) by (apply ext_log; reflexivity).
  destruct (failed _); [|exact H1].
  destruct (has_code _ GPG_ERR_CERT_REVOKED).
  { unfold keydb_set_cert_flags. destruct (existsb _ _); cbn [snd]; [|exact H1].
    eapply ext_trans; [exact H1|apply ext_same; reflexivity]. }
  destruct (has_code _ GPG_ERR_NO_CRL_KNOWN); [exact H1|].
  destruct (has_code _ GPG_ERR_CRL_TOO_OLD); exact H1.
Qed.

Lemma revocation_check_no_sig (s i : ksba_cert) :
  keeps no_sig (revocation_check W opt ctrl s i).
Proof.
  unfold revocation_check. intros l st f l' st'.
  pose proof (is_cert_still_valid_not_sig st s i (l_rev l)) as H.
  destruct (is_cert_still_valid _ _ _ _ _ _ _) as [[rc r] s'].
  intros E; inversion E; subst. exact H.
Qed.

Lemma resolve_qualified_no_sig (s : cert_h) :
  keeps no_sig (resolve_qualified W cert s).
Proof.
  unfold resolve_qualified. intros l st f l' st'.
  destruct (l_is_qualified l =? -1)%Z;
    [|intros H; inversion H; subst; apply ext_refl].
  destruct (ksba_cert_get_user_data st cert "is_qualified" 1) as [err buf].
  destruct (negb (failed err) && nonempty buf);
    [intros H; inversion H; subst; apply ext_refl|].
  destruct (w_qualified W (trace st) (h_cert s)) as [qerr country].
  set (st1 := log _ st).
  assert (H1 : ext not_sig st st1) by (apply ext_log; reflexivity).
  destruct (negb (_ =? -1)%Z); [|intros H; inversion H; subst; exact H1].
  match goal with
  | |- context [ksba_cert_set_user_data W st1 s ?k ?d] =>
      pose proof (ksba_cert_set_user_data_not_sig W st1 s k d) as H2;
      destruct (ksba_cert_set_user_data W st1 s k d) as [e st2]
  end.
  intros H; inversion H; subst. eapply ext_trans; eassumption.
Qed.

Lemma act_on_trust_no_sig (c : ksba_cert) (rc : gpg_error_t) :
  keeps no_sig (act_on_trust W listmode c rc).
Proof.
  unfold act_on_trust. intros l st f l' st'.
  destruct (negb (failed rc)); [intros H; inversion H; subst; apply ext_refl|].
  destruct (has_code rc GPG_ERR_NOT_TRUSTED);
    [|intros H; inversion H; subst; apply ext_refl].
  destruct (_ && _); [|intros H; inversion H; subst; apply ext_refl].
  set (asked := if no_more_questions st then _ else _).
  assert (Ha : ext not_sig st (snd asked)).
  { subst asked. destruct (no_more_questions st); cbn [snd];
      [apply ext_refl|apply ext_log; reflexivity]. }
  destruct asked as [rc2 st1]. cbn [snd] in Ha.
  intros H; inversion H; subst.
  eapply ext_trans; [exact Ha|].
  apply ext_same.
  destruct (has_code rc2 GPG_ERR_NOT_SUPPORTED); [reflexivity|].
  destruct (has_code rc2 GPG_ERR_CANCELED); [reflexivity|].
  unfold set_already_asked_marktrusted.
  destruct (already_asked_marktrusted W st1 c); reflexivity.
Qed.

(** After the signature check, the root branch verifies no signature. *)
Lemma root_node_trusted_no_sig (s : cert_h) (rc : gpg_error_t) (rf : rootca_flags_s) :
  failed rc = false ->
  keeps no_sig (root_node W opt ctrl cert listmode flags s rc rf).
Proof.
  intros Hrc. unfold root_node. rewrite Hrc. cbn [negb].
  nosig; auto using resolve_qualified_no_sig, act_on_trust_no_sig,
                    revocation_check_no_sig.
  apply keeps_with_state. intros l st.
  pose proof (allowed_ca_not_sig st s) as H.
  destruct (allowed_ca W opt st s) as [[r c] s']. exact H.
Qed.
End SigFacts.

(* ------------------------------------------------------------------ *)
(** ** gpgsm_validate_chain: the self-signature of a root *)

Lemma bind_bind {A B C} (m : M A) (k : A -> M B) (h : B -> M C) (l : locals)
    (st : state) :
  bind (bind m k) h l st = bind m (fun a => bind (k a) h) l st.
Proof.
  unfold bind. destruct (m l st) as [[[[a|rc] l1] st1]|]; reflexivity.
Qed.

Lemma bind_ret {A B} (a : A) (k : A -> M B) (l : locals) (st : state) :
  bind (ret a) k l st = k a l st.
Proof. reflexivity. Qed.

Lemma bind_with_state {A B} (f : state -> A * state) (k : A -> M B) (l : locals)
    (st : state) :
  bind (with_state f) k l st = k (fst (f st)) l (snd (f st)).
Proof. unfold bind, with_state. destruct (f st). reflexivity. Qed.

Lemma total_bind {A B} (m : M A) (k : A -> M B) :
  total m -> (forall a, total (k a)) -> total (bind m k).
Proof.
  intros Hm Hk l st. unfold bind. specialize (Hm l st).
  destruct (m l st) as [[[[a|rc] l1] st1]|]; [apply Hk|discriminate|contradiction].
Qed.

Lemma total_with_state {A} (f : state -> A * state) : total (with_state f).
Proof. intros l st. unfold with_state. destruct (f st). discriminate. Qed.

Lemma total_leave_if_failed (rc : gpg_error_t) : total (leave_if_failed rc).
Proof. intros l st. unfold leave_if_failed. destruct (failed rc); discriminate. Qed.

Ltac total_cases :=
  let l := fresh "l" in let st := fresh "st" in
  intros l st;
  repeat match goal with
         | |- context [match ?x with _ => _ end] => destruct x
         end;
  discriminate.

(** The branch for a self-issued certificate always comes back: there is
    no loop in it. *)
Lemma root_node_total (W : world) (opt : options) (ctrl : ctrl_t) (cert : cert_h)
    (listmode : bool) (flags : Z) (s : cert_h) (rc : gpg_error_t)
    (rf : rootca_flags_s) :
  total (root_node W opt ctrl cert listmode flags s rc rf).
Proof.
  unfold root_node.
  repeat first
    [ apply total_bind; [|intros ?]
    | apply total_with_state
    | apply total_leave_if_failed
    | match goal with
      | |- total (if ?b then _ else _) => destruct b
      end
    | (intros ? ?; discriminate) ].
  - unfold resolve_qualified. total_cases.
  - unfold act_on_trust. total_cases.
  - unfold revocation_check. total_cases.
Qed.

(** The branch for a self-issued certificate: when [istrusted_rc] is an
    error, the self-signature is verified first (and no other signature
    afterwards), and a bad one jumps to [leave] with [BAD_CERT] at depth 0
    and [BAD_CERT_CHAIN] otherwise; when [istrusted_rc] is 0, no signature
    is verified. *)
Lemma root_node_signature (W : world) (opt : options) (ctrl : ctrl_t)
    (cert : cert_h) (listmode : bool) (flags : Z) (subject_cert : cert_h)
    (istrusted_rc : gpg_error_t) (rootca_flags : rootca_flags_s)
    (l : locals) (st : state) :
  let c := h_cert subject_cert in
  let run := root_node W opt ctrl cert listmode flags subject_cert istrusted_rc
                       rootca_flags l st in
  (failed istrusted_rc = true ->
     (failed (w_check_cert_sig W (trace st) c c) = true ->
        run = Some (Leave (gpg_error (if (l_depth l =? 0)%Z then GPG_ERR_BAD_CERT
                                      else GPG_ERR_BAD_CERT_CHAIN)),
                    l, log (EvCheckCertSig c c) st))
     /\ (forall f l' st',
           run = Some (f, l', st') ->
           ext not_sig (log (EvCheckCertSig c c) st) st'))
  /\ (failed istrusted_rc = false ->
      forall f l' st', run = Some (f, l', st') -> ext not_sig st st').
Proof.
  intros c run. split.
  - intros Hrc. subst run. unfold root_node. rewrite Hrc. cbn [negb].
    fold c. rewrite bind_bind. unfold check_cert_sig.
    rewrite bind_with_state. cbn [fst snd].
    destruct (failed (w_check_cert_sig W (trace st) c c)) eqn:Hsig.
    + split; [intros _; reflexivity|].
      intros f l' st' H. unfold bind, get_locals, goto_leave in H.
      inversion H; subst. apply ext_refl.
    + split; [discriminate|].
      rewrite bind_ret.
      intros f l' st' H.
      match type of H with
      | ?m _ _ = _ =>
          assert (K : keeps no_sig m);
            [|exact (K _ _ _ _ _ H)]
      end.
      nosig; auto using resolve_qualified_no_sig, act_on_trust_no_sig,
                        revocation_check_no_sig.
      apply keeps_with_state. intros l0 st0.
      pose proof (allowed_ca_not_sig W opt st0 subject_cert) as Ha.
      destruct (allowed_ca W opt st0 subject_cert) as [[r cl] s']. exact Ha.
  - intros Hrc f l' st' H.
    exact (root_node_trusted_no_sig W opt ctrl cert listmode flags subject_cert
             istrusted_rc rootca_flags Hrc _ _ _ _ _ H).
Qed.

Section NodeChecks.
Variable W : world.
Variable opt : options.
Variable current_time : ksba_isotime_t.

Lemma check_validity_state (c : ksba_cert) (l l' : locals) (st st' : state)
    (f : flow unit) :
  check_validity opt current_time c l st = Some (f, l', st') ->
  st' = st /\ l_depth l' = l_depth l.
Proof.
  unfold check_validity.
  destruct (cert_not_before c) as [rc1 nb]. destruct (cert_not_after c) as [rc2 na].
  repeat match goal with
         | |- context [if ?b then _ else _] => destruct b
         end;
    intros H; inversion H; subst; split; reflexivity.
Qed.

(** What the checks before the branch leave behind when they pass: the
    answer of the agent for a self-issued certificate, the depth as it
    was, and no signature check. *)
Lemma node_checks_pass (c : ksba_cert) (is_root : bool) (l l1 : locals)
    (st st1 : state) (t : gpg_error_t) (rf : rootca_flags_s) :
  node_checks W opt current_time c is_root l st = Some (Go (t, rf), l1, st1) ->
  (is_root = true -> (t, rf) = w_istrusted W (trace st) c
                     /\ st1 = log (EvIsTrusted c) st)
  /\ (is_root = false -> (t, rf) = (rc_m1, mkRootcaFlags false) /\ st1 = st)
  /\ l_depth l1 = l_depth l.
Proof.
  unfold node_checks.
  set (first := if is_root then _ else _).
  assert (Hfirst : first l st
                   = Some (Go (if is_root then w_istrusted W (trace st) c
                               else (rc_m1, mkRootcaFlags false)),
                           l, if is_root then log (EvIsTrusted c) st else st)).
  { subst first. destruct is_root; reflexivity. }
  unfold bind at 1. rewrite Hfirst.
  destruct (if is_root then w_istrusted W (trace st) c else _) as [t0 rf0] eqn:Et.
  unfold bind at 1.
  destruct (check_validity opt current_time c l _) as [[[[[]|rc] l2] st2]|] eqn:Ev;
    try discriminate.
  apply check_validity_state in Ev. destruct Ev as [-> Hd].
  unfold bind at 1, leave_if_failed.
  destruct (failed (unknown_criticals c)); [discriminate|]. cbn [ret].
  unfold bind at 1.
  pose proof (policy_check_core W opt c l2 (if is_root then log (EvIsTrusted c) st else st))
    as Hp.
  destruct (policy_check W opt c l2 _) as [[[[[]|rc] l3] st3]|] eqn:Ep;
    try discriminate.
  specialize (Hp _ _ _ eq_refl). destruct Hp as [Hd3 _]. cbn [fst] in Hd3.
  assert (Hs3 : st3 = if is_root then log (EvIsTrusted c) st else st).
  { revert Ep. unfold policy_check. destruct (negb (no_policy_check opt)).
    - destruct (check_cert_policy _ _ _) as [rc|]; [|discriminate].
      destruct (has_code rc GPG_ERR_NO_POLICY_MATCH);
        [intros H; inversion H; reflexivity|].
      destruct (failed rc); intros H; inversion H; reflexivity.
    - intros H; inversion H; reflexivity. }
  intros H; inversion H; subst.
  destruct is_root; (split; [|split]); try discriminate; try congruence;
    intros _; split; congruence.
Qed.
End NodeChecks.

(** One round of the loop on a self-issued certificate that passes the
    checks made on every certificate of the chain: [istrusted_rc] is the
    answer of the trust agent for it, and the round comes to an end.  When
    that answer is an error, the self-signature is verified next (and no
    other signature in this round), and a bad one jumps to [leave] with
    [BAD_CERT] at depth 0 and with [BAD_CERT_CHAIN] at any other depth;
    when the answer is 0, no signature is verified in this round at all. *)
Lemma root_round_signature (W : world) (opt : options) (ctrl : ctrl_t)
    (cert : cert_h) (listmode : bool) (flags : Z) (current_time : ksba_isotime_t)
    (maxdepth : Z) (fuel : nat) (subject_cert : cert_h) (issuer : string)
    (l l1 : locals) (st st1 : state) (istrusted_rc : gpg_error_t)
    (rootca_flags : rootca_flags_s) :
  let c := h_cert subject_cert in
  let run := chain_step W opt ctrl cert listmode flags current_time maxdepth fuel
                        subject_cert l st in
  cert_issuer c = Some issuer ->
  cert_subject c = Some issuer ->
  node_checks W opt current_time c true l st
  = Some (Go (istrusted_rc, rootca_flags), l1, st1) ->
  (istrusted_rc, rootca_flags) = w_istrusted W (trace st) c
  /\ run <> None
  /\ (failed istrusted_rc = true ->
      (failed (w_check_cert_sig W (trace st1) c c) = true ->
         run = Some (Leave (gpg_error (if (l_depth l =? 0)%Z then GPG_ERR_BAD_CERT
                                       else GPG_ERR_BAD_CERT_CHAIN)),
                     l1, log (EvCheckCertSig c c) st1))
      /\ (forall f l' st',
            run = Some (f, l', st') ->
            ext not_sig (log (EvCheckCertSig c c) st1) st'))
  /\ (failed istrusted_rc = false ->
      forall f l' st', run = Some (f, l', st') -> ext not_sig st st').
Proof.
  intros c run Hi Hs Hn.
  destruct (node_checks_pass _ _ _ _ _ _ _ _ _ _ _ Hn) as (Ht & _ & Hd).
  destruct (Ht eq_refl) as [Hans Hst1].
  assert (Hrun : run = match root_node W opt ctrl cert listmode flags subject_cert
                               istrusted_rc rootca_flags l1 st1 with
                       | None => None
                       | Some (Go _, l', st') => Some (Go None, l', st')
                       | Some (Leave rc, l', st') => Some (Leave rc, l', st')
                       end).
  { subst run. unfold chain_step. fold c. rewrite Hi, Hs.
    cbn [opt_eqb]. rewrite String.eqb_refl.
    unfold bind at 1. rewrite Hn. unfold bind at 1.
    destruct (root_node _ _ _ _ _ _ _ _ _ _ _) as [[[[[]|rc] l'] st']|]; reflexivity. }
  pose proof (root_node_signature W opt ctrl cert listmode flags subject_cert
                istrusted_rc rootca_flags l1 st1) as [Hbad Hgood].
  fold c in Hbad, Hgood.
  split; [exact Hans|].
  split.
  { rewrite Hrun.
    pose proof (root_node_total W opt ctrl cert listmode flags subject_cert
                  istrusted_rc rootca_flags l1 st1) as Htot.
    destruct (root_node _ _ _ _ _ _ _ _ _ _ _) as [[[[[]|rc] l2] st2]|];
      [discriminate|discriminate|contradiction]. }
  split.
  - intros Hrc. destruct (Hbad Hrc) as [Hleave Hext]. split.
    + intros Hsig. rewrite Hrun, (Hleave Hsig), Hd. reflexivity.
    + intros f l' st' H. rewrite Hrun in H.
      destruct (root_node _ _ _ _ _ _ _ _ _ _ _) as [[[[[]|rc] l2] st2]|] eqn:E;
        inversion H; subst; eapply Hext; reflexivity.
  - intros Hrc f l' st' H. rewrite Hrun in H.
    assert (H01 : ext not_sig st st1)
      by (rewrite Hst1; apply ext_log; reflexivity).
    destruct (root_node _ _ _ _ _ _ _ _ _ _ _) as [[[[[]|rc] l2] st2]|] eqn:E;
      inversion H; subst;
      (eapply ext_trans; [exact H01|eapply Hgood; [exact Hrc|reflexivity]]).
Qed.

Example bad_root_signature_by_depth :
  (exists e st',
     gpgsm_validate_chain Sample.distrusting Sample.default_opt Sample.crl_ctrl 2
       (Sample.store [Sample.root]) (mkH 0 Sample.root) false false 0
     = Some (gpg_error GPG_ERR_BAD_CERT, e, st'))
  /\ (exists e st',
        gpgsm_validate_chain Sample.distrusting Sample.default_opt Sample.crl_ctrl 2
          (Sample.store [Sample.ca; Sample.root]) (mkH 0 Sample.ca) false false 0
        = Some (gpg_error GPG_ERR_BAD_CERT_CHAIN, e, st')).
Proof. split; do 2 eexists; vm_compute; reflexivity. Qed.

(* ------------------------------------------------------------------ *)
(** ** gpgsm_validate_chain: the depth of the walk *)

Section DepthFacts.
Variable W : world.
Variable opt : options.
Variable ctrl : ctrl_t.
Variable cert : cert_h.
Variable listmode : bool.
Variable flags : Z.
Variable current_time : ksba_isotime_t.

Lemma check_validity_visited (c : ksba_cert) (l l' : locals) (st st' : state) :
  check_validity opt current_time c l st = Some (Go tt, l', st') ->
  l_visited l' = c :: l_visited l.
Proof.
  unfold check_validity.
  destruct (cert_not_before c) as [rc1 nb]. destruct (cert_not_after c) as [rc2 na].
  destruct (failed _); [discriminate|].
  destruct (_ && _); [discriminate|].
  destruct (_ && _); [destruct (ignore_expiration opt)|];
    intros H; inversion H; reflexivity.
Qed.

Lemma node_checks_visited (c : ksba_cert) (is_root : bool) (l l1 : locals)
    (st st1 : state) (x : gpg_error_t * rootca_flags_s) :
  node_checks W opt current_time c is_root l st = Some (Go x, l1, st1) ->
  l_visited l1 = c :: l_visited l.
Proof.
  unfold node_checks.
  set (first := if is_root then _ else _).
  assert (Hfirst : exists y s, first l st = Some (Go y, l, s)).
  { subst first. destruct is_root; do 2 eexists; reflexivity. }
  destruct Hfirst as (y & s & Hfirst).
  unfold bind at 1. rewrite Hfirst. destruct y as [t0 rf0].
  unfold bind at 1.
  destruct (check_validity opt current_time c l s) as [[[[[]|rc] l2] st2]|] eqn:Ev;
    try discriminate.
  apply check_validity_visited in Ev.
  unfold bind at 1, leave_if_failed.
  destruct (failed (unknown_criticals c)); [discriminate|]. cbn [ret].
  unfold bind at 1.
  pose proof (policy_check_core W opt c l2 st2) as Hp.
  destruct (policy_check W opt c l2 st2) as [[[[[]|rc] l3] st3]|] eqn:Ep;
    try discriminate.
  specialize (Hp _ _ _ eq_refl). destruct Hp as (_ & _ & Hv). cbn [fst] in Hv.
  intros H; inversion H; subst. congruence.
Qed.

Lemma issuer_node_cases (maxdepth : Z) (fuel : nat) (s : cert_h) (issuer : string)
    (l : locals) (st : state) :
  issuer_node W opt ctrl listmode flags maxdepth fuel s issuer l st
  = if (maxdepth <? l_depth l + 1)%Z
    then Some (Leave (gpg_error GPG_ERR_BAD_CERT_CHAIN), set_depth (l_depth l + 1) l, st)
    else issuer_checks W opt ctrl listmode flags fuel s issuer
                       (set_depth (l_depth l + 1) l) st.
Proof.
  unfold issuer_node, bind, modify_locals, get_locals. cbn [l_depth set_depth].
  destruct (maxdepth <? l_depth l + 1)%Z; reflexivity.
Qed.

(** What one round of the loop does when it does not jump to [leave],
    and what it would do under another bound on the depth. *)
Lemma chain_step_inv (maxdepth : Z) (fuel : nat) (s : cert_h) (l l' : locals)
    (st st' : state) (x : option cert_h) :
  chain_step W opt ctrl cert listmode flags current_time maxdepth fuel s l st
  = Some (Go x, l', st') ->
  l_visited l' = h_cert s :: l_visited l
  /\ match x with
     | None =>
         l_depth l' = l_depth l
         /\ forall md,
              chain_step W opt ctrl cert listmode flags current_time md fuel s l st
              = Some (Go None, l', st')
     | Some next =>
         l_depth l' = (l_depth l + 1)%Z
         /\ (l_depth l + 1 <= maxdepth)%Z
         /\ forall md,
              ((l_depth l + 1 <= md)%Z ->
               chain_step W opt ctrl cert listmode flags current_time md fuel s l st
               = Some (Go (Some next), l', st'))
              /\ ((md < l_depth l + 1)%Z ->
                  exists l2 st2,
                    chain_step W opt ctrl cert listmode flags current_time md fuel s l st
                    = Some (Leave (gpg_error GPG_ERR_BAD_CERT_CHAIN), l2, st2)
                    /\ l_depth l2 = (l_depth l + 1)%Z)
     end.
Proof.
  unfold chain_step.
  destruct (cert_issuer (h_cert s)) as [issuer|]; [|discriminate].
  set (is_root := opt_eqb (cert_subject (h_cert s)) issuer).
  unfold bind at 1.
  destruct (node_checks W opt current_time (h_cert s) is_root l st)
    as [[[[[t rf]|rc] l1] st1]|] eqn:En; try discriminate.
  pose proof (node_checks_visited _ _ _ _ _ _ _ En) as Hv.
  destruct (node_checks_pass _ _ _ _ _ _ _ _ _ _ _ En) as (_ & _ & Hd).
  destruct is_root.
  - (* the root: [break] *)
    unfold bind at 1.
    destruct (root_node W opt ctrl cert listmode flags s t rf l1 st1)
      as [[[[[]|rc] l2] st2]|] eqn:Er; try discriminate.
    destruct (root_node_core _ _ _ _ _ _ _ _ _ _ _ _ _ _ Er) as (Hd2 & _ & Hv2).
    cbn [fst] in Hd2, Hv2.
    intros H; inversion H; subst. split; [congruence|].
    split; [congruence|].
    intros md. unfold bind at 1. rewrite En. unfold bind at 1. rewrite Er. reflexivity.
  - (* not the root: one step up *)
    unfold bind at 1. rewrite issuer_node_cases.
    destruct (maxdepth <? l_depth l1 + 1)%Z eqn:Eg; [discriminate|].
    destruct (issuer_checks W opt ctrl listmode flags fuel s issuer
                            (set_depth (l_depth l1 + 1) l1) st1)
      as [[[[next|rc] l2] st2]|] eqn:Ei; try discriminate.
    destruct (issuer_checks_core _ _ _ _ _ _ _ _ _ _ _ _ _ Ei) as (Hd2 & _ & Hv2).
    cbn [fst l_depth l_visited set_depth] in Hd2, Hv2.
    intros H; inversion H; subst.
    apply Z.ltb_ge in Eg.
    split; [congruence|]. split; [congruence|]. split; [lia|].
    intros md. split.
    + intros Hmd. unfold bind at 1. rewrite En. unfold bind at 1.
      rewrite issuer_node_cases.
      replace (md <? l_depth l1 + 1)%Z with false
        by (symmetry; apply Z.ltb_ge; lia).
      rewrite Ei. reflexivity.
    + intros Hmd. unfold bind at 1. rewrite En. unfold bind at 1.
      rewrite issuer_node_cases.
      replace (md <? l_depth l1 + 1)%Z with true
        by (symmetry; apply Z.ltb_lt; lia).
      do 2 eexists. split; [reflexivity|]. cbn [l_depth set_depth]. lia.
Qed.

(** A walk that ends normally has gone up one certificate per round
    but the last: the depth never decreases, and the visited certificates
    are one more than the rounds that went up. *)
Lemma chain_loop_count (maxdepth : Z) (fuel rounds : nat) (s : cert_h)
    (l l' : locals) (st st' : state) :
  chain_loop W opt ctrl cert listmode flags current_time maxdepth rounds fuel s l st
  = Some (Go tt, l', st') ->
  (l_depth l <= l_depth l')%Z
  /\ (Z.of_nat (List.length (l_visited l')) - l_depth l'
      = Z.of_nat (List.length (l_visited l)) - l_depth l + 1)%Z.
Proof.
  revert s l st. induction rounds as [|rounds IH]; intros s l st; [discriminate|].
  cbn [chain_loop]. unfold bind at 1.
  destruct (chain_step W opt ctrl cert listmode flags current_time maxdepth fuel s l st)
    as [[[[x|rc] l1] st1]|] eqn:Es; try discriminate.
  destruct (chain_step_inv _ _ _ _ _ _ _ _ Es) as [Hv Hx].
  destruct x as [next|].
  - destruct Hx as (Hd & _ & _). intros H.
    destruct (IH _ _ _ H) as [Hm Hc].
    split; [lia|]. rewrite Hc, Hv, Hd. cbn [List.length]. lia.
  - destruct Hx as (Hd & _). intros H; inversion H; subst.
    split; [lia|]. rewrite Hv, Hd. cbn [List.length]. lia.
Qed.

(** The same walk under the bound 50: unchanged when it stays within
    the bound, stopped at depth 51 with [BAD_CERT_CHAIN] when it does
    not. *)
Lemma chain_loop_bound (maxdepth : Z) (fuel rounds : nat) (s : cert_h)
    (l l' : locals) (st st' : state) :
  chain_loop W opt ctrl cert listmode flags current_time maxdepth rounds fuel s l st
  = Some (Go tt, l', st') ->
  (l_depth l <= 50)%Z ->
  ((l_depth l' <= 50)%Z ->
   chain_loop W opt ctrl cert listmode flags current_time 50 rounds fuel s l st
   = Some (Go tt, l', st'))
  /\ ((50 < l_depth l')%Z ->
      exists l2 st2,
        chain_loop W opt ctrl cert listmode flags current_time 50 rounds fuel s l st
        = Some (Leave (gpg_error GPG_ERR_BAD_CERT_CHAIN), l2, st2)
        /\ l_depth l2 = 51%Z).
Proof.
  revert s l st. induction rounds as [|rounds IH]; intros s l st; [discriminate|].
  cbn [chain_loop]. unfold bind at 1.
  destruct (chain_step W opt ctrl cert listmode flags current_time maxdepth fuel s l st)
    as [[[[x|rc] l1] st1]|] eqn:Es; try discriminate.
  destruct (chain_step_inv _ _ _ _ _ _ _ _ Es) as [Hv Hx].
  destruct x as [next|].
  - destruct Hx as (Hd & Hmax & Hmd).
    intros Hloop Hle.
    destruct (chain_loop_count _ _ _ _ _ _ _ _ Hloop) as [Hmono _].
    destruct (Z_le_gt_dec (l_depth l + 1) 50) as [Hok|Hover].
    + destruct (IH _ _ _ Hloop) as (Hsame & Hexceed); [lia|].
      split; intros H50; unfold bind at 1; rewrite (proj1 (Hmd 50%Z) Hok); auto.
    + split; [intros H50; lia|].
      intros _. unfold bind at 1.
      destruct (proj2 (Hmd 50%Z)) as (l2 & st2 & E50 & Hd2); [lia|].
      rewrite E50. exists l2, st2. split; [reflexivity|lia].
  - destruct Hx as (Hd & Hmd).
    intros H Hle. inversion H; subst.
    split.
    + intros _. unfold bind at 1. rewrite (Hmd 50%Z). reflexivity.
    + intros H50. lia.
Qed.
End DepthFacts.

(** The walk, from [keydb_new] on, in terms of the loop. *)
Lemma validate_chain_walk_loop (W : world) (opt : options) (ctrl : ctrl_t)
    (cert : cert_h) (lm : bool) (flags : Z) (now : ksba_isotime_t) (md : Z)
    (fuel : nat) (l0 : locals) (st : state) :
  validate_chain_walk W opt ctrl cert lm flags now md fuel l0 st
  = if w_keydb_new W (trace st) then
      match chain_loop W opt ctrl cert lm flags now md fuel fuel cert
                       (set_kh (mkKH 0 None false) l0) (log EvKeydbNew st) with
      | None => None
      | Some (Go _, l, s) => Some (Go (verdict l), l, s)
      | Some (Leave rc, l, s) => Some (Leave rc, l, s)
      end
    else Some (Leave (gpg_error GPG_ERR_GENERAL), l0, log EvKeydbNew st).
Proof.
  unfold validate_chain_walk. rewrite bind_with_state. unfold keydb_new. cbn [fst snd].
  destruct (w_keydb_new W (trace st)); [|reflexivity].
  unfold bind, modify_locals, get_locals, ret.
  destruct (chain_loop _ _ _ _ _ _ _ _ _ _ _ _ _) as [[[[[]|rc] l] s]|]; reflexivity.
Qed.

(** C2.  The depth is 0 at the certificate to validate and grows by one
    for every certificate that is not self-issued, before its issuer is
    looked up; the step up jumps to [leave] with [BAD_CERT_CHAIN] right
    there if and only if the new depth is larger than 50.  Take a chain for which the walk, under whatever bound on
    the depth, ends without a fatal error, at depth [n]: a chain of length
    [n], that is, of [n] certificates below the root, [n + 1] visited in
    all.  If [n] is at most 50, [gpgsm_validate_chain] ends the same way;
    if [n] is larger than 50, it fails with [BAD_CERT_CHAIN]. *)
Theorem depth_limit (W : world) (opt : options) (ctrl : ctrl_t) (fuel : nat)
    (st : state) (cert : cert_h) (r : bool) (lm : bool) (flags : Z) (md : Z)
    (v : gpg_error_t) (l1 : locals) (st1 : state) :
  no_chain_validation opt && negb lm = false ->
  validate_chain_walk W opt ctrl cert lm flags (w_isotime W (trace st)) md fuel
                      init_locals st = Some (Go v, l1, st1) ->
  l_depth init_locals = 0%Z
  /\ (forall rfuel s issuer l st0,
        issuer_node W opt ctrl lm flags 50 rfuel s issuer l st0
        = if (50 <? l_depth l + 1)%Z
          then Some (Leave (gpg_error GPG_ERR_BAD_CERT_CHAIN),
                     set_depth (l_depth l + 1) l, st0)
          else issuer_checks W opt ctrl lm flags rfuel s issuer
                             (set_depth (l_depth l + 1) l) st0)
  /\ Z.of_nat (List.length (l_visited l1)) = (l_depth l1 + 1)%Z
  /\ ((l_depth l1 <= 50)%Z ->
      gpgsm_validate_chain W opt ctrl fuel st cert r lm flags
      = Some (fst (validate_chain_leave W cert v l1 st1),
              (if r then Some (l_exptime l1) else None),
              snd (validate_chain_leave W cert v l1 st1)))
  /\ ((50 < l_depth l1)%Z ->
      exists e st2,
        gpgsm_validate_chain W opt ctrl fuel st cert r lm flags
        = Some (gpg_error GPG_ERR_BAD_CERT_CHAIN, e, st2)).
Proof.
  intros Hb Hw. split; [reflexivity|].
  split; [intros; apply issuer_node_cases|].
  pose proof Hw as Hw'. rewrite validate_chain_walk_loop in Hw'.
  destruct (w_keydb_new W (trace st)) eqn:Hnew; [|discriminate].
  destruct (chain_loop W opt ctrl cert lm flags (w_isotime W (trace st)) md fuel fuel
                       cert _ _) as [[[[[]|rc] l] s]|] eqn:El; try discriminate.
  inversion Hw'; subst v l st1. clear Hw'.
  destruct (chain_loop_count _ _ _ _ _ _ _ _ _ _ _ _ _ _ _ El) as [_ Hcnt].
  destruct (chain_loop_bound _ _ _ _ _ _ _ _ _ _ _ _ _ _ _ El) as [Hsame Hexceed];
    [cbn; lia|].
  cbn [l_visited l_depth set_kh init_locals List.length] in Hcnt.
  split; [lia|]. split.
  - intros H50.
    apply gpgsm_validate_chain_unfold with (f := Go (verdict l1)); [exact Hb|].
    rewrite validate_chain_walk_loop, Hnew, (Hsame H50). reflexivity.
  - intros H50. destruct (Hexceed H50) as (l2 & st2 & E & _).
    do 2 eexists.
    rewrite (gpgsm_validate_chain_unfold W opt ctrl fuel st cert r lm flags
               (Leave (gpg_error GPG_ERR_BAD_CERT_CHAIN)) l2 st2 Hb).
    + rewrite validate_chain_leave_rc. cbn [flow_rc failed gpg_error negb andb].
      rewrite andb_false_r. reflexivity.
    + rewrite validate_chain_walk_loop, Hnew, E. reflexivity.
Qed.

Lemma depth_limit_witness :
  let run n :=
    gpgsm_validate_chain Sample.calm Sample.default_opt Sample.crl_ctrl 60
      (Sample.store (Sample.chain n)) (mkH 0 (Sample.node n 0)) false false 0 in
  (exists st2, run 50 = Some (rc_0, None, st2))
  /\ (exists e st2, run 51 = Some (gpg_error GPG_ERR_BAD_CERT_CHAIN, e, st2)).
Proof.
  intros run. split.
  - assert (Hp : match validate_chain_walk Sample.calm Sample.default_opt
                         Sample.crl_ctrl (mkH 0 (Sample.node 50 0)) false 0
                         (w_isotime Sample.calm
                                    (trace (Sample.store (Sample.chain 50))))
                         50 60 init_locals (Sample.store (Sample.chain 50)) with
                 | Some (Go v, l, s) =>
                     l_depth l = 50%Z
                     /\ fst (validate_chain_leave Sample.calm (mkH 0 (Sample.node 50 0))
                                                  v l s) = rc_0
                 | _ => False
                 end) by (vm_compute; split; reflexivity).
    destruct (validate_chain_walk _ _ _ _ _ _ _ _ _ _ _)
      as [[[[v|rc] l1] st1]|] eqn:Hw; try contradiction.
    destruct Hp as [Hd Hrc].
    destruct (depth_limit Sample.calm Sample.default_opt Sample.crl_ctrl 60
                (Sample.store (Sample.chain 50)) (mkH 0 (Sample.node 50 0))
                false false 0 50 v l1 st1 eq_refl Hw) as (_ & _ & _ & H50 & _).
    eexists. unfold run. rewrite H50 by (rewrite Hd; discriminate).
    rewrite Hrc. reflexivity.
  - assert (Hp : match validate_chain_walk Sample.calm Sample.default_opt
                         Sample.crl_ctrl (mkH 0 (Sample.node 51 0)) false 0
                         (w_isotime Sample.calm
                                    (trace (Sample.store (Sample.chain 51))))
                         51 60 init_locals (Sample.store (Sample.chain 51)) with
                 | Some (Go v, l, s) => l_depth l = 51%Z
                 | _ => False
                 end) by (vm_compute; reflexivity).
    destruct (validate_chain_walk _ _ _ _ _ _ _ _ _ _ _)
      as [[[[v|rc] l1] st1]|] eqn:Hw; try contradiction.
    destruct (depth_limit Sample.calm Sample.default_opt Sample.crl_ctrl 60
                (Sample.store (Sample.chain 51)) (mkH 0 (Sample.node 51 0))
                false false 0 51 v l1 st1 eq_refl Hw) as (_ & _ & _ & _ & H51).
    apply H51. rewrite Hp. reflexivity.
Defined.

(* ------------------------------------------------------------------ *)
(** ** gpgsm_validate_chain: the expiration time returned *)

Lemma strcmp_gt_irrefl (a : string) : strcmp_gt a a = false.
Proof.
  unfold strcmp_gt. destruct (String_as_OT.compare_spec a a) as [_|H|H];
    try reflexivity.
  exfalso. exact (StrictOrder_Irreflexive a H).
Qed.

Lemma strcmp_lt_iff (a b : string) : strcmp_lt a b = true <-> String_as_OT.lt a b.
Proof.
  unfold strcmp_lt, String_as_OT.lt.
  destruct (String_as_OT.compare a b); split; congruence.
Qed.

Lemma strcmp_gt_iff (a b : string) : strcmp_gt a b = true <-> String_as_OT.lt b a.
Proof.
  unfold strcmp_gt.
  destruct (String_as_OT.compare_spec a b) as [Heq|H|H].
  - change (a = b) in Heq. subst b. split; [discriminate|].
    intros H. exfalso. exact (StrictOrder_Irreflexive a H).
  - split; [discriminate|]. intros H'. exfalso.
    exact (StrictOrder_Irreflexive a (StrictOrder_Transitive _ _ _ H H')).
  - split; auto.
Qed.

Lemma not_afters_nonempty (visited : list ksba_cert) (t : ksba_isotime_t) :
  In t (not_afters visited) -> nonempty t = true.
Proof. unfold not_afters. intros H. apply filter_In in H. tauto. Qed.

(** One update of the accumulator, as in "Check the validity period.". *)
Lemma is_earliest_update (e na : ksba_isotime_t) (ts : list ksba_isotime_t) :
  (forall t, In t ts -> nonempty t = true) ->
  is_earliest e ts ->
  nonempty na = true ->
  is_earliest (if negb (nonempty e) then na
               else if strcmp_lt na e then na else e)
              (na :: ts).
Proof.
  intros Hne He Hna. unfold is_earliest.
  destruct (nonempty e) eqn:Ee; cbn [negb].
  - destruct ts as [|t0 ts].
    { simpl in He. subst e. discriminate. }
    destruct He as [Hin Hmin].
    destruct (strcmp_lt na e) eqn:Elt.
    + split; [left; reflexivity|].
      intros t [<-|Ht]; [apply strcmp_gt_irrefl|].
      destruct (strcmp_gt na t) eqn:Egt; [|reflexivity].
      apply strcmp_lt_iff in Elt. apply strcmp_gt_iff in Egt.
      assert (Hte : String_as_OT.lt t e)
        by exact (StrictOrder_Transitive _ _ _ Egt Elt).
      apply strcmp_gt_iff in Hte. rewrite (Hmin t Ht) in Hte. discriminate.
    + split; [right; exact Hin|].
      intros t [<-|Ht]; [|auto].
      destruct (strcmp_gt e na) eqn:Egt; [|reflexivity].
      apply strcmp_gt_iff, strcmp_lt_iff in Egt. congruence.
  - split; [left; reflexivity|].
    intros t [<-|Ht]; [apply strcmp_gt_irrefl|].
    destruct ts as [|t0 ts]; [contradiction|].
    destruct He as [Hin _]. apply Hne in Hin. congruence.
Qed.

Lemma keeps_exptime_refl (x : locals * state) : keeps_exptime x x.
Proof. intros H. exact H. Qed.

Lemma keeps_exptime_trans (x y z : locals * state) :
  keeps_exptime x y -> keeps_exptime y z -> keeps_exptime x z.
Proof. unfold keeps_exptime. auto. Qed.

Lemma same_core_exptime (x y : locals * state) : same_core x y -> keeps_exptime x y.
Proof.
  intros (_ & He & Hv). unfold keeps_exptime, exptime_ok. now rewrite He, Hv.
Qed.

Lemma keeps_weaken {A} (R R' : locals * state -> locals * state -> Prop) (m : M A) :
  (forall x y, R x y -> R' x y) -> keeps R m -> keeps R' m.
Proof. intros H K l st f l' st' E. apply H. eapply K. exact E. Qed.

Lemma core_keeps_exptime {A} (m : M A) : keeps same_core m -> keeps keeps_exptime m.
Proof. apply keeps_weaken. exact same_core_exptime. Qed.

Ltac exptime := repeat keeps_step keeps_exptime_refl keeps_exptime_trans.

Section ExptimeFacts.
Variable W : world.
Variable opt : options.
Variable ctrl : ctrl_t.
Variable cert : cert_h.
Variable listmode : bool.
Variable flags : Z.
Variable current_time : ksba_isotime_t.
Variable maxdepth : Z.

Lemma check_validity_exptime (c : ksba_cert) :
  keeps keeps_exptime (check_validity opt current_time c).
Proof.
  intros l st f l' st'. unfold check_validity.
  destruct (cert_not_before c) as [rc1 nb]. destruct (cert_not_after c) as [rc2 na] eqn:Ena.
  destruct (failed _); [intros H; inversion H; subst; apply keeps_exptime_refl|].
  set (e := if nonempty na then _ else _).
  assert (Hok : exptime_ok l -> exptime_ok (set_validity e c l)).
  { unfold exptime_ok. cbn [l_exptime l_visited set_validity].
    unfold not_afters. cbn [map filter]. rewrite Ena. cbn [snd].
    subst e. destruct (nonempty na) eqn:En; [|auto].
    intros He. apply is_earliest_update; [|exact He|exact En].
    apply not_afters_nonempty. }
  destruct (_ && _); [intros H; inversion H; subst; exact Hok|].
  destruct (_ && _); [destruct (ignore_expiration opt)|];
    intros H; inversion H; subst; exact Hok.
Qed.

Lemma chain_step_exptime (fuel : nat) (s : cert_h) :
  keeps keeps_exptime
        (chain_step W opt ctrl cert listmode flags current_time maxdepth fuel s).
Proof.
  unfold chain_step. destruct (cert_issuer (h_cert s)) as [issuer|]; [|exptime].
  apply (keeps_bind _ keeps_exptime_trans).
  - unfold node_checks. exptime;
      auto using check_validity_exptime, core_keeps_exptime, agent_istrusted_core,
                 policy_check_core.
  - intros [t rf]. destruct (opt_eqb _ _).
    + apply (keeps_bind _ keeps_exptime_trans); [|intros; exptime].
      apply core_keeps_exptime, root_node_core.
    + apply (keeps_bind _ keeps_exptime_trans); [|intros; exptime].
      unfold issuer_node.
      apply (keeps_bind _ keeps_exptime_trans).
      { apply keeps_modify_locals. intros l st H. exact H. }
      intros _. apply (keeps_bind _ keeps_exptime_trans); [exptime|].
      intros l. destruct (_ <? _)%Z; [exptime|].
      apply core_keeps_exptime, issuer_checks_core.
Qed.

Lemma chain_loop_exptime (rounds fuel : nat) (s : cert_h) :
  keeps keeps_exptime
        (chain_loop W opt ctrl cert listmode flags current_time maxdepth rounds fuel s).
Proof.
  revert s. induction rounds as [|rounds IH]; intros s.
  - intros l st f l' st' H. discriminate.
  - cbn [chain_loop]. apply (keeps_bind _ keeps_exptime_trans).
    + apply chain_step_exptime.
    + intros [next|]; [apply IH|exptime].
Qed.

Lemma validate_chain_walk_exptime (fuel : nat) :
  keeps keeps_exptime
        (validate_chain_walk W opt ctrl cert listmode flags current_time maxdepth fuel).
Proof.
  unfold validate_chain_walk.
  apply (keeps_bind _ keeps_exptime_trans).
  - apply keeps_with_state. intros l st H. exact H.
  - intros [kh|]; [|exptime].
    apply (keeps_bind _ keeps_exptime_trans).
    + apply keeps_modify_locals. intros l st H. exact H.
    + intros _. apply (keeps_bind _ keeps_exptime_trans);
        [apply chain_loop_exptime|intros; exptime].
Qed.
End ExptimeFacts.

(** When [r_exptime] is given, the time stored there on return is the
    earliest not-after time, in the order of [strcmp], of the certificates
    whose validity period the walk has read; certificates with an empty
    not-after time do not count, and the time is empty when there is none
    (as after the bypass). *)
Lemma walk_exptime_earliest (W : world) (opt : options) (ctrl : ctrl_t)
    (fuel : nat) (st st' : state) (cert : cert_h) (lm : bool) (flags : Z)
    (rc : gpg_error_t) (e : option ksba_isotime_t) :
  gpgsm_validate_chain W opt ctrl fuel st cert true lm flags = Some (rc, e, st') ->
  exists visited t,
    e = Some t
    /\ is_earliest t (not_afters visited)
    /\ ((no_chain_validation opt && negb lm = true /\ visited = [])
        \/ exists f l st1,
             validate_chain_walk W opt ctrl cert lm flags (w_isotime W (trace st))
                                 50 fuel init_locals st = Some (f, l, st1)
             /\ visited = l_visited l).
Proof.
  unfold gpgsm_validate_chain.
  destruct (no_chain_validation opt && negb lm) eqn:Hb.
  - intros H; inversion H; subst. exists [], EmptyString.
    split; [reflexivity|]. split; [reflexivity|]. left. auto.
  - destruct (validate_chain_walk _ _ _ _ _ _ _ _ _ _ _) as [[[f l] st1]|] eqn:Hw;
      [|discriminate].
    destruct (validate_chain_leave W cert (flow_rc f) l st1) as [rc' st2].
    intros H; inversion H; subst.
    exists (l_visited l), (l_exptime l).
    split; [reflexivity|]. split.
    + apply (validate_chain_walk_exptime _ _ _ _ _ _ _ _ _ _ _ _ _ _ Hw).
      reflexivity.
    + right. exists f, l, st1. auto.
Qed.

(* ================================================================== *)
(** * Further properties *)

Lemma unknown_criticals_fold (exts : list (string * bool)) (rc0 : gpg_error_t) :
  let step := fun rc (e : string * bool) =>
                let (oid, crit) := e in
                if negb crit then rc
                else if existsb (String.eqb oid) known_critical_oids then rc
                else gpg_error GPG_ERR_UNSUPPORTED_CERT in
  fold_left step exts rc0
  = if forallb (fun e : string * bool =>
                  negb (snd e) || existsb (String.eqb (fst e)) known_critical_oids) exts
    then rc0 else gpg_error GPG_ERR_UNSUPPORTED_CERT.
Proof.
  intros step. revert rc0. induction exts as [|[oid crit] r IH]; intros rc0; [reflexivity|].
  cbn [fold_left forallb fst snd]. rewrite IH. unfold step.
  destruct crit; cbn [negb orb andb]; [|reflexivity].
  destruct (existsb (String.eqb oid) known_critical_oids); cbn [andb]; [reflexivity|].
  now destruct (forallb _ r).
Qed.

(** X1.  [unknown_criticals]: when the enumeration of the extensions ends
    with an error other than [GPG_ERR_EOF] and [GPG_ERR_NO_VALUE], that
    error is the result, whatever the extensions are.  Otherwise the
    result is 0 when every extension marked critical carries one of the
    four known object identifiers, and [GPG_ERR_UNSUPPORTED_CERT] when one
    does not; extensions that are not critical have no influence. *)
Theorem unknown_criticals_verdict (cert : ksba_cert) :
  let err := cert_ext_end cert in
  let fatal := failed err && negb (has_code err GPG_ERR_EOF)
               && negb (has_code err GPG_ERR_NO_VALUE) in
  let understood :=
    forall oid, In (oid, true) (cert_extensions cert) -> In oid known_critical_oids in
  (fatal = true -> unknown_criticals cert = err /\ failed (unknown_criticals cert) = true)
  /\ (fatal = false ->
      (understood -> unknown_criticals cert = rc_0)
      /\ (~ understood -> unknown_criticals cert = gpg_error GPG_ERR_UNSUPPORTED_CERT)).
Proof.
  intros err fatal understood.
  unfold unknown_criticals. rewrite unknown_criticals_fold.
  fold err. fold fatal.
  assert (Hiff : forallb (fun e : string * bool =>
                   negb (snd e) || existsb (String.eqb (fst e)) known_critical_oids)
                   (cert_extensions cert) = true <-> understood).
  { rewrite forallb_forall. unfold understood. split.
    - intros H oid Hin. specialize (H _ Hin). cbn [fst snd negb orb] in H.
      apply existsb_exists in H. destruct H as (k & Hk & He).
      apply String.eqb_eq in He. now subst.
    - intros H [oid crit] Hin. cbn [fst snd]. destruct crit; [|reflexivity].
      cbn [negb orb]. apply existsb_exists. exists oid. split; [now apply H|].
      apply String.eqb_refl. }
  split.
  - intros Hf. rewrite Hf. split; [reflexivity|].
    unfold fatal in Hf. now destruct (failed err).
  - intros Hf. rewrite Hf. split.
    + intros Hu. apply Hiff in Hu. now rewrite Hu.
    + intros Hu. destruct (forallb _ (cert_extensions cert)) eqn:E; [|reflexivity].
      exfalso. apply Hu. now apply Hiff.
Qed.

Lemma append_assoc_s (a b c : string) : ((a ++ b) ++ c = a ++ (b ++ c))%string.
Proof. induction a as [|x a IH]; cbn; [reflexivity|now rewrite IH]. Qed.

Lemma append_nil_r (a : string) : (a ++ "")%string = a.
Proof. induction a as [|x a IH]; cbn; [reflexivity|now rewrite IH]. Qed.

Lemma substring_prefix_split (a s : string) :
  substring 0 (String.length a) s = a -> exists post, s = (a ++ post)%string.
Proof.
  revert s. induction a as [|c a IH]; intros s H.
  - now exists s.
  - destruct s as [|d s]; cbn in H; [discriminate|].
    injection H as -> H. destruct (IH _ H) as (post & ->). now exists post.
Qed.

Lemma substring_split (p : nat) (a s : string) :
  a <> EmptyString ->
  substring p (String.length a) s = a ->
  exists pre post, s = (pre ++ a ++ post)%string /\ String.length pre = p.
Proof.
  intros Ha. revert s. induction p as [|p IH]; intros s H.
  - destruct (substring_prefix_split _ _ H) as (post & ->).
    now exists EmptyString, post.
  - destruct s as [|d s].
    + destruct a; cbn in H; congruence.
    + cbn in H. destruct (IH _ H) as (pre & post & -> & Hl).
      exists (String d pre), post. cbn. now rewrite Hl.
Qed.

Lemma substring_at (pre a post : string) :
  substring (String.length pre) (String.length a) (pre ++ a ++ post) = a.
Proof.
  induction pre as [|c pre IH]; cbn; [|exact IH].
  induction a as [|c a IHa]; cbn.
  - now destruct post.
  - now rewrite IHa.
Qed.

Lemma get_at (pre : string) (c : ascii) (post : string) :
  String.get (String.length pre) (pre ++ String c post) = Some c.
Proof. induction pre as [|d pre IH]; cbn; [reflexivity|exact IH]. Qed.

Lemma get_before (pre : string) (c : ascii) (post : string) :
  String.get (String.length pre) ((pre ++ String c EmptyString) ++ post) = Some c.
Proof. rewrite append_assoc_s. apply get_at. Qed.

Lemma string_snoc (s : string) (q : nat) :
  String.length s = S q ->
  exists s' c, s = (s' ++ String c EmptyString)%string /\ String.length s' = q.
Proof.
  revert q. induction s as [|d s IH]; intros q H; [discriminate|].
  cbn in H. injection H as H. destruct s as [|e s].
  - exists EmptyString, d. now subst.
  - destruct q as [|q]; [discriminate|].
    destruct (IH _ H) as (s' & c & -> & Hl).
    exists (String d s'), c. cbn. rewrite <- Hl. now split.
Qed.

Lemma index_ge (n m : nat) (a s : string) : String.index n a s = Some m -> n <= m.
Proof.
  revert n m. induction s as [|c s IH]; intros n m H; cbn in H.
  - destruct n; [|discriminate]. lia.
  - destruct n as [|n]; [lia|].
    destruct (String.index n a s) as [k|] eqn:E; [|discriminate].
    injection H as <-. apply IH in E. lia.
Qed.

Lemma get_behind (pre a post : string) :
  String.get (String.length pre + String.length a) (pre ++ a ++ post)
  = match post with EmptyString => None | String c _ => Some c end.
Proof.
  induction pre as [|d pre IH]; cbn; [|exact IH].
  induction a as [|d a IHa]; cbn; [now destruct post|exact IHa].
Qed.

Lemma policy_listed_sound (fuel : nat) (policies allowed : string) (from : nat) :
  allowed <> EmptyString ->
  policy_listed fuel policies allowed from = true ->
  policy_line_of policies allowed.
Proof.
  intros Ha. revert from. induction fuel as [|fuel IH]; intros from H; [discriminate|].
  cbn [policy_listed] in H. unfold strstr_from in H.
  destruct (String.index from allowed policies) as [p|] eqn:Ei; [|discriminate].
  match type of H with
  | (if negb ?s then _ else if negb ?c then _ else _) = _ =>
      destruct s eqn:Es; cbn [negb] in H; [|now apply IH in H];
      destruct c eqn:Ec; cbn [negb] in H; [|now apply IH in H]
  end.
  apply index_correct1 in Ei.
  destruct (substring_split _ _ _ Ha Ei) as (pre & post & Hp & Hl).
  subst policies. rewrite <- Hl in Ec.
  assert (Hpost : exists post', post = String ":" post').
  { rewrite get_behind in Ec. destruct post as [|c post]; [discriminate|].
    apply Ascii.eqb_eq in Ec. subst c. now exists post. }
  destruct Hpost as (post' & ->).
  exists pre, post'. split; [reflexivity|].
  destruct p as [|q].
  - left. destruct pre; [reflexivity|discriminate].
  - right. destruct (string_snoc _ _ Hl) as (pre' & c & -> & Hq).
    rewrite <- Hq, get_before in Es. apply Ascii.eqb_eq in Es. subst c.
    now exists pre'.
Qed.

Lemma policy_listed_complete (fuel : nat) (pre allowed post : string) (from : nat) :
  allowed <> EmptyString ->
  (pre = EmptyString \/ exists pre', pre = (pre' ++ String LF EmptyString)%string) ->
  from <= String.length pre ->
  String.length pre < fuel + from ->
  policy_listed fuel (pre ++ allowed ++ String ":" post) allowed from = true.
Proof.
  intros Ha Hpre. revert from. induction fuel as [|fuel IH]; intros from Hle Hlt; [lia|].
  cbn [policy_listed]. unfold strstr_from.
  set (policies := (pre ++ allowed ++ String ":" post)%string).
  assert (Hocc : substring (String.length pre) (String.length allowed) policies = allowed)
    by apply substring_at.
  destruct (String.index from allowed policies) as [p|] eqn:Ei.
  - assert (Hge := index_ge _ _ _ _ Ei).
    assert (Hp : p <= String.length pre).
    { destruct (le_lt_dec p (String.length pre)) as [|Hgt]; [assumption|].
      exfalso. exact (index_correct2 _ _ _ _ Ei _ Hle Hgt Hocc). }
    match goal with
    | |- (if negb ?s then _ else if negb ?c then _ else _) = _ =>
        destruct s eqn:Es; cbn [negb];
        [destruct c eqn:Ec; cbn [negb]; [reflexivity|]|]
    end.
    + destruct (Nat.eq_dec p (String.length pre)) as [->|Hne]; [|apply IH; lia].
      exfalso. unfold policies in Ec.
      rewrite get_behind in Ec. discriminate.
    + destruct (Nat.eq_dec p (String.length pre)) as [->|Hne]; [|apply IH; lia].
      exfalso. destruct Hpre as [->|(pre' & ->)]; [discriminate|].
      rewrite length_append in Es. cbn [String.length] in Es.
      replace (String.length pre' + 1) with (S (String.length pre')) in Es by lia.
      unfold policies in Es. rewrite get_before in Es.
      rewrite Ascii.eqb_refl in Es. discriminate.
  - exfalso. exact (index_correct3 _ _ _ _ Ei Ha Hle Hocc).
Qed.

(** X2.  The search of [check_cert_policy] for a policy of the policy
    file in the policies of the certificate: a policy that is not empty
    is found exactly when it stands at the begin of a line of the
    certificate's list and a colon follows it.  A policy that is a proper
    prefix of a listed one, or that occurs inside a line, is not found. *)
Theorem policy_listed_iff (policies allowed : string) :
  allowed <> EmptyString ->
  policy_listed (S (String.length policies)) policies allowed 0 = true
  <-> policy_line_of policies allowed.
Proof.
  intros Ha. split.
  - now apply policy_listed_sound.
  - intros (pre & post & -> & Hpre).
    apply policy_listed_complete; [assumption|assumption|lia|].
    rewrite length_append. lia.
Qed.

Lemma policy_loop_soft (policies : string) (fuel : nat) (fp : FILE) (rc : gpg_error_t) :
  policy_loop policies false fuel fp = Some rc ->
  has_code rc GPG_ERR_NO_POLICY_MATCH = false.
Proof.
  revert fp. induction fuel as [|fuel IH]; intros fp H; [discriminate|].
  cbn [policy_loop] in H.
  destruct (fgets 255 fp) as [raw fp'| |e].
  - destruct (match last_char (cstr raw) with
              | Some c => negb (Ascii.eqb c LF) | None => true end).
    + injection H as <-. now destruct (cstr raw).
    + unfold policy_candidate in H.
      destruct (skip_spaces (cstr raw)) as [|c r]; [now apply IH in H|].
      destruct (_ || _); [now apply IH in H|].
      unfold policy_parse_line in H.
      destruct (strpbrk_token _) as [token found].
      destruct (_ || _); [now injection H as <-|].
      destruct (policy_listed _ _ _ _); [now injection H as <-|now apply IH in H].
  - now injection H as <-.
  - now injection H as <-.
Qed.

(** X3.  [check_cert_policy] for a certificate whose policies can be
    read and hold no [":C"]: the result is never [GPG_ERR_NO_POLICY_MATCH],
    whatever the policy file is; a policy that is not allowed is a
    warning only. *)
Theorem policy_mismatch_only_if_critical (opt : options)
    (fopen : string -> option FILE) (cert : ksba_cert) (rc : gpg_error_t) :
  failed (fst (cert_policies cert)) = false ->
  strstr_found (snd (cert_policies cert)) ":C" = false ->
  check_cert_policy opt fopen cert = Some rc ->
  has_code rc GPG_ERR_NO_POLICY_MATCH = false.
Proof.
  unfold check_cert_policy. destruct (cert_policies cert) as [err policies].
  cbn [fst snd]. intros Herr Hcrit. rewrite Herr, Hcrit.
  destruct (_ || _); [now intros [= <-]|].
  destruct (policy_file opt) as [name|]; [|now intros [= <-]].
  destruct (fopen name) as [fp|]; [|now intros [= <-]].
  apply policy_loop_soft.
Qed.

Lemma fgets_take_split (n : nat) (s raw rest : string) :
  fgets_take n s = (raw, rest) -> s = (raw ++ rest)%string.
Proof.
  revert s raw rest. induction n as [|n IH]; intros s raw rest H.
  - cbn in H. now injection H as <- <-.
  - destruct s as [|c s]; cbn in H; [now injection H as <- <-|].
    destruct (Ascii.eqb c LF); [now injection H as <- <-|].
    destruct (fgets_take n s) as [l r] eqn:E. injection H as <- <-.
    cbn. f_equal. now apply IH.
Qed.

Lemma fgets_take_lf (n : nat) (s raw rest pre post : string) :
  fgets_take n s = (raw, rest) ->
  raw = (pre ++ String LF post)%string -> post = EmptyString.
Proof.
  revert s raw rest pre. induction n as [|n IH]; intros s raw rest pre H Hraw.
  - cbn in H. injection H as <- <-. now destruct pre.
  - destruct s as [|c s]; cbn in H; [injection H as <- <-; now destruct pre|].
    destruct (Ascii.eqb c LF) eqn:Ec.
    + injection H as <- <-. destruct pre as [|d pre]; cbn in Hraw.
      * now inversion Hraw.
      * inversion Hraw as [[Hd Hp]]. now destruct pre.
    + destruct (fgets_take n s) as [l r] eqn:E. injection H as <- <-.
      destruct pre as [|d pre]; cbn in Hraw.
      * inversion Hraw as [[Hc Hp]]. subst c. discriminate.
      * inversion Hraw as [[Hd Hp]]. exact (IH _ _ _ _ E Hp).
Qed.

Lemma fgets_line_split (size : nat) (fp fp' : FILE) (raw : string) :
  fgets size fp = FG_line raw fp' ->
  f_data fp = (raw ++ f_data fp')%string
  /\ forall pre post, raw = (pre ++ String LF post)%string -> post = EmptyString.
Proof.
  unfold fgets. destruct (fgets_take (size - 1) (f_data fp)) as [r rest] eqn:E.
  intros H.
  assert (Hr : raw = r /\ f_data fp' = rest).
  { destruct (match last_char r with Some c => _ | None => false end).
    - now injection H as <- <-.
    - destruct (f_errno fp); [discriminate|]. destruct r; [discriminate|].
      now injection H as <- <-. }
  destruct Hr as [-> ->]. split; [now apply fgets_take_split in E|].
  intros pre post. exact (fgets_take_lf _ _ _ _ _ _ E).
Qed.

Lemma cstr_prefix (raw : string) : exists junk, raw = (cstr raw ++ junk)%string.
Proof.
  induction raw as [|c raw (junk & IH)]; [now exists EmptyString|].
  cbn. destruct (Ascii.eqb c NUL); [now exists (String c raw)|].
  exists junk. cbn. now rewrite <- IH.
Qed.

Lemma last_char_snoc (s : string) (c : ascii) :
  last_char s = Some c -> exists s', s = (s' ++ String c EmptyString)%string.
Proof.
  induction s as [|d s IH]; [discriminate|].
  cbn. destruct s as [|e s].
  - intros [= ->]. now exists EmptyString.
  - intros H. destruct (IH H) as (s' & Hs). exists (String d s'). cbn. now rewrite <- Hs.
Qed.

Lemma skip_spaces_split (s : string) :
  exists blanks, s = (blanks ++ skip_spaces s)%string /\ skip_spaces blanks = EmptyString.
Proof.
  induction s as [|c s (blanks & IH & Hb)]; [now exists EmptyString|].
  cbn. destruct (spacep c) eqn:Ec.
  - exists (String c blanks). cbn. rewrite Ec. split; [now rewrite <- IH|assumption].
  - now exists EmptyString.
Qed.

Lemma strpbrk_token_split (s t : string) :
  strpbrk_token s = (t, true) ->
  exists d r, s = (t ++ String d r)%string
              /\ (d = " "%char \/ d = ":"%char \/ d = LF).
Proof.
  revert t. induction s as [|c s IH]; intros t H; cbn in H; [discriminate|].
  destruct (Ascii.eqb c " " || Ascii.eqb c ":" || Ascii.eqb c LF) eqn:Ec.
  - injection H as <-. exists c, s. split; [reflexivity|].
    apply orb_true_iff in Ec. destruct Ec as [Ec|Ec].
    + apply orb_true_iff in Ec. destruct Ec as [Ec|Ec]; apply Ascii.eqb_eq in Ec; auto.
    + apply Ascii.eqb_eq in Ec; auto.
  - destruct (strpbrk_token s) as [t' f]. injection H as <- ->.
    destruct (IH _ eq_refl) as (d & r & -> & Hd). now exists d, r.
Qed.

Lemma policy_parse_line_match (policies line : string) :
  policy_parse_line policies line = Some rc_0 ->
  exists blanks allowed d after,
    line = (blanks ++ allowed ++ String d after)%string
    /\ skip_spaces blanks = EmptyString
    /\ (d = " "%char \/ d = ":"%char \/ d = LF)
    /\ allowed <> EmptyString
    /\ policy_line_of policies allowed.
Proof.
  unfold policy_parse_line. intros H.
  destruct (strpbrk_token (skip_spaces line)) as [token found] eqn:Et.
  destruct (negb found || (String.length token =? 0)%nat) eqn:Eg; [discriminate|].
  apply orb_false_iff in Eg. destruct Eg as [Ef El].
  destruct found; [|discriminate].
  assert (Hne : token <> EmptyString) by (intros ->; discriminate).
  destruct (policy_listed _ _ _ _) eqn:Ep; [|discriminate].
  apply (policy_listed_sound _ _ _ _ Hne) in Ep.
  destruct (strpbrk_token_split _ _ Et) as (d & r & Hs & Hd).
  destruct (skip_spaces_split line) as (blanks & Hl & Hb).
  exists blanks, token, d, r. rewrite Hs in Hl. auto.
Qed.

Lemma policy_loop_match (policies : string) (fuel : nat) (fp : FILE) (before : string) :
  (before = EmptyString \/ exists b, before = (b ++ String LF EmptyString)%string) ->
  policy_loop policies true fuel fp = Some rc_0 ->
  exists allowed,
    policy_file_names (before ++ f_data fp) allowed /\ policy_line_of policies allowed.
Proof.
  revert fp before. induction fuel as [|fuel IH]; intros fp before Hb H; [discriminate|].
  cbn [policy_loop] in H.
  destruct (fgets 255 fp) as [raw fp'| |e] eqn:Eg; [|discriminate|discriminate].
  destruct (fgets_line_split _ _ _ _ Eg) as [Hdata Hlf].
  destruct (last_char (cstr raw)) as [c|] eqn:El; [|discriminate].
  destruct (Ascii.eqb c LF) eqn:Ec; cbn [negb] in H; [|now destruct (cstr raw)].
  apply Ascii.eqb_eq in Ec. subst c.
  destruct (last_char_snoc _ _ El) as (body & Hline).
  destruct (cstr_prefix raw) as (junk & Hraw).
  rewrite Hline, append_assoc_s in Hraw. cbn [append] in Hraw.
  assert (junk = EmptyString) by (exact (Hlf _ _ Hraw)). subst junk.
  destruct (policy_candidate policies (cstr raw)) as [rc|] eqn:Ecand.
  - injection H as ->. unfold policy_candidate in Ecand.
    destruct (skip_spaces (cstr raw)); [discriminate|].
    destruct (_ || _); [discriminate|].
    destruct (policy_parse_line_match _ _ Ecand)
      as (blanks & allowed & d & after & Hl & Hbl & Hd & Hne & Hpol).
    exists allowed. split; [|assumption].
    exists before, blanks, d, (after ++ f_data fp')%string.
    split; [|now auto].
    rewrite Hdata, Hraw, <- Hline, Hl.
    now rewrite !append_assoc_s.
  - specialize (IH fp' (before ++ raw)%string).
    rewrite Hdata, <- append_assoc_s. apply IH; [|assumption].
    right. exists (before ++ body)%string. rewrite Hraw. now rewrite append_assoc_s.
Qed.

(** X4.  [check_cert_policy] for a certificate whose policies can be
    read and hold [":C"]: the result is 0 only if a policy file is
    configured, it can be opened, and the first word of one of its lines
    is a policy of the certificate (it stands at the begin of a line of
    the certificate's list, followed by a colon). *)
Theorem critical_policy_needs_match (opt : options) (fopen : string -> option FILE)
    (cert : ksba_cert) :
  failed (fst (cert_policies cert)) = false ->
  strstr_found (snd (cert_policies cert)) ":C" = true ->
  check_cert_policy opt fopen cert = Some rc_0 ->
  exists name fp allowed,
    policy_file opt = Some name
    /\ fopen name = Some fp
    /\ policy_file_names (f_data fp) allowed
    /\ policy_line_of (snd (cert_policies cert)) allowed.
Proof.
  unfold check_cert_policy. destruct (cert_policies cert) as [err policies].
  cbn [fst snd]. intros Herr Hcrit. rewrite Herr, Hcrit.
  assert (Hnone : has_code err GPG_ERR_NO_DATA || has_code err GPG_ERR_NO_VALUE = false).
  { apply failed_false in Herr. now subst err. }
  rewrite Hnone.
  destruct (policy_file opt) as [name|] eqn:En; [|discriminate].
  destruct (fopen name) as [fp|] eqn:Ef; [|discriminate].
  intros H. destruct (policy_loop_match policies _ fp EmptyString (or_introl eq_refl) H)
    as (allowed & Hf & Hp).
  exists name, fp, allowed. split; [reflexivity|]. split; [exact Ef|].
  split; [exact Hf|exact Hp].
Qed.

Lemma skip_spaces_append (a b : string) :
  skip_spaces (a ++ b)
  = match skip_spaces a with
    | EmptyString => skip_spaces b
    | String c r => String c (r ++ b)
    end.
Proof.
  induction a as [|c a IH]; cbn; [reflexivity|].
  destruct (spacep c); [exact IH|reflexivity].
Qed.

(** X5.  [check_cert_policy] skips empty lines and comments of the
    policy file: a first line of at most 253 characters without NUL
    bytes that holds only blanks and tabs, or whose first character after
    them is [#], does not change the result. *)
Theorem policy_comment_line_skipped (opt : options) (cert : ksba_cert)
    (content rest : string) (errno : option Z) :
  occurs LF content = false ->
  occurs NUL content = false ->
  String.length content <= 253 ->
  match skip_spaces content with
  | EmptyString => True
  | String c _ => c = "#"%char
  end ->
  check_cert_policy opt (fun _ => Some (mkFILE (content ++ String LF rest) errno)) cert
  = check_cert_policy opt (fun _ => Some (mkFILE rest errno)) cert.
Proof.
  intros Hlf Hnul Hlen Hskip. unfold check_cert_policy.
  destruct (cert_policies cert) as [err policies].
  destruct (_ || _); [reflexivity|]. destruct (failed err); [reflexivity|].
  destruct (policy_file opt) as [name|]; [|reflexivity].
  cbn [f_data].
  rewrite (policy_loop_line policies _ content rest errno _ Hlf Hnul Hlen).
  assert (Hc : policy_candidate policies (content ++ String LF EmptyString) = None).
  { unfold policy_candidate. rewrite skip_spaces_append.
    destruct (skip_spaces content) as [|c r]; [reflexivity|]. now subst c. }
  rewrite Hc.
  apply policy_loop_fuel; cbn [f_data]; rewrite ?length_append; cbn [String.length]; lia.
Qed.

Lemma substring_suffix (a b : string) :
  substring (String.length a) (String.length (a ++ b) - String.length a) (a ++ b) = b.
Proof.
  rewrite length_append. replace (String.length a + String.length b - String.length a)
    with (String.length b) by lia.
  rewrite <- (append_nil_r b) at 2. apply substring_at.
Qed.

(** X6.  The pattern [find_up_external] hands to dirmngr: a slash
    followed by the issuer name from its first ["CN="] on when that stands
    directly after a comma, and a slash followed by the whole issuer name
    otherwise (no ["CN="], ["CN="] at the very begin, or the first ["CN="]
    after another character). *)
Theorem external_pattern_cases (issuer : string) :
  match String.index 0 "CN=" issuer with
  | Some (S q) =>
      exists pre c r,
        issuer = (pre ++ String c ("CN=" ++ r))%string
        /\ String.length pre = q
        /\ external_pattern issuer
           = if Ascii.eqb c ","%char then ("/CN=" ++ r)%string else ("/" ++ issuer)%string
  | _ => external_pattern issuer = ("/" ++ issuer)%string
  end.
Proof.
  unfold external_pattern.
  destruct (String.index 0 "CN=" issuer) as [[|q]|] eqn:Ei; [reflexivity| |reflexivity].
  apply index_correct1 in Ei.
  assert (Hne : "CN=" <> EmptyString) by discriminate.
  change 3 with (String.length "CN=") in Ei.
  destruct (substring_split _ _ _ Hne Ei) as (pre' & r & Hs & Hl).
  destruct (string_snoc _ _ Hl) as (pre & c & -> & Hq).
  exists pre, c, r. rewrite append_assoc_s in Hs. cbn [append] in Hs.
  split; [exact Hs|]. split; [exact Hq|].
  assert (Hg : String.get q issuer = Some c).
  { rewrite Hs, <- Hq. apply get_at. }
  rewrite Hg. destruct (Ascii.eqb c ","); [|reflexivity].
  change ("/CN=" ++ r)%string with ("/" ++ ("CN=" ++ r))%string. f_equal.
  assert (Hi : issuer = ((pre ++ String c EmptyString) ++ ("CN=" ++ r))%string).
  { rewrite Hs. now rewrite append_assoc_s. }
  rewrite Hi at 1 2. rewrite <- Hl. apply substring_suffix.
Qed.

Lemma after_search_id (st : state) : after_search (next_id st) [] [] st = st.
Proof. destruct st. unfold after_search. cbn. now rewrite app_nil_r. Qed.

Lemma after_search_comp (n1 n2 : nat) (m1 m2 : list ksba_cert) (e1 e2 : list event)
    (st : state) :
  after_search n2 m2 e2 (after_search n1 m1 e1 st)
  = after_search n2 (m1 ++ m2) (e2 ++ e1) st.
Proof. unfold after_search. cbn. now rewrite !app_assoc. Qed.

Lemma search_effect_refl (issuer : string) (st : state) : search_effect 0 issuer st st.
Proof. exists (next_id st), []. cbn [repeat]. now rewrite after_search_id. Qed.

Lemma search_effect_trans (k1 k2 : nat) (issuer : string) (st1 st2 st3 : state) :
  search_effect k1 issuer st1 st2 ->
  search_effect k2 issuer st2 st3 ->
  search_effect (k2 + k1) issuer st1 st3.
Proof.
  intros (n1 & m1 & -> & Hn1 & Hm1) (n2 & m2 & -> & Hn2 & Hm2).
  exists n2, (m1 ++ m2).
  rewrite after_search_comp, repeat_app. split; [reflexivity|].
  split; [cbn in Hn2; lia|].
  intros Hk. rewrite Hm1, Hm2 by lia. reflexivity.
Qed.

Lemma keydb_search_ephemeral (st : state) (kh kh' : KEYDB_HANDLE)
    (p : ksba_cert -> bool) (rc : gpg_error_t) :
  keydb_search st kh p = (rc, kh') -> kh_ephemeral kh' = kh_ephemeral kh.
Proof.
  unfold keydb_search. destruct (keydb_scan _ _ _ _ _); intros [= <- <-]; reflexivity.
Qed.

Lemma keydb_get_cert_effect (issuer : string) (st st' : state) (kh : KEYDB_HANDLE)
    (rc : gpg_error_t) (c : option cert_h) :
  keydb_get_cert st kh = (rc, c, st') -> search_effect 0 issuer st st'.
Proof.
  unfold keydb_get_cert.
  destruct (kh_found kh) as [i|]; [|intros [= <- <- <-]; apply search_effect_refl].
  destruct (nth_error _ i); [|intros [= <- <- <-]; apply search_effect_refl].
  intros [= <- <- <-].
  exists (S (next_id st)), []. cbn [repeat]. split; [|split; [lia|reflexivity]].
  destruct st. unfold after_search, set_next_id. cbn. now rewrite app_nil_r.
Qed.

Section FrameFacts.
Variable W : world.
Variable opt : options.

Lemma find_up_search_by_keyid_loop_effect (fuel : nat) (st st' : state)
    (kh kh' : KEYDB_HANDLE) (issuer keyid : string) (rc : gpg_error_t) :
  find_up_search_by_keyid_loop fuel st kh issuer keyid = (rc, kh', st') ->
  kh_ephemeral kh' = kh_ephemeral kh /\ search_effect 0 issuer st st'.
Proof.
  revert st kh. induction fuel as [|fuel IH]; intros st kh; cbn [find_up_search_by_keyid_loop].
  - intros [= <- <- <-]. split; [reflexivity|apply search_effect_refl].
  - destruct (keydb_search_subject st kh issuer) as [r kh1] eqn:Es.
    apply keydb_search_ephemeral in Es.
    destruct (failed r); [intros [= <- <- <-]; split; [assumption|apply search_effect_refl]|].
    destruct (keydb_get_cert st kh1) as [[rc1 cert] st1] eqn:Eg.
    apply (keydb_get_cert_effect issuer) in Eg.
    assert (Hgo : find_up_search_by_keyid_loop fuel st1 kh1 issuer keyid = (rc, kh', st') ->
                  kh_ephemeral kh' = kh_ephemeral kh /\ search_effect 0 issuer st st').
    { intros H. apply IH in H. destruct H as [He H]. split; [congruence|].
      exact (search_effect_trans 0 0 _ _ _ _ Eg H). }
    destruct cert as [cert|]; [|now intros [= <- <- <-]].
    destruct (failed rc1); [now intros [= <- <- <-]|].
    destruct (cert_subj_key_id (h_cert cert)) as [subj|]; [|exact Hgo].
    destruct (String.eqb keyid subj); [now intros [= <- <- <-]|exact Hgo].
Qed.

Lemma find_up_search_by_keyid_effect (st st' : state) (kh kh' : KEYDB_HANDLE)
    (issuer keyid : string) (rc : gpg_error_t) :
  find_up_search_by_keyid st kh issuer keyid = (rc, kh', st') ->
  kh_ephemeral kh' = kh_ephemeral kh /\ search_effect 0 issuer st st'.
Proof.
  unfold find_up_search_by_keyid.
  destruct (find_up_search_by_keyid_loop _ _ _ _ _) as [[r k] s] eqn:E.
  apply find_up_search_by_keyid_loop_effect in E.
  intros [= <- <- <-]. exact E.
Qed.

Lemma store_ephemeral_after (certs : list ksba_cert) (st : state) :
  fold_left keydb_store_cert_ephemeral certs st = after_search (next_id st) certs [] st.
Proof.
  revert st. induction certs as [|c certs IH]; intros st; cbn [fold_left].
  - now rewrite after_search_id.
  - rewrite IH. destruct st. unfold after_search, keydb_store_cert_ephemeral, set_kdb_eph.
    cbn. now rewrite <- app_assoc.
Qed.

Lemma find_up_external_effect (st st' : state) (kh kh' : KEYDB_HANDLE)
    (issuer : string) (keyid : option string) (rc : gpg_error_t) :
  find_up_external W st kh issuer keyid = (rc, kh', st') ->
  kh_ephemeral kh' = kh_ephemeral kh /\ search_effect 1 issuer st st'.
Proof.
  unfold find_up_external.
  destruct (w_lookup W (trace st) (external_pattern issuer)) as [r certs].
  set (st2 := fold_left keydb_store_cert_ephemeral certs _).
  assert (H2 : search_effect 1 issuer st st2).
  { exists (next_id st), certs. split; [|split; [lia|discriminate]].
    subst st2. rewrite store_ephemeral_after. destruct st. unfold after_search, log.
    cbn. reflexivity. }
  destruct (failed r); [now intros [= <- <- <-]|].
  destruct (_ =? _)%nat; [now intros [= <- <- <-]|].
  cbn [keydb_set_ephemeral fst snd].
  destruct keyid as [k|].
  - destruct (find_up_search_by_keyid st2 _ issuer k) as [[r1 k2] s3] eqn:E.
    apply find_up_search_by_keyid_effect in E. destruct E as [_ E].
    intros [= <- <- <-]. split; [reflexivity|].
    exact (search_effect_trans 1 0 _ _ _ _ H2 E).
  - destruct (keydb_search_subject st2 _ issuer) as [r1 k2] eqn:E.
    intros [= <- <- <-]. split; [reflexivity|exact H2].
Qed.

Lemma find_up_by_aki_effect (st st' : state) (kh kh' : KEYDB_HANDLE)
    (aki : auth_key_id) (issuer : string) (find_next : bool) (rc : gpg_error_t) :
  find_up_by_aki W opt st kh aki issuer find_next = (rc, kh', st') ->
  kh_ephemeral kh' = kh_ephemeral kh
  /\ exists k, search_effect k issuer st st' /\ k <= 1
               /\ (auto_issuer_key_retrieve opt = false \/ find_next = true -> k = 0).
Proof.
  unfold find_up_by_aki.
  set (first := match aki_issuer_sn aki with Some _ => _ | None => _ end).
  assert (Hfirst : kh_ephemeral (snd first) = kh_ephemeral kh).
  { subst first. destruct (aki_issuer_sn aki) as [[s sn]|]; [|reflexivity].
    destruct (negb (String.eqb sn EmptyString)); [|reflexivity].
    destruct (keydb_search_issuer_sn st kh s sn) as [r k1] eqn:E1.
    apply keydb_search_ephemeral in E1.
    assert (H1 : kh_ephemeral (if failed r then keydb_search_reset k1 else k1)
                 = kh_ephemeral kh) by (destruct (failed r); exact E1).
    destruct (is_m1 r && negb find_next); [|exact H1].
    cbn [keydb_set_ephemeral].
    destruct (negb (kh_ephemeral _)); [|exact H1].
    destruct (keydb_search_issuer_sn st _ s sn) as [r2 k2]. exact H1. }
  destruct first as [r0 k0]. cbn [snd] in Hfirst.
  set (second := match aki_keyid aki with Some _ => _ | None => _ end).
  assert (Hsecond : kh_ephemeral (snd (fst second)) = kh_ephemeral kh
                    /\ search_effect 0 issuer st (snd second)).
  { subst second.
    assert (Hsame : kh_ephemeral k0 = kh_ephemeral kh /\ search_effect 0 issuer st st)
      by (split; [assumption|apply search_effect_refl]).
    destruct (aki_keyid aki) as [keyid|]; [|exact Hsame].
    destruct (is_m1 r0 && negb find_next); [|exact Hsame].
    destruct (find_up_search_by_keyid st k0 issuer keyid) as [[r1 k1] s1] eqn:E1.
    apply find_up_search_by_keyid_effect in E1. destruct E1 as [He1 Hs1].
    destruct (failed r1); [|cbn [fst snd]; split; [congruence|assumption]].
    cbn [keydb_set_ephemeral].
    destruct (negb (kh_ephemeral k1));
      [|cbn [fst snd kh_ephemeral keydb_set_ephemeral]; split; [congruence|assumption]].
    destruct (find_up_search_by_keyid s1 _ issuer keyid) as [[r2 k2] s2] eqn:E2.
    apply find_up_search_by_keyid_effect in E2. destruct E2 as [_ Hs2].
    cbn [fst snd kh_ephemeral keydb_set_ephemeral]. split; [congruence|].
    exact (search_effect_trans 0 0 _ _ _ _ Hs1 Hs2). }
  destruct second as [[r1 k1] s1]. cbn [fst snd] in Hsecond.
  destruct Hsecond as [He1 Hs1].
  destruct (is_m1 r1 && auto_issuer_key_retrieve opt && negb find_next) eqn:Eg.
  - intros H. apply find_up_external_effect in H. destruct H as [He Hs].
    split; [congruence|]. exists 1. split; [|split; [lia|]].
    + exact (search_effect_trans 0 1 _ _ _ _ Hs1 Hs).
    + apply andb_true_iff in Eg. destruct Eg as [Eg Hn].
      apply andb_true_iff in Eg. destruct Eg as [_ Ha].
      intros [Hx|Hx]; rewrite Hx in *; discriminate.
  - intros [= <- <- <-]. split; [assumption|]. exists 0. auto.
Qed.

Lemma find_up_effect (st st' : state) (kh kh' : KEYDB_HANDLE) (cert : ksba_cert)
    (issuer : string) (find_next : bool) (rc : gpg_error_t) :
  find_up W opt st kh cert issuer find_next = (rc, kh', st') ->
  kh_ephemeral kh' = kh_ephemeral kh
  /\ exists k, search_effect k issuer st st' /\ k <= 2
               /\ (auto_issuer_key_retrieve opt = false \/ find_next = true -> k = 0).
Proof.
  unfold find_up.
  set (first := match cert_auth_key_id cert with Some _ => _ | None => _ end).
  assert (Hfirst : kh_ephemeral (snd (fst first)) = kh_ephemeral kh
                   /\ exists k, search_effect k issuer st (snd first) /\ k <= 1
                        /\ (auto_issuer_key_retrieve opt = false \/ find_next = true
                            -> k = 0)).
  { subst first. destruct (cert_auth_key_id cert) as [aki|].
    - destruct (find_up_by_aki W opt st kh aki issuer find_next) as [[r k] s] eqn:E.
      exact (find_up_by_aki_effect _ _ _ _ _ _ _ _ E).
    - split; [reflexivity|]. exists 0. split; [apply search_effect_refl|auto]. }
  destruct first as [[r0 k0] s0]. cbn [fst snd] in Hfirst.
  destruct Hfirst as (He0 & k & Hs0 & Hk & Hk0).
  set (second := if failed r0 then _ else _).
  assert (Hsecond : kh_ephemeral (snd second) = kh_ephemeral kh).
  { subst second. destruct (failed r0); [|exact He0].
    destruct (keydb_search_subject s0 k0 issuer) as [r k1] eqn:E.
    apply keydb_search_ephemeral in E. cbn [snd]. congruence. }
  destruct second as [r1 k1]. cbn [snd] in Hsecond.
  set (third := if is_m1 r1 && negb find_next then _ else _).
  assert (Hthird : kh_ephemeral (snd third) = kh_ephemeral kh).
  { subst third. destruct (is_m1 r1 && negb find_next); [|exact Hsecond].
    cbn [keydb_set_ephemeral]. destruct (negb (kh_ephemeral k1)); [|exact Hsecond].
    destruct (keydb_search_subject s0 _ issuer) as [r k2]. exact Hsecond. }
  destruct third as [r2 k2]. cbn [snd] in Hthird.
  destruct (is_m1 r2 && auto_issuer_key_retrieve opt && negb find_next) eqn:Eg.
  - intros H. apply find_up_external_effect in H. destruct H as [He Hs].
    split; [congruence|]. exists (1 + k). split; [|split; [lia|]].
    + exact (search_effect_trans k 1 _ _ _ _ Hs0 Hs).
    + apply andb_true_iff in Eg. destruct Eg as [Eg Hn].
      apply andb_true_iff in Eg. destruct Eg as [_ Ha].
      intros [Hx|Hx]; rewrite Hx in *; discriminate.
  - intros [= <- <- <-]. split; [assumption|]. exists k. auto.
Qed.

Lemma find_up_by_aki_next_mode (st st' : state) (kh kh' : KEYDB_HANDLE)
    (aki : auth_key_id) (issuer : string) (rc : gpg_error_t) :
  find_up_by_aki W opt st kh aki issuer true = (rc, kh', st') -> st' = st.
Proof.
  unfold find_up_by_aki. cbn [negb].
  assert (Hlast : forall r k, (let '(rc0, kh0, st0) :=
                     match aki_keyid aki with
                     | Some keyid =>
                         if is_m1 r && false
                         then
                           let '(rc, kh, st) := find_up_search_by_keyid st k issuer keyid in
                           let '(rc, kh, st) :=
                             if failed rc then
                               let (old, kh) := keydb_set_ephemeral kh true in
                               let '(rc, kh, st) :=
                                 if negb old then find_up_search_by_keyid st kh issuer keyid
                                 else (rc, kh, st) in
                               (rc, snd (keydb_set_ephemeral kh old), st)
                             else (rc, kh, st) in
                           ((if failed rc then rc_m1 else rc), kh, st)
                         else (r, k, st)
                     | None => (r, k, st)
                     end in
                   if is_m1 rc0 && auto_issuer_key_retrieve opt && false
                   then find_up_external W st0 kh0 issuer (aki_keyid aki)
                   else (rc0, kh0, st0)) = (rc, kh', st') -> st' = st).
  { intros r k. rewrite andb_false_r.
    destruct (aki_keyid aki); rewrite andb_false_r; now intros [= <- <- <-]. }
  destruct (aki_issuer_sn aki) as [[s sn]|]; [|apply Hlast].
  destruct (negb (String.eqb sn EmptyString)); [|apply Hlast].
  destruct (keydb_search_issuer_sn st kh s sn) as [r k].
  rewrite andb_false_r. apply Hlast.
Qed.

Lemma find_up_next_mode (st st' : state) (kh kh' : KEYDB_HANDLE) (cert : ksba_cert)
    (issuer : string) (rc : gpg_error_t) :
  find_up W opt st kh cert issuer true = (rc, kh', st') -> st' = st.
Proof.
  unfold find_up.
  set (first := match cert_auth_key_id cert with Some _ => _ | None => _ end).
  assert (Hfirst : snd first = st).
  { subst first. destruct (cert_auth_key_id cert) as [aki|]; [|reflexivity].
    destruct (find_up_by_aki W opt st kh aki issuer true) as [[r k] s] eqn:E.
    exact (find_up_by_aki_next_mode _ _ _ _ _ _ _ E). }
  destruct first as [[r0 k0] s0]. cbn [snd] in Hfirst. subst s0.
  cbn [negb].
  destruct (if failed r0 then _ else _) as [r1 k1].
  rewrite andb_false_r. rewrite andb_false_r.
  now intros [= <- <- <-].
Qed.
End FrameFacts.

(** X7.  [find_up] leaves the handle in the mode (ephemeral or not) it
    found it in.  It changes the state only as a search does: certificates
    delivered by dirmngr are added to the ephemeral store, the lookups are
    on the record, and certificate objects are made; it asks dirmngr at
    most twice, always with the pattern made from [issuer], and never when
    [auto_issuer_key_retrieve] is off.  With [find_next] set it leaves the
    state as it is. *)
Theorem find_up_frame (W : world) (opt : options) (st st' : state)
    (kh kh' : KEYDB_HANDLE) (cert : ksba_cert) (issuer : string) (find_next : bool)
    (rc : gpg_error_t) :
  find_up W opt st kh cert issuer find_next = (rc, kh', st') ->
  kh_ephemeral kh' = kh_ephemeral kh
  /\ (exists n more k,
        st' = after_search n more (repeat (EvLookup (external_pattern issuer)) k) st
        /\ next_id st <= n
        /\ k <= 2
        /\ (k = 0 -> more = [])
        /\ (auto_issuer_key_retrieve opt = false -> k = 0))
  /\ (find_next = true -> st' = st).
Proof.
  intros H. destruct (find_up_effect W opt _ _ _ _ _ _ _ _ H)
    as (He & k & (n & more & Hs & Hn & Hm) & Hk & Hk0).
  split; [exact He|]. split.
  - exists n, more, k. auto 10.
  - intros ->. exact (find_up_next_mode W opt _ _ _ _ _ _ _ H).
Qed.

Lemma calls_refl (P : event -> bool) (x : locals * state) : calls P x x.
Proof. apply ext_refl. Qed.

Lemma calls_trans (P : event -> bool) (x y z : locals * state) :
  calls P x y -> calls P y z -> calls P x z.
Proof. apply ext_trans. Qed.

(** Decompose a goal [keeps (calls P) m] along the structure of [m];
    the conditions met on the way are kept as equations. *)
Ltac calls_step P :=
  first
    [ apply (keeps_ret _ (calls_refl P))
    | apply (keeps_goto_leave _ (calls_refl P))
    | apply (keeps_get_locals _ (calls_refl P))
    | apply (keeps_leave_if_failed _ (calls_refl P))
    | apply (keeps_bind _ (calls_trans P)); [|intros ?]
    | match goal with
      | |- keeps _ (if ?b then _ else _) =>
          let E := fresh "E" in case_eq b; intros E
      | |- keeps _ (match ?x with _ => _ end) => destruct x
      end ].

Lemma modify_locals_calls (P : event -> bool) (f : locals -> locals) :
  keeps (calls P) (modify_locals f).
Proof. apply keeps_modify_locals. intros l st. apply ext_refl. Qed.

Section CallFacts.
Variable W : world.
Variable opt : options.
Variable ctrl : ctrl_t.
Variable cert : cert_h.
Variable listmode : bool.
Variable flags : Z.
Variable current_time : ksba_isotime_t.
Variable maxdepth : Z.
Variable P : event -> bool.

Hypothesis P_keydb_new : P EvKeydbNew = true.
Hypothesis P_lookup : forall p, P (EvLookup p) = true.
Hypothesis P_qualified : forall c, P (EvQualified c) = true.
Hypothesis P_regtp : forall id data, P (EvSetUserData id "regtp_ca_chainlen" data) = true.
Hypothesis P_is_qualified : forall id data, P (EvSetUserData id "is_qualified" data) = true.
Hypothesis P_sig : forall i s, P (EvCheckCertSig i s) = true.
Hypothesis P_istrusted : forall c, gpgsm_is_root_cert c = true -> P (EvIsTrusted c) = true.
Hypothesis P_marktrusted :
  forall c, gpgsm_is_root_cert c = true -> P (EvMarkTrusted c) = true.
Hypothesis P_isvalid :
  Z.testbit flags 0 = false ->
  no_crl_check opt = false \/ use_ocsp ctrl = true ->
  forall s i, P (EvIsValid s i (use_ocsp ctrl)) = true.
Hypothesis P_use_cert : listmode = false -> forall c, P (EvUseCert c) = true.
Hypothesis P_status :
  listmode = false ->
  forall rc, failed rc = true -> P (EvStatus "certcert.issuer.keyusage" rc) = true.

Lemma searched_calls (st st' : state) : searched st st' -> ext P st st'.
Proof.
  intros [_ H]. eapply ext_weaken; [|exact H].
  intros []; cbn; try discriminate; auto.
Qed.

Lemma set_user_data_calls (st : state) (c : cert_h) (key data : string) :
  P (EvSetUserData (h_id c) key data) = true ->
  ext P st (snd (ksba_cert_set_user_data W st c key data)).
Proof.
  intros HP. unfold ksba_cert_set_user_data.
  destruct (failed _); cbn [snd].
  - now apply ext_log.
  - apply (ext_trans _ _ (log (EvSetUserData (h_id c) key data) st));
      [now apply ext_log|apply ext_same; reflexivity].
Qed.

Lemma get_regtp_ca_info_calls (st : state) (c : cert_h) :
  ext P st (snd (get_regtp_ca_info W opt st c)).
Proof.
  unfold get_regtp_ca_info.
  destruct (ksba_cert_get_user_data st c "regtp_ca_chainlen" 2) as [err buf].
  destruct (negb (failed err)).
  { destruct buf as [|b0 [|b1 buf]]; try apply ext_refl.
    destruct (Ascii.eqb b0 NUL); apply ext_refl. }
  destruct (negb (has_code err GPG_ERR_NOT_FOUND)); [apply ext_refl|].
  destruct (regtp_walk W opt (DIM_array - 1) st c [c] rc_0)
    as [[[rc last] array] st1] eqn:Ew.
  destruct (regtp_walk_facts _ _ _ _ _ _ _ _ _ _ _ Ew) as [Hs _].
  apply searched_calls in Hs.
  assert (Hleave : forall s, ext P st s ->
            ext P st
              (snd (let (_, s') := ksba_cert_set_user_data W s last "regtp_ca_chainlen"
                                                           regtp_none_mark in
                    (false, 0%Z, s')))).
  { intros s H.
    pose proof (set_user_data_calls s last "regtp_ca_chainlen"
                  regtp_none_mark (P_regtp _ _)) as H'.
    destruct (ksba_cert_set_user_data W s last _ _) as [e s']. cbn [snd] in *.
    eapply ext_trans; eassumption. }
  destruct (negb (is_m1 rc) || _ || _); [apply Hleave; exact Hs|].
  destruct (w_qualified W (trace st1) _) as [qerr country].
  set (st2 := log _ st1).
  assert (H2 : ext P st st2)
    by (eapply ext_trans; [exact Hs|apply ext_log; apply P_qualified]).
  destruct (negb (failed qerr) && String.eqb country "de"); [|apply Hleave; exact H2].
  pose proof (set_user_data_calls st2
                (nth (List.length array - 1) array c) "regtp_ca_chainlen"
                regtp_root_mark (P_regtp _ _)) as H3.
  destruct (ksba_cert_set_user_data W st2 _ _ regtp_root_mark) as [e1 st3].
  cbn [snd] in *.
  assert (H23 : ext P st st3) by (eapply ext_trans; eassumption).
  destruct (negb (failed e1) && (1 <? List.length array)%nat); [|exact H23].
  eapply ext_trans; [exact H23|apply set_user_data_calls; apply P_regtp].
Qed.

Lemma allowed_ca_calls (st : state) (c : cert_h) :
  ext P st (snd (allowed_ca W opt st c)).
Proof.
  unfold allowed_ca. destruct (cert_is_ca (h_cert c)) as [[err flag] chainlen].
  destruct (failed err); [apply ext_refl|].
  destruct (negb flag); [|apply ext_refl].
  pose proof (get_regtp_ca_info_calls st c) as H.
  destruct (get_regtp_ca_info W opt st c) as [[regtp cl] st1].
  destruct regtp; exact H.
Qed.

Lemma is_cert_still_valid_calls (st : state) (s i : ksba_cert)
    (fl : revocation_flags) :
  Z.testbit flags 0 = false ->
  ext P st (snd (is_cert_still_valid W opt ctrl st s i fl)).
Proof.
  intros Hbit. unfold is_cert_still_valid.
  destruct (negb (no_crl_check opt) || use_ocsp ctrl) eqn:Eon; [|apply ext_refl].
  set (st1 := log _ st).
  assert (H1 : ext P st st1).
  { apply ext_log. apply P_isvalid; [assumption|].
    destruct (no_crl_check opt); [right; exact Eon|now left]. }
  destruct (failed _); [|exact H1].
  destruct (has_code _ GPG_ERR_CERT_REVOKED).
  { unfold keydb_set_cert_flags. destruct (existsb _ _); cbn [snd]; [|exact H1].
    eapply ext_trans; [exact H1|apply ext_same; reflexivity]. }
  destruct (has_code _ GPG_ERR_NO_CRL_KNOWN); [exact H1|].
  destruct (has_code _ GPG_ERR_CRL_TOO_OLD); exact H1.
Qed.

Lemma revocation_check_calls (s i : ksba_cert) :
  Z.testbit flags 0 = false ->
  keeps (calls P) (revocation_check W opt ctrl s i).
Proof.
  intros Hbit.
  unfold revocation_check. intros l st f l' st'.
  pose proof (is_cert_still_valid_calls st s i (l_rev l) Hbit) as H.
  destruct (is_cert_still_valid _ _ _ _ _ _ _) as [[rc r] s'].
  intros E; inversion E; subst. exact H.
Qed.

Lemma resolve_qualified_calls (s : cert_h) :
  keeps (calls P) (resolve_qualified W cert s).
Proof.
  unfold resolve_qualified. intros l st f l' st'. unfold calls. cbn [snd].
  destruct (l_is_qualified l =? -1)%Z;
    [|intros H; inversion H; subst; apply ext_refl].
  destruct (ksba_cert_get_user_data st cert "is_qualified" 1) as [err buf].
  destruct (negb (failed err) && nonempty buf);
    [intros H; inversion H; subst; apply ext_refl|].
  destruct (w_qualified W (trace st) (h_cert s)) as [qerr country].
  set (st1 := log _ st).
  assert (H1 : ext P st st1) by (apply ext_log; apply P_qualified).
  destruct (negb (_ =? -1)%Z); [|intros H; inversion H; subst; exact H1].
  match goal with
  | |- context [ksba_cert_set_user_data W st1 s ?k ?d] =>
      pose proof (set_user_data_calls st1 s k d (P_is_qualified _ _)) as H2;
      destruct (ksba_cert_set_user_data W st1 s k d) as [e st2]
  end.
  intros H; inversion H; subst. eapply ext_trans; eassumption.
Qed.

Lemma act_on_trust_calls (c : ksba_cert) (rc : gpg_error_t) :
  gpgsm_is_root_cert c = true ->
  keeps (calls P) (act_on_trust W listmode c rc).
Proof.
  intros Hroot. unfold act_on_trust. intros l st f l' st'. unfold calls. cbn [snd].
  destruct (negb (failed rc)); [intros H; inversion H; subst; apply ext_refl|].
  destruct (has_code rc GPG_ERR_NOT_TRUSTED);
    [|intros H; inversion H; subst; apply ext_refl].
  destruct (negb (l_any_expired l) && _); [|intros H; inversion H; subst; apply ext_refl].
  set (asked := if no_more_questions st then _ else _).
  assert (Ha : ext P st (snd asked)).
  { subst asked. destruct (no_more_questions st); cbn [snd];
      [apply ext_refl|apply ext_log; now apply P_marktrusted]. }
  destruct asked as [rc2 st1]. cbn [snd] in Ha.
  intros H; inversion H; subst.
  eapply ext_trans; [exact Ha|].
  apply ext_same.
  destruct (has_code rc2 GPG_ERR_NOT_SUPPORTED); [reflexivity|].
  destruct (has_code rc2 GPG_ERR_CANCELED); [reflexivity|].
  unfold set_already_asked_marktrusted.
  destruct (already_asked_marktrusted W st1 c); reflexivity.
Qed.

Lemma with_allowed_ca_calls (s : cert_h) :
  keeps (calls P)
    (with_state (fun st => let '(rc, _, st') := allowed_ca W opt st s in (rc, st'))).
Proof.
  apply keeps_with_state. intros l st. unfold calls. cbn [snd].
  pose proof (allowed_ca_calls st s) as H.
  destruct (allowed_ca W opt st s) as [[r c] s']. exact H.
Qed.

Lemma check_cert_sig_calls (i s : ksba_cert) : keeps (calls P) (check_cert_sig W i s).
Proof. apply keeps_with_state. intros l st. apply ext_log. apply P_sig. Qed.

Lemma agent_istrusted_calls (c : ksba_cert) :
  gpgsm_is_root_cert c = true -> keeps (calls P) (agent_istrusted W c).
Proof.
  intros H. apply keeps_with_state. intros l st. apply ext_log. now apply P_istrusted.
Qed.

Lemma root_node_calls (s : cert_h) (rc : gpg_error_t) (rf : rootca_flags_s) :
  gpgsm_is_root_cert (h_cert s) = true ->
  keeps (calls P) (root_node W opt ctrl cert listmode flags s rc rf).
Proof.
  intros Hroot. unfold root_node.
  repeat first [ apply check_cert_sig_calls | apply resolve_qualified_calls
               | apply act_on_trust_calls; assumption | apply with_allowed_ca_calls
               | apply revocation_check_calls; assumption
               | calls_step P ].
Qed.

Lemma find_up_calls (st st' : state) (kh kh' : KEYDB_HANDLE) (c : ksba_cert)
    (issuer : string) (find_next : bool) (rc : gpg_error_t) :
  find_up W opt st kh c issuer find_next = (rc, kh', st') -> ext P st st'.
Proof. intros H. apply searched_calls. eapply find_up_searched; exact H. Qed.

Lemma keydb_get_cert_calls (st st' : state) (kh : KEYDB_HANDLE) (rc : gpg_error_t)
    (c : option cert_h) :
  keydb_get_cert st kh = (rc, c, st') -> ext P st st'.
Proof. intros H. apply searched_calls. eapply keydb_get_cert_searched; exact H. Qed.

Lemma try_another_cert_calls (fuel : nat) (s : cert_h) (issuer : string) (i : cert_h) :
  keeps (calls P) (try_another_cert W opt fuel s issuer i).
Proof.
  revert i. induction fuel as [|fuel IH]; intros i; cbn [try_another_cert].
  - intros l st f l' st' H. discriminate.
  - repeat calls_step P; try apply check_cert_sig_calls.
    intros l st f l' st'. unfold calls. cbn [snd].
    destruct (find_up _ _ _ _ _ _ _) as [[r k] s1] eqn:Ef.
    apply find_up_calls in Ef.
    destruct (negb (failed r)); [|intros H; inversion H; subst; exact Ef].
    destruct (keydb_get_cert s1 k) as [[r2 t] s2] eqn:Eg.
    apply keydb_get_cert_calls in Eg.
    assert (H2 : ext P st s2) by (eapply ext_trans; eassumption).
    destruct t as [t|]; [|intros H; inversion H; subst; exact H2].
    destruct (failed r2 || _); [intros H; inversion H; subst; exact H2|].
    intros H. apply IH in H. eapply ext_trans; [exact H2|exact H].
Qed.

Lemma issuer_allowed_ca_calls (i : cert_h) :
  keeps (calls P) (issuer_allowed_ca W opt i).
Proof.
  unfold issuer_allowed_ca.
  repeat first [ apply agent_istrusted_calls; assumption | calls_step P ].
  apply keeps_with_state. intros l st. unfold calls. cbn [snd].
  pose proof (allowed_ca_calls st i) as H.
  destruct (allowed_ca W opt st i) as [[r c] s']. exact H.
Qed.

Lemma issuer_checks_calls (fuel : nat) (s : cert_h) (issuer : string) :
  keeps (calls P) (issuer_checks W opt ctrl listmode flags fuel s issuer).
Proof.
  unfold issuer_checks.
  repeat first [ apply try_another_cert_calls | apply issuer_allowed_ca_calls
               | apply revocation_check_calls; assumption
               | apply modify_locals_calls
               | calls_step P ].
  - intros l st f l' st'. unfold calls. cbn [snd].
    destruct (find_up _ _ _ _ _ _ _) as [[r k] s1] eqn:Ef.
    apply find_up_calls in Ef. intros H; inversion H; subst. exact Ef.
  - intros l st f l' st'. unfold calls. cbn [snd].
    destruct (keydb_get_cert st (l_kh l)) as [[r c] s1] eqn:Eg.
    apply keydb_get_cert_calls in Eg. intros H; inversion H; subst. exact Eg.
  - apply keeps_with_state. intros l st. apply ext_log. apply P_use_cert.
    now destruct listmode.
  - apply keeps_with_state. intros l st. apply ext_log. apply P_status; [|assumption].
    now destruct listmode.
Qed.

Lemma node_checks_calls (c : ksba_cert) (is_root : bool) :
  (is_root = true -> gpgsm_is_root_cert c = true) ->
  keeps (calls P) (node_checks W opt current_time c is_root).
Proof.
  intros Hroot. unfold node_checks.
  repeat first [ apply agent_istrusted_calls; auto | calls_step P ].
  - intros l st f l' st' H. apply check_validity_state in H. destruct H as [-> _].
    apply ext_refl.
  - unfold policy_check. destruct (negb (no_policy_check opt)); [|repeat calls_step P].
    intros l st f l' st'. destruct (check_cert_policy _ _ _) as [rc|]; [|discriminate].
    destruct (has_code rc GPG_ERR_NO_POLICY_MATCH);
      [intros H; inversion H; subst; apply ext_refl|].
    destruct (failed rc); intros H; inversion H; subst; apply ext_refl.
Qed.

Lemma chain_step_calls (fuel : nat) (s : cert_h) :
  keeps (calls P) (chain_step W opt ctrl cert listmode flags current_time maxdepth fuel s).
Proof.
  unfold chain_step. destruct (cert_issuer (h_cert s)) as [issuer|] eqn:Ei;
    [|repeat calls_step P].
  assert (Hroot : opt_eqb (cert_subject (h_cert s)) issuer = true ->
                  gpgsm_is_root_cert (h_cert s) = true).
  { intros H. apply opt_eqb_eq in H. unfold gpgsm_is_root_cert. rewrite Ei, H.
    apply String.eqb_refl. }
  apply (keeps_bind _ (calls_trans P)); [now apply node_checks_calls|].
  intros [t rf]. case_eq (opt_eqb (cert_subject (h_cert s)) issuer); intros E.
  - repeat first [ apply root_node_calls; auto | calls_step P ].
  - unfold issuer_node.
    repeat first [ apply issuer_checks_calls
                 | apply modify_locals_calls
                 | calls_step P ].
Qed.

Lemma chain_loop_calls (rounds fuel : nat) (s : cert_h) :
  keeps (calls P)
    (chain_loop W opt ctrl cert listmode flags current_time maxdepth rounds fuel s).
Proof.
  revert s. induction rounds as [|rounds IH]; intros s; cbn [chain_loop].
  - intros l st f l' st' H. discriminate.
  - repeat first [ apply chain_step_calls | apply IH | calls_step P ].
Qed.

Lemma validate_chain_walk_calls (fuel : nat) :
  keeps (calls P)
    (validate_chain_walk W opt ctrl cert listmode flags current_time maxdepth fuel).
Proof.
  unfold validate_chain_walk.
  repeat first [ apply chain_loop_calls
               | apply modify_locals_calls
               | apply keeps_with_state; intros l st; apply ext_log; exact P_keydb_new
               | calls_step P ].
Qed.

Lemma validate_chain_leave_calls (rc : gpg_error_t) (l : locals) (st : state) :
  ext P st (snd (validate_chain_leave W cert rc l st)).
Proof.
  unfold validate_chain_leave. destruct (negb (l_is_qualified l =? -1)%Z); [|apply ext_refl].
  match goal with
  | |- context [ksba_cert_set_user_data W st cert ?k ?d] =>
      pose proof (set_user_data_calls st cert k d (P_is_qualified _ _)) as H2;
      destruct (ksba_cert_set_user_data W st cert k d) as [e st2]
  end.
  destruct (failed e); exact H2.
Qed.
End CallFacts.

(** The calls [gpgsm_validate_chain] makes are all in the class [P] when
    [P] holds every call the function can make with its arguments. *)
Lemma gpgsm_validate_chain_calls (W : world) (opt : options) (ctrl : ctrl_t)
    (fuel : nat) (st st' : state) (cert : cert_h) (r : bool) (lm : bool) (flags : Z)
    (rc : gpg_error_t) (e : option ksba_isotime_t) (P : event -> bool) :
  P EvKeydbNew = true ->
  (forall p, P (EvLookup p) = true) ->
  (forall c, P (EvQualified c) = true) ->
  (forall id data, P (EvSetUserData id "regtp_ca_chainlen" data) = true) ->
  (forall id data, P (EvSetUserData id "is_qualified" data) = true) ->
  (forall i s, P (EvCheckCertSig i s) = true) ->
  (forall c, gpgsm_is_root_cert c = true -> P (EvIsTrusted c) = true) ->
  (forall c, gpgsm_is_root_cert c = true -> P (EvMarkTrusted c) = true) ->
  (Z.testbit flags 0 = false ->
   no_crl_check opt = false \/ use_ocsp ctrl = true ->
   forall s i, P (EvIsValid s i (use_ocsp ctrl)) = true) ->
  (lm = false -> forall c, P (EvUseCert c) = true) ->
  (lm = false ->
   forall rc, failed rc = true -> P (EvStatus "certcert.issuer.keyusage" rc) = true) ->
  gpgsm_validate_chain W opt ctrl fuel st cert r lm flags = Some (rc, e, st') ->
  ext P st st'.
Proof.
  intros H1 H2 H3 H4 H5 H6 H7 H8 H9 H10 H11. unfold gpgsm_validate_chain.
  destruct (no_chain_validation opt && negb lm); [intros [= <- <- <-]; apply ext_refl|].
  destruct (validate_chain_walk _ _ _ _ _ _ _ _ _ _ _) as [[[f l] st1]|] eqn:Ew;
    [|discriminate].
  pose proof (validate_chain_walk_calls W opt ctrl cert lm flags _ 50 P
                H1 H2 H3 H4 H5 H6 H7 H8 H9 H10 H11 fuel _ _ _ _ _ Ew) as Hw.
  pose proof (validate_chain_leave_calls W cert P H5 (flow_rc f) l st1) as Hl.
  destruct (validate_chain_leave W cert (flow_rc f) l st1) as [rc' st2].
  intros [= <- <- <-]. eapply ext_trans; [exact Hw|exact Hl].
Qed.

(** X8.  [gpgsm_validate_chain] with bit 0 of [flags] set, or with CRL
    checks disabled and OCSP not in use: dirmngr is not asked about the
    validity of any certificate. *)
Theorem no_revocation_check_on_request (W : world) (opt : options) (ctrl : ctrl_t)
    (fuel : nat) (st st' : state) (cert : cert_h) (r : bool) (lm : bool) (flags : Z)
    (rc : gpg_error_t) (e : option ksba_isotime_t) :
  Z.testbit flags 0 = true \/ (no_crl_check opt = true /\ use_ocsp ctrl = false) ->
  gpgsm_validate_chain W opt ctrl fuel st cert r lm flags = Some (rc, e, st') ->
  ext not_isvalid st st'.
Proof.
  intros Hoff H.
  apply (gpgsm_validate_chain_calls W opt ctrl fuel st st' cert r lm flags rc e
           not_isvalid); try (intros; reflexivity); try exact H.
  intros Hbit Hon. exfalso.
  destruct Hoff as [Hb|[Hc Ho]]; [congruence|].
  destruct Hon; congruence.
Qed.

(** X9.  [gpgsm_validate_chain] in list mode: the key usage of an
    issuer is not tested, and no status line is written. *)
Theorem list_mode_skips_key_usage (W : world) (opt : options) (ctrl : ctrl_t)
    (fuel : nat) (st st' : state) (cert : cert_h) (r : bool) (flags : Z)
    (rc : gpg_error_t) (e : option ksba_isotime_t) :
  gpgsm_validate_chain W opt ctrl fuel st cert r true flags = Some (rc, e, st') ->
  ext not_key_usage st st'.
Proof.
  intros H.
  apply (gpgsm_validate_chain_calls W opt ctrl fuel st st' cert r true flags rc e
           not_key_usage); try (intros; reflexivity); try exact H; discriminate.
Qed.

(** X10.  The calls [gpgsm_validate_chain] makes: the agent is asked
    whether a certificate is trusted, and asked to mark one as trusted,
    for self-issued certificates only; dirmngr checks validity with OCSP
    exactly when the session uses OCSP; a status line is the one for the
    key usage of an issuer and carries an error code; and the only user
    data written are the items ["is_qualified"] and
    ["regtp_ca_chainlen"]. *)
Theorem walker_calls_shape (W : world) (opt : options) (ctrl : ctrl_t)
    (fuel : nat) (st st' : state) (cert : cert_h) (r : bool) (lm : bool) (flags : Z)
    (rc : gpg_error_t) (e : option ksba_isotime_t) :
  gpgsm_validate_chain W opt ctrl fuel st cert r lm flags = Some (rc, e, st') ->
  ext (walker_call ctrl) st st'.
Proof.
  intros H.
  apply (gpgsm_validate_chain_calls W opt ctrl fuel st st' cert r lm flags rc e
           (walker_call ctrl)); try (intros; reflexivity); try exact H; cbn.
  - auto.
  - auto.
  - intros _ _ _ _. apply Bool.eqb_reflx.
  - intros _ rc' Hf. exact Hf.
Qed.

Lemma called_ext (P : event -> bool) (st st' : state) (e : event) (before : list event) :
  ext P st st' -> called (trace st) e before -> called (trace st') e before.
Proof.
  intros (evs & Ht & _) (after & Ha). exists (evs ++ after).
  rewrite Ht, Ha. now rewrite app_assoc.
Qed.

Lemma verified_ext (P : event -> bool) (W : world) (st st' : state) (i s : ksba_cert) :
  ext P st st' -> verified W (trace st) i s -> verified W (trace st') i s.
Proof. intros He (b & Hc & Hw). exists b. split; [eapply called_ext; eassumption|exact Hw]. Qed.

Lemma link_ext (P : event -> bool) (W : world) (st st' : state) (i s : ksba_cert) :
  ext P st st' -> link W (trace st) i s -> link W (trace st') i s.
Proof.
  intros He (Hr & Hc & Hv). split; [exact Hr|]. split; [exact Hc|].
  eapply verified_ext; eassumption.
Qed.

Lemma linked_ext (P : event -> bool) (W : world) (st st' : state)
    (chain : list ksba_cert) :
  ext P st st' -> linked W (trace st) chain -> linked W (trace st') chain.
Proof.
  intros He. induction chain as [|i rest IH]; [trivial|].
  cbn [linked]. intros [Hl Hr]. split; [|now apply IH].
  destruct rest as [|s rest]; [trivial|]. eapply link_ext; eassumption.
Qed.

Lemma called_log (st : state) (e : event) : called (trace (log e st)) e (trace st).
Proof. exists []. reflexivity. Qed.

Lemma leaves_failed_ret {A} (a : A) : leaves_failed (ret a).
Proof. intros l st rc l' st' H. discriminate. Qed.

Lemma leaves_failed_goto {A} (c : gpg_err_code_t) :
  leaves_failed (@goto_leave A (gpg_error c)).
Proof. intros l st rc l' st' H. inversion H. reflexivity. Qed.

Lemma leaves_failed_get_locals : leaves_failed get_locals.
Proof. intros l st rc l' st' H. discriminate. Qed.

Lemma leaves_failed_modify (f : locals -> locals) : leaves_failed (modify_locals f).
Proof. intros l st rc l' st' H. discriminate. Qed.

Lemma leaves_failed_with_state {A} (f : state -> A * state) :
  leaves_failed (with_state f).
Proof. intros l st rc l' st'. unfold with_state. destruct (f st). discriminate. Qed.

Lemma leaves_failed_leave_if_failed (rc : gpg_error_t) :
  leaves_failed (leave_if_failed rc).
Proof.
  unfold leave_if_failed. destruct (failed rc) eqn:E.
  - intros l st r l' st' H. inversion H; subst. exact E.
  - apply leaves_failed_ret.
Qed.

Lemma leaves_failed_bind {A B} (m : M A) (k : A -> M B) :
  leaves_failed m -> (forall a, leaves_failed (k a)) -> leaves_failed (bind m k).
Proof.
  intros Hm Hk l st rc l' st'. unfold bind.
  destruct (m l st) as [[[[a|r] l1] st1]|] eqn:E; [| |discriminate].
  - apply Hk.
  - intros H; inversion H; subst. eapply Hm; exact E.
Qed.

Ltac leaves_step :=
  first
    [ apply leaves_failed_ret
    | apply leaves_failed_goto
    | apply leaves_failed_get_locals
    | apply leaves_failed_modify
    | apply leaves_failed_with_state
    | apply leaves_failed_leave_if_failed
    | apply leaves_failed_bind; [|intros ?]
    | match goal with
      | |- leaves_failed (if ?b then _ else _) =>
          let E := fresh "E" in case_eq b; intros E
      | |- leaves_failed (match ?x with _ => _ end) => destruct x
      end ].

(** A piece of code written out as a function of the locals and the
    state. *)
Ltac leaves_by_cases :=
  let l := fresh "l" in let st := fresh "st" in
  let rc := fresh "rc" in let l' := fresh "l'" in let st' := fresh "st'" in
  let H := fresh "H" in
  intros l st rc l' st';
  repeat match goal with
         | |- context [match ?x with _ => _ end] => destruct x eqn:?
         end;
  intros H; inversion H; subst; try reflexivity; try assumption.

Section LeaveFacts.
Variable W : world.
Variable opt : options.
Variable ctrl : ctrl_t.
Variable cert : cert_h.
Variable listmode : bool.
Variable flags : Z.
Variable current_time : ksba_isotime_t.
Variable maxdepth : Z.

Lemma check_validity_leaves (c : ksba_cert) :
  leaves_failed (check_validity opt current_time c).
Proof. unfold check_validity. leaves_by_cases. Qed.

Lemma policy_check_leaves (c : ksba_cert) : leaves_failed (policy_check W opt c).
Proof.
  unfold policy_check. destruct (negb (no_policy_check opt)); [|apply leaves_failed_ret].
  leaves_by_cases.
Qed.

Lemma resolve_qualified_leaves (s : cert_h) : leaves_failed (resolve_qualified W cert s).
Proof. unfold resolve_qualified. leaves_by_cases. Qed.

Lemma act_on_trust_leaves (c : ksba_cert) (rc : gpg_error_t) :
  leaves_failed (act_on_trust W listmode c rc).
Proof. unfold act_on_trust. leaves_by_cases. Qed.

Lemma revocation_check_leaves (s i : ksba_cert) :
  leaves_failed (revocation_check W opt ctrl s i).
Proof. unfold revocation_check. leaves_by_cases. Qed.

Lemma root_node_leaves (s : cert_h) (rc : gpg_error_t) (rf : rootca_flags_s) :
  leaves_failed (root_node W opt ctrl cert listmode flags s rc rf).
Proof.
  unfold root_node.
  repeat first [ apply resolve_qualified_leaves | apply act_on_trust_leaves
               | apply revocation_check_leaves | leaves_step ].
Qed.

Lemma try_another_cert_leaves (fuel : nat) (s : cert_h) (issuer : string) (i : cert_h) :
  leaves_failed (try_another_cert W opt fuel s issuer i).
Proof.
  revert i. induction fuel as [|fuel IH]; intros i; cbn [try_another_cert].
  - intros l st rc l' st' H. discriminate.
  - repeat leaves_step.
    intros l st rc l' st'.
    destruct (find_up _ _ _ _ _ _ _) as [[r k] s1].
    destruct (negb (failed r)); [|intros H; inversion H; reflexivity].
    destruct (keydb_get_cert s1 k) as [[r2 t] s2].
    destruct t as [t|]; [|intros H; inversion H; reflexivity].
    destruct (failed r2 || _); [intros H; inversion H; reflexivity|].
    apply IH.
Qed.

Lemma issuer_allowed_ca_leaves (i : cert_h) : leaves_failed (issuer_allowed_ca W opt i).
Proof. unfold issuer_allowed_ca, agent_istrusted. repeat leaves_step. Qed.

Lemma issuer_checks_leaves (fuel : nat) (s : cert_h) (issuer : string) :
  leaves_failed (issuer_checks W opt ctrl listmode flags fuel s issuer).
Proof.
  unfold issuer_checks.
  repeat first [ apply try_another_cert_leaves | apply issuer_allowed_ca_leaves
               | apply revocation_check_leaves | leaves_step ].
  - leaves_by_cases.
  - leaves_by_cases.
  - intros l st rc l' st' H. inversion H; subst. assumption.
Qed.

Lemma chain_step_leaves (fuel : nat) (s : cert_h) :
  leaves_failed
    (chain_step W opt ctrl cert listmode flags current_time maxdepth fuel s).
Proof.
  unfold chain_step, node_checks, issuer_node, agent_istrusted.
  repeat first [ apply check_validity_leaves | apply policy_check_leaves
               | apply root_node_leaves | apply issuer_checks_leaves | leaves_step ].
Qed.

Lemma chain_loop_leaves (rounds fuel : nat) (s : cert_h) :
  leaves_failed
    (chain_loop W opt ctrl cert listmode flags current_time maxdepth rounds fuel s).
Proof.
  revert s. induction rounds as [|rounds IH]; intros s; cbn [chain_loop].
  - intros l st rc l' st' H. discriminate.
  - repeat first [ apply chain_step_leaves | apply IH | leaves_step ].
Qed.

Lemma validate_chain_walk_leaves (fuel : nat) :
  leaves_failed
    (validate_chain_walk W opt ctrl cert listmode flags current_time maxdepth fuel).
Proof.
  unfold validate_chain_walk.
  repeat first [ apply chain_loop_leaves | leaves_step ].
Qed.
End LeaveFacts.

Lemma bind_Go_inv {A B} (m : M A) (k : A -> M B) (l : locals) (st : state)
    (b : B) (l' : locals) (st' : state) :
  bind m k l st = Some (Go b, l', st') ->
  exists a l1 st1, m l st = Some (Go a, l1, st1) /\ k a l1 st1 = Some (Go b, l', st').
Proof.
  unfold bind. destruct (m l st) as [[[[a|rc] l1] st1]|]; try discriminate.
  intros H. now exists a, l1, st1.
Qed.

(** Split [H : bind m k l st = Some (Go _, _, _)] into the run of [m]
    and the run of the rest. *)
Ltac bind_go H a l1 st1 E :=
  apply bind_Go_inv in H; destruct H as (a & l1 & st1 & E & H).

Section LinkFacts.
Variable W : world.
Variable opt : options.
Variable ctrl : ctrl_t.
Variable cert : cert_h.
Variable listmode : bool.
Variable flags : Z.
Variable current_time : ksba_isotime_t.
Variable maxdepth : Z.

Lemma issuer_allowed_ca_grows (i : cert_h) :
  keeps (calls any_call) (issuer_allowed_ca W opt i).
Proof. apply issuer_allowed_ca_calls; intros; reflexivity. Qed.

Lemma revocation_check_grows (s i : ksba_cert) :
  keeps (calls any_call) (revocation_check W opt ctrl s i).
Proof.
  unfold revocation_check. intros l st f l' st'.
  destruct (is_cert_still_valid W opt ctrl st s i (l_rev l)) as [[rc r] s'] eqn:E.
  assert (Hs : s' = snd (is_cert_still_valid W opt ctrl st s i (l_rev l)))
    by now rewrite E.
  intros H; inversion H; subst l' st' f. unfold calls. cbn [snd].
  rewrite Hs. unfold is_cert_still_valid.
  destruct (negb (no_crl_check opt) || use_ocsp ctrl); [|apply ext_refl].
  set (st1 := log _ st).
  assert (H1 : ext any_call st st1) by (apply ext_log; reflexivity).
  destruct (failed _); [|exact H1].
  destruct (has_code _ GPG_ERR_CERT_REVOKED).
  { unfold keydb_set_cert_flags. destruct (existsb _ _); cbn [snd]; [|exact H1].
    eapply ext_trans; [exact H1|apply ext_same; reflexivity]. }
  destruct (has_code _ GPG_ERR_NO_CRL_KNOWN); [exact H1|].
  destruct (has_code _ GPG_ERR_CRL_TOO_OLD); exact H1.
Qed.

Lemma root_node_grows (s : cert_h) (rc : gpg_error_t) (rf : rootca_flags_s) :
  gpgsm_is_root_cert (h_cert s) = true ->
  keeps (calls any_call) (root_node W opt ctrl cert listmode flags s rc rf).
Proof. intros Hroot. apply root_node_calls; intros; try reflexivity. exact Hroot. Qed.

(** The retry loop ends on a candidate whose signature check, the last
    call made, succeeded. *)
Lemma try_another_cert_link (fuel : nat) (s : cert_h) (issuer : string)
    (ic ic' : cert_h) (l l' : locals) (st st' : state) :
  try_another_cert W opt fuel s issuer ic l st = Some (Go ic', l', st') ->
  issuer_candidate (h_cert s) issuer (h_cert ic) ->
  issuer_candidate (h_cert s) issuer (h_cert ic')
  /\ exists before,
       trace st' = EvCheckCertSig (h_cert ic') (h_cert s) :: before
       /\ w_check_cert_sig W before (h_cert ic') (h_cert s) = rc_0.
Proof.
  revert ic l st. induction fuel as [|fuel IH]; intros ic l st; [discriminate|].
  cbn [try_another_cert]. unfold bind at 1, check_cert_sig, with_state.
  destruct (failed (w_check_cert_sig W (trace st) (h_cert ic) (h_cert s))) eqn:Ef.
  - destruct (has_code _ GPG_ERR_BAD_SIGNATURE); [|discriminate].
    destruct (find_up W opt _ (l_kh l) (h_cert s) issuer true) as [[r k] s1] eqn:Eu.
    destruct (negb (failed r)) eqn:Er; [|discriminate].
    apply negb_true_iff in Er.
    pose proof (find_up_found W opt _ _ _ _ _ _ _ _ Eu Er) as Hc.
    destruct (keydb_get_cert_cursor _ _ _ Hc) as (c & Hcand & _ & Hget).
    rewrite Hget. cbn [failed orb].
    destruct (negb (compare_certs (h_cert ic) _)); [discriminate|].
    intros H _. exact (IH _ _ _ H Hcand).
  - intros H Hcand. inversion H; subst. split; [exact Hcand|].
    exists (trace st). split; [reflexivity|]. now apply failed_false.
Qed.

Lemma issuer_checks_link (fuel : nat) (s : cert_h) (issuer : string)
    (next : cert_h) (l l' : locals) (st st' : state) :
  issuer_checks W opt ctrl listmode flags fuel s issuer l st = Some (Go next, l', st') ->
  issuer_candidate (h_cert s) issuer (h_cert next)
  /\ verified W (trace st') (h_cert next) (h_cert s).
Proof.
  unfold issuer_checks. intros H.
  bind_go H rc l1 st1 E1.
  destruct (find_up W opt st (keydb_search_reset (l_kh l)) (h_cert s) issuer false)
    as [[r k] s1] eqn:Eu.
  inversion E1; subst; clear E1.
  destruct (failed rc) eqn:Er; [discriminate|].
  pose proof (find_up_found W opt _ _ _ _ _ _ _ _ Eu Er) as Hc.
  destruct (keydb_get_cert_cursor _ _ _ Hc) as (c & Hcand & _ & Hget).
  bind_go H got l2 st2 E2. cbn [l_kh set_kh] in E2. rewrite Hget in E2.
  inversion E2; subst; clear E2. cbn [failed] in H.
  bind_go H ic l3 st3 E3.
  destruct (try_another_cert_link _ _ _ _ _ _ _ _ _ E3 Hcand) as (Hcand' & before & Ht & Hw).
  bind_go H x l4 st4 E4. destruct x as [[is_root t] rf].
  apply issuer_allowed_ca_grows in E4.
  bind_go H u5 l5 st5 E5.
  assert (H5 : ext any_call st4 st5).
  { revert E5. match goal with
               | |- ?m l4 st4 = _ -> _ =>
                   assert (K : keeps (calls any_call) m);
                     [|intros E5; exact (K _ _ _ _ _ E5)]
               end.
    repeat first [ apply keeps_with_state; intros; apply ext_log; reflexivity
                 | calls_step any_call ]. }
  bind_go H u6 l6 st6 E6.
  assert (H6 : ext any_call st5 st6).
  { revert E6. match goal with
               | |- ?m l5 st5 = _ -> _ =>
                   assert (K : keeps (calls any_call) m);
                     [|intros E6; exact (K _ _ _ _ _ E6)]
               end.
    repeat first [ apply revocation_check_grows | calls_step any_call ]. }
  bind_go H u7 l7 st7 E7. inversion E7; subst; clear E7.
  inversion H; subst; clear H.
  split; [exact Hcand'|].
  assert (Hv : verified W (trace st3) (h_cert next) (h_cert s)).
  { exists before. split; [|exact Hw]. exists []. exact Ht. }
  eapply verified_ext; [|exact Hv].
  eapply ext_trans; [exact E4|]. eapply ext_trans; [exact H5|exact H6].
Qed.

(** What a self-issued certificate has gone through when its round ends
    in [break]. *)
Lemma root_node_trust (s : cert_h) (t : gpg_error_t) (rf : rootca_flags_s)
    (l l' : locals) (st st' : state) :
  gpgsm_is_root_cert (h_cert s) = true ->
  root_node W opt ctrl cert listmode flags s t rf l st = Some (Go tt, l', st') ->
  failed t = false
  \/ (verified W (trace st') (h_cert s) (h_cert s)
      /\ exists before,
           called (trace st') (EvMarkTrusted (h_cert s)) before
           /\ w_marktrusted W before (h_cert s) = rc_0).
Proof.
  intros Hroot H. destruct (failed t) eqn:Et; [right|now left].
  unfold root_node in H. rewrite Et in H. cbn [negb] in H.
  bind_go H u1 l1 st1 E1.
  assert (Hsig : verified W (trace st1) (h_cert s) (h_cert s)).
  { bind_go E1 sg l0 st0 E0. unfold check_cert_sig, with_state in E0.
    inversion E0; subst; clear E0.
    destruct (failed (w_check_cert_sig W (trace st) (h_cert s) (h_cert s))) eqn:Es.
    - bind_go E1 x lx stx Ex. discriminate.
    - inversion E1; subst. exists (trace st). split; [apply called_log|].
      now apply failed_false. }
  bind_go H u2 l2 st2 E2.
  assert (H2 : ext any_call st1 st2).
  { revert E2. match goal with
               | |- ?m l1 st1 = _ -> _ =>
                   assert (K : keeps (calls any_call) m);
                     [|intros E2; exact (K _ _ _ _ _ E2)]
               end.
    repeat first [ apply with_allowed_ca_calls; intros; reflexivity
                 | calls_step any_call ]. }
  bind_go H u3 l3 st3 E3.
  assert (H3 : ext any_call st2 st3).
  { revert E3. apply (resolve_qualified_calls W cert any_call); intros; reflexivity. }
  bind_go H rc l4 st4 E4.
  bind_go H u5 l5 st5 E5.
  assert (Hrc : failed rc = false).
  { unfold leave_if_failed in E5. destruct (failed rc); [discriminate|reflexivity]. }
  assert (Hl5 : st5 = st4).
  { unfold leave_if_failed in E5. rewrite Hrc in E5. now inversion E5. }
  subst st5.
  assert (H6 : ext any_call st4 st').
  { revert H. match goal with
              | |- ?m l5 st4 = _ -> _ =>
                  assert (K : keeps (calls any_call) m);
                    [|intros H; exact (K _ _ _ _ _ H)]
              end.
    repeat first [ apply revocation_check_grows | calls_step any_call ]. }
  assert (Hmark : exists before,
            called (trace st4) (EvMarkTrusted (h_cert s)) before
            /\ w_marktrusted W before (h_cert s) = rc_0
            /\ ext any_call st3 st4).
  { unfold act_on_trust in E4. rewrite Et in E4. cbn [negb] in E4.
    destruct (has_code t GPG_ERR_NOT_TRUSTED); [|inversion E4; congruence].
    destruct (negb (l_any_expired l3) && _); [|inversion E4; congruence].
    destruct (no_more_questions st3).
    - inversion E4; subst. cbn [failed negb] in Hrc. congruence.
    - destruct (failed (w_marktrusted W (trace st3) (h_cert s))) eqn:Em.
      + inversion E4; subst. cbn [negb] in Hrc. congruence.
      + exists (trace st3). apply failed_false in Em.
        assert (Ht : trace st4 = EvMarkTrusted (h_cert s) :: trace st3).
        { inversion E4; subst. rewrite Em. cbn [has_code].
          unfold set_already_asked_marktrusted.
          destruct (already_asked_marktrusted W _ _); reflexivity. }
        split; [exists []; exact Ht|]. split; [exact Em|].
        exists [EvMarkTrusted (h_cert s)]. split; [exact Ht|reflexivity]. }
  destruct Hmark as (before & Hc & Hm & H4).
  split.
  - eapply verified_ext; [|exact Hsig].
    eapply ext_trans; [exact H2|]. eapply ext_trans; [exact H3|].
    eapply ext_trans; [exact H4|exact H6].
  - exists before. split; [|exact Hm]. eapply called_ext; [exact H6|exact Hc].
Qed.

Lemma chain_step_grows (fuel : nat) (s : cert_h) :
  keeps (calls any_call)
    (chain_step W opt ctrl cert listmode flags current_time maxdepth fuel s).
Proof. apply chain_step_calls; intros; reflexivity. Qed.

Lemma is_root_cert_iff (c : ksba_cert) (issuer : string) :
  cert_issuer c = Some issuer ->
  gpgsm_is_root_cert c = opt_eqb (cert_subject c) issuer.
Proof.
  intros Hi. unfold gpgsm_is_root_cert, opt_eqb. rewrite Hi.
  destruct (cert_subject c) as [subject|]; [apply String.eqb_sym|reflexivity].
Qed.

(** One round of the loop that does not jump to [leave]: it ends the
    walk on a trusted root, or goes up to an issuer linked to the subject. *)
Lemma chain_step_link (fuel : nat) (s : cert_h) (l l' : locals) (st st' : state)
    (x : option cert_h) :
  chain_step W opt ctrl cert listmode flags current_time maxdepth fuel s l st
  = Some (Go x, l', st') ->
  ext any_call st st'
  /\ l_visited l' = h_cert s :: l_visited l
  /\ match x with
     | Some next => link W (trace st') (h_cert next) (h_cert s)
     | None => trusted_root W (trace st') (h_cert s)
     end.
Proof.
  intros H.
  split; [exact (chain_step_grows _ _ _ _ _ _ _ H)|].
  split; [exact (proj1 (chain_step_inv W opt ctrl cert listmode flags current_time
                          _ _ _ _ _ _ _ _ H))|].
  unfold chain_step in H.
  destruct (cert_issuer (h_cert s)) as [issuer|] eqn:Ei; [|discriminate].
  pose proof (is_root_cert_iff _ _ Ei) as Hroot.
  bind_go H tr l1 st1 En. destruct tr as [t rf].
  destruct (node_checks_pass _ _ _ _ _ _ _ _ _ _ _ En) as (Ht & _ & _).
  destruct (opt_eqb (cert_subject (h_cert s)) issuer) eqn:Er.
  - bind_go H u l2 st2 E2. destruct u. inversion H; subst; clear H.
    destruct (Ht eq_refl) as [Hw ->].
    split; [exact Hroot|].
    destruct (root_node_trust _ _ _ _ _ _ _ Hroot E2) as [Hf|[Hv Hm]].
    + left. exists (trace st). split.
      * eapply called_ext; [exact (root_node_grows _ _ _ Hroot _ _ _ _ _ E2)|].
        apply called_log.
      * rewrite <- Hw. cbn [fst]. now apply failed_false.
    + right. split; assumption.
  - bind_go H next l2 st2 E2. inversion H; subst; clear H.
    rewrite issuer_node_cases in E2.
    destruct (maxdepth <? l_depth l1 + 1)%Z; [discriminate|].
    destruct (issuer_checks_link _ _ _ _ _ _ _ _ E2) as [Hc Hv].
    split; [exact Hroot|]. split; [|exact Hv]. now exists issuer.
Qed.

(** A walk that ends normally leaves a linked chain behind that starts
    at the first certificate and ends on a trusted root. *)
Lemma chain_loop_linked (rounds fuel : nat) (s : cert_h) (l l' : locals)
    (st st' : state) :
  chain_loop W opt ctrl cert listmode flags current_time maxdepth rounds fuel s l st
  = Some (Go tt, l', st') ->
  linked W (trace st) (l_visited l) ->
  match l_visited l with
  | [] => True
  | p :: _ => link W (trace st) (h_cert s) p
  end ->
  ext any_call st st'
  /\ (exists up, l_visited l' = up ++ h_cert s :: l_visited l)
  /\ linked W (trace st') (l_visited l')
  /\ exists root below,
       l_visited l' = root :: below /\ trusted_root W (trace st') root.
Proof.
  revert s l st. induction rounds as [|rounds IH]; intros s l st; [discriminate|].
  cbn [chain_loop]. intros H Hl Hp.
  bind_go H x l1 st1 Es.
  destruct (chain_step_link _ _ _ _ _ _ _ Es) as (He & Hv & Hx).
  assert (Hl1 : linked W (trace st1) (l_visited l1)).
  { rewrite Hv. cbn [linked]. split; [|eapply linked_ext; eassumption].
    destruct (l_visited l) as [|p rest]; [trivial|]. eapply link_ext; eassumption. }
  destruct x as [next|].
  - destruct (IH _ _ _ H Hl1) as (He' & (up & Hup) & Hl' & Hroot).
    { rewrite Hv. exact Hx. }
    split; [eapply ext_trans; eassumption|].
    split; [|split; assumption].
    exists (up ++ [h_cert next]). rewrite Hup, Hv, <- app_assoc. reflexivity.
  - inversion H; subst; clear H.
    split; [exact He|]. split; [exists []; exact Hv|]. split; [exact Hl1|].
    exists (h_cert s), (l_visited l). split; [exact Hv|exact Hx].
Qed.
End LinkFacts.

Lemma walk_of_success (W : world) (opt : options) (ctrl : ctrl_t) (fuel : nat)
    (st st' : state) (cert : cert_h) (r : bool) (lm : bool) (flags : Z)
    (e : option ksba_isotime_t) :
  no_chain_validation opt && negb lm = false ->
  gpgsm_validate_chain W opt ctrl fuel st cert r lm flags = Some (rc_0, e, st') ->
  exists l st1,
    validate_chain_walk W opt ctrl cert lm flags (w_isotime W (trace st)) 50 fuel
                        init_locals st = Some (Go rc_0, l, st1)
    /\ verdict l = rc_0
    /\ ext any_call st1 st'.
Proof.
  intros Hby. unfold gpgsm_validate_chain. rewrite Hby.
  destruct (validate_chain_walk _ _ _ _ _ _ _ _ _ _ _) as [[[f l] st1]|] eqn:Ew;
    [|discriminate].
  pose proof (validate_chain_leave_rc W cert (flow_rc f) l st1) as Hrc.
  pose proof (validate_chain_leave_calls W cert any_call (fun _ _ => eq_refl)
                (flow_rc f) l st1) as Hl.
  destruct (validate_chain_leave W cert (flow_rc f) l st1) as [rc' st2].
  cbn [fst snd] in Hrc, Hl. cbv zeta in Hrc.
  intros [= -> <- <-].
  assert (Hf : flow_rc f = rc_0).
  { destruct (negb (l_is_qualified l =? -1)%Z && _ && negb (failed (flow_rc f))) eqn:Ec;
      [|congruence].
    apply andb_true_iff in Ec. destruct Ec as [Ec _].
    apply andb_true_iff in Ec. destruct Ec as [_ Ec]. rewrite <- Hrc in Ec. discriminate. }
  destruct f as [v|rc]; cbn [flow_rc] in Hf; subst.
  - exists l, st1. split; [reflexivity|]. split; [|exact Hl].
    symmetry. exact (validate_chain_walk_Go _ _ _ _ _ _ _ _ _ _ _ _ _ _ Ew).
  - apply validate_chain_walk_leaves in Ew. discriminate.
Qed.

(** X11.  When [gpgsm_validate_chain] returns 0 (and did not bypass the
    validation), the certificates it visited form a chain: the first one
    visited is the certificate to validate; each one but the last is not
    self-issued, the next one is a certificate the issuer search stopped
    on for it, and its signature was verified with the key of the next
    one; the last one is self-issued, and either the agent listed it as
    trusted, or its self-signature was verified and the agent marked it as
    trusted on request. *)
Theorem validated_chain_is_linked (W : world) (opt : options) (ctrl : ctrl_t)
    (fuel : nat) (st st' : state) (cert : cert_h) (r : bool) (lm : bool) (flags : Z)
    (e : option ksba_isotime_t) :
  no_chain_validation opt && negb lm = false ->
  gpgsm_validate_chain W opt ctrl fuel st cert r lm flags = Some (rc_0, e, st') ->
  exists l st1 root below,
    validate_chain_walk W opt ctrl cert lm flags (w_isotime W (trace st)) 50 fuel
                        init_locals st = Some (Go rc_0, l, st1)
    /\ l_visited l = root :: below
    /\ (exists up, root :: below = up ++ [h_cert cert])
    /\ linked W (trace st') (root :: below)
    /\ trusted_root W (trace st') root.
Proof.
  intros Hby H. destruct (walk_of_success _ _ _ _ _ _ _ _ _ _ _ Hby H)
    as (l & st1 & Hw & _ & He).
  pose proof Hw as Hloop. rewrite validate_chain_walk_loop in Hloop.
  destruct (w_keydb_new W (trace st)); [|discriminate].
  destruct (chain_loop _ _ _ _ _ _ _ _ _ _ _ _ _) as [[[[[]|rc] l2] st2]|] eqn:El;
    try discriminate.
  inversion Hloop; subst l2 st2; clear Hloop.
  destruct (chain_loop_linked _ _ _ _ _ _ _ _ _ _ _ _ _ _ _ El I I)
    as (_ & (up & Hup) & Hl & root & below & Hv & Ht).
  exists l, st1, root, below. split; [congruence|]. split; [exact Hv|].
  split; [exists up; rewrite <- Hv; exact Hup|].
  split.
  - rewrite <- Hv. eapply linked_ext; [exact He|exact Hl].
  - destruct Ht as [Hr Ht]. split; [exact Hr|].
    destruct Ht as [(b & Hc & Hw')|[Hs (b & Hc & Hm)]].
    + left. exists b. split; [eapply called_ext; eassumption|exact Hw'].
    + right. split; [eapply verified_ext; eassumption|].
      exists b. split; [eapply called_ext; eassumption|exact Hm].
Qed.

Lemma soft_kept_refl (x : locals * state) : soft_kept x x.
Proof. split; auto. Qed.

Lemma soft_kept_trans (x y z : locals * state) :
  soft_kept x y -> soft_kept y z -> soft_kept x z.
Proof. intros [A B] [C D]. split; auto. Qed.

Lemma same_flags_soft_kept (x y : locals * state) :
  l_any_expired (fst y) = l_any_expired (fst x) ->
  l_any_no_policy_match (fst y) = l_any_no_policy_match (fst x) ->
  soft_kept x y.
Proof. intros A B. split; congruence. Qed.

Ltac soft_step :=
  first
    [ apply (keeps_ret _ soft_kept_refl)
    | apply (keeps_goto_leave _ soft_kept_refl)
    | apply (keeps_get_locals _ soft_kept_refl)
    | apply (keeps_leave_if_failed _ soft_kept_refl)
    | apply keeps_with_state; intros; apply same_flags_soft_kept; reflexivity
    | apply keeps_modify_locals; intros; apply same_flags_soft_kept; reflexivity
    | apply (keeps_bind _ soft_kept_trans); [|intros ?]
    | match goal with
      | |- keeps _ (if ?b then _ else _) => destruct b
      | |- keeps _ (match ?x with _ => _ end) => destruct x
      end ].

(** A piece of code written out as a function of the locals and the
    state, which sets flags at most. *)
Ltac soft_by_cases :=
  let l := fresh "l" in let st := fresh "st" in
  let f := fresh "f" in let l' := fresh "l'" in let st' := fresh "st'" in
  let H := fresh "H" in
  intros l st f l' st';
  repeat match goal with
         | |- context [match ?x with _ => _ end] => destruct x
         end;
  intros H; inversion H; subst; split; cbn; auto.

Section NodeFacts.
Variable W : world.
Variable opt : options.
Variable ctrl : ctrl_t.
Variable cert : cert_h.
Variable listmode : bool.
Variable flags : Z.
Variable current_time : ksba_isotime_t.
Variable maxdepth : Z.

Lemma check_validity_soft (c : ksba_cert) :
  keeps soft_kept (check_validity opt current_time c).
Proof. unfold check_validity. soft_by_cases. Qed.

Lemma policy_check_soft (c : ksba_cert) : keeps soft_kept (policy_check W opt c).
Proof.
  unfold policy_check. destruct (negb (no_policy_check opt)); [|soft_step].
  soft_by_cases.
Qed.

Lemma resolve_qualified_soft (s : cert_h) : keeps soft_kept (resolve_qualified W cert s).
Proof. unfold resolve_qualified. soft_by_cases. Qed.

Lemma act_on_trust_soft (c : ksba_cert) (rc : gpg_error_t) :
  keeps soft_kept (act_on_trust W listmode c rc).
Proof. unfold act_on_trust. soft_by_cases. Qed.

Lemma revocation_check_soft (s i : ksba_cert) :
  keeps soft_kept (revocation_check W opt ctrl s i).
Proof. unfold revocation_check. soft_by_cases. Qed.

Lemma root_node_soft (s : cert_h) (rc : gpg_error_t) (rf : rootca_flags_s) :
  keeps soft_kept (root_node W opt ctrl cert listmode flags s rc rf).
Proof.
  unfold root_node, check_cert_sig.
  repeat first [ apply resolve_qualified_soft | apply act_on_trust_soft
               | apply revocation_check_soft | soft_step ].
Qed.

Lemma try_another_cert_soft (fuel : nat) (s : cert_h) (issuer : string) (i : cert_h) :
  keeps soft_kept (try_another_cert W opt fuel s issuer i).
Proof.
  revert i. induction fuel as [|fuel IH]; intros i; cbn [try_another_cert].
  - intros l st f l' st' H. discriminate.
  - unfold check_cert_sig. repeat soft_step.
    intros l st f l' st'.
    destruct (find_up _ _ _ _ _ _ _) as [[r k] s1].
    destruct (negb (failed r)); [|intros H; inversion H; subst; split; auto].
    destruct (keydb_get_cert s1 k) as [[r2 t] s2].
    destruct t as [t|]; [|intros H; inversion H; subst; split; auto].
    destruct (failed r2 || _); [intros H; inversion H; subst; split; auto|].
    intros H. apply IH in H. exact H.
Qed.

Lemma issuer_checks_soft (fuel : nat) (s : cert_h) (issuer : string) :
  keeps soft_kept (issuer_checks W opt ctrl listmode flags fuel s issuer).
Proof.
  unfold issuer_checks, issuer_allowed_ca, agent_istrusted.
  repeat first [ apply try_another_cert_soft | apply revocation_check_soft | soft_step ].
  - soft_by_cases.
  - soft_by_cases.
Qed.

Lemma chain_step_soft (fuel : nat) (s : cert_h) :
  keeps soft_kept
    (chain_step W opt ctrl cert listmode flags current_time maxdepth fuel s).
Proof.
  unfold chain_step, node_checks, issuer_node, agent_istrusted.
  repeat first [ apply check_validity_soft | apply policy_check_soft
               | apply root_node_soft | apply issuer_checks_soft | soft_step ].
Qed.

Lemma node_checked_kept (now : ksba_isotime_t) (l l' : locals) (st st' : state)
    (c : ksba_cert) :
  soft_kept (l, st) (l', st') ->
  node_checked W opt now l c -> node_checked W opt now l' c.
Proof.
  intros [He Hp] (A & B & C & D & E & F). cbn [fst] in He, Hp.
  split; [exact A|]. split; [exact B|]. split; [exact C|]. split; [auto|].
  split; [exact E|].
  intros Hn. destruct (F Hn) as (rc & Hrc & Hcase). exists rc. split; [assumption|].
  destruct Hcase as [Hz|[Hc Hf]]; auto.
Qed.

Lemma check_validity_checked (c : ksba_cert) (l l' : locals) (st st' : state) :
  check_validity opt current_time c l st = Some (Go tt, l', st') ->
  failed (fst (cert_not_before c)) = false
  /\ failed (fst (cert_not_after c)) = false
  /\ too_young current_time c = false
  /\ (expired current_time c = true -> ignore_expiration opt = false ->
      l_any_expired l' = true).
Proof.
  unfold check_validity, too_young, expired.
  destruct (cert_not_before c) as [rc1 nb]. destruct (cert_not_after c) as [rc2 na].
  cbn [fst snd].
  destruct (failed rc1) eqn:E1; [rewrite E1; discriminate|].
  destruct (failed rc2) eqn:E2; [discriminate|].
  destruct (nonempty nb && strcmp_lt current_time nb); [discriminate|].
  destruct (nonempty na && strcmp_gt current_time na).
  - destruct (ignore_expiration opt); intros H; inversion H; subst;
      repeat split; try reflexivity; try discriminate.
  - intros H. repeat split; discriminate.
Qed.

Lemma node_checks_checked (c : ksba_cert) (is_root : bool) (l l1 : locals)
    (st st1 : state) (x : gpg_error_t * rootca_flags_s) :
  node_checks W opt current_time c is_root l st = Some (Go x, l1, st1) ->
  node_checked W opt current_time l1 c.
Proof.
  unfold node_checks. intros H.
  bind_go H y l0 st0 E0.
  assert (Hl0 : l0 = l).
  { destruct is_root; [unfold agent_istrusted, with_state in E0|]; now inversion E0. }
  subst l0. destruct y as [t rf].
  bind_go H u l2 st2 Ev. destruct u.
  destruct (check_validity_checked _ _ _ _ _ Ev) as (A & B & C & D).
  bind_go H u l3 st3 Eu.
  assert (Hu : unknown_criticals c = rc_0 /\ l3 = l2).
  { unfold leave_if_failed in Eu. destruct (failed (unknown_criticals c)) eqn:Ef;
      [discriminate|]. inversion Eu; subst. split; [now apply failed_false|reflexivity]. }
  destruct Hu as [Hu ->].
  bind_go H u' l4 st4 Ep. inversion H; subst; clear H.
  pose proof (policy_check_soft _ _ _ _ _ _ Ep) as [He _]. cbn [fst] in He.
  split; [exact A|]. split; [exact B|]. split; [exact C|]. split; [auto|].
  split; [exact Hu|].
  intros Hn. unfold policy_check in Ep. rewrite Hn in Ep. cbn [negb] in Ep.
  destruct (check_cert_policy opt (w_fopen W) c) as [rc|]; [|discriminate].
  exists rc. split; [reflexivity|].
  destruct (has_code rc GPG_ERR_NO_POLICY_MATCH) eqn:Ec.
  - right. inversion Ep; subst. split; reflexivity.
  - left. destruct (failed rc) eqn:Ef; [discriminate|]. now apply failed_false.
Qed.

Lemma chain_step_checked (fuel : nat) (s : cert_h) (l l' : locals) (st st' : state)
    (x : option cert_h) :
  chain_step W opt ctrl cert listmode flags current_time maxdepth fuel s l st
  = Some (Go x, l', st') ->
  node_checked W opt current_time l' (h_cert s).
Proof.
  intros H. unfold chain_step in H.
  destruct (cert_issuer (h_cert s)) as [issuer|]; [|discriminate].
  bind_go H tr l1 st1 En. destruct tr as [t rf].
  apply node_checks_checked in En.
  destruct (opt_eqb (cert_subject (h_cert s)) issuer).
  - bind_go H u l2 st2 E2. inversion H; subst; clear H.
    apply root_node_soft in E2. eapply node_checked_kept; eassumption.
  - bind_go H next l2 st2 E2. inversion H; subst; clear H.
    unfold issuer_node in E2.
    bind_go E2 u l3 st3 E3. inversion E3; subst; clear E3.
    bind_go E2 lx l4 st4 E4. inversion E4; subst; clear E4.
    destruct (maxdepth <? _)%Z; [discriminate|].
    apply issuer_checks_soft in E2.
    eapply node_checked_kept; [exact E2|].
    destruct En as (A & B & C & D & E & F).
    split; [exact A|]. split; [exact B|]. split; [exact C|]. split; [exact D|].
    split; [exact E|exact F].
Qed.

Lemma chain_loop_checked (rounds fuel : nat) (s : cert_h) (l l' : locals)
    (st st' : state) :
  chain_loop W opt ctrl cert listmode flags current_time maxdepth rounds fuel s l st
  = Some (Go tt, l', st') ->
  Forall (node_checked W opt current_time l) (l_visited l) ->
  Forall (node_checked W opt current_time l') (l_visited l').
Proof.
  revert s l st. induction rounds as [|rounds IH]; intros s l st; [discriminate|].
  cbn [chain_loop]. intros H Hall.
  bind_go H x l1 st1 Es.
  pose proof (chain_step_checked _ _ _ _ _ _ _ Es) as Hs.
  pose proof (chain_step_soft _ _ _ _ _ _ _ Es) as Hk.
  destruct (chain_step_inv W opt ctrl cert listmode flags current_time
              _ _ _ _ _ _ _ _ Es) as [Hv _].
  assert (Hall1 : Forall (node_checked W opt current_time l1) (l_visited l1)).
  { rewrite Hv. constructor; [exact Hs|].
    eapply Forall_impl; [|exact Hall]. intros c. eapply node_checked_kept; exact Hk. }
  destruct x as [next|].
  - exact (IH _ _ _ H Hall1).
  - inversion H; subst. exact Hall1.
Qed.
End NodeFacts.

(** X12.  When [gpgsm_validate_chain] returns 0 (and did not bypass the
    validation), every certificate it visited, the certificate to validate
    among them, passed the checks made on each certificate: both ends of
    its validity period can be read, it is not used before its begin, it
    is not expired unless [ignore_expiration] is set, it has no critical
    extension the program does not know, and, unless policy checks are
    disabled, [check_cert_policy] returned 0 for it. *)
Theorem validated_chain_nodes_checked (W : world) (opt : options) (ctrl : ctrl_t)
    (fuel : nat) (st st' : state) (cert : cert_h) (r : bool) (lm : bool) (flags : Z)
    (e : option ksba_isotime_t) :
  no_chain_validation opt && negb lm = false ->
  gpgsm_validate_chain W opt ctrl fuel st cert r lm flags = Some (rc_0, e, st') ->
  exists l st1,
    validate_chain_walk W opt ctrl cert lm flags (w_isotime W (trace st)) 50 fuel
                        init_locals st = Some (Go rc_0, l, st1)
    /\ In (h_cert cert) (l_visited l)
    /\ Forall (node_ok W opt (w_isotime W (trace st))) (l_visited l).
Proof.
  intros Hby H. destruct (walk_of_success _ _ _ _ _ _ _ _ _ _ _ Hby H)
    as (l & st1 & Hw & Hverdict & _).
  exists l, st1. split; [exact Hw|].
  pose proof Hw as Hloop. rewrite validate_chain_walk_loop in Hloop.
  destruct (w_keydb_new W (trace st)); [|discriminate].
  destruct (chain_loop _ _ _ _ _ _ _ _ _ _ _ _ _) as [[[[[]|rc] l2] st2]|] eqn:El;
    try discriminate.
  inversion Hloop; subst l2 st2; clear Hloop.
  split.
  - destruct (chain_loop_linked _ _ _ _ _ _ _ _ _ _ _ _ _ _ _ El I I)
      as (_ & (up & Hup) & _). rewrite Hup. apply in_or_app. right. left. reflexivity.
  - pose proof (chain_loop_checked _ _ _ _ _ _ _ _ _ _ _ _ _ _ _ El (Forall_nil _)) as Hall.
    eapply Forall_impl; [|exact Hall].
    intros c (A & B & C & D & E & F).
    assert (Hexp : l_any_expired l = false).
    { unfold verdict in Hverdict. destruct (any_revoked (l_rev l)); [discriminate|].
      destruct (l_any_expired l); [discriminate|reflexivity]. }
    assert (Hpol : l_any_no_policy_match l = false).
    { unfold verdict in Hverdict. destruct (any_revoked (l_rev l)); [discriminate|].
      destruct (l_any_expired l); [discriminate|].
      destruct (any_no_crl (l_rev l)); [discriminate|].
      destruct (any_crl_too_old (l_rev l)); [discriminate|].
      destruct (l_any_no_policy_match l); [discriminate|reflexivity]. }
    split; [exact A|]. split; [exact B|]. split; [exact C|].
    split; [|split; [exact E|]].
    + intros Hi. destruct (expired _ c) eqn:Ee; [|reflexivity].
      specialize (D eq_refl Hi). congruence.
    + intros Hn. destruct (F Hn) as (rc & Hrc & [->|[_ Hf]]); [exact Hrc|congruence].
Qed.

Lemma searched_basic (st st' : state) : searched st st' -> ext basic_check_call st st'.
Proof.
  intros [_ H]. eapply ext_weaken; [|exact H]. intros []; cbn; congruence.
Qed.

(** X13.  [gpgsm_basic_cert_check] returns 0, [GPG_ERR_GENERAL],
    [GPG_ERR_BAD_CERT] or [GPG_ERR_MISSING_CERT] and nothing else: the
    error of a failed signature check is replaced by [GPG_ERR_BAD_CERT].
    It makes no call but [keydb_new], the lookup by dirmngr and the
    signature check, and writes no user data. *)
Theorem basic_cert_check_outcome (W : world) (opt : options) (st st' : state)
    (cert : cert_h) (rc : gpg_error_t) :
  gpgsm_basic_cert_check W opt st cert = (rc, st') ->
  (rc = rc_0 \/ rc = gpg_error GPG_ERR_GENERAL \/ rc = gpg_error GPG_ERR_BAD_CERT
   \/ rc = gpg_error GPG_ERR_MISSING_CERT)
  /\ ext basic_check_call st st'
  /\ user_data st' = user_data st.
Proof.
  unfold gpgsm_basic_cert_check.
  destruct (no_chain_validation opt).
  { intros [= <- <-]. split; [auto|]. split; [apply ext_refl|reflexivity]. }
  unfold keydb_new. set (st0 := log EvKeydbNew st).
  assert (H0 : ext basic_check_call st st0) by (apply ext_log; reflexivity).
  destruct (w_keydb_new W (trace st)).
  2:{ intros [= <- <-]. split; [auto|]. split; [exact H0|reflexivity]. }
  destruct (cert_issuer (h_cert cert)) as [issuer|].
  2:{ intros [= <- <-]. split; [auto|]. split; [exact H0|reflexivity]. }
  assert (Hsig : forall s i r s',
            ext basic_check_call st s -> user_data s = user_data st ->
            (if failed (w_check_cert_sig W (trace s) i (h_cert cert))
             then (gpg_error GPG_ERR_BAD_CERT, log (EvCheckCertSig i (h_cert cert)) s)
             else (w_check_cert_sig W (trace s) i (h_cert cert),
                   log (EvCheckCertSig i (h_cert cert)) s)) = (r, s') ->
            (r = rc_0 \/ r = gpg_error GPG_ERR_GENERAL \/ r = gpg_error GPG_ERR_BAD_CERT
             \/ r = gpg_error GPG_ERR_MISSING_CERT)
            /\ ext basic_check_call st s' /\ user_data s' = user_data st).
  { intros s i r s' He Hu.
    destruct (failed _) eqn:Ef; intros [= <- <-].
    - split; [auto|]. split; [|exact Hu].
      eapply ext_trans; [exact He|apply ext_log; reflexivity].
    - split; [left; now apply failed_false|]. split; [|exact Hu].
      eapply ext_trans; [exact He|apply ext_log; reflexivity]. }
  destruct (opt_eqb (cert_subject (h_cert cert)) issuer).
  { apply Hsig; [exact H0|reflexivity]. }
  destruct (find_up W opt st0 _ (h_cert cert) issuer false) as [[r k] s1] eqn:Eu.
  pose proof (find_up_searched W opt _ _ _ _ _ _ _ _ Eu) as Hs.
  assert (H1 : ext basic_check_call st s1)
    by (eapply ext_trans; [exact H0|now apply searched_basic]).
  assert (U1 : user_data s1 = user_data st) by (destruct Hs as [U _]; exact U).
  destruct (failed r).
  { intros [= <- <-]. split; [auto|]. split; [exact H1|exact U1]. }
  destruct (keydb_get_cert s1 k) as [[r2 ic] s2] eqn:Eg.
  pose proof (keydb_get_cert_searched _ _ _ _ _ Eg) as Hg.
  assert (H2 : ext basic_check_call st s2)
    by (eapply ext_trans; [exact H1|now apply searched_basic]).
  assert (U2 : user_data s2 = user_data st) by (destruct Hg as [U _]; congruence).
  destruct ic as [ic|].
  2:{ intros [= <- <-]. split; [auto|]. split; [exact H2|exact U2]. }
  destruct (failed r2).
  { intros [= <- <-]. split; [auto|]. split; [exact H2|exact U2]. }
  apply Hsig; [exact H2|exact U2].
Qed.

(** X14.  When [gpgsm_basic_cert_check] returns 0 without bypassing the
    check, the last call it made is a successful check of the
    certificate's signature: with the certificate's own key when the
    certificate is self-issued, and else with the key of a certificate of
    the key database the issuer search stopped on. *)
Theorem basic_cert_check_verified (W : world) (opt : options) (st st' : state)
    (cert : cert_h) :
  no_chain_validation opt = false ->
  gpgsm_basic_cert_check W opt st cert = (rc_0, st') ->
  exists i before issuer,
    trace st' = EvCheckCertSig i (h_cert cert) :: before
    /\ w_check_cert_sig W before i (h_cert cert) = rc_0
    /\ cert_issuer (h_cert cert) = Some issuer
    /\ (if gpgsm_is_root_cert (h_cert cert) then i = h_cert cert
        else In i (keydb_entries st') /\ issuer_candidate (h_cert cert) issuer i).
Proof.
  intros Hopt. unfold gpgsm_basic_cert_check. rewrite Hopt.
  unfold keydb_new. set (st0 := log EvKeydbNew st).
  destruct (w_keydb_new W (trace st)); [|discriminate].
  destruct (cert_issuer (h_cert cert)) as [issuer|] eqn:Ei; [|discriminate].
  rewrite (is_root_cert_iff _ _ Ei).
  destruct (opt_eqb (cert_subject (h_cert cert)) issuer).
  - destruct (failed _) eqn:Ef; [discriminate|]. intros [= Hw <-].
    exists (h_cert cert), (trace st0), issuer. auto.
  - destruct (find_up W opt st0 _ (h_cert cert) issuer false) as [[r k] s1] eqn:Eu.
    destruct (failed r) eqn:Er; [discriminate|].
    pose proof (find_up_found W opt _ _ _ _ _ _ _ _ Eu Er) as Hc.
    destruct (keydb_get_cert_cursor _ _ _ Hc) as (c & Hcand & Hin & Hget).
    rewrite Hget. cbn [failed h_cert].
    destruct (failed (w_check_cert_sig _ _ _ _)) eqn:Ef; [discriminate|].
    intros H. inversion H as [[Hw Hst]].
    exists c, (trace s1), issuer. repeat split; auto.
Qed.

(** X15.  [gpgsm_walk_cert_chain] returns -1 exactly when it got a
    key database handle and the certificate is self-issued (as
    [gpgsm_is_root_cert] tells).  It delivers a next certificate exactly
    with result 0, and that certificate is one of the key database the
    issuer search stopped on; without one the result is -1,
    [GPG_ERR_GENERAL], [GPG_ERR_BAD_CERT] or [GPG_ERR_MISSING_CERT]. *)
Theorem walk_cert_chain_outcome (W : world) (opt : options) (st st' : state)
    (start : cert_h) (rc : gpg_error_t) (next : option cert_h) :
  gpgsm_walk_cert_chain W opt st start = (rc, next, st') ->
  (rc = rc_m1 <->
   w_keydb_new W (trace st) = true /\ gpgsm_is_root_cert (h_cert start) = true)
  /\ match next with
     | Some n =>
         rc = rc_0
         /\ In (h_cert n) (keydb_entries st')
         /\ exists issuer,
              cert_issuer (h_cert start) = Some issuer
              /\ issuer_candidate (h_cert start) issuer (h_cert n)
     | None =>
         rc = rc_m1 \/ rc = gpg_error GPG_ERR_GENERAL
         \/ rc = gpg_error GPG_ERR_BAD_CERT \/ rc = gpg_error GPG_ERR_MISSING_CERT
     end.
Proof.
  unfold gpgsm_walk_cert_chain, keydb_new, gpgsm_is_root_cert.
  set (st0 := log EvKeydbNew st).
  destruct (w_keydb_new W (trace st)).
  2:{ intros [= <- <- <-]. split; [|auto]. split; [discriminate|intros [? _]; discriminate]. }
  destruct (cert_issuer (h_cert start)) as [issuer|] eqn:Ei.
  2:{ intros [= <- <- <-]. split; [|auto]. split; [discriminate|intros [_ ?]; discriminate]. }
  destruct (cert_subject (h_cert start)) as [subject|] eqn:Es.
  2:{ intros [= <- <- <-]. split; [|auto]. split; [discriminate|intros [_ ?]; discriminate]. }
  destruct (String.eqb issuer subject) eqn:Eq.
  { intros [= <- <- <-]. split; [|auto]. split; auto. }
  destruct (find_up W opt st0 _ (h_cert start) issuer false) as [[r k] s1] eqn:Eu.
  destruct (failed r) eqn:Er.
  { intros [= <- <- <-]. split; [|auto 6]. split; [discriminate|intros [_ ?]; discriminate]. }
  pose proof (find_up_found W opt _ _ _ _ _ _ _ _ Eu Er) as Hc.
  destruct (keydb_get_cert_cursor _ _ _ Hc) as (c & Hcand & Hin & Hget).
  rewrite Hget. cbn [failed].
  intros [= <- <- <-]. split; [split; [discriminate|intros [_ ?]; discriminate]|].
  split; [reflexivity|]. split; [exact Hin|]. now exists issuer.
Qed.

Lemma walk_cert_chain_root (W : world) (opt : options) (st st' : state)
    (start : cert_h) (next : option cert_h) :
  gpgsm_walk_cert_chain W opt st start = (rc_m1, next, st') ->
  gpgsm_is_root_cert (h_cert start) = true.
Proof.
  unfold gpgsm_walk_cert_chain, keydb_new, gpgsm_is_root_cert.
  destruct (w_keydb_new W (trace st)); [|discriminate].
  destruct (cert_issuer (h_cert start)) as [issuer|]; [|discriminate].
  destruct (cert_subject (h_cert start)) as [subject|]; [|discriminate].
  destruct (String.eqb issuer subject); [reflexivity|].
  destruct (find_up W opt _ _ (h_cert start) issuer false) as [[r k] s1].
  destruct (failed r); [discriminate|].
  destruct (keydb_get_cert s1 k) as [[r2 n] s2].
  destruct (failed r2); discriminate.
Qed.

Lemma regtp_walk_root (W : world) (opt : options) (slots : nat) (st st1 : state)
    (cert last : cert_h) (array array' : list cert_h) (rc0 : gpg_error_t) :
  rc0 <> rc_m1 ->
  regtp_walk W opt slots st cert array rc0 = (rc_m1, last, array', st1) ->
  gpgsm_is_root_cert (h_cert last) = true.
Proof.
  revert st cert array rc0. induction slots as [|slots IH];
    intros st cert array rc0 Hrc; cbn [regtp_walk].
  - intros [= -> _ _ _]. contradiction.
  - destruct (gpgsm_walk_cert_chain W opt st cert) as [[rc1 next] s1] eqn:E.
    assert (Hstop : (rc1, cert, array, s1) = (rc_m1, last, array', st1) ->
                    gpgsm_is_root_cert (h_cert last) = true).
    { intros [= -> <- _ _]. exact (walk_cert_chain_root _ _ _ _ _ _ E). }
    destruct next as [next|]; [|exact Hstop].
    destruct (failed rc1) eqn:Ef; [exact Hstop|].
    apply IH. intros ->. discriminate.
Qed.

Lemma last_cons_default {A : Type} (l : list A) (a d d' : A) :
  List.last (a :: l) d = List.last (a :: l) d'.
Proof.
  revert a. induction l as [|b l IH]; intros a; [reflexivity|].
  change (List.last (b :: l) d = List.last (b :: l) d'). apply IH.
Qed.

Lemma nth_length_last {A : Type} (l : list A) (c d : A) :
  nth (List.length l) (c :: l) d = List.last l c.
Proof.
  revert c. induction l as [|m l IH]; intros c; [reflexivity|].
  change (nth (List.length l) (m :: l) d = List.last (m :: l) c).
  rewrite IH. destruct l as [|b l]; [reflexivity|].
  apply (last_cons_default l b m c).
Qed.

(** X16.  When [get_regtp_ca_info] finds no mark on the certificate object
    and answers true, the walk up the chain ended with -1 on a self-issued
    certificate at most two steps above the certificate, and the qualified
    list, asked about that root, answered 0 with the country "de".  The
    chain length is 1 when the certificate is that root itself and 0
    otherwise (also for a certificate two steps below the root, on which
    nothing is stored).  What it stores is the mark 01 01 on the root and
    then the mark 01 00 on the certificate below the root, less what a
    failing store leaves out; a later call that finds these marks answers
    true with the chain lengths 1 and 0, without a walk. *)
Theorem regtp_classified (W : world) (opt : options) (st st' : state)
    (cert : cert_h) (chainlen : Z) :
  user_data_lookup st (h_id cert) "regtp_ca_chainlen" = None ->
  get_regtp_ca_info W opt st cert = (true, chainlen, st') ->
  exists root more st1,
    regtp_walk W opt (DIM_array - 1) st cert [cert] rc_0
    = (rc_m1, root, cert :: more, st1)
    /\ List.length more <= 2
    /\ root = List.last more cert
    /\ gpgsm_is_root_cert (h_cert root) = true
    /\ fst (w_qualified W (trace st1) (h_cert root)) = rc_0
    /\ snd (w_qualified W (trace st1) (h_cert root)) = "de"
    /\ chainlen = (match more with [] => 1 | _ => 0 end)%Z
    /\ (forall s c,
          user_data_lookup s (h_id c) "regtp_ca_chainlen" = Some regtp_root_mark ->
          get_regtp_ca_info W opt s c = (true, 1%Z, s))
    /\ (forall s c,
          user_data_lookup s (h_id c) "regtp_ca_chainlen" = Some regtp_ca_mark ->
          get_regtp_ca_info W opt s c = (true, 0%Z, s))
    /\ (user_data st' = user_data st
        \/ user_data st'
           = (h_id root, "regtp_ca_chainlen", regtp_root_mark) :: user_data st
        \/ exists ca,
             nth_error (cert :: more) (List.length more - 1) = Some ca
             /\ more <> []
             /\ user_data st'
                = (h_id ca, "regtp_ca_chainlen", regtp_ca_mark)
                    :: (h_id root, "regtp_ca_chainlen", regtp_root_mark)
                    :: user_data st).
Proof.
  intros Hnone. unfold get_regtp_ca_info at 1.
  unfold ksba_cert_get_user_data. rewrite Hnone. cbn [failed negb has_code].
  change (code_eqb GPG_ERR_NOT_FOUND GPG_ERR_NOT_FOUND) with true. cbn [negb].
  destruct (regtp_walk W opt (DIM_array - 1) st cert [cert] rc_0)
    as [[[rc last] array] st1] eqn:Ew.
  destruct (regtp_walk_facts _ _ _ _ _ _ _ _ _ _ _ Ew)
    as [[Hud _] (more & Ha & Hl & Hlast)].
  cbn [app] in Ha. subst array.
  destruct (negb (is_m1 rc) || (List.length (cert :: more) =? 0)%nat
            || (List.length (cert :: more) =? DIM_array)%nat) eqn:Eg.
  { destruct (ksba_cert_set_user_data W st1 last _ regtp_none_mark). discriminate. }
  apply orb_false_iff in Eg. destruct Eg as [Eg E4].
  apply orb_false_iff in Eg. destruct Eg as [Em _].
  apply negb_false_iff in Em. destruct rc; try discriminate. clear Em.
  apply Nat.eqb_neq in E4. unfold DIM_array in E4, Hl. cbn [List.length] in E4.
  assert (Hlen : List.length more <= 2) by (cbn in Hl; lia).
  assert (Hne : rc_0 <> rc_m1) by discriminate.
  pose proof (regtp_walk_root _ _ _ _ _ _ _ _ _ _ Hne Ew) as Hroot.
  assert (Htop : nth (List.length (cert :: more) - 1) (cert :: more) cert = last).
  { rewrite Hlast. cbn [List.length]. rewrite Nat.sub_succ, Nat.sub_0_r.
    apply nth_length_last. }
  rewrite Htop.
  destruct (w_qualified W (trace st1) (h_cert last)) as [qerr country] eqn:Eq.
  destruct (negb (failed qerr) && String.eqb country "de") eqn:Ede.
  2:{ destruct (ksba_cert_set_user_data W _ last _ regtp_none_mark). discriminate. }
  apply andb_true_iff in Ede. destruct Ede as [Hq Hde].
  apply negb_true_iff, failed_false in Hq. apply String.eqb_eq in Hde. subst qerr country.
  set (st2 := log (EvQualified (h_cert last)) st1).
  destruct (ksba_cert_set_user_data W st2 last "regtp_ca_chainlen" regtp_root_mark)
    as [e1 st3] eqn:E1.
  intros H. injection H as Hcl Hst.
  exists last, more, st1.
  split; [reflexivity|]. split; [exact Hlen|]. split; [exact Hlast|].
  split; [exact Hroot|]. rewrite Eq.
  split; [reflexivity|]. split; [reflexivity|].
  split.
  { rewrite <- Hcl. destruct more; reflexivity. }
  split.
  { intros s c Hs. unfold get_regtp_ca_info, ksba_cert_get_user_data. now rewrite Hs. }
  split.
  { intros s c Hs. unfold get_regtp_ca_info, ksba_cert_get_user_data. now rewrite Hs. }
  rewrite <- Hst. clear Hst Hcl.
  destruct (ksba_cert_set_user_data_cases _ _ _ _ _ _ _ E1) as [[Hf Hu] | [-> Hu]].
  - rewrite Hf. cbn [negb andb]. left. rewrite Hu. exact Hud.
  - cbn [failed negb andb].
    change (match List.length more - 1 with 0 => cert | S m => nth m more cert end)
      with (nth (List.length more - 1) (cert :: more) cert).
    set (ca := nth (List.length more - 1) (cert :: more) cert).
    destruct (1 <? S (List.length more))%nat eqn:E2.
    + apply Nat.ltb_lt in E2.
      destruct (ksba_cert_set_user_data W st3 ca "regtp_ca_chainlen" regtp_ca_mark)
        as [e2 st4] eqn:E3.
      cbn [snd].
      destruct (ksba_cert_set_user_data_cases _ _ _ _ _ _ _ E3) as [[_ Hu2] | [_ Hu2]].
      * right. left. rewrite Hu2, Hu. f_equal. exact Hud.
      * right. right. exists ca.
        split; [apply nth_error_nth'; cbn [List.length]; lia|].
        split; [destruct more; [cbn in E2; lia|discriminate]|].
        rewrite Hu2, Hu. do 2 f_equal. exact Hud.
    + right. left. rewrite Hu. f_equal. exact Hud.
Qed.

Lemma not_afters_rev (visited : list ksba_cert) :
  not_afters (rev visited) = rev (not_afters visited).
Proof.
  unfold not_afters. rewrite map_rev. apply filter_rev.
Qed.

Lemma is_earliest_rev (e : ksba_isotime_t) (ts : list ksba_isotime_t) :
  is_earliest e (rev ts) -> is_earliest e ts.
Proof.
  unfold is_earliest. destruct ts as [|t ts]; [auto|].
  destruct (rev (t :: ts)) as [|u us] eqn:E.
  { apply (f_equal (@List.length _)) in E. rewrite length_rev in E. discriminate. }
  rewrite <- E. intros [Hin Hmin]. split.
  - now apply in_rev.
  - intros x Hx. apply Hmin. now apply in_rev in Hx.
Qed.

Section RoundFacts.
Variable W : world.
Variable opt : options.
Variable ctrl : ctrl_t.
Variable cert : cert_h.
Variable listmode : bool.
Variable flags : Z.
Variable current_time : ksba_isotime_t.

(** "Check the validity period.", whatever its outcome: the certificate
    joins those whose validity period has been read when both times can
    be read, and only then does the walk go on. *)
Lemma check_validity_read (c : ksba_cert) (l l' : locals) (st st' : state)
    (f : flow unit) :
  check_validity opt current_time c l st = Some (f, l', st') ->
  let readable := negb (failed (fst (cert_not_before c)))
                  && negb (failed (fst (cert_not_after c))) in
  l_visited l' = (if readable then [c] else []) ++ l_visited l
  /\ (forall x, f = Go x -> readable = true).
Proof.
  unfold check_validity.
  destruct (cert_not_before c) as [rc1 nb]. destruct (cert_not_after c) as [rc2 na].
  cbn [fst].
  destruct (failed rc1) eqn:E1; [|destruct (failed rc2) eqn:E2];
    rewrite ?E1, ?E2; cbn [negb andb app].
  - intros H; inversion H; subst. split; [reflexivity|discriminate].
  - intros H; inversion H; subst. split; [reflexivity|discriminate].
  - destruct (_ && _); [intros H; inversion H; subst; split; auto|].
    destruct (_ && _); [destruct (ignore_expiration opt)|];
      intros H; inversion H; subst; split; auto.
Qed.

Lemma node_checks_read (c : ksba_cert) (is_root : bool) (l l1 : locals)
    (st st1 : state) (f : flow (gpg_error_t * rootca_flags_s)) :
  node_checks W opt current_time c is_root l st = Some (f, l1, st1) ->
  let readable := negb (failed (fst (cert_not_before c)))
                  && negb (failed (fst (cert_not_after c))) in
  l_visited l1 = (if readable then [c] else []) ++ l_visited l
  /\ (forall x, f = Go x -> readable = true)
  /\ st1 = (if is_root then log (EvIsTrusted c) st else st).
Proof.
  unfold node_checks. intros H.
  set (readable := negb _ && negb _).
  set (first := if is_root then _ else _) in H.
  assert (Hfirst : exists y, first l st
                   = Some (Go y, l, if is_root then log (EvIsTrusted c) st else st)).
  { subst first. destruct is_root; eexists; reflexivity. }
  destruct Hfirst as (y & Hfirst).
  unfold bind at 1 in H. rewrite Hfirst in H. destruct y as [t0 rf0].
  set (s0 := if is_root then log (EvIsTrusted c) st else st) in *.
  unfold bind at 1 in H.
  destruct (check_validity opt current_time c l s0) as [[[fv l2] st2]|] eqn:Ev;
    [|discriminate].
  destruct (check_validity_read _ _ _ _ _ _ Ev) as [Hv Hgo].
  fold readable in Hv, Hgo.
  destruct (check_validity_state _ _ _ _ _ _ _ _ Ev) as [-> _].
  destruct fv as [[]|rc].
  2:{ inversion H; subst. split; [exact Hv|]. split; [discriminate|reflexivity]. }
  specialize (Hgo tt eq_refl).
  unfold bind at 1, leave_if_failed in H.
  destruct (failed (unknown_criticals c)).
  { inversion H; subst. split; [exact Hv|]. split; [auto|reflexivity]. }
  cbn [ret] in H. unfold bind at 1 in H.
  pose proof (policy_check_core W opt c l2 s0) as Hp.
  destruct (policy_check W opt c l2 s0) as [[[fp l3] st3]|] eqn:Ep; [|discriminate].
  specialize (Hp _ _ _ eq_refl). destruct Hp as (_ & _ & Hv3). cbn [fst] in Hv3.
  assert (Hs3 : st3 = s0).
  { revert Ep. unfold policy_check. destruct (negb (no_policy_check opt)).
    - destruct (check_cert_policy _ _ _) as [rc|]; [|discriminate].
      destruct (has_code rc GPG_ERR_NO_POLICY_MATCH);
        [intros E; inversion E; reflexivity|].
      destruct (failed rc); intros E; inversion E; reflexivity.
    - intros E; inversion E; reflexivity. }
  destruct fp as [[]|rc]; inversion H; subst;
    (split; [congruence|]); (split; [auto|reflexivity]).
Qed.

(** One round, whatever its outcome. *)
Lemma chain_step_read (fuel : nat) (s : cert_h) (l l' : locals) (st st' : state)
    (f : flow (option cert_h)) :
  chain_step W opt ctrl cert listmode flags current_time 50 fuel s l st
  = Some (f, l', st') ->
  l_visited l' = (if validity_read (h_cert s) then [h_cert s] else []) ++ l_visited l
  /\ (forall x, f = Go x -> validity_read (h_cert s) = true).
Proof.
  unfold chain_step, validity_read.
  destruct (cert_issuer (h_cert s)) as [issuer|].
  2:{ intros H; inversion H; subst. split; [reflexivity|discriminate]. }
  intros H. unfold bind at 1 in H.
  destruct (node_checks W opt current_time (h_cert s) _ l st) as [[[fn l1] st1]|] eqn:En;
    [|discriminate].
  destruct (node_checks_read _ _ _ _ _ _ _ En) as (Hv & Hgo & _).
  destruct fn as [[t rf]|rc].
  2:{ inversion H; subst. split; [exact Hv|discriminate]. }
  rewrite (Hgo _ eq_refl) in *.
  split; [|reflexivity].
  destruct (opt_eqb (cert_subject (h_cert s)) issuer).
  - unfold bind at 1 in H.
    pose proof (root_node_core W opt ctrl cert listmode flags s t rf l1 st1) as Hc.
    destruct (root_node _ _ _ _ _ _ _ _ _ _ _) as [[[fr l2] st2]|]; [|discriminate].
    specialize (Hc _ _ _ eq_refl). destruct Hc as (_ & _ & Hv2). cbn [fst] in Hv2.
    destruct fr as [[]|rc]; inversion H; subst; congruence.
  - unfold bind at 1 in H. rewrite issuer_node_cases in H.
    destruct (50 <? l_depth l1 + 1)%Z.
    { inversion H; subst. exact Hv. }
    pose proof (issuer_checks_core W opt ctrl listmode flags fuel s issuer
                  (set_depth (l_depth l1 + 1) l1) st1) as Hc.
    destruct (issuer_checks _ _ _ _ _ _ _ _ _ _) as [[[fi l2] st2]|]; [|discriminate].
    specialize (Hc _ _ _ eq_refl). destruct Hc as (_ & _ & Hv2). cbn [fst] in Hv2.
    destruct fi as [next|rc]; inversion H; subst; cbn [l_visited set_depth] in Hv2;
      congruence.
Qed.

(** The walk from a round on: the certificates whose validity period it
    has read are the subjects of its rounds, except a last one on which
    the walk left before it got that far. *)
Lemma chain_loop_read (rounds fuel : nat) (s : cert_h) (l l' : locals)
    (st st' : state) (f : flow unit) :
  chain_loop W opt ctrl cert listmode flags current_time 50 rounds fuel s l st
  = Some (f, l', st') ->
  let nodes := map (fun r => h_cert (fst (fst r)))
                   (walk_rounds W opt ctrl cert listmode flags current_time
                                rounds fuel s l st) in
  l_visited l' = rev (filter validity_read nodes) ++ l_visited l
  /\ (forall front c back, nodes = front ++ c :: back -> back <> [] ->
                           validity_read c = true)
  /\ (forall x, f = Go x -> filter validity_read nodes = nodes).
Proof.
  revert s l st. induction rounds as [|rounds IH]; intros s l st; [discriminate|].
  cbn [chain_loop walk_rounds]. unfold bind at 1.
  destruct (chain_step W opt ctrl cert listmode flags current_time 50 fuel s l st)
    as [[[fs l1] st1]|] eqn:Es; [|discriminate].
  destruct (chain_step_read _ _ _ _ _ _ _ Es) as [Hv Hgo].
  assert (Hlast : forall front c back,
            [h_cert s] = front ++ c :: back -> back <> [] -> validity_read c = true).
  { intros [|a front] c back E Hb.
    - injection E as _ E. congruence.
    - injection E as _ E. destruct front; discriminate. }
  destruct fs as [[next|]|rc].
  - intros H. specialize (IH _ _ _ H). cbv zeta in IH.
    destruct IH as (Hv' & Hin & Hall).
    pose proof (Hgo _ eq_refl) as Hr. rewrite Hr in Hv.
    cbn [map fst h_cert filter]. rewrite Hr.
    split; [|split].
    + rewrite Hv', Hv. cbn [rev app]. now rewrite <- app_assoc.
    + intros [|a front] c back E Hb.
      * injection E as <- _. exact Hr.
      * injection E as _ E. exact (Hin _ _ _ E Hb).
    + intros x Hx. now rewrite (Hall x Hx).
  - intros H; inversion H; subst. cbn [map fst h_cert filter].
    pose proof (Hgo _ eq_refl) as Hr. rewrite Hr in *.
    split; [exact Hv|]. split; [exact Hlast|reflexivity].
  - intros H; inversion H; subst. cbn [map fst h_cert filter].
    split; [|split; [exact Hlast|discriminate]].
    rewrite Hv. destruct (validity_read (h_cert s)); reflexivity.
Qed.
End RoundFacts.

(** C5 as stated fails: the walk goes up from the certificate to
    validate (valid until 2030) to its issuer (valid until 2022), checks
    the signature with the issuer's key and makes the issuer the subject of
    the next round; that round ends at once with [BAD_CERT] because the
    issuer names no issuer of its own, before the validity period is
    looked at.  The time returned is that of the first certificate, though
    a node the walk visited expires earlier. *)
Lemma exptime_misses_visited_node :
  let mid := Sample.without_issuer (Sample.with_not_after "20220101T000000" Sample.ca) in
  let st := Sample.store [Sample.ee; mid; Sample.root] in
  (exists st',
     gpgsm_validate_chain Sample.calm Sample.default_opt Sample.crl_ctrl 3 st
       (mkH 0 Sample.ee) true false 0
     = Some (gpg_error GPG_ERR_BAD_CERT, Some "20300101T000000", st')
     /\ In (EvCheckCertSig mid Sample.ee) (trace st'))
  /\ visited_nodes Sample.calm Sample.default_opt Sample.crl_ctrl 3 st
       (mkH 0 Sample.ee) false 0 = [Sample.ee; mid]
  /\ not_afters [Sample.ee; mid] = ["20300101T000000"; "20220101T000000"]
  /\ strcmp_gt "20300101T000000" "20220101T000000" = true
  /\ ~ is_earliest "20300101T000000" (not_afters [Sample.ee; mid]).
Proof.
  intros mid st. split; [|split; [|split; [|split]]].
  - eexists. vm_compute. split; [reflexivity|].
    repeat first [ left; reflexivity | right ].
  - vm_compute. reflexivity.
  - vm_compute. reflexivity.
  - vm_compute. reflexivity.
  - intros [_ H]. specialize (H "20220101T000000").
    assert (Hin : In "20220101T000000" (not_afters [Sample.ee; mid]))
      by (vm_compute; auto).
    specialize (H Hin). vm_compute in H. discriminate.
Qed.

(** C5, amended.  When [r_exptime] is given, the time stored there on
    return is the earliest not-after time, in the order of [strcmp], of
    the certificates the walk has visited and whose validity period it has
    read: these are all the certificates visited, except the last one
    when the walk left on it because it names no issuer or its validity
    period cannot be read; when the function returns 0 they are all the
    certificates visited.  Certificates with an empty not-after time do
    not count, and the time is empty when no certificate counts (as after
    the bypass, which visits none). *)
Theorem exptime_is_earliest (W : world) (opt : options) (ctrl : ctrl_t)
    (fuel : nat) (st st' : state) (cert : cert_h) (lm : bool) (flags : Z)
    (rc : gpg_error_t) (e : option ksba_isotime_t) :
  gpgsm_validate_chain W opt ctrl fuel st cert true lm flags = Some (rc, e, st') ->
  let nodes := visited_nodes W opt ctrl fuel st cert lm flags in
  exists t,
    e = Some t
    /\ is_earliest t (not_afters (filter validity_read nodes))
    /\ (forall front c back, nodes = front ++ c :: back -> back <> [] ->
                             validity_read c = true)
    /\ (rc = rc_0 -> filter validity_read nodes = nodes).
Proof.
  intros H nodes. subst nodes. unfold visited_nodes, rounds_of.
  pose proof H as H0. unfold gpgsm_validate_chain in H.
  destruct (no_chain_validation opt && negb lm) eqn:Hb.
  { inversion H; subst. exists EmptyString. cbn [map filter].
    split; [reflexivity|]. split; [reflexivity|]. split; [|reflexivity].
    intros [|? ?]; discriminate. }
  destruct (validate_chain_walk _ _ _ _ _ _ _ _ _ _ _) as [[[f l] st1]|] eqn:Hw;
    [|discriminate].
  destruct (validate_chain_leave W cert (flow_rc f) l st1) as [rc' st2].
  inversion H; subst rc' e st2; clear H.
  exists (l_exptime l). split; [reflexivity|].
  pose proof (validate_chain_walk_exptime _ _ _ _ _ _ _ _ _ _ _ _ _ _ Hw) as Hmin.
  pose proof Hw as Hloop. rewrite validate_chain_walk_loop in Hloop.
  destruct (w_keydb_new W (trace st)).
  2:{ inversion Hloop; subst. cbn [map filter].
      split; [exact (Hmin eq_refl)|]. split; [|reflexivity].
      intros [|? ?]; discriminate. }
  destruct (chain_loop _ _ _ _ _ _ _ _ _ _ _ _ _) as [[[fl l2] st2]|] eqn:El;
    [|discriminate].
  destruct (chain_loop_read _ _ _ _ _ _ _ _ _ _ _ _ _ _ _ El) as (Hv & Hin & Hall).
  assert (Hl : l2 = l) by (destruct fl; inversion Hloop; reflexivity).
  subst l2. cbn [l_visited set_kh init_locals] in Hv. rewrite app_nil_r in Hv.
  split; [|split; [exact Hin|]].
  - apply is_earliest_rev. rewrite <- not_afters_rev, <- Hv. exact (Hmin eq_refl).
  - intros ->. destruct fl as [u|rcl]; [exact (Hall u eq_refl)|].
    exfalso. inversion Hloop; subst f.
    destruct (walk_of_success _ _ _ _ _ _ _ _ _ _ _ Hb H0) as (l3 & st3 & Hw3 & _).
    rewrite Hw in Hw3. discriminate.
Qed.

Lemma exptime_is_earliest_witness :
  let leaf := Sample.with_not_after "20250615T120000" Sample.ee in
  let mid := Sample.with_not_after "20220101T000000" Sample.ca in
  (exists st',
     gpgsm_validate_chain Sample.calm Sample.default_opt Sample.crl_ctrl 3
       (Sample.store [leaf; mid; Sample.root]) (mkH 0 leaf) true false 0
     = Some (rc_0, Some "20220101T000000", st'))
  /\ is_earliest "20220101T000000"
                 ["20250615T120000"; "20220101T000000"; "20300101T000000"].
Proof.
  intros leaf mid.
  assert (Hrun : match gpgsm_validate_chain Sample.calm Sample.default_opt
                         Sample.crl_ctrl 3 (Sample.store [leaf; mid; Sample.root])
                         (mkH 0 leaf) true false 0 with
                 | Some (rc, e, _) => rc = rc_0 /\ e = Some "20220101T000000"
                 | None => False
                 end) by (vm_compute; split; reflexivity).
  destruct (gpgsm_validate_chain _ _ _ _ _ _ _ _ _) as [[[rc e] st']|] eqn:Hg;
    [|contradiction].
  destruct Hrun as [-> ->].
  split; [exists st'; reflexivity|].
  destruct (exptime_is_earliest Sample.calm Sample.default_opt Sample.crl_ctrl 3
              (Sample.store [leaf; mid; Sample.root]) st' (mkH 0 leaf) false 0
              rc_0 (Some "20220101T000000") Hg)
    as (t & Ht & Hmin & _ & Hall).
  inversion Ht; subst t. rewrite (Hall eq_refl) in Hmin.
  assert (Hnodes : not_afters
                     (visited_nodes Sample.calm Sample.default_opt Sample.crl_ctrl 3
                        (Sample.store [leaf; mid; Sample.root]) (mkH 0 leaf) false 0)
                   = ["20250615T120000"; "20220101T000000"; "20300101T000000"])
    by (vm_compute; reflexivity).
  rewrite Hnodes in Hmin. exact Hmin.
Defined.

Section RootRound.
Variable W : world.
Variable opt : options.
Variable ctrl : ctrl_t.
Variable cert : cert_h.
Variable listmode : bool.
Variable flags : Z.
Variable current_time : ksba_isotime_t.




End RootRound.





Lemma ca_checked_ext (P : event -> bool) (W : world) (st st' : state) (d : Z)
    (i : ksba_cert) :
  ext P st st' -> ca_checked W (trace st) d i -> ca_checked W (trace st') d i.
Proof.
  intros He. unfold ca_checked. destruct (cert_is_ca i) as [[err flag] n].
  destruct (failed err); [|auto].
  intros (Hr & b & Hc & Hw). split; [exact Hr|]. exists b.
  split; [eapply called_ext; eassumption|exact Hw].
Qed.

Lemma issuers_checked_ext (P : event -> bool) (W : world) (st st' : state)
    (chain : list ksba_cert) :
  ext P st st' -> issuers_checked W (trace st) chain ->
  issuers_checked W (trace st') chain.
Proof.
  intros He. induction chain as [|i rest IH]; [trivial|].
  cbn [issuers_checked]. intros [Hl Hr]. split; [|now apply IH].
  destruct rest as [|s rest]; [trivial|]. eapply ca_checked_ext; eassumption.
Qed.

Section IssuerFacts.
Variable W : world.
Variable opt : options.
Variable ctrl : ctrl_t.
Variable cert : cert_h.
Variable listmode : bool.
Variable flags : Z.
Variable current_time : ksba_isotime_t.
Variable maxdepth : Z.

Lemma issuer_allowed_ca_checked (i : cert_h) (l l' : locals) (st st' : state)
    (x : bool * gpg_error_t * rootca_flags_s) :
  issuer_allowed_ca W opt i l st = Some (Go x, l', st') ->
  ca_checked W (trace st') (l_depth l) (h_cert i).
Proof.
  unfold issuer_allowed_ca. intros H.
  bind_go H a l1 st1 E1. destruct a as [rc chainlen].
  unfold with_state in E1.
  destruct (allowed_ca W opt st i) as [[rc0 n0] s0] eqn:Ea.
  inversion E1; subst rc0 n0 l1 s0; clear E1.
  bind_go H b l2 st2 E2. destruct b as [[[[rc2 n2] is_root] t] rf].
  bind_go H u l3 st3 E3.
  bind_go H l4 l5 st5 E4. inversion E4; subst l4 l5 st5; clear E4.
  unfold leave_if_failed in E3.
  destruct (failed rc2) eqn:Ef2; [discriminate|].
  inversion E3; subst l3 st3; clear E3.
  destruct ((0 <=? n2)%Z && (n2 <? l_depth l2 - 1)%Z) eqn:Ep; [discriminate|].
  inversion H; subst l' st' x; clear H.
  assert (Hpath : (0 <= n2 -> l_depth l2 - 1 <= n2)%Z).
  { intros Hn. apply andb_false_iff in Ep. destruct Ep as [Ep|Ep].
    - apply Z.leb_gt in Ep. lia.
    - apply Z.ltb_ge in Ep. exact Ep. }
  clear Ep.
  unfold ca_checked. unfold allowed_ca in Ea.
  destruct (cert_is_ca (h_cert i)) as [[err flag] n] eqn:Ec.
  destruct (failed rc) eqn:Ef.
  - assert (Hrelax : relaxed_root W (trace st2) (h_cert i)).
    { destruct (gpgsm_is_root_cert (h_cert i)) eqn:Er.
      + bind_go E2 tr l6 st6 E6. destruct tr as [t' rf'].
        unfold agent_istrusted, with_state in E6.
        inversion E6 as [[Ht Hl Hs]]; clear E6.
        destruct (negb (failed t') && relax rf') eqn:Eg.
        * inversion E2; subst; clear E2.
          apply andb_true_iff in Eg. destruct Eg as [Eg1 Eg2].
          apply negb_true_iff, failed_false in Eg1.
          split; [exact Er|]. exists (trace st1).
          split; [apply called_log|]. rewrite Ht. split; assumption.
        * inversion E2; subst. congruence.
      + inversion E2; subst. congruence. }
    destruct (failed err) eqn:Efe; [exact Hrelax|].
    destruct flag; cbn [negb] in Ea.
    + inversion Ea; subst. discriminate.
    + exact I.
  - inversion E2; subst; clear E2.
    destruct (failed err) eqn:Efe.
    { inversion Ea; subst. congruence. }
    destruct flag; cbn [negb] in Ea.
    + inversion Ea; subst. exact Hpath.
    + exact I.
Qed.

Lemma issuer_checks_checked (fuel : nat) (s : cert_h) (issuer : string)
    (next : cert_h) (l l' : locals) (st st' : state) :
  issuer_checks W opt ctrl listmode flags fuel s issuer l st = Some (Go next, l', st') ->
  ca_checked W (trace st') (l_depth l) (h_cert next).
Proof.
  unfold issuer_checks. intros H.
  bind_go H rc l1 st1 E1.
  destruct (find_up W opt st (keydb_search_reset (l_kh l)) (h_cert s) issuer false)
    as [[r k] s1] eqn:Eu.
  inversion E1; subst; clear E1.
  destruct (failed rc) eqn:Er; [discriminate|].
  bind_go H got l2 st2 E2.
  destruct (keydb_get_cert st1 (l_kh (set_kh k l))) as [[r2 c2] s2] eqn:Eg.
  inversion E2; subst; clear E2.
  destruct c2 as [ic0|]; [|discriminate].
  destruct (failed r2); [discriminate|].
  bind_go H ic l3 st3 E3.
  pose proof (try_another_cert_core W opt _ _ _ _ _ _ _ _ _ E3) as (Hd3 & _).
  cbn [fst l_depth set_kh] in Hd3.
  bind_go H x l4 st4 E4. destruct x as [[is_root t] rf].
  pose proof (issuer_allowed_ca_checked _ _ _ _ _ _ E4) as Hc.
  rewrite Hd3 in Hc.
  bind_go H u5 l5 st5 E5.
  assert (H5 : ext any_call st4 st5).
  { revert E5. match goal with
               | |- ?m l4 st4 = _ -> _ =>
                   assert (K : keeps (calls any_call) m);
                     [|intros E5; exact (K _ _ _ _ _ E5)]
               end.
    repeat first [ apply keeps_with_state; intros; apply ext_log; reflexivity
                 | calls_step any_call ]. }
  bind_go H u6 l6 st6 E6.
  assert (H6 : ext any_call st5 st6).
  { revert E6. match goal with
               | |- ?m l5 st5 = _ -> _ =>
                   assert (K : keeps (calls any_call) m);
                     [|intros E6; exact (K _ _ _ _ _ E6)]
               end.
    repeat first [ apply (revocation_check_grows W opt ctrl) | calls_step any_call ]. }
  bind_go H u7 l7 st7 E7. inversion E7; subst; clear E7.
  inversion H; subst; clear H.
  eapply ca_checked_ext; [|exact Hc].
  eapply ext_trans; [exact H5|exact H6].
Qed.

Lemma chain_step_checked_issuer (fuel : nat) (s next : cert_h) (l l' : locals)
    (st st' : state) :
  chain_step W opt ctrl cert listmode flags current_time maxdepth fuel s l st
  = Some (Go (Some next), l', st') ->
  ca_checked W (trace st') (l_depth l + 1) (h_cert next).
Proof.
  intros H. unfold chain_step in H.
  destruct (cert_issuer (h_cert s)) as [issuer|] eqn:Ei; [|discriminate].
  bind_go H tr l1 st1 En. destruct tr as [t rf].
  destruct (node_checks_pass _ _ _ _ _ _ _ _ _ _ _ En) as (_ & _ & Hd).
  destruct (opt_eqb (cert_subject (h_cert s)) issuer) eqn:Er.
  - bind_go H u l2 st2 E2. destruct u. discriminate.
  - bind_go H nx l2 st2 E2. inversion H; subst; clear H.
    rewrite issuer_node_cases in E2.
    destruct (maxdepth <? l_depth l1 + 1)%Z; [discriminate|].
    apply issuer_checks_checked in E2. cbn [l_depth set_depth] in E2.
    rewrite Hd in E2. exact E2.
Qed.

Lemma chain_loop_issuers (rounds fuel : nat) (s : cert_h) (l l' : locals)
    (st st' : state) :
  chain_loop W opt ctrl cert listmode flags current_time maxdepth rounds fuel s l st
  = Some (Go tt, l', st') ->
  l_depth l = Z.of_nat (List.length (l_visited l)) ->
  (l_depth l <= maxdepth)%Z ->
  issuers_checked W (trace st) (l_visited l) ->
  match l_visited l with
  | [] => True
  | _ :: _ => ca_checked W (trace st) (l_depth l) (h_cert s)
  end ->
  (Z.of_nat (List.length (l_visited l')) <= maxdepth + 1)%Z
  /\ issuers_checked W (trace st') (l_visited l').
Proof.
  revert s l st. induction rounds as [|rounds IH]; intros s l st; [discriminate|].
  cbn [chain_loop]. intros H Hd Hm Hi Hp.
  bind_go H x l1 st1 Es.
  pose proof (chain_step_grows W opt ctrl cert listmode flags current_time maxdepth
                fuel s _ _ _ _ _ Es) as He.
  unfold calls in He. cbn [snd] in He.
  destruct (chain_step_inv W opt ctrl cert listmode flags current_time
              _ _ _ _ _ _ _ _ Es) as (Hv & Hx).
  assert (Hi1 : issuers_checked W (trace st1) (l_visited l1)).
  { rewrite Hv. cbn [issuers_checked]. split; [|eapply issuers_checked_ext; eassumption].
    destruct (l_visited l) as [|p rest]; [trivial|].
    rewrite <- Hd. eapply ca_checked_ext; eassumption. }
  destruct x as [next|].
  - destruct Hx as (Hd1 & Hle & _).
    apply (IH _ _ _ H); [| lia | exact Hi1 |].
    + rewrite Hd1, Hv, Hd. cbn [List.length]. lia.
    + rewrite Hv, Hd1. exact (chain_step_checked_issuer _ _ _ _ _ _ _ Es).
  - inversion H; subst; clear H. split; [|exact Hi1].
    rewrite Hv. cbn [List.length]. lia.
Qed.
End IssuerFacts.

(** X17.  When [gpgsm_validate_chain] returns 0 (and did not bypass the
    validation), the path length constraints of the chain it walked are
    kept: of every node of the walk but the certificate to validate, when
    its basicConstraints mark it as a CA with a path length, that length
    is not less than the number of nodes between it and the certificate
    to validate; and when its basicConstraints cannot be read, it is a
    self-issued certificate that the agent reported as trusted with the
    relax flag.  (Nothing is said of a certificate that its
    basicConstraints do not mark as a CA.) *)
Theorem validated_chain_issuers_allowed (W : world) (opt : options) (ctrl : ctrl_t)
    (fuel : nat) (st st' : state) (cert : cert_h) (r : bool) (lm : bool) (flags : Z)
    (e : option ksba_isotime_t) :
  no_chain_validation opt && negb lm = false ->
  gpgsm_validate_chain W opt ctrl fuel st cert r lm flags = Some (rc_0, e, st') ->
  issuers_checked W (trace st') (rev (visited_nodes W opt ctrl fuel st cert lm flags)).
Proof.
  intros Hby H. destruct (walk_of_success _ _ _ _ _ _ _ _ _ _ _ Hby H)
    as (l & st1 & Hw & _ & He).
  pose proof Hw as Hloop. rewrite validate_chain_walk_loop in Hloop.
  unfold visited_nodes, rounds_of. rewrite Hby.
  destruct (w_keydb_new W (trace st)); [|discriminate].
  destruct (chain_loop _ _ _ _ _ _ _ _ _ _ _ _ _) as [[[[[]|rc] l2] st2]|] eqn:El;
    try discriminate.
  inversion Hloop; subst l2 st2; clear Hloop.
  destruct (chain_loop_issuers _ _ _ _ _ _ _ _ _ _ _ _ _ _ _ El) as (Hn & Hi);
    [reflexivity | cbn; lia | exact I | exact I |].
  destruct (chain_loop_read _ _ _ _ _ _ _ _ _ _ _ _ _ _ _ El) as (Hv & _ & Hall).
  rewrite (Hall tt eq_refl) in Hv.
  cbn [l_visited set_kh init_locals] in Hv. rewrite app_nil_r in Hv.
  rewrite <- Hv. eapply issuers_checked_ext; [exact He|exact Hi].
Qed.

Lemma answers_ok_app (W : world) (e2 e1 base : list event) :
  answers_ok W (e2 ++ e1) base
  = answers_ok W e2 (e1 ++ base) && answers_ok W e1 base.
Proof.
  induction e2 as [|e rest IH]; [reflexivity|].
  cbn [app answers_ok]. rewrite IH, <- app_assoc, andb_assoc. reflexivity.
Qed.

Lemma answers_ok_quiet (W : world) (evs base : list event) :
  forallb ungated evs = true -> answers_ok W evs base = true.
Proof.
  induction evs as [|e rest IH]; [reflexivity|].
  cbn [forallb answers_ok]. intros H. apply andb_true_iff in H. destruct H as [He Hr].
  rewrite (IH Hr), andb_true_r. destruct e; try reflexivity; discriminate.
Qed.

Lemma answers_ok_called (W : world) (evs base pre post : list event) (e : event) :
  answers_ok W evs base = true ->
  evs = pre ++ e :: post ->
  answered_ok W (post ++ base) e = true.
Proof.
  intros H ->. change (pre ++ e :: post) with (pre ++ [e] ++ post) in H.
  rewrite !answers_ok_app in H.
  apply andb_true_iff in H. destruct H as [_ H].
  apply andb_true_iff in H. destruct H as [H _].
  cbn [answers_ok] in H. rewrite andb_true_r in H. exact H.
Qed.

Lemma rev_same_refl (x : locals * state) : rev_same x x.
Proof. reflexivity. Qed.

Lemma rev_same_trans (x y z : locals * state) :
  rev_same x y -> rev_same y z -> rev_same x z.
Proof. unfold rev_same. congruence. Qed.

Lemma rev_clean_refl (W : world) (x : locals * state) : rev_clean W x x.
Proof. split; [auto|]. exists []. split; reflexivity. Qed.

Lemma rev_clean_trans (W : world) (x y z : locals * state) :
  rev_clean W x y -> rev_clean W y z -> rev_clean W x z.
Proof.
  intros [M1 (e1 & T1 & A1)] [M2 (e2 & T2 & A2)]. split; [auto|].
  exists (e2 ++ e1). split; [rewrite T2, T1; apply app_assoc|].
  intros Hz. rewrite answers_ok_app, <- T1, (A2 Hz). cbn [andb].
  apply A1. destruct (dirty (fst y)); [|reflexivity].
  rewrite (M2 eq_refl) in Hz. discriminate.
Qed.

Lemma keeps_go_of_keeps {A} (R : locals * state -> locals * state -> Prop) (m : M A) :
  keeps R m -> keeps_go R m.
Proof. intros K l st a l' st' H. exact (K _ _ _ _ _ H). Qed.

Lemma keeps_go_goto_leave {A} (R : locals * state -> locals * state -> Prop)
    (rc : gpg_error_t) : keeps_go R (@goto_leave A rc).
Proof. intros l st a l' st' H. discriminate. Qed.

Lemma keeps_go_bind {A B} (R : locals * state -> locals * state -> Prop)
    (R_trans : forall x y z, R x y -> R y z -> R x z) (m : M A) (k : A -> M B) :
  keeps_go R m -> (forall a, keeps_go R (k a)) -> keeps_go R (bind m k).
Proof.
  intros Hm Hk l st b l' st' H. bind_go H a l1 st1 E.
  eapply R_trans; [exact (Hm _ _ _ _ _ E)|exact (Hk _ _ _ _ _ _ H)].
Qed.

(** A piece of code that leaves the revocation flags alone and makes no
    revocation check. *)
Lemma quiet_clean {A} (W : world) (m : M A) :
  keeps rev_same m -> keeps (calls ungated) m -> keeps_go (rev_clean W) m.
Proof.
  intros Hr Hc l st a l' st' H.
  pose proof (Hr _ _ _ _ _ H) as Hl. pose proof (Hc _ _ _ _ _ H) as (evs & Ht & Hq).
  unfold rev_same in Hl. cbn [fst snd] in *.
  split; cbn [fst snd].
  - unfold dirty. now rewrite Hl.
  - exists evs. split; [exact Ht|]. intros _. now apply answers_ok_quiet.
Qed.

Ltac rev := repeat keeps_step rev_same_refl rev_same_trans.

Ltac rev_by_cases :=
  let l := fresh "l" in let st := fresh "st" in
  let f := fresh "f" in let l' := fresh "l'" in let st' := fresh "st'" in
  let H := fresh "H" in
  intros l st f l' st';
  repeat match goal with
         | |- context [match ?x with _ => _ end] => destruct x
         end;
  intros H; inversion H; subst; reflexivity.

(** Decompose a goal [keeps_go (rev_clean W) m] along the structure of
    [m]; the conditions met on the way are kept as equations. *)
Ltac clean_step W :=
  first
    [ apply keeps_go_goto_leave
    | apply keeps_go_of_keeps; apply (keeps_ret _ (rev_clean_refl W))
    | apply keeps_go_of_keeps; apply (keeps_get_locals _ (rev_clean_refl W))
    | apply keeps_go_of_keeps; apply (keeps_leave_if_failed _ (rev_clean_refl W))
    | apply (keeps_go_bind _ (rev_clean_trans W)); [|intros ?]
    | match goal with
      | |- keeps_go _ (if ?b then _ else _) =>
          let E := fresh "E" in case_eq b; intros E
      | |- keeps_go _ (match ?x with _ => _ end) => destruct x
      end ].

Section RevocationFacts.
Variable W : world.
Variable opt : options.
Variable ctrl : ctrl_t.
Variable cert : cert_h.
Variable listmode : bool.
Variable flags : Z.
Variable current_time : ksba_isotime_t.
Variable maxdepth : Z.

Lemma check_validity_rev (c : ksba_cert) :
  keeps rev_same (check_validity opt current_time c).
Proof. unfold check_validity. rev_by_cases. Qed.

Lemma policy_check_rev (c : ksba_cert) : keeps rev_same (policy_check W opt c).
Proof.
  unfold policy_check. destruct (negb (no_policy_check opt)); [|rev].
  rev_by_cases.
Qed.

Lemma resolve_qualified_rev (s : cert_h) : keeps rev_same (resolve_qualified W cert s).
Proof. unfold resolve_qualified. rev_by_cases. Qed.

Lemma act_on_trust_rev (c : ksba_cert) (rc : gpg_error_t) :
  keeps rev_same (act_on_trust W listmode c rc).
Proof. unfold act_on_trust. rev_by_cases. Qed.

Lemma with_state_rev {A} (f : state -> A * state) : keeps rev_same (with_state f).
Proof. apply keeps_with_state. reflexivity. Qed.

Lemma modify_locals_rev (f : locals -> locals) :
  (forall l, l_rev (f l) = l_rev l) -> keeps rev_same (modify_locals f).
Proof. intros H. apply keeps_modify_locals. intros l st. apply H. Qed.

Lemma try_another_cert_rev (fuel : nat) (s : cert_h) (issuer : string) (i : cert_h) :
  keeps rev_same (try_another_cert W opt fuel s issuer i).
Proof.
  revert i. induction fuel as [|fuel IH]; intros i; cbn [try_another_cert].
  - intros l st f l' st' H. discriminate.
  - unfold check_cert_sig. repeat first [ apply with_state_rev | keeps_step rev_same_refl rev_same_trans ].
    intros l st f l' st'.
    destruct (find_up _ _ _ _ _ _ _) as [[r k] s1].
    destruct (negb (failed r)); [|intros H; inversion H; subst; reflexivity].
    destruct (keydb_get_cert s1 k) as [[r2 t] s2].
    destruct t as [t|]; [|intros H; inversion H; subst; reflexivity].
    destruct (failed r2 || _); [intros H; inversion H; subst; reflexivity|].
    intros H. apply IH in H. exact H.
Qed.

Lemma issuer_allowed_ca_rev (i : cert_h) : keeps rev_same (issuer_allowed_ca W opt i).
Proof.
  unfold issuer_allowed_ca, agent_istrusted.
  repeat first [ apply with_state_rev | keeps_step rev_same_refl rev_same_trans ].
Qed.

Lemma node_checks_rev (c : ksba_cert) (is_root : bool) :
  keeps rev_same (node_checks W opt current_time c is_root).
Proof.
  unfold node_checks, agent_istrusted.
  repeat first [ apply with_state_rev | apply check_validity_rev | apply policy_check_rev
               | keeps_step rev_same_refl rev_same_trans ].
Qed.

(** The revocation check proper. *)
Lemma revocation_gate_clean (s i : ksba_cert) :
  keeps_go (rev_clean W) (revocation_gate W opt ctrl s i).
Proof.
  unfold revocation_gate, revocation_check, bind, leave_if_failed, goto_leave, ret.
  intros l st a l' st'. unfold is_cert_still_valid.
  destruct (negb (no_crl_check opt) || use_ocsp ctrl).
  2:{ cbn [failed]. intros H; inversion H; subst. split; [auto|].
      exists []. split; reflexivity. }
  set (err := w_isvalid W (trace st) s i (use_ocsp ctrl)).
  set (st1 := log _ st).
  destruct (failed err) eqn:Ef.
  - destruct (has_code err GPG_ERR_CERT_REVOKED).
    { destruct (keydb_set_cert_flags st1 s KEYBOX_FLAG_VALIDITY 0 VALIDITY_REVOKED)
        as [x st2] eqn:Ek.
      assert (Ht : trace st2 = trace st1).
      { unfold keydb_set_cert_flags in Ek. destruct (existsb _ _); inversion Ek; reflexivity. }
      cbn [failed]. intros H; inversion H; subst. split; [reflexivity|].
      exists [EvIsValid s i (use_ocsp ctrl)]. split; [exact Ht|]. discriminate. }
    destruct (has_code err GPG_ERR_NO_CRL_KNOWN).
    { cbn [failed]. intros H; inversion H; subst. split.
      - intros _. unfold dirty. cbn.
        destruct (any_revoked (l_rev l)), (any_no_crl (l_rev l)),
          (any_crl_too_old (l_rev l)); reflexivity.
      - exists [EvIsValid s i (use_ocsp ctrl)]. split; [reflexivity|].
        unfold dirty. cbn.
        destruct (any_revoked (l_rev l)), (any_no_crl (l_rev l)),
          (any_crl_too_old (l_rev l)); discriminate. }
    destruct (has_code err GPG_ERR_CRL_TOO_OLD).
    { cbn [failed]. intros H; inversion H; subst. split.
      - intros _. unfold dirty. cbn.
        destruct (any_revoked (l_rev l)), (any_no_crl (l_rev l)),
          (any_crl_too_old (l_rev l)); reflexivity.
      - exists [EvIsValid s i (use_ocsp ctrl)]. split; [reflexivity|].
        unfold dirty. cbn.
        destruct (any_revoked (l_rev l)), (any_no_crl (l_rev l)),
          (any_crl_too_old (l_rev l)); discriminate. }
    rewrite Ef. discriminate.
  - cbn [failed]. intros H; inversion H; subst. split; [auto|].
    exists [EvIsValid s i (use_ocsp ctrl)]. split; [reflexivity|].
    intros _. cbn [answers_ok answered_ok app snd]. fold err. now rewrite Ef.
Qed.

Lemma root_node_clean (s : cert_h) (rc : gpg_error_t) (rf : rootca_flags_s) :
  gpgsm_is_root_cert (h_cert s) = true ->
  keeps_go (rev_clean W) (root_node W opt ctrl cert listmode flags s rc rf).
Proof.
  intros Hroot. unfold root_node.
  repeat first
    [ apply revocation_gate_clean
    | apply quiet_clean;
        [ first [ apply resolve_qualified_rev | apply act_on_trust_rev
                | apply with_state_rev ]
        | first [ apply resolve_qualified_calls; intros; reflexivity
                | apply act_on_trust_calls; [intros; reflexivity|exact Hroot]
                | apply with_allowed_ca_calls; intros; reflexivity
                | apply check_cert_sig_calls; intros; reflexivity ] ]
    | clean_step W ].
Qed.

(** The test of the issuer's key usage with the jump behind it. *)
Lemma key_usage_gate_clean (i : cert_h) :
  keeps_go (rev_clean W)
    (rc <- with_state (fun st =>
             (w_use_cert_p W (trace st) (h_cert i), log (EvUseCert (h_cert i)) st)) ;;
     if failed rc then
       with_state (fun st =>
         (tt, log (EvStatus "certcert.issuer.keyusage" rc) st)) ;;;
       goto_leave rc
     else ret tt).
Proof.
  intros l st a l' st' H. unfold bind, with_state, goto_leave, ret in H.
  destruct (failed (w_use_cert_p W (trace st) (h_cert i))) eqn:Ef; [discriminate|].
  inversion H; subst. split; [auto|].
  exists [EvUseCert (h_cert i)]. split; [reflexivity|].
  intros _. cbn [answers_ok answered_ok app snd]. now rewrite Ef.
Qed.

Lemma issuer_checks_clean (fuel : nat) (s : cert_h) (issuer : string) :
  keeps_go (rev_clean W) (issuer_checks W opt ctrl listmode flags fuel s issuer).
Proof.
  unfold issuer_checks.
  repeat first
    [ apply revocation_gate_clean
    | apply key_usage_gate_clean
    | apply quiet_clean;
        [ first [ apply try_another_cert_rev | apply issuer_allowed_ca_rev
                | apply modify_locals_rev; intros; reflexivity ]
        | first [ apply try_another_cert_calls; intros; reflexivity
                | apply issuer_allowed_ca_calls; intros; reflexivity
                | apply modify_locals_calls ] ]
    | clean_step W ].
  - apply quiet_clean.
    + intros l st f l' st'.
      destruct (find_up _ _ _ _ _ _ _) as [[r k] s1].
      intros H; inversion H; subst; reflexivity.
    + intros l st f l' st'. unfold calls. cbn [snd].
      destruct (find_up _ _ _ _ _ _ _) as [[r k] s1] eqn:Ef.
      apply (find_up_calls W opt ungated) in Ef; try (intros; reflexivity).
      intros H; inversion H; subst. exact Ef.
  - apply quiet_clean.
    + intros l st f l' st'.
      destruct (keydb_get_cert st (l_kh l)) as [[r c] s1].
      intros H; inversion H; subst; reflexivity.
    + intros l st f l' st'. unfold calls. cbn [snd].
      destruct (keydb_get_cert st (l_kh l)) as [[r c] s1] eqn:Eg.
      apply (keydb_get_cert_calls ungated) in Eg; try (intros; reflexivity).
      intros H; inversion H; subst. exact Eg.
Qed.

Lemma chain_step_clean (fuel : nat) (s : cert_h) :
  keeps_go (rev_clean W)
    (chain_step W opt ctrl cert listmode flags current_time maxdepth fuel s).
Proof.
  unfold chain_step. destruct (cert_issuer (h_cert s)) as [issuer|] eqn:Ei;
    [|apply keeps_go_goto_leave].
  assert (Hroot : opt_eqb (cert_subject (h_cert s)) issuer = true ->
                  gpgsm_is_root_cert (h_cert s) = true).
  { intros H. rewrite (is_root_cert_iff _ _ Ei). exact H. }
  apply (keeps_go_bind _ (rev_clean_trans W)).
  { apply quiet_clean; [apply node_checks_rev|].
    apply node_checks_calls; try (intros; reflexivity). exact Hroot. }
  intros [t rf]. case_eq (opt_eqb (cert_subject (h_cert s)) issuer); intros E.
  - repeat first [ apply root_node_clean; auto | clean_step W ].
  - unfold issuer_node.
    repeat first
      [ apply issuer_checks_clean
      | apply quiet_clean;
          [apply modify_locals_rev; intros; reflexivity|apply modify_locals_calls]
      | clean_step W ].
Qed.

Lemma chain_loop_clean (rounds fuel : nat) (s : cert_h) :
  keeps_go (rev_clean W)
    (chain_loop W opt ctrl cert listmode flags current_time maxdepth rounds fuel s).
Proof.
  revert s. induction rounds as [|rounds IH]; intros s; cbn [chain_loop].
  - intros l st a l' st' H. discriminate.
  - repeat first [ apply chain_step_clean | apply IH | clean_step W ].
Qed.
End RevocationFacts.

(** X18.  When [gpgsm_validate_chain] returns 0, every call of
    [gpgsm_dirmngr_isvalid] and every call of [gpgsm_cert_use_cert_p] it
    made answered 0: a certificate dirmngr reports as revoked, or for
    which it reports a missing or outdated CRL or any other error, and an
    issuer whose key may not be used to certify, are never part of a chain
    that validates. *)
Theorem validated_chain_gates_passed (W : world) (opt : options) (ctrl : ctrl_t)
    (fuel : nat) (st st' : state) (cert : cert_h) (r : bool) (lm : bool) (flags : Z)
    (e : option ksba_isotime_t) :
  gpgsm_validate_chain W opt ctrl fuel st cert r lm flags = Some (rc_0, e, st') ->
  exists evs,
    trace st' = evs ++ trace st
    /\ (forall pre post s i o,
          evs = pre ++ EvIsValid s i o :: post ->
          w_isvalid W (post ++ trace st) s i o = rc_0)
    /\ (forall pre post c,
          evs = pre ++ EvUseCert c :: post ->
          w_use_cert_p W (post ++ trace st) c = rc_0).
Proof.
  intros H.
  destruct (no_chain_validation opt && negb lm) eqn:Hby.
  { unfold gpgsm_validate_chain in H. rewrite Hby in H. inversion H; subst.
    exists []. split; [reflexivity|]. split; intros [|? ?]; discriminate. }
  destruct (walk_of_success _ _ _ _ _ _ _ _ _ _ _ Hby H) as (l & st1 & Hw & Hv & _).
  unfold gpgsm_validate_chain in H. rewrite Hby, Hw in H. cbn [flow_rc] in H.
  pose proof (validate_chain_leave_calls W cert ungated (fun _ _ => eq_refl)
                rc_0 l st1) as (e2 & T2 & Q2).
  destruct (validate_chain_leave W cert rc_0 l st1) as [rc' st2].
  cbn [snd] in T2. inversion H; subst rc' st2; clear H.
  rewrite validate_chain_walk_loop in Hw.
  destruct (w_keydb_new W (trace st)); [|discriminate].
  destruct (chain_loop _ _ _ _ _ _ _ _ _ _ _ _ _) as [[[[[]|rc] l2] st2]|] eqn:El;
    try discriminate.
  inversion Hw; subst l2 st2; clear Hw.
  destruct (chain_loop_clean _ _ _ _ _ _ _ _ _ _ _ _ _ _ _ _ El) as (_ & e1 & T1 & A1).
  cbn [fst snd] in T1, A1.
  assert (Hd : dirty l = false).
  { unfold verdict in Hv. unfold dirty.
    destruct (any_revoked (l_rev l)); [discriminate|].
    destruct (l_any_expired l); [discriminate|].
    destruct (any_no_crl (l_rev l)); [discriminate|].
    destruct (any_crl_too_old (l_rev l)); [discriminate|reflexivity]. }
  specialize (A1 Hd).
  exists (e2 ++ e1 ++ [EvKeydbNew]). split.
  { rewrite T2, T1. cbn [trace log]. now rewrite <- !app_assoc. }
  assert (Hall : answers_ok W (e2 ++ e1 ++ [EvKeydbNew]) (trace st) = true).
  { rewrite !answers_ok_app. rewrite (answers_ok_quiet W e2 _ Q2).
    cbn [andb answers_ok answered_ok]. rewrite andb_true_r. exact A1. }
  rewrite ?Hv. split.
  - intros pre post s i o Hev.
    pose proof (answers_ok_called W _ _ pre post _ Hall Hev) as H.
    now apply negb_true_iff, failed_false in H.
  - intros pre post c Hev.
    pose proof (answers_ok_called W _ _ pre post _ Hall Hev) as H.
    now apply negb_true_iff, failed_false in H.
Qed.

Lemma qflag_same_refl (st : state) : qflag_same st st.
Proof. intros id. reflexivity. Qed.

Lemma qflag_same_trans (a b c : state) :
  qflag_same a b -> qflag_same b c -> qflag_same a c.
Proof. intros H1 H2 id. now rewrite H2, H1. Qed.

Lemma same_user_data_qflag (st st' : state) :
  user_data st' = user_data st -> qflag_same st st'.
Proof. intros H id. unfold user_data_lookup. now rewrite H. Qed.

Lemma searched_qflag (st st' : state) : searched st st' -> qflag_same st st'.
Proof. intros [H _]. now apply same_user_data_qflag. Qed.

Lemma set_user_data_qflag (W : world) (st : state) (c : cert_h) (key data : string) :
  String.eqb key "is_qualified" = false ->
  qflag_same st (snd (ksba_cert_set_user_data W st c key data)).
Proof.
  intros Hk id. unfold ksba_cert_set_user_data.
  destruct (failed _); cbn [snd]; [reflexivity|].
  unfold user_data_lookup. cbn [user_data set_user_data log find fst snd].
  rewrite Hk, andb_false_r. reflexivity.
Qed.

Lemma set_user_data_logs (W : world) (st st' : state) (c : cert_h)
    (key data : string) (err : gpg_error_t) :
  ksba_cert_set_user_data W st c key data = (err, st') ->
  trace st' = EvSetUserData (h_id c) key data :: trace st.
Proof.
  unfold ksba_cert_set_user_data. destruct (failed _); intros H; inversion H; reflexivity.
Qed.

Lemma qual_same_refl (x : locals * state) : qual_same x x.
Proof. split; [reflexivity|apply qflag_same_refl]. Qed.

Lemma qual_same_trans (x y z : locals * state) :
  qual_same x y -> qual_same y z -> qual_same x z.
Proof.
  intros [A1 B1] [A2 B2]. split; [congruence|eapply qflag_same_trans; eassumption].
Qed.

Lemma flag_reused_refl (cert : cert_h) (b : ascii) (x : locals * state) :
  flag_reused cert b x x.
Proof. intros H. split; [exact H|apply ext_refl]. Qed.

Lemma flag_reused_trans (cert : cert_h) (b : ascii) (x y z : locals * state) :
  flag_reused cert b x y -> flag_reused cert b y z -> flag_reused cert b x z.
Proof.
  intros A B H. destruct (A H) as [H1 E1]. destruct (B H1) as [H2 E2].
  split; [exact H2|eapply ext_trans; eassumption].
Qed.

Lemma qual_same_kept (cert : cert_h) (b : ascii) (x y : locals * state) :
  qual_same x y -> flag_kept cert b x -> flag_kept cert b y.
Proof. intros [A B] [K1 K2]. split; [now rewrite B|now rewrite A]. Qed.

(** A piece of code that leaves the flag and the is_qualified user data
    alone. *)
Lemma quiet_reused {A} (cert : cert_h) (b : ascii) (m : M A) :
  keeps qual_same m -> keeps (calls no_qualified_write) m ->
  keeps (flag_reused cert b) m.
Proof.
  intros Hq Hc l st f l' st' H K.
  split; [exact (qual_same_kept _ _ _ _ (Hq _ _ _ _ _ H) K)|].
  eapply ext_weaken; [|exact (Hc _ _ _ _ _ H)].
  intros [] He; try reflexivity. cbn in He |- *.
  destruct (String.eqb _ "is_qualified"); [discriminate|reflexivity].
Qed.

Section QualifiedFacts.
Variable W : world.
Variable opt : options.
Variable ctrl : ctrl_t.
Variable cert : cert_h.
Variable listmode : bool.
Variable flags : Z.
Variable current_time : ksba_isotime_t.
Variable maxdepth : Z.
Variable b : ascii.

Lemma get_regtp_ca_info_qflag (st : state) (c : cert_h) :
  qflag_same st (snd (get_regtp_ca_info W opt st c)).
Proof.
  unfold get_regtp_ca_info.
  destruct (ksba_cert_get_user_data st c "regtp_ca_chainlen" 2) as [err buf].
  destruct (negb (failed err)).
  { destruct buf as [|b0 [|b1 rest]]; try apply qflag_same_refl.
    destruct (Ascii.eqb b0 NUL); apply qflag_same_refl. }
  destruct (negb (has_code err GPG_ERR_NOT_FOUND)); [apply qflag_same_refl|].
  destruct (regtp_walk W opt (DIM_array - 1) st c [c] rc_0)
    as [[[rc last] array] st1] eqn:Ew.
  destruct (regtp_walk_facts _ _ _ _ _ _ _ _ _ _ _ Ew) as [Hs _].
  apply searched_qflag in Hs.
  assert (Hleave : forall s, qflag_same st s ->
            qflag_same st
              (snd (let (_, st') := ksba_cert_set_user_data W s last "regtp_ca_chainlen"
                                       regtp_none_mark in (false, 0%Z, st')))).
  { intros s Hs0. pose proof (set_user_data_qflag W s last "regtp_ca_chainlen"
                                regtp_none_mark eq_refl) as H.
    destruct (ksba_cert_set_user_data W s last _ _) as [e s']. cbn [snd] in *.
    exact (qflag_same_trans _ _ _ Hs0 H). }
  destruct (negb (is_m1 rc) || _ || _); [now apply Hleave|].
  destruct (w_qualified W (trace st1) _) as [qerr country].
  set (st2 := log _ st1).
  assert (H2 : qflag_same st st2) by exact Hs.
  destruct (negb (failed qerr) && String.eqb country "de"); [|now apply Hleave].
  match goal with
  | |- context [ksba_cert_set_user_data W st2 ?t ?k regtp_root_mark] =>
      pose proof (set_user_data_qflag W st2 t k regtp_root_mark eq_refl) as H3;
      destruct (ksba_cert_set_user_data W st2 t k regtp_root_mark) as [e1 st3]
  end.
  cbn [snd] in *.
  assert (H3' : qflag_same st st3) by exact (qflag_same_trans _ _ _ H2 H3).
  destruct (negb (failed e1) && _); [|exact H3'].
  eapply qflag_same_trans; [exact H3'|now apply set_user_data_qflag].
Qed.

Lemma allowed_ca_qflag (st : state) (c : cert_h) :
  qflag_same st (snd (allowed_ca W opt st c)).
Proof.
  unfold allowed_ca. destruct (cert_is_ca (h_cert c)) as [[err flag] chainlen].
  destruct (failed err); [apply qflag_same_refl|].
  destruct (negb flag); [|apply qflag_same_refl].
  pose proof (get_regtp_ca_info_qflag st c) as H.
  destruct (get_regtp_ca_info W opt st c) as [[r n] s']. cbn [snd] in H.
  destruct r; exact H.
Qed.

Lemma is_cert_still_valid_qflag (st : state) (s i : ksba_cert) (fl : revocation_flags) :
  qflag_same st (snd (is_cert_still_valid W opt ctrl st s i fl)).
Proof.
  unfold is_cert_still_valid.
  destruct (negb (no_crl_check opt) || use_ocsp ctrl); [|apply qflag_same_refl].
  destruct (failed _); [|apply same_user_data_qflag; reflexivity].
  destruct (has_code _ GPG_ERR_CERT_REVOKED).
  { unfold keydb_set_cert_flags.
    destruct (existsb _ _); apply same_user_data_qflag; reflexivity. }
  destruct (has_code _ GPG_ERR_NO_CRL_KNOWN); [apply same_user_data_qflag; reflexivity|].
  destruct (has_code _ GPG_ERR_CRL_TOO_OLD); apply same_user_data_qflag; reflexivity.
Qed.

Lemma with_state_qual {A} (f : state -> A * state) :
  (forall st, qflag_same st (snd (f st))) -> keeps qual_same (with_state f).
Proof. intros H. apply keeps_with_state. intros l st. split; [reflexivity|apply H]. Qed.

Lemma modify_locals_qual (f : locals -> locals) :
  (forall l, l_is_qualified (f l) = l_is_qualified l) ->
  keeps qual_same (modify_locals f).
Proof.
  intros H. apply keeps_modify_locals. intros l st.
  split; [apply H|apply qflag_same_refl].
Qed.

Ltac qual_log := apply with_state_qual; intros; apply same_user_data_qflag; reflexivity.

Lemma with_allowed_ca_qual (s : cert_h) :
  keeps qual_same
    (with_state (fun st => let '(rc, _, st') := allowed_ca W opt st s in (rc, st'))).
Proof.
  apply with_state_qual. intros st.
  pose proof (allowed_ca_qflag st s) as H.
  destruct (allowed_ca W opt st s) as [[r c] s']. exact H.
Qed.

Lemma check_validity_qual (c : ksba_cert) :
  keeps qual_same (check_validity opt current_time c).
Proof.
  unfold check_validity. intros l st f l' st'.
  repeat match goal with
         | |- context [match ?x with _ => _ end] => destruct x
         end;
    intros H; inversion H; subst; (split; [reflexivity|apply qflag_same_refl]).
Qed.

Lemma policy_check_qual (c : ksba_cert) : keeps qual_same (policy_check W opt c).
Proof.
  unfold policy_check.
  destruct (negb (no_policy_check opt)); [|apply (keeps_ret _ qual_same_refl)].
  intros l st f l' st'. destruct (check_cert_policy _ _ _) as [rc|]; [|discriminate].
  destruct (has_code rc GPG_ERR_NO_POLICY_MATCH);
    [intros H; inversion H; subst; split; [reflexivity|apply qflag_same_refl]|].
  destruct (failed rc); intros H; inversion H; subst; apply qual_same_refl.
Qed.

Lemma act_on_trust_qual (c : ksba_cert) (rc : gpg_error_t) :
  keeps qual_same (act_on_trust W listmode c rc).
Proof.
  unfold act_on_trust. intros l st f l' st'.
  destruct (negb (failed rc)); [intros H; inversion H; subst; apply qual_same_refl|].
  destruct (has_code rc GPG_ERR_NOT_TRUSTED);
    [|intros H; inversion H; subst; apply qual_same_refl].
  destruct (negb (l_any_expired l) && _);
    [|intros H; inversion H; subst; apply qual_same_refl].
  set (asked := if no_more_questions st then _ else _).
  assert (Ha : user_data (snd asked) = user_data st)
    by (subst asked; destruct (no_more_questions st); reflexivity).
  destruct asked as [rc2 st1]. cbn [snd] in Ha.
  intros H; inversion H; subst. split; [reflexivity|].
  apply same_user_data_qflag. cbn [snd]. rewrite <- Ha.
  destruct (has_code rc2 GPG_ERR_NOT_SUPPORTED); [reflexivity|].
  destruct (has_code rc2 GPG_ERR_CANCELED); [reflexivity|].
  unfold set_already_asked_marktrusted.
  destruct (already_asked_marktrusted W st1 c); reflexivity.
Qed.

Lemma revocation_check_qual (s i : ksba_cert) :
  keeps qual_same (revocation_check W opt ctrl s i).
Proof.
  unfold revocation_check. intros l st f l' st'.
  pose proof (is_cert_still_valid_qflag st s i (l_rev l)) as H.
  destruct (is_cert_still_valid _ _ _ _ _ _ _) as [[rc r] s'].
  intros E; inversion E; subst. split; [reflexivity|exact H].
Qed.

Lemma revocation_check_no_write (s i : ksba_cert) :
  keeps (calls no_qualified_write) (revocation_check W opt ctrl s i).
Proof.
  unfold revocation_check. intros l st f l' st'.
  destruct (is_cert_still_valid W opt ctrl st s i (l_rev l)) as [[rc r] s'] eqn:E.
  assert (Hs : s' = snd (is_cert_still_valid W opt ctrl st s i (l_rev l)))
    by now rewrite E.
  intros H; inversion H; subst l' st' f. unfold calls. cbn [snd].
  rewrite Hs. unfold is_cert_still_valid.
  destruct (negb (no_crl_check opt) || use_ocsp ctrl); [|apply ext_refl].
  set (st1 := log _ st).
  assert (H1 : ext no_qualified_write st st1) by (apply ext_log; reflexivity).
  destruct (failed _); [|exact H1].
  destruct (has_code _ GPG_ERR_CERT_REVOKED).
  { unfold keydb_set_cert_flags. destruct (existsb _ _); cbn [snd]; [|exact H1].
    eapply ext_trans; [exact H1|apply ext_same; reflexivity]. }
  destruct (has_code _ GPG_ERR_NO_CRL_KNOWN); [exact H1|].
  destruct (has_code _ GPG_ERR_CRL_TOO_OLD); exact H1.
Qed.

Lemma try_another_cert_qual (fuel : nat) (s : cert_h) (issuer : string) (i : cert_h) :
  keeps qual_same (try_another_cert W opt fuel s issuer i).
Proof.
  revert i. induction fuel as [|fuel IH]; intros i; cbn [try_another_cert].
  - intros l st f l' st' H. discriminate.
  - unfold check_cert_sig.
    repeat first [ qual_log | keeps_step qual_same_refl qual_same_trans ].
    intros l st f l' st'. unfold qual_same. cbn [fst snd].
    destruct (find_up _ _ _ _ _ _ _) as [[r k] s1] eqn:Ef.
    apply find_up_searched, searched_qflag in Ef.
    destruct (negb (failed r)); [|intros H; inversion H; subst; split; [reflexivity|exact Ef]].
    destruct (keydb_get_cert s1 k) as [[r2 t] s2] eqn:Eg.
    apply keydb_get_cert_searched, searched_qflag in Eg.
    assert (H2 : qflag_same st s2) by exact (qflag_same_trans _ _ _ Ef Eg).
    destruct t as [t|]; [|intros H; inversion H; subst; split; [reflexivity|exact H2]].
    destruct (failed r2 || _); [intros H; inversion H; subst; split; [reflexivity|exact H2]|].
    intros H. apply IH in H. destruct H as [A B]. cbn [fst snd] in A, B.
    split; [exact A|exact (qflag_same_trans _ _ _ H2 B)].
Qed.

Lemma issuer_allowed_ca_qual (i : cert_h) : keeps qual_same (issuer_allowed_ca W opt i).
Proof.
  unfold issuer_allowed_ca, agent_istrusted.
  repeat first [ qual_log | keeps_step qual_same_refl qual_same_trans ].
  apply with_state_qual. intros st.
  pose proof (allowed_ca_qflag st i) as H.
  destruct (allowed_ca W opt st i) as [[r c] s']. exact H.
Qed.

Lemma issuer_checks_qual (fuel : nat) (s : cert_h) (issuer : string) :
  keeps qual_same (issuer_checks W opt ctrl listmode flags fuel s issuer).
Proof.
  unfold issuer_checks, revocation_gate.
  repeat first [ apply try_another_cert_qual | apply issuer_allowed_ca_qual
               | apply revocation_check_qual
               | apply modify_locals_qual; intros; reflexivity
               | qual_log
               | keeps_step qual_same_refl qual_same_trans ].
  - intros l st f l' st'. unfold qual_same. cbn [fst snd].
    destruct (find_up _ _ _ _ _ _ _) as [[r k] s1] eqn:Ef.
    apply find_up_searched, searched_qflag in Ef.
    intros H; inversion H; subst. split; [reflexivity|exact Ef].
  - intros l st f l' st'. unfold qual_same. cbn [fst snd].
    destruct (keydb_get_cert st (l_kh l)) as [[r c] s1] eqn:Eg.
    apply keydb_get_cert_searched, searched_qflag in Eg.
    intros H; inversion H; subst. split; [reflexivity|exact Eg].
Qed.

Lemma node_checks_qual (c : ksba_cert) (is_root : bool) :
  keeps qual_same (node_checks W opt current_time c is_root).
Proof.
  unfold node_checks, agent_istrusted.
  repeat first [ qual_log | apply check_validity_qual | apply policy_check_qual
               | keeps_step qual_same_refl qual_same_trans ].
Qed.

(** "Set the flag for qualified signatures." with the stored byte at
    hand: the flag becomes the value of the byte, nothing is called and
    nothing is stored. *)
Lemma resolve_qualified_stored (s : cert_h) (l l' : locals) (st st' : state)
    (f : flow unit) :
  flag_kept cert b (l, st) ->
  resolve_qualified W cert s l st = Some (f, l', st') ->
  f = Go tt /\ st' = st /\ l_is_qualified l' = stored_flag b
  /\ qual_same (set_is_qualified (stored_flag b) l, st) (l', st').
Proof.
  intros [Hk Hq]. cbn [fst snd] in Hk, Hq. unfold resolve_qualified.
  destruct (l_is_qualified l =? -1)%Z eqn:E.
  - unfold ksba_cert_get_user_data. rewrite Hk.
    cbn [String.length Nat.ltb Nat.leb failed negb nonempty andb].
    intros H; inversion H; subst. split; [reflexivity|]. split; [reflexivity|].
    split; [reflexivity|]. apply qual_same_refl.
  - intros H; inversion H; subst. apply Z.eqb_neq in E.
    destruct Hq as [Hq|Hq]; [contradiction|].
    split; [reflexivity|]. split; [reflexivity|]. split; [exact Hq|].
    split; [cbn; congruence|apply qflag_same_refl].
Qed.

Lemma resolve_qualified_reused (s : cert_h) :
  keeps (flag_reused cert b) (resolve_qualified W cert s).
Proof.
  intros l st f l' st' H K.
  destruct (resolve_qualified_stored _ _ _ _ _ _ K H) as (_ & -> & Hq & _).
  split; [|apply ext_refl]. destruct K as [K1 _]. split; [exact K1|now right].
Qed.

(** The pieces of code between the steps of the walk that touch neither
    the flag nor the is_qualified user data. *)
Ltac quiet_piece Hroot :=
  apply quiet_reused;
    [ first [ apply act_on_trust_qual | apply with_allowed_ca_qual
            | apply revocation_check_qual | unfold check_cert_sig; qual_log ]
    | first [ apply with_allowed_ca_calls; intros; reflexivity
            | apply check_cert_sig_calls; intros; reflexivity
            | apply act_on_trust_calls; [intros; reflexivity|exact Hroot]
            | apply revocation_check_no_write ] ].

Lemma root_node_reused (s : cert_h) (rc : gpg_error_t) (rf : rootca_flags_s) :
  gpgsm_is_root_cert (h_cert s) = true ->
  keeps (flag_reused cert b) (root_node W opt ctrl cert listmode flags s rc rf).
Proof.
  intros Hroot. unfold root_node, revocation_gate.
  repeat first
    [ apply resolve_qualified_reused
    | quiet_piece Hroot
    | keeps_step (flag_reused_refl cert b) (flag_reused_trans cert b) ].
Qed.

Lemma chain_step_reused (fuel : nat) (s : cert_h) :
  keeps (flag_reused cert b)
    (chain_step W opt ctrl cert listmode flags current_time maxdepth fuel s).
Proof.
  unfold chain_step. destruct (cert_issuer (h_cert s)) as [issuer|] eqn:Ei;
    [|apply (keeps_goto_leave _ (flag_reused_refl cert b))].
  apply (keeps_bind _ (flag_reused_trans cert b)).
  { apply quiet_reused; [apply node_checks_qual|].
    apply node_checks_calls; try (intros; reflexivity).
    intros H. rewrite (is_root_cert_iff _ _ Ei). exact H. }
  intros [t rf]. destruct (opt_eqb (cert_subject (h_cert s)) issuer) eqn:Er.
  - assert (Hroot : gpgsm_is_root_cert (h_cert s) = true)
      by (rewrite (is_root_cert_iff _ _ Ei); exact Er).
    repeat first [ apply root_node_reused; exact Hroot
                 | keeps_step (flag_reused_refl cert b) (flag_reused_trans cert b) ].
  - unfold issuer_node.
    repeat first
      [ apply quiet_reused;
          [ first [ apply issuer_checks_qual
                  | apply modify_locals_qual; intros; reflexivity ]
          | first [ apply issuer_checks_calls; intros; reflexivity
                  | apply modify_locals_calls ] ]
      | keeps_step (flag_reused_refl cert b) (flag_reused_trans cert b) ].
Qed.

Lemma chain_loop_reused (rounds fuel : nat) (s : cert_h) :
  keeps (flag_reused cert b)
    (chain_loop W opt ctrl cert listmode flags current_time maxdepth rounds fuel s).
Proof.
  revert s. induction rounds as [|rounds IH]; intros s; cbn [chain_loop].
  - intros l st f l' st' H. discriminate.
  - repeat first [ apply chain_step_reused | apply IH
                 | keeps_step (flag_reused_refl cert b) (flag_reused_trans cert b) ].
Qed.

(** A round on a self-issued certificate that ends normally has set the
    flag. *)
Lemma root_node_sets_flag (s : cert_h) (rc : gpg_error_t) (rf : rootca_flags_s)
    (l l' : locals) (st st' : state) :
  gpgsm_is_root_cert (h_cert s) = true ->
  flag_kept cert b (l, st) ->
  root_node W opt ctrl cert listmode flags s rc rf l st = Some (Go tt, l', st') ->
  l_is_qualified l' = stored_flag b.
Proof.
  intros Hroot K H. unfold root_node in H.
  bind_go H u1 l1 st1 E1.
  assert (K1 : flag_kept cert b (l1, st1)).
  { revert E1. match goal with
               | |- ?m l st = _ -> _ =>
                   assert (R : keeps (flag_reused cert b) m);
                     [|intros E1; exact (proj1 (R _ _ _ _ _ E1 K))]
               end.
    repeat first [ quiet_piece Hroot
                 | keeps_step (flag_reused_refl cert b) (flag_reused_trans cert b) ]. }
  bind_go H u2 l2 st2 E2.
  assert (K2 : flag_kept cert b (l2, st2)).
  { revert E2. match goal with
               | |- ?m l1 st1 = _ -> _ =>
                   assert (R : keeps (flag_reused cert b) m);
                     [|intros E2; exact (proj1 (R _ _ _ _ _ E2 K1))]
               end.
    repeat first [ quiet_piece Hroot
                 | keeps_step (flag_reused_refl cert b) (flag_reused_trans cert b) ]. }
  bind_go H u3 l3 st3 E3.
  destruct (resolve_qualified_stored _ _ _ _ _ _ K2 E3) as (_ & _ & Hq & _).
  revert H. match goal with
            | |- ?m l3 st3 = _ -> _ =>
                assert (R : keeps qual_same m);
                  [|intros H; destruct (R _ _ _ _ _ H) as [Hl _]; cbn [fst] in Hl;
                    congruence]
            end.
  unfold revocation_gate.
  repeat first [ apply act_on_trust_qual | apply revocation_check_qual
               | keeps_step qual_same_refl qual_same_trans ].
Qed.

Lemma chain_loop_sets_flag (rounds fuel : nat) (s : cert_h) (l l' : locals)
    (st st' : state) :
  flag_kept cert b (l, st) ->
  chain_loop W opt ctrl cert listmode flags current_time maxdepth rounds fuel s l st
  = Some (Go tt, l', st') ->
  l_is_qualified l' = stored_flag b.
Proof.
  revert s l st. induction rounds as [|rounds IH]; intros s l st K; [discriminate|].
  cbn [chain_loop]. intros H. bind_go H x l1 st1 Es.
  destruct x as [next|].
  - apply (IH next l1 st1); [|exact H].
    exact (proj1 (chain_step_reused _ _ _ _ _ _ _ Es K)).
  - inversion H; subst; clear H.
    unfold chain_step in Es.
    destruct (cert_issuer (h_cert s)) as [issuer|] eqn:Ei; [|discriminate].
    bind_go Es tr l2 st2 En. destruct tr as [t rf].
    assert (K2 : flag_kept cert b (l2, st2))
      by exact (qual_same_kept _ _ _ _ (node_checks_qual _ _ _ _ _ _ _ En) K).
    destruct (opt_eqb (cert_subject (h_cert s)) issuer) eqn:Er.
    + assert (Hroot : gpgsm_is_root_cert (h_cert s) = true)
        by (rewrite (is_root_cert_iff _ _ Ei); exact Er).
      bind_go Es u l3 st3 E3. destruct u. inversion Es; subst.
      exact (root_node_sets_flag _ _ _ _ _ _ _ Hroot K2 E3).
    + bind_go Es nx l3 st3 E3. discriminate.
Qed.
End QualifiedFacts.

(** X19.  A validation of a certificate object that carries a stored
    is_qualified byte works with that byte: whatever the qualified list
    says by then, the only is_qualified user data [gpgsm_validate_chain]
    stores is the value of the byte (0 for a zero byte, else 1), on that
    object; the object carries a byte of the same value afterwards; and
    when the function returns 0, its last call is the store of that value
    on the object at the label [leave]. *)
Theorem stored_qualified_flag_reused (W : world) (opt : options) (ctrl : ctrl_t)
    (fuel : nat) (st st' : state) (cert : cert_h) (r : bool) (lm : bool) (flags : Z)
    (rc : gpg_error_t) (e : option ksba_isotime_t) (b : ascii) :
  user_data_lookup st (h_id cert) "is_qualified" = Some (String b EmptyString) ->
  gpgsm_validate_chain W opt ctrl fuel st cert r lm flags = Some (rc, e, st') ->
  let data := qualified_byte (stored_flag b) in
  ext (qualified_write (h_id cert) data) st st'
  /\ (exists b', user_data_lookup st' (h_id cert) "is_qualified"
                 = Some (String b' EmptyString)
                 /\ stored_flag b' = stored_flag b)
  /\ (rc = rc_0 -> no_chain_validation opt && negb lm = false ->
      exists before, trace st' = EvSetUserData (h_id cert) "is_qualified" data :: before).
Proof.
  intros Hk H data. pose proof H as H0. unfold gpgsm_validate_chain in H.
  destruct (no_chain_validation opt && negb lm) eqn:Hb.
  { inversion H; subst. split; [apply ext_refl|]. split; [|discriminate].
    exists b. split; [exact Hk|reflexivity]. }
  destruct (validate_chain_walk _ _ _ _ _ _ _ _ _ _ _) as [[[f l] st1]|] eqn:Hw;
    [|discriminate].
  pose proof Hw as Hloop. rewrite validate_chain_walk_loop in Hloop.
  assert (K0 : flag_kept cert b (set_kh (mkKH 0 None false) init_locals,
                                 log EvKeydbNew st)).
  { split; [exact Hk|left; reflexivity]. }
  assert (Hwalk : flag_kept cert b (l, st1)
                  /\ ext (qualified_write (h_id cert) data) st st1
                  /\ (forall v, f = Go v -> l_is_qualified l = stored_flag b)).
  { destruct (w_keydb_new W (trace st)).
    - destruct (chain_loop _ _ _ _ _ _ _ _ _ _ _ _ _) as [[[fl l2] st2]|] eqn:El;
        [|discriminate].
      destruct (chain_loop_reused _ _ _ _ _ _ _ _ _ _ _ _ _ _ _ _ _ El K0) as [K1 E1].
      cbn [snd] in E1.
      assert (Hl : l2 = l /\ st2 = st1) by (destruct fl; inversion Hloop; auto).
      destruct Hl as [-> ->].
      split; [exact K1|]. split.
      + apply (ext_trans _ _ (log EvKeydbNew st)); [apply ext_log; reflexivity|exact E1].
      + intros v Hv. destruct fl as [[]|rcl]; [|subst f; discriminate].
        exact (chain_loop_sets_flag _ _ _ _ _ _ _ _ _ _ _ _ _ _ _ _ K0 El).
    - inversion Hloop; subst. split; [split; [exact Hk|left; reflexivity]|].
      split; [apply ext_log; reflexivity|discriminate]. }
  destruct Hwalk as ((K1 & K2) & E1 & Hgo). cbn [fst snd] in K1, K2.
  unfold validate_chain_leave in H.
  destruct (negb (l_is_qualified l =? -1)%Z) eqn:Eq.
  - assert (Hq : l_is_qualified l = stored_flag b).
    { destruct K2 as [K2|K2]; [rewrite K2 in Eq; discriminate|exact K2]. }
    rewrite Hq in H. fold data in H.
    destruct (ksba_cert_set_user_data W st1 cert "is_qualified" data) as [err st2] eqn:Es.
    pose proof (set_user_data_logs _ _ _ _ _ _ _ Es) as Ht.
    assert (E2 : ext (qualified_write (h_id cert) data) st st2).
    { apply (ext_trans _ _ _ _ E1).
      exists [EvSetUserData (h_id cert) "is_qualified" data]. split; [exact Ht|].
      cbn [forallb qualified_write]. rewrite String.eqb_refl, Nat.eqb_refl.
      rewrite String.eqb_refl. reflexivity. }
    assert (Hst : st' = st2) by (destruct (failed err); congruence).
    subst st'. split; [exact E2|]. split; [|intros _ _; exists (trace st1); exact Ht].
    destruct (ksba_cert_set_user_data_cases _ _ _ _ _ _ _ Es) as [[_ Hu]|[_ Hu]].
    + exists b. split; [|reflexivity].
      unfold user_data_lookup in K1 |- *. rewrite Hu. exact K1.
    + exists (if (stored_flag b =? 0)%Z then NUL else "001"%char). split.
      * exact (user_data_lookup_head _ _ _ _ _ Hu).
      * unfold stored_flag. destruct (Ascii.eqb b NUL); reflexivity.
  - assert (Hst : st' = st1) by congruence. subst st'.
    split; [exact E1|]. split.
    + exists b. split; [exact K1|reflexivity].
    + intros -> _. exfalso.
      destruct (walk_of_success _ _ _ _ _ _ _ _ _ _ _ Hb H0) as (l3 & st3 & Hw3 & _).
      rewrite Hw in Hw3. inversion Hw3; subst f l3 st3.
      rewrite (Hgo _ eq_refl) in Eq. unfold stored_flag in Eq.
      destruct (Ascii.eqb b NUL); discriminate.
Qed.

Lemma asking_same_refl (st : state) : asking_same st st.
Proof. split; reflexivity. Qed.

Lemma asking_same_trans (a b c : state) :
  asking_same a b -> asking_same b c -> asking_same a c.
Proof. intros [A B] [C D]. split; congruence. Qed.

Lemma ask_same_refl (x : locals * state) : ask_same x x.
Proof. apply asking_same_refl. Qed.

Lemma ask_same_trans (x y z : locals * state) :
  ask_same x y -> ask_same y z -> ask_same x z.
Proof. apply asking_same_trans. Qed.

Lemma unasked_refl (x : locals * state) : unasked x x.
Proof. intros H. split; [exact H|]. split; [reflexivity|apply ext_refl]. Qed.

Lemma unasked_trans (x y z : locals * state) :
  unasked x y -> unasked y z -> unasked x z.
Proof.
  intros A B H. destruct (A H) as (H1 & M1 & E1). destruct (B H1) as (H2 & M2 & E2).
  split; [exact H2|]. split; [congruence|]. eapply ext_trans; eassumption.
Qed.

Lemma quiet_unasked {A} (m : M A) :
  keeps ask_same m -> keeps (calls not_marktrusted) m -> keeps unasked m.
Proof.
  intros Ha Hc l st f l' st' H Hn.
  destruct (Ha _ _ _ _ _ H) as [A1 A2]. pose proof (Hc _ _ _ _ _ H) as He.
  cbn [snd] in *. split; [congruence|]. split; [exact A2|exact He].
Qed.

Lemma search_effect_asking (k : nat) (issuer : string) (st st' : state) :
  search_effect k issuer st st' -> asking_same st st'.
Proof. intros (n & more & -> & _). split; reflexivity. Qed.

Lemma set_user_data_asking (W : world) (st : state) (c : cert_h) (key data : string) :
  asking_same st (snd (ksba_cert_set_user_data W st c key data)).
Proof. unfold ksba_cert_set_user_data. destruct (failed _); split; reflexivity. Qed.

Section AskingFacts.
Variable W : world.
Variable opt : options.
Variable ctrl : ctrl_t.
Variable cert : cert_h.
Variable listmode : bool.
Variable flags : Z.
Variable current_time : ksba_isotime_t.
Variable maxdepth : Z.

Lemma find_up_asking (st st' : state) (kh kh' : KEYDB_HANDLE) (c : ksba_cert)
    (issuer : string) (find_next : bool) (rc : gpg_error_t) :
  find_up W opt st kh c issuer find_next = (rc, kh', st') -> asking_same st st'.
Proof.
  intros H. destruct (find_up_effect _ _ _ _ _ _ _ _ _ _ H) as (_ & k & He & _).
  exact (search_effect_asking _ _ _ _ He).
Qed.

Lemma keydb_get_cert_asking (st st' : state) (kh : KEYDB_HANDLE) (rc : gpg_error_t)
    (c : option cert_h) :
  keydb_get_cert st kh = (rc, c, st') -> asking_same st st'.
Proof.
  intros H. exact (search_effect_asking _ _ _ _ (keydb_get_cert_effect "" _ _ _ _ _ H)).
Qed.

Lemma gpgsm_walk_cert_chain_asking (st st' : state) (start : cert_h)
    (rc : gpg_error_t) (next : option cert_h) :
  gpgsm_walk_cert_chain W opt st start = (rc, next, st') -> asking_same st st'.
Proof.
  unfold gpgsm_walk_cert_chain, keydb_new.
  set (st0 := log EvKeydbNew st).
  assert (H0 : asking_same st st0) by (split; reflexivity).
  destruct (w_keydb_new W (trace st)); [|intros H; inversion H; subst; exact H0].
  destruct (cert_issuer (h_cert start)) as [issuer|];
    [|intros H; inversion H; subst; exact H0].
  destruct (cert_subject (h_cert start)) as [subject|];
    [|intros H; inversion H; subst; exact H0].
  destruct (String.eqb issuer subject); [intros H; inversion H; subst; exact H0|].
  destruct (find_up W opt st0 _ (h_cert start) issuer false) as [[r k] s] eqn:E.
  apply find_up_asking in E.
  assert (H1 : asking_same st s) by exact (asking_same_trans _ _ _ H0 E).
  destruct (failed r); [intros H; inversion H; subst; exact H1|].
  destruct (keydb_get_cert s k) as [[r2 n] s2] eqn:Eg.
  apply keydb_get_cert_asking in Eg.
  assert (H2 : asking_same st s2) by exact (asking_same_trans _ _ _ H1 Eg).
  destruct (failed r2); intros H; inversion H; subst; exact H2.
Qed.

Lemma regtp_walk_asking (slots : nat) (st st1 : state) (c last : cert_h)
    (array array' : list cert_h) (rc0 rc : gpg_error_t) :
  regtp_walk W opt slots st c array rc0 = (rc, last, array', st1) ->
  asking_same st st1.
Proof.
  revert st c array rc0. induction slots as [|slots IH];
    intros st c array rc0; cbn [regtp_walk].
  - intros H; inversion H; subst. apply asking_same_refl.
  - destruct (gpgsm_walk_cert_chain W opt st c) as [[rc1 next] s1] eqn:E.
    apply gpgsm_walk_cert_chain_asking in E.
    destruct next as [next|]; [|intros H; inversion H; subst; exact E].
    destruct (failed rc1); [intros H; inversion H; subst; exact E|].
    intros H. apply IH in H. exact (asking_same_trans _ _ _ E H).
Qed.

Lemma get_regtp_ca_info_asking (st : state) (c : cert_h) :
  asking_same st (snd (get_regtp_ca_info W opt st c)).
Proof.
  unfold get_regtp_ca_info.
  destruct (ksba_cert_get_user_data st c "regtp_ca_chainlen" 2) as [err buf].
  destruct (negb (failed err)).
  { destruct buf as [|b0 [|b1 rest]]; try apply asking_same_refl.
    destruct (Ascii.eqb b0 NUL); apply asking_same_refl. }
  destruct (negb (has_code err GPG_ERR_NOT_FOUND)); [apply asking_same_refl|].
  destruct (regtp_walk W opt (DIM_array - 1) st c [c] rc_0)
    as [[[rc last] array] st1] eqn:Ew.
  apply regtp_walk_asking in Ew.
  assert (Hleave : forall s, asking_same st s ->
            asking_same st
              (snd (let (_, st') := ksba_cert_set_user_data W s last "regtp_ca_chainlen"
                                       regtp_none_mark in (false, 0%Z, st')))).
  { intros s Hs. pose proof (set_user_data_asking W s last "regtp_ca_chainlen"
                               regtp_none_mark) as H.
    destruct (ksba_cert_set_user_data W s last _ _) as [e s']. cbn [snd] in *.
    exact (asking_same_trans _ _ _ Hs H). }
  destruct (negb (is_m1 rc) || _ || _); [now apply Hleave|].
  destruct (w_qualified W (trace st1) _) as [qerr country].
  set (st2 := log _ st1).
  assert (H2 : asking_same st st2) by exact Ew.
  destruct (negb (failed qerr) && String.eqb country "de"); [|now apply Hleave].
  match goal with
  | |- context [ksba_cert_set_user_data W st2 ?t ?k regtp_root_mark] =>
      pose proof (set_user_data_asking W st2 t k regtp_root_mark) as H3;
      destruct (ksba_cert_set_user_data W st2 t k regtp_root_mark) as [e1 st3]
  end.
  cbn [snd] in *.
  assert (H3' : asking_same st st3) by exact (asking_same_trans _ _ _ H2 H3).
  destruct (negb (failed e1) && _); [|exact H3'].
  eapply asking_same_trans; [exact H3'|apply set_user_data_asking].
Qed.

Lemma allowed_ca_asking (st : state) (c : cert_h) :
  asking_same st (snd (allowed_ca W opt st c)).
Proof.
  unfold allowed_ca. destruct (cert_is_ca (h_cert c)) as [[err flag] chainlen].
  destruct (failed err); [apply asking_same_refl|].
  destruct (negb flag); [|apply asking_same_refl].
  pose proof (get_regtp_ca_info_asking st c) as H.
  destruct (get_regtp_ca_info W opt st c) as [[r n] s']. cbn [snd] in H.
  destruct r; exact H.
Qed.

Lemma is_cert_still_valid_asking (st : state) (s i : ksba_cert) (fl : revocation_flags) :
  asking_same st (snd (is_cert_still_valid W opt ctrl st s i fl)).
Proof.
  unfold is_cert_still_valid.
  destruct (negb (no_crl_check opt) || use_ocsp ctrl); [|apply asking_same_refl].
  destruct (failed _); [|split; reflexivity].
  destruct (has_code _ GPG_ERR_CERT_REVOKED).
  { unfold keydb_set_cert_flags. destruct (existsb _ _); split; reflexivity. }
  destruct (has_code _ GPG_ERR_NO_CRL_KNOWN); [split; reflexivity|].
  destruct (has_code _ GPG_ERR_CRL_TOO_OLD); split; reflexivity.
Qed.

Lemma with_state_ask {A} (f : state -> A * state) :
  (forall st, asking_same st (snd (f st))) -> keeps ask_same (with_state f).
Proof. intros H. apply keeps_with_state. intros l st. apply H. Qed.

Lemma modify_locals_ask (f : locals -> locals) : keeps ask_same (modify_locals f).
Proof. apply keeps_modify_locals. intros l st. apply asking_same_refl. Qed.

Lemma with_allowed_ca_ask (s : cert_h) :
  keeps ask_same
    (with_state (fun st => let '(rc, _, st') := allowed_ca W opt st s in (rc, st'))).
Proof.
  apply keeps_with_state. intros l st. unfold ask_same. cbn [snd].
  pose proof (allowed_ca_asking st s) as H.
  destruct (allowed_ca W opt st s) as [[r c] s']. exact H.
Qed.

Lemma check_validity_ask (c : ksba_cert) :
  keeps ask_same (check_validity opt current_time c).
Proof.
  intros l st f l' st' H. apply check_validity_state in H. destruct H as [-> _].
  apply asking_same_refl.
Qed.

Lemma policy_check_ask (c : ksba_cert) : keeps ask_same (policy_check W opt c).
Proof.
  unfold policy_check.
  destruct (negb (no_policy_check opt)); [|apply (keeps_ret _ ask_same_refl)].
  intros l st f l' st'. destruct (check_cert_policy _ _ _) as [rc|]; [|discriminate].
  destruct (has_code rc GPG_ERR_NO_POLICY_MATCH);
    [intros H; inversion H; subst; apply asking_same_refl|].
  destruct (failed rc); intros H; inversion H; subst; apply asking_same_refl.
Qed.

Lemma resolve_qualified_ask (s : cert_h) : keeps ask_same (resolve_qualified W cert s).
Proof.
  unfold resolve_qualified. intros l st f l' st'. unfold ask_same. cbn [snd].
  destruct (l_is_qualified l =? -1)%Z;
    [|intros H; inversion H; subst; apply asking_same_refl].
  destruct (ksba_cert_get_user_data st cert "is_qualified" 1) as [err buf].
  destruct (negb (failed err) && nonempty buf);
    [intros H; inversion H; subst; apply asking_same_refl|].
  destruct (w_qualified W (trace st) (h_cert s)) as [qerr country].
  set (st1 := log _ st).
  destruct (negb (_ =? -1)%Z); [|intros H; inversion H; subst; split; reflexivity].
  match goal with
  | |- context [ksba_cert_set_user_data W st1 s ?k ?d] =>
      pose proof (set_user_data_asking W st1 s k d) as H2;
      destruct (ksba_cert_set_user_data W st1 s k d) as [e st2]
  end.
  intros H; inversion H; subst. exact H2.
Qed.

Lemma revocation_check_ask (s i : ksba_cert) :
  keeps ask_same (revocation_check W opt ctrl s i).
Proof.
  unfold revocation_check. intros l st f l' st'.
  pose proof (is_cert_still_valid_asking st s i (l_rev l)) as H.
  destruct (is_cert_still_valid _ _ _ _ _ _ _) as [[rc r] s'].
  intros E; inversion E; subst. exact H.
Qed.

Lemma try_another_cert_ask (fuel : nat) (s : cert_h) (issuer : string) (i : cert_h) :
  keeps ask_same (try_another_cert W opt fuel s issuer i).
Proof.
  revert i. induction fuel as [|fuel IH]; intros i; cbn [try_another_cert].
  - intros l st f l' st' H. discriminate.
  - unfold check_cert_sig.
    repeat first [ (apply with_state_ask; intros; split; reflexivity) | keeps_step ask_same_refl ask_same_trans ].
    intros l st f l' st'. unfold ask_same. cbn [snd].
    destruct (find_up _ _ _ _ _ _ _) as [[r k] s1] eqn:Ef.
    apply find_up_asking in Ef.
    destruct (negb (failed r)); [|intros H; inversion H; subst; exact Ef].
    destruct (keydb_get_cert s1 k) as [[r2 t] s2] eqn:Eg.
    apply keydb_get_cert_asking in Eg.
    assert (H2 : asking_same st s2) by exact (asking_same_trans _ _ _ Ef Eg).
    destruct t as [t|]; [|intros H; inversion H; subst; exact H2].
    destruct (failed r2 || _); [intros H; inversion H; subst; exact H2|].
    intros H. apply IH in H. eapply asking_same_trans; [exact H2|exact H].
Qed.

Lemma issuer_allowed_ca_ask (i : cert_h) : keeps ask_same (issuer_allowed_ca W opt i).
Proof.
  unfold issuer_allowed_ca, agent_istrusted.
  repeat first [ (apply with_state_ask; intros; split; reflexivity) | keeps_step ask_same_refl ask_same_trans ].
  apply keeps_with_state. intros l st. unfold ask_same. cbn [snd].
  pose proof (allowed_ca_asking st i) as H.
  destruct (allowed_ca W opt st i) as [[r c] s']. exact H.
Qed.

Lemma issuer_checks_ask (fuel : nat) (s : cert_h) (issuer : string) :
  keeps ask_same (issuer_checks W opt ctrl listmode flags fuel s issuer).
Proof.
  unfold issuer_checks, revocation_gate.
  repeat first [ apply try_another_cert_ask | apply issuer_allowed_ca_ask
               | apply revocation_check_ask | apply modify_locals_ask
               | (apply with_state_ask; intros; split; reflexivity)
               | keeps_step ask_same_refl ask_same_trans ].
  - intros l st f l' st'. unfold ask_same. cbn [snd].
    destruct (find_up _ _ _ _ _ _ _) as [[r k] s1] eqn:Ef.
    apply find_up_asking in Ef. intros H; inversion H; subst. exact Ef.
  - intros l st f l' st'. unfold ask_same. cbn [snd].
    destruct (keydb_get_cert st (l_kh l)) as [[r c] s1] eqn:Eg.
    apply keydb_get_cert_asking in Eg. intros H; inversion H; subst. exact Eg.
Qed.

Lemma node_checks_ask (c : ksba_cert) (is_root : bool) :
  keeps ask_same (node_checks W opt current_time c is_root).
Proof.
  unfold node_checks, agent_istrusted.
  repeat first [ (apply with_state_ask; intros; split; reflexivity) | apply check_validity_ask | apply policy_check_ask
               | keeps_step ask_same_refl ask_same_trans ].
Qed.

Lemma revocation_check_quiet (s i : ksba_cert) :
  keeps (calls not_marktrusted) (revocation_check W opt ctrl s i).
Proof.
  unfold revocation_check. intros l st f l' st'.
  destruct (is_cert_still_valid W opt ctrl st s i (l_rev l)) as [[rc r] s'] eqn:E.
  assert (Hs : s' = snd (is_cert_still_valid W opt ctrl st s i (l_rev l)))
    by now rewrite E.
  intros H; inversion H; subst l' st' f. unfold calls. cbn [snd].
  rewrite Hs. unfold is_cert_still_valid.
  destruct (negb (no_crl_check opt) || use_ocsp ctrl); [|apply ext_refl].
  set (st1 := log _ st).
  assert (H1 : ext not_marktrusted st st1) by (apply ext_log; reflexivity).
  destruct (failed _); [|exact H1].
  destruct (has_code _ GPG_ERR_CERT_REVOKED).
  { unfold keydb_set_cert_flags. destruct (existsb _ _); cbn [snd]; [|exact H1].
    eapply ext_trans; [exact H1|apply ext_same; reflexivity]. }
  destruct (has_code _ GPG_ERR_NO_CRL_KNOWN); [exact H1|].
  destruct (has_code _ GPG_ERR_CRL_TOO_OLD); exact H1.
Qed.

(** The question proper. *)
Lemma act_on_trust_unasked (c : ksba_cert) (rc : gpg_error_t) :
  keeps unasked (act_on_trust W listmode c rc).
Proof.
  unfold act_on_trust. intros l st f l' st' H Hn. cbn [snd] in *.
  rewrite Hn in H.
  assert (Hsame : Some (Go rc, l, st) = Some (f, l', st') ->
                  no_more_questions st' = true
                  /\ marktrusted_info st' = marktrusted_info st
                  /\ ext not_marktrusted st st').
  { intros E; inversion E; subst. split; [exact Hn|]. split; [reflexivity|apply ext_refl]. }
  destruct (negb (failed rc)); [exact (Hsame H)|].
  destruct (has_code rc GPG_ERR_NOT_TRUSTED); [|exact (Hsame H)].
  destruct (negb (l_any_expired l) && _); [|exact (Hsame H)].
  cbn in H. inversion H; subst.
  split; [reflexivity|]. split; [reflexivity|]. apply ext_same. reflexivity.
Qed.

Lemma root_node_unasked (s : cert_h) (rc : gpg_error_t) (rf : rootca_flags_s) :
  keeps unasked (root_node W opt ctrl cert listmode flags s rc rf).
Proof.
  unfold root_node, revocation_gate.
  repeat first
    [ apply act_on_trust_unasked
    | apply quiet_unasked;
        [ first [ apply resolve_qualified_ask | apply with_allowed_ca_ask
                | apply revocation_check_ask
                | unfold check_cert_sig; (apply with_state_ask; intros; split; reflexivity) ]
        | first [ apply resolve_qualified_calls; intros; reflexivity
                | apply with_allowed_ca_calls; intros; reflexivity
                | apply check_cert_sig_calls; intros; reflexivity
                | apply revocation_check_quiet ] ]
    | keeps_step unasked_refl unasked_trans ].
Qed.

Lemma chain_step_unasked (fuel : nat) (s : cert_h) :
  keeps unasked
    (chain_step W opt ctrl cert listmode flags current_time maxdepth fuel s).
Proof.
  unfold chain_step. destruct (cert_issuer (h_cert s)) as [issuer|] eqn:Ei;
    [|apply (keeps_goto_leave _ unasked_refl)].
  apply (keeps_bind _ unasked_trans).
  { apply quiet_unasked; [apply node_checks_ask|].
    apply node_checks_calls; try (intros; reflexivity).
    intros H. rewrite (is_root_cert_iff _ _ Ei). exact H. }
  intros [t rf]. destruct (opt_eqb (cert_subject (h_cert s)) issuer).
  - repeat first [ apply root_node_unasked | keeps_step unasked_refl unasked_trans ].
  - unfold issuer_node.
    repeat first
      [ apply quiet_unasked;
          [ first [ apply issuer_checks_ask | apply modify_locals_ask ]
          | first [ apply issuer_checks_calls; intros; reflexivity
                  | apply modify_locals_calls ] ]
      | keeps_step unasked_refl unasked_trans ].
Qed.

Lemma chain_loop_unasked (rounds fuel : nat) (s : cert_h) :
  keeps unasked
    (chain_loop W opt ctrl cert listmode flags current_time maxdepth rounds fuel s).
Proof.
  revert s. induction rounds as [|rounds IH]; intros s; cbn [chain_loop].
  - intros l st f l' st' H. discriminate.
  - repeat first [ apply chain_step_unasked | apply IH
                 | keeps_step unasked_refl unasked_trans ].
Qed.

Lemma validate_chain_walk_unasked (fuel : nat) :
  keeps unasked
    (validate_chain_walk W opt ctrl cert listmode flags current_time maxdepth fuel).
Proof.
  unfold validate_chain_walk.
  repeat first
    [ apply chain_loop_unasked
    | apply quiet_unasked;
        [ first [ apply modify_locals_ask
                | apply keeps_with_state; intros; split; reflexivity ]
        | first [ apply modify_locals_calls
                | apply keeps_with_state; intros; apply ext_log; reflexivity ] ]
    | keeps_step unasked_refl unasked_trans ].
Qed.
End AskingFacts.

(** X20.  Once the session's flag that no more questions are to be asked
    is set, [gpgsm_validate_chain] makes no call of
    [gpgsm_agent_marktrusted], leaves the flag set, and records no further
    fingerprint as asked about. *)
Theorem no_more_questions_sticky (W : world) (opt : options) (ctrl : ctrl_t)
    (fuel : nat) (st st' : state) (cert : cert_h) (r : bool) (lm : bool) (flags : Z)
    (rc : gpg_error_t) (e : option ksba_isotime_t) :
  no_more_questions st = true ->
  gpgsm_validate_chain W opt ctrl fuel st cert r lm flags = Some (rc, e, st') ->
  no_more_questions st' = true
  /\ marktrusted_info st' = marktrusted_info st
  /\ ext not_marktrusted st st'.
Proof.
  intros Hn. unfold gpgsm_validate_chain.
  destruct (no_chain_validation opt && negb lm).
  { intros H; inversion H; subst. split; [exact Hn|]. split; [reflexivity|apply ext_refl]. }
  destruct (validate_chain_walk _ _ _ _ _ _ _ _ _ _ _) as [[[f l] st1]|] eqn:Ew;
    [|discriminate].
  destruct (validate_chain_walk_unasked _ _ _ _ _ _ _ _ _ _ _ _ _ _ Ew Hn)
    as (H1 & M1 & E1). cbn [snd] in H1, M1, E1.
  pose proof (validate_chain_leave_calls W cert not_marktrusted (fun _ _ => eq_refl)
                (flow_rc f) l st1) as E2.
  assert (A2 : asking_same st1 (snd (validate_chain_leave W cert (flow_rc f) l st1))).
  { unfold validate_chain_leave. destruct (negb (l_is_qualified l =? -1)%Z);
      [|apply asking_same_refl].
    match goal with
    | |- context [ksba_cert_set_user_data W st1 cert ?k ?d] =>
        pose proof (set_user_data_asking W st1 cert k d) as H2;
        destruct (ksba_cert_set_user_data W st1 cert k d) as [e0 st2]
    end.
    destruct (failed e0); exact H2. }
  destruct (validate_chain_leave W cert (flow_rc f) l st1) as [rc' st2].
  cbn [snd] in E2, A2. destruct A2 as [A2 A3].
  intros H; inversion H; subst.
  split; [congruence|]. split; [congruence|]. eapply ext_trans; eassumption.
Qed.

Lemma keydb_scan_first (p : ksba_cert -> bool) (visible : nat -> bool)
    (l : list ksba_cert) (i pos j : nat) :
  keydb_scan p visible l i pos = Some j ->
  i <= j /\ pos <= j /\ visible j = true
  /\ (exists c, nth_error l (j - i) = Some c /\ p c = true)
  /\ forall k c, i <= k -> pos <= k -> k < j -> visible k = true ->
                 nth_error l (k - i) = Some c -> p c = false.
Proof.
  revert i. induction l as [|c l IH]; intros i; cbn [keydb_scan]; [discriminate|].
  destruct ((pos <=? i)%nat && visible i && p c) eqn:E.
  - intros [= <-]. apply andb_true_iff in E. destruct E as [E Hp].
    apply andb_true_iff in E. destruct E as [Hpos Hv]. apply Nat.leb_le in Hpos.
    split; [lia|]. split; [exact Hpos|]. split; [exact Hv|]. split.
    + exists c. rewrite Nat.sub_diag. split; [reflexivity|exact Hp].
    + intros k c' Hik _ Hlt. lia.
  - intros H. destruct (IH _ H) as (Hle & Hpos & Hv & (d & Hn & Hp) & Hfirst).
    split; [lia|]. split; [exact Hpos|]. split; [exact Hv|]. split.
    + exists d. replace (j - i) with (S (j - S i)) by lia. split; assumption.
    + intros k c' Hik Hpk Hlt Hvk Hnk.
      destruct (Nat.eq_dec k i) as [->|Hne].
      * rewrite Nat.sub_diag in Hnk. injection Hnk as <-.
        apply Nat.leb_le in Hpk. rewrite Hpk, Hvk in E. exact E.
      * apply (Hfirst k c'); try lia; [exact Hvk|].
        replace (k - i) with (S (k - S i)) in Hnk by lia. exact Hnk.
Qed.

Lemma keydb_scan_none (p : ksba_cert -> bool) (visible : nat -> bool)
    (l : list ksba_cert) (i pos : nat) :
  keydb_scan p visible l i pos = None ->
  forall k c, i <= k -> pos <= k -> visible k = true ->
              nth_error l (k - i) = Some c -> p c = false.
Proof.
  revert i. induction l as [|c l IH]; intros i; cbn [keydb_scan].
  - intros _ k c _ _ _ H. destruct (k - i); discriminate.
  - destruct ((pos <=? i)%nat && visible i && p c) eqn:E; [discriminate|].
    intros H k c' Hik Hpk Hvk Hnk.
    destruct (Nat.eq_dec k i) as [->|Hne].
    + rewrite Nat.sub_diag in Hnk. injection Hnk as <-.
      apply Nat.leb_le in Hpk. rewrite Hpk, Hvk in E. exact E.
    + apply (IH _ H k c'); try lia; [exact Hvk|].
      replace (k - i) with (S (k - S i)) in Hnk by lia. exact Hnk.
Qed.

Lemma keyid_match_subject (issuer keyid : string) (c : ksba_cert) :
  opt_eqb (cert_subject c) issuer = false -> keyid_match issuer keyid c = false.
Proof. unfold keyid_match. now intros ->. Qed.

Lemma find_up_search_by_keyid_loop_exact (fuel : nat) (st st' : state)
    (kh kh' : KEYDB_HANDLE) (issuer keyid : string) (rc : gpg_error_t) :
  find_up_search_by_keyid_loop fuel st kh issuer keyid = (rc, kh', st') ->
  List.length (keydb_entries st) - kh_pos kh < fuel ->
  no_keyid_match_below st kh issuer keyid (kh_pos kh) ->
  (failed rc = false
   /\ exists i c,
        kh_found kh' = Some i
        /\ nth_error (keydb_entries st) i = Some c
        /\ visible_at st kh i = true
        /\ keyid_match issuer keyid c = true
        /\ no_keyid_match_below st kh issuer keyid i)
  \/ (failed rc = true
      /\ no_keyid_match_below st kh issuer keyid (List.length (keydb_entries st))).
Proof.
  revert st kh. induction fuel as [|fuel IH]; intros st kh; [intros _ H; lia|].
  cbn [find_up_search_by_keyid_loop]. unfold keydb_search_subject, keydb_search.
  fold (visible_at st kh).
  destruct (keydb_scan _ (visible_at st kh) (keydb_entries st) 0 (kh_pos kh))
    as [i|] eqn:Es.
  - destruct (keydb_scan_first _ _ _ _ _ _ Es) as (_ & Hpos & Hv & (c & Hn & Hp) & Hfirst).
    rewrite Nat.sub_0_r in Hn. cbn [failed].
    unfold keydb_get_cert. cbn [kh_found]. rewrite Hn. cbn [failed h_cert].
    set (kh1 := mkKH (S i) (Some i) (kh_ephemeral kh)).
    set (st1 := set_next_id (S (next_id st)) st).
    assert (Hbelow : forall n, n <= i -> no_keyid_match_below st kh issuer keyid (kh_pos kh) ->
                     no_keyid_match_below st kh issuer keyid n).
    { intros n Hni H0 j c' Hj Hvj Hnj.
      destruct (Nat.lt_ge_cases j (kh_pos kh)) as [Hlt|Hge]; [now apply (H0 j c')|].
      apply keyid_match_subject. apply (Hfirst j c'); try lia; [exact Hvj|].
      now rewrite Nat.sub_0_r. }
    assert (Hgo : keyid_match issuer keyid c = false ->
              find_up_search_by_keyid_loop fuel st1 kh1 issuer keyid = (rc, kh', st') ->
              List.length (keydb_entries st) - kh_pos kh < S fuel ->
              no_keyid_match_below st kh issuer keyid (kh_pos kh) ->
              (failed rc = false
               /\ exists i c,
                    kh_found kh' = Some i
                    /\ nth_error (keydb_entries st) i = Some c
                    /\ visible_at st kh i = true
                    /\ keyid_match issuer keyid c = true
                    /\ no_keyid_match_below st kh issuer keyid i)
              \/ (failed rc = true
                  /\ no_keyid_match_below st kh issuer keyid
                       (List.length (keydb_entries st)))).
    { intros Hc H Hfuel H0.
      assert (Hlen : i < List.length (keydb_entries st))
        by (apply nth_error_Some; congruence).
      apply (IH st1 kh1) in H.
      - exact H.
      - cbn [kh_pos kh1]. change (keydb_entries st1) with (keydb_entries st). lia.
      - intros j c' Hj Hvj Hnj. cbn [kh_pos kh1] in Hj.
        destruct (Nat.eq_dec j i) as [->|Hne].
        + change (keydb_entries st1) with (keydb_entries st) in Hnj. congruence.
        + apply (Hbelow i (Nat.le_refl _) H0 j c'); [lia|exact Hvj|exact Hnj]. }
    destruct (cert_subj_key_id c) as [subj|] eqn:Ek.
    + destruct (String.eqb keyid subj) eqn:Ee.
      * intros [= <- <- <-] _ H0. left. split; [reflexivity|].
        exists i, c. split; [reflexivity|]. split; [exact Hn|]. split; [exact Hv|].
        split; [|now apply Hbelow].
        unfold keyid_match. rewrite Hp, Ek. cbn [opt_eqb andb].
        now rewrite String.eqb_sym.
      * apply Hgo. unfold keyid_match. rewrite Ek. cbn [opt_eqb].
        rewrite String.eqb_sym, Ee. apply andb_false_r.
    + apply Hgo. unfold keyid_match. rewrite Ek. apply andb_false_r.
  - intros [= <- <- <-] _ H0. right. split; [reflexivity|].
    intros j c' _ Hvj Hnj.
    destruct (Nat.lt_ge_cases j (kh_pos kh)) as [Hlt|Hge]; [now apply (H0 j c')|].
    apply keyid_match_subject.
    apply (keydb_scan_none _ _ _ _ _ Es j c'); try lia; [exact Hvj|].
    now rewrite Nat.sub_0_r.
Qed.

(** X21.  [find_up_search_by_keyid] returns 0 exactly when a certificate
    of the key database that is visible through the handle has the
    subject [issuer] and the subjectKeyIdentifier [keyid]; the cursor is
    then on the first such certificate.  Otherwise it returns -1.  (The
    key database is modelled as a cursor over a list of certificates.) *)
Theorem find_up_search_by_keyid_exact (st st' : state) (kh kh' : KEYDB_HANDLE)
    (issuer keyid : string) (rc : gpg_error_t) :
  find_up_search_by_keyid st kh issuer keyid = (rc, kh', st') ->
  (rc = rc_0
   /\ exists i c,
        kh_found kh' = Some i
        /\ nth_error (keydb_entries st) i = Some c
        /\ visible_at st kh i = true
        /\ keyid_match issuer keyid c = true
        /\ no_keyid_match_below st kh issuer keyid i)
  \/ (rc = rc_m1
      /\ no_keyid_match_below st kh issuer keyid (List.length (keydb_entries st))).
Proof.
  unfold find_up_search_by_keyid.
  destruct (find_up_search_by_keyid_loop _ _ _ _ _) as [[r k] s] eqn:E.
  apply find_up_search_by_keyid_loop_exact in E.
  - intros [= <- <- <-].
    destruct E as [[Hf H]|[Hf H]]; rewrite Hf; [left|right]; (split; [reflexivity|]);
      exact H.
  - cbn [kh_pos keydb_search_reset]. lia.
  - intros j c Hj. cbn [kh_pos keydb_search_reset] in Hj. lia.
Qed.

Lemma policy_listed_iff_witness :
  policy_line_of ("1.2.3:N:" ++ Sample.lf ++ "2.5.29.32.0:C:" ++ Sample.lf) "2.5.29.32.0"
  /\ ~ policy_line_of ("1.2.3:N:" ++ Sample.lf) "1.2".
Proof.
  split.
  - apply (policy_listed_iff _ "2.5.29.32.0"); [discriminate|vm_compute; reflexivity].
  - intros H. apply (policy_listed_iff _ "1.2") in H; [|discriminate].
    vm_compute in H. discriminate.
Defined.

Lemma policy_mismatch_only_if_critical_witness :
  check_cert_policy policy_opt (policy_text ("9.9" ++ Sample.lf))
    (Sample.with_policies ("1.2.3:N:" ++ Sample.lf) Sample.ee) = Some rc_0
  /\ has_code rc_0 GPG_ERR_NO_POLICY_MATCH = false.
Proof.
  split; [vm_compute; reflexivity|].
  apply (policy_mismatch_only_if_critical policy_opt (policy_text ("9.9" ++ Sample.lf))
           (Sample.with_policies ("1.2.3:N:" ++ Sample.lf) Sample.ee) rc_0);
    vm_compute; reflexivity.
Defined.

Lemma critical_policy_needs_match_witness :
  exists name fp allowed,
    policy_file policy_opt = Some name
    /\ policy_text ("# allowed" ++ Sample.lf ++ " 2.5.29.32.0 any" ++ Sample.lf) name
       = Some fp
    /\ policy_file_names (f_data fp) allowed
    /\ policy_line_of ("2.5.29.32.0:C:" ++ Sample.lf) allowed.
Proof.
  apply (critical_policy_needs_match policy_opt
           (policy_text ("# allowed" ++ Sample.lf ++ " 2.5.29.32.0 any" ++ Sample.lf))
           (Sample.with_policies ("2.5.29.32.0:C:" ++ Sample.lf) Sample.ee));
    vm_compute; reflexivity.
Defined.

Lemma policy_comment_line_skipped_witness :
  check_cert_policy policy_opt
    (policy_text ("  # allowed policies" ++ String LF ("2.5.29.32.0" ++ Sample.lf)))
    (Sample.with_policies ("2.5.29.32.0:C:" ++ Sample.lf) Sample.ee)
  = check_cert_policy policy_opt (policy_text ("2.5.29.32.0" ++ Sample.lf))
      (Sample.with_policies ("2.5.29.32.0:C:" ++ Sample.lf) Sample.ee).
Proof.
  apply (policy_comment_line_skipped policy_opt
           (Sample.with_policies ("2.5.29.32.0:C:" ++ Sample.lf) Sample.ee)
           "  # allowed policies" ("2.5.29.32.0" ++ Sample.lf) None).
  - reflexivity.
  - reflexivity.
  - vm_compute. lia.
  - reflexivity.
Defined.

Lemma find_up_frame_witness :
  exists kh' n k,
    find_up fetching retrieve_opt (Sample.store [Sample.ee]) (mkKH 0 None false)
            Sample.ee "CN=CA" false
    = (rc_0, kh',
       after_search n [Sample.ca] (repeat (EvLookup "/CN=CA") k) (Sample.store [Sample.ee]))
    /\ kh_ephemeral kh' = false /\ k = 1.
Proof.
  destruct (find_up fetching retrieve_opt (Sample.store [Sample.ee]) (mkKH 0 None false)
                    Sample.ee "CN=CA" false) as [[rc kh'] st'] eqn:E.
  pose proof (find_up_frame _ _ _ _ _ _ _ _ _ _ E) as (He & (n & more & k & Hs & _) & _).
  assert (Hc : rc = rc_0 /\ kdb_eph st' = [Sample.ca]
               /\ trace st' = [EvLookup "/CN=CA"]).
  { vm_compute in E. inversion E. repeat split. }
  destruct Hc as (-> & Heph & Htr).
  rewrite Hs in Heph, Htr. cbn in Heph, Htr.
  assert (Hk : k = 1).
  { rewrite app_nil_r in Htr. destruct k as [|[|k]]; cbn in Htr; try discriminate.
    reflexivity. }
  exists kh', n, k. rewrite Hs, Heph. split; [reflexivity|]. split; [exact He|exact Hk].
Defined.

Lemma no_revocation_check_on_request_witness :
  exists e st',
    gpgsm_validate_chain Sample.calm Sample.default_opt Sample.crl_ctrl 5 three_certs
       (mkH 0 Sample.ee) true false 1
    = Some (rc_0, e, st')
    /\ ext not_isvalid three_certs st'.
Proof.
  assert (Hp : match gpgsm_validate_chain Sample.calm Sample.default_opt Sample.crl_ctrl 5 three_certs
       (mkH 0 Sample.ee) true false 1 with
               | Some (rc, _, _) => rc = rc_0
               | None => False
               end) by (vm_compute; reflexivity).
  destruct (gpgsm_validate_chain _ _ _ _ _ _ _ _ _) as [[[rc e] st']|] eqn:Hrun;
    [|contradiction].
  subst rc. exists e, st'. split; [reflexivity|].
  exact (no_revocation_check_on_request Sample.calm Sample.default_opt Sample.crl_ctrl
           5 three_certs st' (mkH 0 Sample.ee) true false 1 rc_0 e
           (or_introl eq_refl) Hrun).
Defined.

Lemma list_mode_skips_key_usage_witness :
  exists e st',
    gpgsm_validate_chain Sample.calm Sample.default_opt Sample.crl_ctrl 5 three_certs
       (mkH 0 Sample.ee) true true 0
    = Some (rc_0, e, st')
    /\ ext not_key_usage three_certs st'.
Proof.
  assert (Hp : match gpgsm_validate_chain Sample.calm Sample.default_opt Sample.crl_ctrl 5 three_certs
       (mkH 0 Sample.ee) true true 0 with
               | Some (rc, _, _) => rc = rc_0
               | None => False
               end) by (vm_compute; reflexivity).
  destruct (gpgsm_validate_chain _ _ _ _ _ _ _ _ _) as [[[rc e] st']|] eqn:Hrun;
    [|contradiction].
  subst rc. exists e, st'. split; [reflexivity|].
  exact (list_mode_skips_key_usage Sample.calm Sample.default_opt Sample.crl_ctrl
           5 three_certs st' (mkH 0 Sample.ee) true 0 rc_0 e Hrun).
Defined.

Lemma walker_calls_shape_witness :
  exists e st',
    gpgsm_validate_chain Sample.calm Sample.default_opt Sample.crl_ctrl 5 three_certs
       (mkH 0 Sample.ee) true false 0
    = Some (rc_0, e, st')
    /\ ext (walker_call Sample.crl_ctrl) three_certs st'.
Proof.
  assert (Hp : match gpgsm_validate_chain Sample.calm Sample.default_opt Sample.crl_ctrl 5 three_certs
       (mkH 0 Sample.ee) true false 0 with
               | Some (rc, _, _) => rc = rc_0
               | None => False
               end) by (vm_compute; reflexivity).
  destruct (gpgsm_validate_chain _ _ _ _ _ _ _ _ _) as [[[rc e] st']|] eqn:Hrun;
    [|contradiction].
  subst rc. exists e, st'. split; [reflexivity|].
  exact (walker_calls_shape Sample.calm Sample.default_opt Sample.crl_ctrl
           5 three_certs st' (mkH 0 Sample.ee) true false 0 rc_0 e Hrun).
Defined.

Lemma validated_chain_is_linked_witness :
  exists e st',
    gpgsm_validate_chain Sample.calm Sample.default_opt Sample.crl_ctrl 5 three_certs
       (mkH 0 Sample.ee) true false 0
    = Some (rc_0, e, st')
    /\ exists root below,
         (exists up, root :: below = up ++ [Sample.ee])
         /\ linked Sample.calm (trace st') (root :: below)
         /\ trusted_root Sample.calm (trace st') root.
Proof.
  assert (Hp : match gpgsm_validate_chain Sample.calm Sample.default_opt Sample.crl_ctrl 5 three_certs
       (mkH 0 Sample.ee) true false 0 with
               | Some (rc, _, _) => rc = rc_0
               | None => False
               end) by (vm_compute; reflexivity).
  destruct (gpgsm_validate_chain _ _ _ _ _ _ _ _ _) as [[[rc e] st']|] eqn:Hrun;
    [|contradiction].
  subst rc. exists e, st'. split; [reflexivity|].
  destruct (validated_chain_is_linked Sample.calm Sample.default_opt Sample.crl_ctrl
              5 three_certs st' (mkH 0 Sample.ee) true false 0 e eq_refl Hrun)
    as (l & st1 & root & below & _ & _ & Hup & Hl & Ht).
  exists root, below. split; [exact Hup|]. split; [exact Hl|exact Ht].
Defined.

Lemma validated_chain_nodes_checked_witness :
  exists e st',
    gpgsm_validate_chain Sample.calm Sample.default_opt Sample.crl_ctrl 5 three_certs
       (mkH 0 Sample.ee) true false 0
    = Some (rc_0, e, st')
    /\ exists visited,
         In Sample.ee visited
         /\ Forall (node_ok Sample.calm Sample.default_opt "20200101T000000") visited.
Proof.
  assert (Hp : match gpgsm_validate_chain Sample.calm Sample.default_opt Sample.crl_ctrl 5 three_certs
       (mkH 0 Sample.ee) true false 0 with
               | Some (rc, _, _) => rc = rc_0
               | None => False
               end) by (vm_compute; reflexivity).
  destruct (gpgsm_validate_chain _ _ _ _ _ _ _ _ _) as [[[rc e] st']|] eqn:Hrun;
    [|contradiction].
  subst rc. exists e, st'. split; [reflexivity|].
  destruct (validated_chain_nodes_checked Sample.calm Sample.default_opt
              Sample.crl_ctrl 5 three_certs st' (mkH 0 Sample.ee) true false 0 e
              eq_refl Hrun)
    as (l & st1 & _ & Hin & Hall).
  exists (l_visited l). split; [exact Hin|exact Hall].
Defined.

Lemma basic_cert_check_outcome_witness :
  match gpgsm_basic_cert_check Sample.calm Sample.default_opt three_certs
          (mkH 0 Sample.ee) with
  | (rc, st') =>
      rc = rc_0 /\ ext basic_check_call three_certs st'
      /\ user_data st' = user_data three_certs
  end.
Proof.
  destruct (gpgsm_basic_cert_check _ _ _ _) as [rc st'] eqn:Hrun.
  destruct (basic_cert_check_outcome _ _ _ _ _ _ Hrun) as (_ & He & Hu).
  split; [|split; assumption].
  vm_compute in Hrun. now inversion Hrun.
Defined.

Lemma basic_cert_check_verified_witness :
  exists st' i before,
    gpgsm_basic_cert_check Sample.calm Sample.default_opt three_certs (mkH 0 Sample.ee)
    = (rc_0, st')
    /\ trace st' = EvCheckCertSig i Sample.ee :: before
    /\ issuer_candidate Sample.ee "CN=CA" i.
Proof.
  destruct (gpgsm_basic_cert_check Sample.calm Sample.default_opt three_certs
              (mkH 0 Sample.ee)) as [rc st'] eqn:Hrun.
  assert (Hrc : rc = rc_0) by (vm_compute in Hrun; now inversion Hrun).
  subst rc.
  destruct (basic_cert_check_verified Sample.calm Sample.default_opt three_certs st'
              (mkH 0 Sample.ee) eq_refl Hrun)
    as (i & before & issuer & Ht & _ & Hi & Hc).
  cbn in Hi. injection Hi as <-. cbn in Hc. destruct Hc as [_ Hc].
  exists st', i, before. auto.
Defined.

Lemma walk_cert_chain_outcome_witness :
  (exists st', gpgsm_walk_cert_chain Sample.calm Sample.default_opt three_certs
                 (mkH 0 Sample.root) = (rc_m1, None, st'))
  /\ match gpgsm_walk_cert_chain Sample.calm Sample.default_opt three_certs
             (mkH 0 Sample.ee) with
     | (rc, Some n, st') => rc = rc_0 /\ issuer_candidate Sample.ee "CN=CA" (h_cert n)
     | _ => False
     end.
Proof.
  split; [eexists; vm_compute; reflexivity|].
  destruct (gpgsm_walk_cert_chain Sample.calm Sample.default_opt three_certs
              (mkH 0 Sample.ee)) as [[rc next] st'] eqn:Hrun.
  pose proof (walk_cert_chain_outcome _ _ _ _ _ _ _ Hrun) as [_ Hn].
  destruct next as [n|]; [|vm_compute in Hrun; discriminate].
  destruct Hn as (Hrc & _ & issuer & Hi & Hc). split; [exact Hrc|].
  cbn in Hi. injection Hi as <-. exact Hc.
Defined.

Lemma regtp_classified_witness :
  exists st' root more st1,
    get_regtp_ca_info german Sample.default_opt
      (Sample.store [Sample.ca; Sample.root]) (mkH 0 Sample.ca) = (true, 0%Z, st')
    /\ regtp_walk german Sample.default_opt (DIM_array - 1)
         (Sample.store [Sample.ca; Sample.root]) (mkH 0 Sample.ca) [mkH 0 Sample.ca] rc_0
       = (rc_m1, root, mkH 0 Sample.ca :: more, st1)
    /\ gpgsm_is_root_cert (h_cert root) = true
    /\ more <> [].
Proof.
  destruct (get_regtp_ca_info german Sample.default_opt
              (Sample.store [Sample.ca; Sample.root]) (mkH 0 Sample.ca))
    as [[b n] st'] eqn:Hrun.
  assert (Hb : b = true /\ n = 0%Z) by (vm_compute in Hrun; now inversion Hrun).
  destruct Hb as [-> ->].
  destruct (regtp_classified german Sample.default_opt
              (Sample.store [Sample.ca; Sample.root]) st' (mkH 0 Sample.ca) 0%Z
              eq_refl Hrun)
    as (root & more & st1 & Hw & _ & _ & Hroot & _ & _ & Hcl & _).
  exists st', root, more, st1. split; [reflexivity|]. split; [exact Hw|].
  split; [exact Hroot|]. intros ->. discriminate.
Defined.

Lemma validated_chain_issuers_allowed_witness :
  exists e st',
    gpgsm_validate_chain Sample.calm Sample.default_opt Sample.crl_ctrl 5 three_certs
       (mkH 0 Sample.ee) true false 0
    = Some (rc_0, e, st')
    /\ issuers_checked Sample.calm (trace st') [Sample.root; Sample.ca; Sample.ee].
Proof.
  assert (Hp : match gpgsm_validate_chain Sample.calm Sample.default_opt Sample.crl_ctrl 5 three_certs
       (mkH 0 Sample.ee) true false 0 with
               | Some (rc, _, _) => rc = rc_0
               | None => False
               end) by (vm_compute; reflexivity).
  assert (Hn : rev (visited_nodes Sample.calm Sample.default_opt Sample.crl_ctrl 5
                      three_certs (mkH 0 Sample.ee) false 0)
               = [Sample.root; Sample.ca; Sample.ee]) by (vm_compute; reflexivity).
  destruct (gpgsm_validate_chain _ _ _ _ _ _ _ _ _) as [[[rc e] st']|] eqn:Hrun;
    [|contradiction].
  subst rc. exists e, st'. split; [reflexivity|].
  rewrite <- Hn.
  exact (validated_chain_issuers_allowed Sample.calm Sample.default_opt Sample.crl_ctrl
           5 three_certs st' (mkH 0 Sample.ee) true false 0 e eq_refl Hrun).
Defined.

Lemma validated_chain_gates_passed_witness :
  exists e st',
    gpgsm_validate_chain Sample.calm Sample.default_opt Sample.crl_ctrl 5 three_certs
       (mkH 0 Sample.ee) true false 0
    = Some (rc_0, e, st')
    /\ exists evs,
         trace st' = evs ++ trace three_certs
         /\ (forall pre post s i o,
               evs = pre ++ EvIsValid s i o :: post ->
               w_isvalid Sample.calm (post ++ trace three_certs) s i o = rc_0)
         /\ (forall pre post c,
               evs = pre ++ EvUseCert c :: post ->
               w_use_cert_p Sample.calm (post ++ trace three_certs) c = rc_0).
Proof.
  assert (Hp : match gpgsm_validate_chain Sample.calm Sample.default_opt Sample.crl_ctrl 5 three_certs
       (mkH 0 Sample.ee) true false 0 with
               | Some (rc, _, _) => rc = rc_0
               | None => False
               end) by (vm_compute; reflexivity).
  destruct (gpgsm_validate_chain _ _ _ _ _ _ _ _ _) as [[[rc e] st']|] eqn:Hrun;
    [|contradiction].
  subst rc. exists e, st'. split; [reflexivity|].
  exact (validated_chain_gates_passed Sample.calm Sample.default_opt Sample.crl_ctrl
           5 three_certs st' (mkH 0 Sample.ee) true false 0 e Hrun).
Defined.

Lemma stored_qualified_flag_reused_witness :
  exists rc1 e1 st1 rc2 e2 st2,
    gpgsm_validate_chain german Sample.default_opt Sample.crl_ctrl 5 three_certs
       (mkH 0 Sample.ee) true false 0
    = Some (rc1, e1, st1)
    /\ user_data_lookup st1 0 "is_qualified" = Some (qualified_byte 1)
    /\ gpgsm_validate_chain Sample.calm Sample.default_opt Sample.crl_ctrl 5 st1
         (mkH 0 Sample.ee) true false 0
       = Some (rc2, e2, st2)
    /\ ext (qualified_write 0 (qualified_byte 1)) st1 st2
    /\ exists b', user_data_lookup st2 0 "is_qualified" = Some (String b' EmptyString)
                  /\ stored_flag b' = 1%Z.
Proof.
  assert (Hp : match gpgsm_validate_chain german Sample.default_opt Sample.crl_ctrl 5
                       three_certs (mkH 0 Sample.ee) true false 0 with
               | Some (_, _, st1) =>
                   user_data_lookup st1 0 "is_qualified" = Some (qualified_byte 1)
                   /\ match gpgsm_validate_chain Sample.calm Sample.default_opt
                               Sample.crl_ctrl 5 st1 (mkH 0 Sample.ee) true false 0 with
                      | Some _ => True
                      | None => False
                      end
               | None => False
               end) by (vm_compute; split; [reflexivity|exact I]).
  destruct (gpgsm_validate_chain german _ _ _ _ _ _ _ _) as [[[rc1 e1] st1]|] eqn:Hrun1;
    [|contradiction].
  destruct Hp as [Hk Hp].
  destruct (gpgsm_validate_chain Sample.calm _ _ _ st1 _ _ _ _) as [[[rc2 e2] st2]|]
    eqn:Hrun2; [|contradiction].
  exists rc1, e1, st1, rc2, e2, st2.
  split; [reflexivity|]. split; [exact Hk|]. split; [exact Hrun2|].
  destruct (stored_qualified_flag_reused Sample.calm Sample.default_opt Sample.crl_ctrl
              5 st1 st2 (mkH 0 Sample.ee) true false 0 rc2 e2 "001"%char Hk Hrun2)
    as (He & Hb & _).
  split; [exact He|exact Hb].
Defined.

Lemma no_more_questions_sticky_witness :
  exists rc e st',
    gpgsm_validate_chain untrusting Sample.default_opt Sample.crl_ctrl 5 silenced_certs
       (mkH 0 Sample.ee) true false 0
    = Some (rc, e, st')
    /\ no_more_questions st' = true
    /\ marktrusted_info st' = marktrusted_info silenced_certs
    /\ ext not_marktrusted silenced_certs st'.
Proof.
  assert (Hp : match gpgsm_validate_chain untrusting Sample.default_opt Sample.crl_ctrl 5
                       silenced_certs (mkH 0 Sample.ee) true false 0 with
               | Some _ => True
               | None => False
               end) by (vm_compute; exact I).
  destruct (gpgsm_validate_chain _ _ _ _ _ _ _ _ _) as [[[rc e] st']|] eqn:Hrun;
    [|contradiction].
  exists rc, e, st'. split; [reflexivity|].
  exact (no_more_questions_sticky untrusting Sample.default_opt Sample.crl_ctrl
           5 silenced_certs st' (mkH 0 Sample.ee) true false 0 rc e eq_refl Hrun).
Defined.

Lemma find_up_search_by_keyid_exact_witness :
  exists kh' st' i c,
    find_up_search_by_keyid
      (Sample.store [Sample.ca; with_subj_key_id "K" Sample.ca]) (mkKH 0 None false)
      "CN=CA" "K"
    = (rc_0, kh', st')
    /\ kh_found kh' = Some i
    /\ keyid_match "CN=CA" "K" c = true.
Proof.
  destruct (find_up_search_by_keyid
              (Sample.store [Sample.ca; with_subj_key_id "K" Sample.ca])
              (mkKH 0 None false) "CN=CA" "K") as [[rc kh'] st'] eqn:Hrun.
  destruct (find_up_search_by_keyid_exact _ _ _ _ _ _ _ Hrun)
    as [[-> (i & c & Hf & _ & _ & Hm & _)] | [-> Hno]].
  - exists kh', st', i, c. split; [reflexivity|]. split; [exact Hf|exact Hm].
  - specialize (Hno 1 (with_subj_key_id "K" Sample.ca)).
    cbn in Hno. assert (H : 1 < 2) by lia.
    specialize (Hno H eq_refl eq_refl). discriminate.
Defined.
